(** * Signaloid common utility routines: CSV ingestion and sample statistics

    A shallow embedding of [src/common.c]:
    - the aggregate statistics ([calculateMeanAndVarianceOf...Samples],
      [calculatePercentageQuantileOf...Samples] and the multi-dimensional
      mean/variance routines), over IEEE-754 binary32 and binary64 as
      specified by the Standard Library's [SpecFloat];
    - the CSV header validator and the CSV row ingester
      ([validateInputDistributionCSVHeader], [readInputDistributionsFromCSV]).

    Calls into libc ([strtof], [strtod], [strtok_r], [fgets], [qsort],
    [fopen]) and into the uncertainty-tracking runtime
    ([UxHw...DistFromSamples]) are modelled by their contracts or taken as
    parameters. *)

From Stdlib Require Import ZArith Lia String Ascii.
From Stdlib Require Import Sorting.Sorted Sorting.Permutation.
From Stdlib Require Import Floats.SpecFloat.
From Stdlib Require Import Rbase Rbasic_fun Rfunctions Lra.
From stdpp Require Import base option list.

Local Open Scope Z_scope.

(* ===================================================================== *)
(** * Floating-point types *)
(* ===================================================================== *)

(** The statistics are written twice in the source, once for [float] and
    once for [double], with the same text.  A [FloatType] packs what the
    routines use of either type. *)
Record FloatType := {
  carrier :> Type;
  fpZero : carrier;
  fpAdd : carrier -> carrier -> carrier;
  fpSub : carrier -> carrier -> carrier;
  fpMul : carrier -> carrier -> carrier;
  fpDiv : carrier -> carrier -> carrier;
  (** [x < y] *)
  fpLt : carrier -> carrier -> bool;
  (** conversion of a [size_t] *)
  fpOfSize : Z -> carrier;
  (** the integral part, rounded toward zero; [None] on infinities and NaN *)
  fpTrunc : carrier -> option Z
}.

Arguments fpZero {_}.
Arguments fpAdd {_} _ _.
Arguments fpSub {_} _ _.
Arguments fpMul {_} _ _.
Arguments fpDiv {_} _ _.
Arguments fpLt {_} _ _.
Arguments fpOfSize {_} _.
Arguments fpTrunc {_} _.

Definition INT_MIN : Z := - 2 ^ 31.
Definition INT_MAX : Z := 2 ^ 31 - 1.

(** [(int) x]: the value is truncated toward zero; the behaviour is
    undefined ([None]) when the integral part is not representable. *)
Definition castToInt {T : FloatType} (x : T) : option Z :=
  match fpTrunc x with
  | Some t => if (INT_MIN <=? t) && (t <=? INT_MAX) then Some t else None
  | None => None
  end.

(** ** IEEE-754 binary formats *)

Definition SFtrunc (x : spec_float) : option Z :=
  match x with
  | S754_zero _ => Some 0
  | S754_finite s m e =>
      Some (cond_Zopp s (match e with
                         | Zneg k => Z.shiftr (Zpos m) (Zpos k)
                         | _ => Z.shiftl (Zpos m) e
                         end))
  | S754_infinity _ | S754_nan => None
  end.

(** Mathematical floor, for the statements. *)
Definition SFfloor (x : spec_float) : option Z :=
  match x with
  | S754_zero _ => Some 0
  | S754_finite s m e =>
      Some (match e with
            | Zneg k => Z.shiftr (cond_Zopp s (Zpos m)) (Zpos k)
            | _ => Z.shiftl (cond_Zopp s (Zpos m)) e
            end)
  | S754_infinity _ | S754_nan => None
  end.

Definition ieee (prec emax : Z) : FloatType := {|
  carrier := spec_float;
  fpZero := S754_zero false;
  fpAdd := SFadd prec emax;
  fpSub := SFsub prec emax;
  fpMul := SFmul prec emax;
  fpDiv := SFdiv prec emax;
  fpLt := SFltb;
  fpOfSize := fun n => binary_normalize prec emax n 0 false;
  fpTrunc := SFtrunc
|}.

(** [float] and [double]. *)
Definition binary32 : FloatType := ieee 24 128.
Definition binary64 : FloatType := ieee 53 1024.

(** [(double) x] for a [float] [x]: exact. *)
Definition floatToDouble (x : binary32) : binary64 :=
  match x with
  | S754_finite s m e => binary_normalize 53 1024 (cond_Zopp s (Zpos m)) e s
  | _ => x
  end.

(* ===================================================================== *)
(** * Mean and variance of one-dimensional samples *)
(* ===================================================================== *)

Record MeanAndVariance := {
  mean : binary64;
  variance : binary64
}.

Section MeanVariance.
Context (T : FloatType).

(** One iteration of the accumulation loop:
    [sum += x; sumOfSquares += x * x]. *)
Definition accumulate (acc : T * T) (x : T) : T * T :=
  (fpAdd acc.1 x, fpAdd acc.2 (fpMul x x)).

(** [for (ii = 0; ii < dataArraySize; ii++)] reading [dataArray[ii]];
    [None] is a read past the end of the array. *)
Definition sumLoop (dataArray : list T) (dataArraySize : nat) : option (T * T) :=
  fold_left
    (fun acc ii =>
       match acc with
       | Some a => match dataArray !! ii with
                   | Some x => Some (accumulate a x)
                   | None => None
                   end
       | None => None
       end)
    (seq 0 dataArraySize) (Some (fpZero, fpZero)).

(** The body shared by [calculateMeanAndVarianceOfFloatSamples] and
    [calculateMeanAndVarianceOfDoubleSamples]; the result is the pair
    [(mean, variance)] in the type of the samples. *)
Definition calculateMeanAndVarianceOfSamples
    (dataArray : list T) (dataArraySize : nat) : option (T * T) :=
  match sumLoop dataArray dataArraySize with
  | Some (sum, sumOfSquares) =>
      let n := fpOfSize (Z.of_nat dataArraySize) in
      let mean := fpDiv sum n in
      let variance := fpSub (fpDiv sumOfSquares n) (fpMul mean mean) in
      Some (mean, variance)
  | None => None
  end.

(** The two sums on their own, left to right from zero. *)
Definition sumOf (l : list T) : T := fold_left fpAdd l fpZero.
Definition sumOfSquaresOf (l : list T) : T :=
  fold_left (fun a x => fpAdd a (fpMul x x)) l fpZero.
End MeanVariance.

Arguments accumulate {T} _ _.
Arguments sumLoop {T} _ _.
Arguments sumOf {T} _.
Arguments sumOfSquaresOf {T} _.

Definition calculateMeanAndVarianceOfFloatSamples
    (dataArray : list binary32) (dataArraySize : nat) : option MeanAndVariance :=
  match calculateMeanAndVarianceOfSamples binary32 dataArray dataArraySize with
  | Some (m, v) => Some {| mean := floatToDouble m; variance := floatToDouble v |}
  | None => None
  end.

Definition calculateMeanAndVarianceOfDoubleSamples
    (dataArray : list binary64) (dataArraySize : nat) : option MeanAndVariance :=
  match calculateMeanAndVarianceOfSamples binary64 dataArray dataArraySize with
  | Some (m, v) => Some {| mean := m; variance := v |}
  | None => None
  end.

(* ===================================================================== *)
(** * Quantiles *)
(* ===================================================================== *)

(** [compareFloats] and [compareDoubles]:
    [diff = a - b; return (int)(diff > 0) - (int)(diff < 0)]. *)
Definition compareSamples {T : FloatType} (a b : T) : Z :=
  let diff := fpSub a b in
  Z.b2z (fpLt fpZero diff) - Z.b2z (fpLt diff fpZero).

Definition compareFloats : binary32 -> binary32 -> Z := compareSamples.
Definition compareDoubles : binary64 -> binary64 -> Z := compareSamples.

(** ** libc's [qsort]

    [qsort] sorts the array in place, in ascending order of the comparison
    function, which is to return a negative, zero or positive [int] for a
    first argument that is less than, equal to or greater than the second;
    the order of elements that compare equal is unspecified.  The results
    of the comparison function are to be consistent with one another: they
    define a total ordering on the array (C11 7.22.5).  For a comparison
    function that orders the elements of the array, the result is an
    ascending permutation; for any other, only the size of the array is
    known to be what it was.

    The routines below take the [qsort] of the platform as a parameter. *)

(** Ascending for [compar]: no element compares greater than its successor. *)
Definition ascending {A : Type} (compar : A -> A -> Z) : list A -> Prop :=
  Sorted (fun a b => compar a b <= 0).

(** [compar] orders the elements of [base]: swapping the arguments swaps
    the sign, and "not greater" is transitive. *)
Definition ordersElements {A : Type} (compar : A -> A -> Z) (base : list A) : Prop :=
  forall a b c, a ∈ base -> b ∈ base -> c ∈ base ->
    Z.sgn (compar b a) = - Z.sgn (compar a b)
    /\ (compar a b <= 0 -> compar b c <= 0 -> compar a c <= 0).

Record Qsort := {
  qsort : forall A : Type, (A -> A -> Z) -> list A -> list A;
  qsort_size : forall (A : Type) (compar : A -> A -> Z) (base : list A),
    length (qsort A compar base) = length base;
  qsort_sorts : forall (A : Type) (compar : A -> A -> Z) (base : list A),
    ordersElements compar base ->
    Permutation base (qsort A compar base) /\ ascending compar (qsort A compar base)
}.
Arguments qsort _ {A} _ _.

(** A [qsort] to run the examples with: an insertion sort. *)
Section InsertionSort.
Context {A : Type} (compar : A -> A -> Z).

Fixpoint insertInOrder (x : A) (l : list A) : list A :=
  match l with
  | [] => [x]
  | y :: l' => if compar x y <=? 0 then x :: l else y :: insertInOrder x l'
  end.

Definition insertionSort (base : list A) : list A := fold_right insertInOrder [] base.
End InsertionSort.

Definition referenceQsort : Qsort.
Proof.
  assert (Hinsert : forall (A : Type) (compar : A -> A -> Z) (x : A) (l : list A),
             Permutation (x :: l) (insertInOrder compar x l)).
  { intros A compar x l. induction l as [|y l IH]; simpl; [done|].
    destruct (compar x y <=? 0); [done|].
    rewrite perm_swap. by constructor. }
  assert (Hperm : forall (A : Type) (compar : A -> A -> Z) (l : list A),
             Permutation l (insertionSort compar l)).
  { intros A compar l. induction l as [|x l IH]; simpl; [done|].
    rewrite <- Hinsert. by constructor. }
  refine {| qsort := @insertionSort |}.
  - intros A compar base. symmetry. apply Permutation_length, Hperm.
  - intros A compar base Horder. split; [apply Hperm|].
    assert (Htotal : forall a b, a ∈ base -> b ∈ base ->
               compar a b <= 0 \/ compar b a <= 0).
    { intros a b Ha Hb. destruct (Horder a b a Ha Hb Ha) as [Hsgn _].
      destruct (Z.sgn_spec (compar a b)) as [[? ?]|[[? ?]|[? ?]]],
               (Z.sgn_spec (compar b a)) as [[? ?]|[[? ?]|[? ?]]]; lia. }
    clear Horder.
    assert (Hgen : forall l, (forall a, a ∈ l -> a ∈ base) ->
               ascending compar (insertionSort compar l)); [|by apply Hgen].
    induction l as [|x l IH]; intros Hsub; simpl; [constructor|].
    assert (Hx : x ∈ base) by (apply Hsub; left).
    assert (Hl : forall a, a ∈ l -> a ∈ base) by (intros a Ha; apply Hsub; by right).
    specialize (IH Hl).
    assert (Hin : forall a, a ∈ insertionSort compar l -> a ∈ base).
    { intros a Ha. apply Hl. by rewrite (Hperm A compar l). }
    revert IH Hin. generalize (insertionSort compar l) as sorted.
    unfold ascending. induction 1 as [|y sorted Hs IH Hhd]; intros Hin; simpl.
    + by repeat constructor.
    + destruct (compar x y <=? 0) eqn:Hxy.
      * apply Z.leb_le in Hxy. by repeat constructor.
      * apply Z.leb_gt in Hxy.
        assert (Hyx : compar y x <= 0).
        { destruct (Htotal x y Hx (Hin y ltac:(left))); lia. }
        constructor; [apply IH; intros a Ha; apply Hin; by right|].
        destruct sorted as [|z sorted]; simpl; [by constructor|].
        destruct (compar x z <=? 0); constructor; [done|].
        by inversion Hhd.
Defined.

(** Reading [a[index]] for an [int] index. *)
Inductive Access (A : Type) : Type :=
| Loaded (x : A)
| OutOfBounds (index : Z) (size : nat).
Arguments Loaded {A} x.
Arguments OutOfBounds {A} index size.

Definition loadAt {A : Type} (a : list A) (index : Z) : Access A :=
  if index <? 0 then OutOfBounds index (length a)
  else match a !! Z.to_nat index with
       | Some x => Loaded x
       | None => OutOfBounds index (length a)
       end.

(** What a call leaves behind: the value read at the selected index of the
    sorted copy, and the caller's array. *)
Record QuantileResult (T : Type) := {
  quantile : Access T;
  dataArrayAfter : list T
}.
Arguments quantile {T} _.
Arguments dataArrayAfter {T} _.

Section Quantile.
Context (libc : Qsort) (T : FloatType).

(** [index = (int)(quantilePercentage * dataArraySize)] *)
Definition quantileIndex (quantilePercentage : T) (dataArraySize : nat) : option Z :=
  castToInt (fpMul quantilePercentage (fpOfSize (Z.of_nat dataArraySize))).

(** The body shared by [calculatePercentageQuantileOfFloatSamples] and
    [calculatePercentageQuantileOfDoubleSamples].  [None] is undefined
    behaviour before the final read: [memcpy] past the end of
    [dataArray], or a product that does not convert to [int]. *)
Definition calculatePercentageQuantileOfSamples
    (dataArray : list T) (quantilePercentage : T) (dataArraySize : nat)
    : option (QuantileResult T) :=
  if decide (dataArraySize <= length dataArray)%nat then
    let dataArrayCopy := take dataArraySize dataArray in
    let dataArrayCopy := qsort libc compareSamples dataArrayCopy in
    match quantileIndex quantilePercentage dataArraySize with
    | Some index =>
        Some {| quantile := loadAt dataArrayCopy index;
                dataArrayAfter := dataArray |}
    | None => None
    end
  else None.
End Quantile.

Arguments quantileIndex {T} _ _.

Definition calculatePercentageQuantileOfFloatSamples (libc : Qsort)
    (dataArray : list binary32) (quantilePercentage : binary32) (dataArraySize : nat) :=
  calculatePercentageQuantileOfSamples libc binary32 dataArray quantilePercentage
    dataArraySize.

Definition calculatePercentageQuantileOfDoubleSamples (libc : Qsort)
    (dataArray : list binary64) (quantilePercentage : binary64) (dataArraySize : nat) :=
  calculatePercentageQuantileOfSamples libc binary64 dataArray quantilePercentage
    dataArraySize.

(* ===================================================================== *)
(** * Mean and variance of multi-dimensional samples *)
(* ===================================================================== *)

(** [a[i] = v]; [None] is a write past the end. *)
Definition storeAt {A : Type} (a : list A) (i : nat) (v : A) : option (list A) :=
  if decide (i < length a)%nat then Some (<[i := v]> a) else None.

Section MultiDimensional.
Context (T : FloatType).

(** The inner loop over the rows, for column [jj]:
    [sum += dataArray[ii][jj]; sumOfSquares += dataArray[ii][jj] * dataArray[ii][jj]]. *)
Definition columnSumLoop (dataArray : list (list T)) (dataArrayRows jj : nat)
    : option (T * T) :=
  fold_left
    (fun acc ii =>
       match acc with
       | Some a => match dataArray !! ii with
                   | Some row => match row !! jj with
                                 | Some x => Some (accumulate a x)
                                 | None => None
                                 end
                   | None => None
                   end
       | None => None
       end)
    (seq 0 dataArrayRows) (Some (fpZero, fpZero)).

(** The body of the outer loop, for column [jj]. *)
Definition columnStep (dataArray : list (list T)) (dataArrayRows : nat)
    (out : option (list T * list T)) (jj : nat) : option (list T * list T) :=
  match out with
  | Some (meanValueArray, varianceArray) =>
      match columnSumLoop dataArray dataArrayRows jj with
      | Some (sum, sumOfSquares) =>
          let n := fpOfSize (Z.of_nat dataArrayRows) in
          let meanValue := fpDiv sum n in
          match storeAt meanValueArray jj meanValue with
          | Some meanValueArray' =>
              match storeAt varianceArray jj
                      (fpSub (fpDiv sumOfSquares n) (fpMul meanValue meanValue)) with
              | Some varianceArray' => Some (meanValueArray', varianceArray')
              | None => None
              end
          | None => None
          end
      | None => None
      end
  | None => None
  end.

(** The body shared by [calculateMeanAndVarianceOfMultiDimensionalFloatSamples]
    and [calculateMeanAndVarianceOfMultiDimensionalDoubleSamples]: the
    two output arrays after the call. *)
Definition calculateMeanAndVarianceOfMultiDimensionalSamples
    (dataArray : list (list T)) (dataArrayRows dataArrayColumns : nat)
    (meanValueArray varianceArray : list T) : option (list T * list T) :=
  fold_left (columnStep dataArray dataArrayRows)
    (seq 0 dataArrayColumns) (Some (meanValueArray, varianceArray)).
End MultiDimensional.

Definition calculateMeanAndVarianceOfMultiDimensionalFloatSamples :=
  calculateMeanAndVarianceOfMultiDimensionalSamples binary32.

Definition calculateMeanAndVarianceOfMultiDimensionalDoubleSamples :=
  calculateMeanAndVarianceOfMultiDimensionalSamples binary64.

(** A matrix of [rows] rows, each of [cols] entries. *)
Definition isMatrix {A : Type} (dataArray : list (list A)) (rows cols : nat) : Prop :=
  length dataArray = rows /\ Forall (fun row => length row = cols) dataArray.

(** Column [jj] of a matrix, as a sample array. *)
Definition isColumn {A : Type} (dataArray : list (list A)) (jj : nat) (column : list A) : Prop :=
  Forall2 (fun row x => row !! jj = Some x) dataArray column.

(* ===================================================================== *)
(** * Characters, C strings and tokens *)
(* ===================================================================== *)

(** A [string] stands for a C string: the characters before the
    terminating NUL. *)

Definition kCommonConstantMaxCharsPerLine : N := 1024 * 1024.
Definition kCommonConstantMaxNumberOfInputSamples : Z := 10000.

Definition NUL : ascii := "000"%char.
Definition newline : ascii := "010"%char.
Definition comma : ascii := ","%char.

(** [safeIsspace]: [isspace] in the C locale: space, [\t], [\n], [\v],
    [\f], [\r]. *)
Definition safeIsspace (t : ascii) : bool :=
  let n := N_of_ascii t in
  ((n =? 32) || ((9 <=? n) && (n <=? 13)))%N.

(** The part of a buffer that is its C string: up to the first NUL. *)
Fixpoint cString (buffer : string) : string :=
  match buffer with
  | EmptyString => EmptyString
  | String c rest => if Ascii.eqb c NUL then EmptyString else String c (cString rest)
  end.

(** [while (safeIsspace( *token)) token++] *)
Fixpoint trimLeadingWhitespace (token : string) : string :=
  match token with
  | EmptyString => EmptyString
  | String c rest => if safeIsspace c then trimLeadingWhitespace rest else token
  end.

Fixpoint allChars (p : ascii -> bool) (s : string) : bool :=
  match s with
  | EmptyString => true
  | String c rest => p c && allChars p rest
  end.

(** [token + n], for [n] within the token. *)
Fixpoint dropChars (n : nat) (s : string) : string :=
  match n, s with
  | O, _ => s
  | S n', String _ rest => dropChars n' rest
  | S _, EmptyString => EmptyString
  end.

(** [strstr(haystack, needle) != NULL] *)
Fixpoint strstr (haystack needle : string) : bool :=
  String.prefix needle haystack ||
  match haystack with
  | EmptyString => false
  | String _ rest => strstr rest needle
  end.

(** ** [fgets] *)

Definition consNonEmpty (s : string) (l : list string) : list string :=
  match s with
  | EmptyString => l
  | _ => s :: l
  end.

(** The line being read with [room] characters left in the buffer, and the
    lines that later calls return.  A call stops after a newline or when
    the buffer of [size] characters is full (one is kept for the NUL). *)
Fixpoint fgetsAux (size room : N) (stream : string) : string * list string :=
  match stream with
  | EmptyString => (EmptyString, [])
  | String c rest =>
      if Ascii.eqb c newline || (room =? 1)%N then
        let '(line, lines) := fgetsAux size (size - 1)%N rest in
        (String c EmptyString, consNonEmpty line lines)
      else
        let '(line, lines) := fgetsAux size (room - 1)%N rest in
        (String c line, lines)
  end.

(** The buffers that the successive calls [fgets(buffer, size, fp)] return
    until end of file. *)
Definition fgetsAll (size : N) (stream : string) : list string :=
  let '(line, lines) := fgetsAux size (size - 1)%N stream in
  consNonEmpty line lines.

(** ** [strtok_r] with the delimiter [","] *)

Fixpoint skipDelimiters (s : string) : string :=
  match s with
  | EmptyString => EmptyString
  | String c rest => if Ascii.eqb c comma then skipDelimiters rest else s
  end.

(** The token at the head of [s] and the saved state after it. *)
Fixpoint scanToken (s : string) : string * string :=
  match s with
  | EmptyString => (EmptyString, EmptyString)
  | String c rest =>
      if Ascii.eqb c comma then (EmptyString, rest)
      else let '(token, state) := scanToken rest in (String c token, state)
  end.

(** One call: [None] is [NULL]. *)
Definition strtok_r (state : string) : option (string * string) :=
  match skipDelimiters state with
  | EmptyString => None
  | s => Some (scanToken s)
  end.

(** The token in progress at the head of [s] and the tokens after it. *)
Fixpoint strtokAux (s : string) : string * list string :=
  match s with
  | EmptyString => (EmptyString, [])
  | String c rest =>
      let '(token, tokens) := strtokAux rest in
      if Ascii.eqb c comma then (EmptyString, consNonEmpty token tokens)
      else (String c token, tokens)
  end.

(** The tokens that [strtok_r(str, ",", &state)] followed by
    [strtok_r(NULL, ",", &state)] return until [NULL]. *)
Definition strtokAll (str : string) : list string :=
  let '(token, tokens) := strtokAux str in consNonEmpty token tokens.

(* ===================================================================== *)
(** * Diagnostics and results *)
(* ===================================================================== *)

Inductive CommonConstantReturnType : Type :=
| kCommonConstantReturnTypeError
| kCommonConstantReturnTypeSuccess.

Inductive FloatingPointVariableType : Type :=
| kFloatingPointVariableTypeUnknown
| kFloatingPointVariableTypeFloat
| kFloatingPointVariableTypeDouble.

(** The messages written to [stderr], one constructor per [fprintf]. *)
Inductive Diagnostic : Type :=
| CannotOpenFile (inputFilePath : string)
| PipelineModeNotImplemented
| MoreThanExpectedHeaderValues
| LessThanExpectedHeaderValues
| HeaderMismatch (columnCount : nat) (expected token : string)
| HeaderTrailingCharacters (columnCount : nat) (expected token : string)
| TooManyRows (rowCount : Z)
| MoreThanExpectedEntries (rowCount : Z)
| LessThanExpectedEntries (rowCount : Z)
| NotAValidNumber (rowCount : Z) (columnCount : nat) (token : string).

(** A step either goes on with a value or ends the call with a
    diagnostic and [kCommonConstantReturnTypeError]. *)
Inductive Checked (A : Type) : Type :=
| Passed (a : A)
| Failed (d : Diagnostic).
Arguments Passed {A} a.
Arguments Failed {A} d.

#[global] Instance Checked_ret : MRet Checked := fun A a => Passed a.
#[global] Instance Checked_bind : MBind Checked := fun A B k c =>
  match c with
  | Passed a => k a
  | Failed d => Failed d
  end.

(* ===================================================================== *)
(** * The CSV header validator *)
(* ===================================================================== *)

(** The loop [while (token)] of [validateInputDistributionCSVHeader], from
    column [columnCount] on; the result is the final [columnCount].
    [expectedHeaders] has [numberOfExpectedHeaders] entries. *)
Fixpoint validateHeaderTokens (expectedHeaders : list string)
    (columnCount : nat) (tokens : list string) : Checked nat :=
  match tokens with
  | [] => Passed columnCount
  | token :: rest =>
      match expectedHeaders !! columnCount with
      | None =>
          (* columnCount == numberOfExpectedHeaders *)
          Failed MoreThanExpectedHeaderValues
      | Some expected =>
          let token := trimLeadingWhitespace token in
          if negb (String.prefix expected token) then
            Failed (HeaderMismatch columnCount expected token)
          else if negb (allChars safeIsspace (dropChars (String.length expected) token)) then
            Failed (HeaderTrailingCharacters columnCount expected token)
          else validateHeaderTokens expectedHeaders (S columnCount) rest
      end
  end.

Definition validateInputDistributionCSVHeader
    (actualHeaderRow : string) (expectedHeaders : list string) : Checked unit :=
  columnCount ← validateHeaderTokens expectedHeaders 0 (strtokAll actualHeaderRow);
  if decide (columnCount <> length expectedHeaders) then
    Failed LessThanExpectedHeaderValues
  else Passed tt.

(* ===================================================================== *)
(** * The numeric parser *)
(* ===================================================================== *)

(** What a call [strtof(str, &end)] or [strtod(str, &end)] reports: the
    value, the number of characters converted ([end - str]) and whether
    [errno] was set to [ERANGE]. *)
Record StrtoResult := {
  strtoValue : spec_float;
  strtoConverted : nat;
  strtoERANGE : bool
}.

(** [parseFloatChecked] and [parseDoubleChecked]; [None] is
    [kCommonConstantReturnTypeError], [Some out] is success. *)
Definition parseFloatChecked (strtof : string -> StrtoResult) (str : string)
    : option binary32 :=
  let r := strtof str in
  if strtoERANGE r then None
  else if (strtoConverted r =? 0)%nat then None
  else Some (strtoValue r).

Definition parseDoubleChecked (strtod : string -> StrtoResult) (str : string)
    : option binary64 :=
  let r := strtod str in
  if strtoERANGE r then None
  else if (strtoConverted r =? 0)%nat then None
  else Some (strtoValue r).

(* ===================================================================== *)
(** * The CSV row ingester *)
(* ===================================================================== *)

(** What the routine takes from outside the repository: the file system,
    libc's conversions and the runtime's sample-to-distribution primitive. *)
Record Platform := {
  (** the contents of the file, [None] when it cannot be opened *)
  fopen : string -> option string;
  strtof : string -> StrtoResult;
  strtod : string -> StrtoResult;
  UxHwFloatDistFromSamples : list binary32 -> nat -> binary32;
  UxHwDoubleDistFromSamples : list binary64 -> nat -> binary64
}.

#[global] Instance spec_float_inhabited : Inhabited spec_float :=
  populate (S754_zero false).

(** The working arrays of one call, each with [numberOfDistributions]
    entries.  [sampleValues] is [inputFloatSampleValues] or
    [inputDoubleSampleValues], whichever is allocated. *)
Record IngestState := {
  sampleValues : list (list spec_float);
  sampleCounts : list nat;
  uxColumns : list bool
}.

(** The state after the [checkedCalloc] calls. *)
Definition initialState (numberOfDistributions : nat) : IngestState := {|
  sampleValues :=
    replicate numberOfDistributions
      (replicate (Z.to_nat kCommonConstantMaxNumberOfInputSamples) (S754_zero false));
  sampleCounts := replicate numberOfDistributions 0%nat;
  uxColumns := replicate numberOfDistributions false
|}.

(** The ignore pattern: ['-'] followed by whitespace only. *)
Definition shouldIgnore (token : string) : bool :=
  match token with
  | String c rest => Ascii.eqb c "-"%char && allChars safeIsspace rest
  | EmptyString => false
  end.

Definition uxMarker : string := "Ux"%string.

Section Ingest.
Context (P : Platform) (inputDistributionsType : FloatingPointVariableType).
Context (numberOfDistributions : nat).

Definition parseChecked : string -> option spec_float :=
  match inputDistributionsType with
  | kFloatingPointVariableTypeFloat => parseFloatChecked (strtof P)
  | _ => parseDoubleChecked (strtod P)
  end.

Definition distFromSamples : list spec_float -> nat -> spec_float :=
  match inputDistributionsType with
  | kFloatingPointVariableTypeFloat => UxHwFloatDistFromSamples P
  | _ => UxHwDoubleDistFromSamples P
  end.

(** [sampleValues[columnCount][sampleCounts[columnCount]] = v] *)
Definition storeSample (st : IngestState) (columnCount : nat) (v : spec_float)
    : list (list spec_float) :=
  alter (fun column => <[sampleCounts st !!! columnCount := v]> column)
        columnCount (sampleValues st).

(** The body of the loop [while (token)] over a data row. *)
Definition ingestToken (rowCount : Z) (st : IngestState) (columnCount : nat)
    (token : string) : Checked IngestState :=
  let token := trimLeadingWhitespace token in
  if decide (columnCount = numberOfDistributions) then
    Failed (MoreThanExpectedEntries rowCount)
  else if (uxColumns st !!! columnCount : bool) then Passed st
  else
    let uxColumns' :=
      if (rowCount =? 0) && strstr token uxMarker
      then <[columnCount := true]> (uxColumns st)
      else uxColumns st in
    if shouldIgnore token then
      Passed {| sampleValues := storeSample st columnCount (S754_zero false);
                sampleCounts := sampleCounts st;
                uxColumns := uxColumns' |}
    else
      match parseChecked token with
      | None => Failed (NotAValidNumber rowCount columnCount token)
      | Some parsedValue =>
          Passed {| sampleValues := storeSample st columnCount parsedValue;
                    sampleCounts :=
                      <[columnCount := S (sampleCounts st !!! columnCount)]>
                        (sampleCounts st);
                    uxColumns := uxColumns' |}
      end.

Fixpoint ingestTokens (rowCount : Z) (st : IngestState) (columnCount : nat)
    (tokens : list string) : Checked (IngestState * nat) :=
  match tokens with
  | [] => Passed (st, columnCount)
  | token :: rest =>
      st' ← ingestToken rowCount st columnCount token;
      ingestTokens rowCount st' (S columnCount) rest
  end.

(** One data row: tokenize the buffer, ingest the tokens, check the count. *)
Definition ingestRow (rowCount : Z) (st : IngestState) (buffer : string)
    : Checked IngestState :=
  '(st', columnCount) ← ingestTokens rowCount st 0 (strtokAll (cString buffer));
  if decide (columnCount <> numberOfDistributions) then
    Failed (LessThanExpectedEntries rowCount)
  else Passed st'.

(** The loop [while (fgets(...))] over the lines of the file. *)
Fixpoint ingestLines (expectedHeaders : list string) (rowCount : Z)
    (st : IngestState) (lines : list string) : Checked (IngestState * Z) :=
  match lines with
  | [] => Passed (st, rowCount)
  | buffer :: rest =>
      if rowCount =? -1 then
        _ ← validateInputDistributionCSVHeader (cString buffer) expectedHeaders;
        ingestLines expectedHeaders (rowCount + 1) st rest
      else if rowCount >=? kCommonConstantMaxNumberOfInputSamples then
        Failed (TooManyRows rowCount)
      else
        st' ← ingestRow rowCount st buffer;
        ingestLines expectedHeaders (rowCount + 1) st' rest
  end.

(** The distribution of column [ii]. *)
Definition distributionOfColumn (st : IngestState) (ii : nat) : spec_float :=
  if (uxColumns st !!! ii : bool) then (sampleValues st !!! ii) !!! 0%nat
  else distFromSamples (sampleValues st !!! ii) (sampleCounts st !!! ii).

(** [for (ii = 0; ii < numberOfDistributions; ii++) inputDistributions[ii] = ...] *)
Definition materialize (st : IngestState) (inputDistributions : list spec_float)
    : list spec_float :=
  fold_left (fun out ii => <[ii := distributionOfColumn st ii]> out)
    (seq 0 numberOfDistributions) inputDistributions.
End Ingest.

(** How a call ends: it returns, with what it wrote to [stderr] and with
    the caller's array, or [fatal] ends the process. *)
Inductive Outcome : Type :=
| Returned (returnCode : CommonConstantReturnType) (stderr : option Diagnostic)
    (inputDistributions : list spec_float)
| Exited (message : string).

(** [readInputDistributionsFromCSV].  [expectedHeaders] and
    [inputDistributions] are the caller's arrays, of
    [numberOfDistributions] entries. *)
Definition readInputDistributionsFromCSV (P : Platform)
    (inputFilePath : string) (expectedHeaders : list string)
    (inputDistributions : list spec_float)
    (inputDistributionsType : FloatingPointVariableType) : Outcome :=
  let numberOfDistributions := length expectedHeaders in
  if decide (numberOfDistributions = 0%nat) then
    Returned kCommonConstantReturnTypeSuccess None inputDistributions
  else
    match inputDistributionsType with
    | kFloatingPointVariableTypeUnknown =>
        Exited "inputDistributionsType must be specified"
    | _ =>
        if String.eqb inputFilePath "stdin" then
          Returned kCommonConstantReturnTypeError (Some PipelineModeNotImplemented)
            inputDistributions
        else
          match fopen P inputFilePath with
          | None =>
              Returned kCommonConstantReturnTypeError
                (Some (CannotOpenFile inputFilePath)) inputDistributions
          | Some stream =>
              match ingestLines P inputDistributionsType numberOfDistributions
                      expectedHeaders (-1) (initialState numberOfDistributions)
                      (fgetsAll kCommonConstantMaxCharsPerLine stream) with
              | Failed d =>
                  Returned kCommonConstantReturnTypeError (Some d) inputDistributions
              | Passed (st, _) =>
                  Returned kCommonConstantReturnTypeSuccess None
                    (materialize P inputDistributionsType numberOfDistributions
                       st inputDistributions)
              end
          end
    end.

Definition readInputFloatDistributionsFromCSV (P : Platform)
    (inputFilePath : string) (expectedHeaders : list string)
    (inputDistributions : list binary32) : Outcome :=
  readInputDistributionsFromCSV P inputFilePath expectedHeaders inputDistributions
    kFloatingPointVariableTypeFloat.

Definition readInputDoubleDistributionsFromCSV (P : Platform)
    (inputFilePath : string) (expectedHeaders : list string)
    (inputDistributions : list binary64) : Outcome :=
  readInputDistributionsFromCSV P inputFilePath expectedHeaders inputDistributions
    kFloatingPointVariableTypeDouble.

(* ===================================================================== *)
(** * A reference platform *)
(* ===================================================================== *)

(** The statements about the ingester hold for every [Platform].  To run
    the routines on concrete files, this one reads plain decimal literals
    (optional whitespace, optional sign, digits with an optional point), the
    subject sequences of [strtod] without exponents, hexadecimal forms,
    infinities and NaNs, which it does not convert. *)

Definition digitValue (c : ascii) : option Z :=
  let n := N_of_ascii c in
  if ((48 <=? n) && (n <=? 57))%N then Some (Z.of_N n - 48) else None.

(** The digits at the head of [s]: their value on top of [acc], how many
    they are on top of [count], and what follows. *)
Fixpoint scanDigits (acc : Z) (count : nat) (s : string) : Z * nat * string :=
  match s with
  | EmptyString => (acc, count, s)
  | String c rest =>
      match digitValue c with
      | Some d => scanDigits (10 * acc + d) (S count) rest
      | None => (acc, count, s)
      end
  end.

Definition strtoDecimal (prec emax : Z) (str : string) : StrtoResult :=
  let body := trimLeadingWhitespace str in
  let blanks := (String.length str - String.length body)%nat in
  let '(negative, signLength, unsigned) :=
    match body with
    | String "-"%char rest => (true, 1%nat, rest)
    | String "+"%char rest => (false, 1%nat, rest)
    | _ => (false, 0%nat, body)
    end in
  let '(integral, integralDigits, afterIntegral) := scanDigits 0 0 unsigned in
  let '(mantissa, fractionDigits, pointLength) :=
    match afterIntegral with
    | String "."%char rest =>
        let '(m, k, _) := scanDigits integral 0 rest in (m, k, 1%nat)
    | _ => (integral, 0%nat, 0%nat)
    end in
  if (integralDigits + fractionDigits =? 0)%nat then
    {| strtoValue := S754_zero false; strtoConverted := 0; strtoERANGE := false |}
  else
    let value :=
      if mantissa =? 0 then S754_zero negative
      else SFdiv prec emax
             (binary_normalize prec emax (cond_Zopp negative mantissa) 0 false)
             (binary_normalize prec emax (10 ^ Z.of_nat fractionDigits) 0 false) in
    {| strtoValue := value;
       strtoConverted :=
         (blanks + signLength + integralDigits + pointLength + fractionDigits)%nat;
       strtoERANGE := match value with S754_infinity _ => true | _ => false end |}.

(** A file system with the listed files. *)
Fixpoint lookupFile (files : list (string * string)) (path : string) : option string :=
  match files with
  | [] => None
  | (name, contents) :: rest =>
      if String.eqb name path then Some contents else lookupFile rest path
  end.

(** A stand-in for the runtime primitive: the mean of the first [count]
    samples. *)
Definition meanOfSamples (T : FloatType) (samples : list T) (count : nat) : T :=
  fpDiv (sumOf (take count samples)) (fpOfSize (Z.of_nat count)).

Definition referencePlatform (files : list (string * string)) : Platform := {|
  fopen := lookupFile files;
  strtof := strtoDecimal 24 128;
  strtod := strtoDecimal 53 1024;
  UxHwFloatDistFromSamples := meanOfSamples binary32;
  UxHwDoubleDistFromSamples := meanOfSamples binary64
|}.

(** The double nearest to the decimal [m / 10^k], for [m] and [10^k] below
    [2^53]. *)
Definition decimal64 (m : Z) (k : nat) : binary64 :=
  fpDiv (fpOfSize m : binary64) (fpOfSize (10 ^ Z.of_nat k)).

Definition decimal32 (m : Z) (k : nat) : binary32 :=
  fpDiv (fpOfSize m : binary32) (fpOfSize (10 ^ Z.of_nat k)).

(* ===================================================================== *)
(** * Routines that end the process *)
(* ===================================================================== *)

(** The messages of the calls of [fatal]. *)
Inductive FatalMessage : Type :=
| OutputVariablesTypeMustBeSpecified
| JSONVariableTypeMustBeSpecified
| DuplicateOption (newOption : string)
| OptionsMissingBothNames (index : nat)
| OptionMissingArgument (name : option string)
| CouldNotOpenMonteCarloOutputFile
| MallocFailed (size : nat) (line : nat)
| CallocFailed (bytes : nat) (line : nat).

(** How a routine ends: it returns; [fatal] prints a message and exits; an
    [assert] fails; or it reads or writes outside an array. *)
Inductive Run (A : Type) : Type :=
| Done (a : A)
| Fatal (message : FatalMessage)
| AssertionFailed
| Undefined.
Arguments Done {A} a.
Arguments Fatal {A} message.
Arguments AssertionFailed {A}.
Arguments Undefined {A}.

#[global] Instance Run_ret : MRet Run := fun A a => Done a.
#[global] Instance Run_bind : MBind Run := fun A B k r =>
  match r with
  | Done a => k a
  | Fatal message => Fatal message
  | AssertionFailed => AssertionFailed
  | Undefined => Undefined
  end.

(** Reading [a[i]]. *)
Definition readAt {A : Type} (a : list A) (i : nat) : Run A :=
  match a !! i with
  | Some x => Done x
  | None => Undefined
  end.

(** [checkedMalloc] and [checkedCalloc]: [fatal] ends the process when
    libc gives no block.  [malloc] and [calloc] tell whether they give
    one; [line] is [__LINE__] at the call. *)
Definition checkedMalloc (malloc : nat -> bool) (size line : nat) : Run unit :=
  if malloc size then Done tt else Fatal (MallocFailed size line).

Definition checkedCalloc (calloc : nat -> nat -> bool) (count size line : nat)
    : Run unit :=
  if calloc count size then Done tt else Fatal (CallocFailed (count * size) line).

(* ===================================================================== *)
(** * The integer parser *)
(* ===================================================================== *)

(** What a call [strtol(str, &end, 10)] reports: the value, the number of
    characters converted ([end - str]) and whether [errno] was set to
    [ERANGE]. *)
Record StrtolResult := {
  strtolValue : Z;
  strtolConverted : nat;
  strtolERANGE : bool
}.

(** [parseIntChecked]; [None] is [kCommonConstantReturnTypeError],
    [Some out] is success. *)
Definition parseIntChecked (strtol : string -> StrtolResult) (str : string)
    : option Z :=
  let r := strtol str in
  if strtolERANGE r then None
  else if (strtolConverted r =? 0)%nat then None
  else if (strtolValue r <? INT_MIN) || (INT_MAX <? strtolValue r) then None
  else Some (strtolValue r).

(** The sign at the head of a subject sequence: whether it is ['-'], its
    length and what follows. *)
Definition scanSign (body : string) : bool * nat * string :=
  match body with
  | String "-"%char rest => (true, 1%nat, rest)
  | String "+"%char rest => (false, 1%nat, rest)
  | _ => (false, 0%nat, body)
  end.

(** [strtol] in base 10 as the C standard words it, for a [long] with the
    values from [- LONG_MAX - 1] to [LONG_MAX]: whitespace, an optional
    sign and digits are converted; with no digit nothing is; a value
    outside the range is clamped and sets [ERANGE]. *)
Definition strtolDecimal (LONG_MAX : Z) (str : string) : StrtolResult :=
  let body := trimLeadingWhitespace str in
  let blanks := (String.length str - String.length body)%nat in
  let '(negative, signLength, unsigned) := scanSign body in
  let '(magnitude, digits, _) := scanDigits 0 0 unsigned in
  if (digits =? 0)%nat then
    {| strtolValue := 0; strtolConverted := 0; strtolERANGE := false |}
  else
    let value := cond_Zopp negative magnitude in
    let converted := (blanks + signLength + digits)%nat in
    if value <? - LONG_MAX - 1 then
      {| strtolValue := - LONG_MAX - 1; strtolConverted := converted;
         strtolERANGE := true |}
    else if LONG_MAX <? value then
      {| strtolValue := LONG_MAX; strtolConverted := converted;
         strtolERANGE := true |}
    else
      {| strtolValue := value; strtolConverted := converted;
         strtolERANGE := false |}.

(* ===================================================================== *)
(** * Writing distributions to a CSV file *)
(* ===================================================================== *)

(** What the writers take from libc: whether a file opens for writing and
    the text of the conversions.  The arguments of [printf] are [double]s
    ([float]s are promoted). *)
Record Stdio := {
  (** whether [fopen(path, "w")] gives a stream *)
  fopenForWriting : string -> bool;
  (** ["%e"] and ["%le"] *)
  formatE : binary64 -> string;
  (** ["%f"] *)
  formatF : binary64 -> string;
  (** ["%.20f"] and ["%.20lf"] *)
  format20F : binary64 -> string;
  (** ["% " SignaloidParticleModifier "f"] *)
  formatParticle : binary64 -> string;
  (** ["%" PRIu64] *)
  formatU64 : Z -> string;
  (** ["%zu"] *)
  formatZu : nat -> string
}.

(** Where the text of a writer goes. *)
Inductive Destination : Type :=
| toStdout
| toFile (path : string).

Definition separator : string := ", "%string.
Definition endOfLine : string := String newline EmptyString.

(** [for (ii = 0; ii < count; ii++)
       { fprintf(fp, "%s", items[ii]); if (ii != count - 1) fprintf(fp, ", "); }]
    ([count - 1] is taken only with [0 < count]). *)
Definition printSeparated (items : list string) (count : nat) : Run string :=
  fold_left
    (fun out ii =>
       text ← out;
       item ← readAt items ii;
       Done (text ++ item ++ (if decide (ii <> count - 1)%nat then separator else EmptyString))%string)
    (seq 0 count) (Done EmptyString).

(** How a call of a CSV writer ends: it returns, with what it wrote to
    [stderr] and what it wrote to the stream, if it opened one; or [fatal]
    ends the process after the text was written. *)
Inductive WriteOutcome : Type :=
| WriteReturned (returnCode : CommonConstantReturnType) (stderr : option Diagnostic)
    (written : option (Destination * string))
| WriteExited (message : FatalMessage) (written : Destination * string)
| WriteUndefined.

(** [writeOutputDistributionsToCSV].  [outputVariables] and
    [outputVariableNames] are the caller's arrays. *)
Definition writeOutputDistributionsToCSV (io : Stdio) (outputFilePath : string)
    (outputVariables : list spec_float)
    (outputVariablesType : FloatingPointVariableType)
    (outputVariableNames : list string) (numberOfOutputDistributions : nat)
    : WriteOutcome :=
  let fp :=
    if negb (String.eqb outputFilePath "stdout") then
      if fopenForWriting io outputFilePath then Some (toFile outputFilePath) else None
    else Some toStdout in
  match fp with
  | None =>
      WriteReturned kCommonConstantReturnTypeError
        (Some (CannotOpenFile outputFilePath)) None
  | Some fp =>
      match printSeparated outputVariableNames numberOfOutputDistributions with
      | Done names =>
          let header := (names ++ endOfLine)%string in
          match outputVariablesType with
          | kFloatingPointVariableTypeFloat =>
              match printSeparated ((fun x => formatE io (floatToDouble x)) <$> outputVariables)
                      numberOfOutputDistributions with
              | Done values =>
                  WriteReturned kCommonConstantReturnTypeSuccess None
                    (Some (fp, (header ++ values ++ endOfLine)%string))
              | _ => WriteUndefined
              end
          | kFloatingPointVariableTypeDouble =>
              match printSeparated (formatE io <$> outputVariables)
                      numberOfOutputDistributions with
              | Done values =>
                  WriteReturned kCommonConstantReturnTypeSuccess None
                    (Some (fp, (header ++ values ++ endOfLine)%string))
              | _ => WriteUndefined
              end
          | kFloatingPointVariableTypeUnknown =>
              WriteExited OutputVariablesTypeMustBeSpecified (fp, header)
          end
      | _ => WriteUndefined
      end
  end.

Definition writeOutputFloatDistributionsToCSV (io : Stdio) (outputFilePath : string)
    (outputVariables : list binary32) (outputVariableNames : list string)
    (numberOfOutputDistributions : nat) : WriteOutcome :=
  writeOutputDistributionsToCSV io outputFilePath outputVariables
    kFloatingPointVariableTypeFloat outputVariableNames numberOfOutputDistributions.

Definition writeOutputDoubleDistributionsToCSV (io : Stdio) (outputFilePath : string)
    (outputVariables : list binary64) (outputVariableNames : list string)
    (numberOfOutputDistributions : nat) : WriteOutcome :=
  writeOutputDistributionsToCSV io outputFilePath outputVariables
    kFloatingPointVariableTypeDouble outputVariableNames numberOfOutputDistributions.

(* ===================================================================== *)
(** * Writing Monte Carlo samples to [data.out] *)
(* ===================================================================== *)

Definition dataDotOut : string := "data.out"%string.

(** The body shared by [saveMonteCarloFloatDataToDataDotOutFile] and
    [saveMonteCarloDoubleDataToDataDotOutFile]: the text of the file.
    [promote] is the promotion of a sample to [double]. *)
Definition saveMonteCarloDataToDataDotOutFile (io : Stdio)
    (promote : spec_float -> binary64)
    (benchmarkingDataSamples : list spec_float) (cpuTimeElapsedMicroSeconds : Z)
    (numberOfMonteCarloIterations : nat) : Run string :=
  if fopenForWriting io dataDotOut then
    fold_left
      (fun out ii =>
         text ← out;
         sample ← readAt benchmarkingDataSamples ii;
         Done (text ++ format20F io (promote sample) ++ endOfLine)%string)
      (seq 0 numberOfMonteCarloIterations)
      (Done (formatU64 io cpuTimeElapsedMicroSeconds ++ endOfLine)%string)
  else Fatal CouldNotOpenMonteCarloOutputFile.

Definition saveMonteCarloFloatDataToDataDotOutFile (io : Stdio) :=
  saveMonteCarloDataToDataDotOutFile io floatToDouble.

Definition saveMonteCarloDoubleDataToDataDotOutFile (io : Stdio) :=
  saveMonteCarloDataToDataDotOutFile io (fun sample => sample).

(** The inner loop of the multi-dimensional writers: the samples of
    iteration [jj], one for each output variable. *)
Definition saveMonteCarloRow (io : Stdio) (promote : spec_float -> binary64)
    (benchmarkingDataSamples : list (list spec_float))
    (numberOfOutputVariables jj : nat) (out : Run string) : Run string :=
  fold_left
    (fun out ii =>
       text ← out;
       samples ← readAt benchmarkingDataSamples ii;
       sample ← readAt samples jj;
       Done (text ++ format20F io (promote sample)
               ++ (if decide (ii < numberOfOutputVariables - 1)%nat
                   then separator else endOfLine))%string)
    (seq 0 numberOfOutputVariables) out.

(** The body shared by
    [saveMonteCarloFloatMultidimensionalDataToDataDotOutFile] and
    [saveMonteCarloDoubleMultidimensionalDataToDataDotOutFile]. *)
Definition saveMonteCarloMultidimensionalDataToDataDotOutFile (io : Stdio)
    (promote : spec_float -> binary64)
    (benchmarkingDataSamples : list (list spec_float))
    (cpuTimeElapsedMicroSeconds : Z)
    (numberOfOutputVariables numberOfMonteCarloIterations : nat) : Run string :=
  if fopenForWriting io dataDotOut then
    fold_left
      (fun out jj =>
         saveMonteCarloRow io promote benchmarkingDataSamples numberOfOutputVariables jj out)
      (seq 0 numberOfMonteCarloIterations)
      (Done (formatU64 io cpuTimeElapsedMicroSeconds ++ endOfLine)%string)
  else Fatal CouldNotOpenMonteCarloOutputFile.

Definition saveMonteCarloFloatMultidimensionalDataToDataDotOutFile (io : Stdio) :=
  saveMonteCarloMultidimensionalDataToDataDotOutFile io floatToDouble.

Definition saveMonteCarloDoubleMultidimensionalDataToDataDotOutFile (io : Stdio) :=
  saveMonteCarloMultidimensionalDataToDataDotOutFile io (fun sample => sample).

(* ===================================================================== *)
(** * Command-line arguments *)
(* ===================================================================== *)

Definition kCommonConstantMaxCharsPerFilepath : nat := 1024.

Record CommonCommandLineArguments := {
  outputFilePath : string;
  inputFilePath : string;
  isWriteToFileEnabled : bool;
  isTimingEnabled : bool;
  numberOfMonteCarloIterations : Z;
  outputSelect : Z;
  isOutputSelected : bool;
  isVerbose : bool;
  isInputFromFileEnabled : bool;
  isOutputJSONMode : bool;
  isHelpEnabled : bool;
  isBenchmarkingMode : bool;
  isMonteCarloMode : bool;
  isSingleShotExecution : bool
}.

(** [setDefaultCommandLineArgumentValues]: the value that it assigns to
    [*arguments]. *)
Definition setDefaultCommandLineArgumentValues : CommonCommandLineArguments := {|
  outputFilePath := EmptyString;
  inputFilePath := EmptyString;
  isWriteToFileEnabled := false;
  isTimingEnabled := false;
  numberOfMonteCarloIterations := 1;
  outputSelect := 0;
  isOutputSelected := false;
  isVerbose := false;
  isInputFromFileEnabled := false;
  isOutputJSONMode := false;
  isHelpEnabled := false;
  isBenchmarkingMode := false;
  isMonteCarloMode := false;
  isSingleShotExecution := true
|}.

(** ** The variables that options point to *)

(** The [bool] fields of [CommonCommandLineArguments]. *)
Inductive ArgumentsFlag : Type :=
| IsWriteToFileEnabled
| IsTimingEnabled
| IsOutputSelected
| IsVerbose
| IsInputFromFileEnabled
| IsOutputJSONMode
| IsHelpEnabled
| IsBenchmarkingMode
| IsMonteCarloMode
| IsSingleShotExecution.

Definition readArgumentsFlag (f : ArgumentsFlag) (a : CommonCommandLineArguments) : bool :=
  match f with
  | IsWriteToFileEnabled => isWriteToFileEnabled a
  | IsTimingEnabled => isTimingEnabled a
  | IsOutputSelected => isOutputSelected a
  | IsVerbose => isVerbose a
  | IsInputFromFileEnabled => isInputFromFileEnabled a
  | IsOutputJSONMode => isOutputJSONMode a
  | IsHelpEnabled => isHelpEnabled a
  | IsBenchmarkingMode => isBenchmarkingMode a
  | IsMonteCarloMode => isMonteCarloMode a
  | IsSingleShotExecution => isSingleShotExecution a
  end.

Definition writeArgumentsFlag (f : ArgumentsFlag) (b : bool)
    (a : CommonCommandLineArguments) : CommonCommandLineArguments := {|
  outputFilePath := outputFilePath a;
  inputFilePath := inputFilePath a;
  isWriteToFileEnabled :=
    match f with IsWriteToFileEnabled => b | _ => isWriteToFileEnabled a end;
  isTimingEnabled := match f with IsTimingEnabled => b | _ => isTimingEnabled a end;
  numberOfMonteCarloIterations := numberOfMonteCarloIterations a;
  outputSelect := outputSelect a;
  isOutputSelected := match f with IsOutputSelected => b | _ => isOutputSelected a end;
  isVerbose := match f with IsVerbose => b | _ => isVerbose a end;
  isInputFromFileEnabled :=
    match f with IsInputFromFileEnabled => b | _ => isInputFromFileEnabled a end;
  isOutputJSONMode := match f with IsOutputJSONMode => b | _ => isOutputJSONMode a end;
  isHelpEnabled := match f with IsHelpEnabled => b | _ => isHelpEnabled a end;
  isBenchmarkingMode :=
    match f with IsBenchmarkingMode => b | _ => isBenchmarkingMode a end;
  isMonteCarloMode := match f with IsMonteCarloMode => b | _ => isMonteCarloMode a end;
  isSingleShotExecution :=
    match f with IsSingleShotExecution => b | _ => isSingleShotExecution a end
|}.

(** What a [foundArg] points to: one of the locals of [parseArgs] or a
    variable of the demo. *)
Inductive StringVariable : Type :=
| addressOfInputArg
| addressOfOutputArg
| addressOfOutputSelectArg
| addressOfMultipleExecutionsArg
| demoString (id : nat).

(** What a [foundOpt] points to: a field of [*arguments] or a variable of
    the demo. *)
Inductive BoolVariable : Type :=
| argumentsFlag (f : ArgumentsFlag)
| demoBool (id : nat).

#[global] Instance StringVariable_eq_dec : EqDecision StringVariable.
Proof. solve_decision. Defined.

#[global] Instance ArgumentsFlag_eq_dec : EqDecision ArgumentsFlag.
Proof. solve_decision. Defined.

#[global] Instance BoolVariable_eq_dec : EqDecision BoolVariable.
Proof. solve_decision. Defined.

(** The memory that a call of [parseArgs] works on: [*arguments], the
    string pointers ([None] is [NULL]) and the flags of the demo. *)
Record ArgsMemory := {
  arguments : CommonCommandLineArguments;
  stringVariables : StringVariable -> option string;
  demoBools : nat -> bool
}.

Definition readBool (v : BoolVariable) (m : ArgsMemory) : bool :=
  match v with
  | argumentsFlag f => readArgumentsFlag f (arguments m)
  | demoBool id => demoBools m id
  end.

Definition writeBool (v : BoolVariable) (b : bool) (m : ArgsMemory) : ArgsMemory :=
  match v with
  | argumentsFlag f =>
      {| arguments := writeArgumentsFlag f b (arguments m);
         stringVariables := stringVariables m;
         demoBools := demoBools m |}
  | demoBool id =>
      {| arguments := arguments m;
         stringVariables := stringVariables m;
         demoBools := fun id' => if decide (id' = id) then b else demoBools m id' |}
  end.

Definition writeString (v : StringVariable) (s : option string) (m : ArgsMemory)
    : ArgsMemory :=
  {| arguments := arguments m;
     stringVariables := fun v' => if decide (v' = v) then s else stringVariables m v';
     demoBools := demoBools m |}.

Definition writeArguments (a : CommonCommandLineArguments) (m : ArgsMemory)
    : ArgsMemory :=
  {| arguments := a; stringVariables := stringVariables m; demoBools := demoBools m |}.

(** ** Options *)

Record DemoOption := {
  opt : option string;
  optAlternative : option string;
  hasArg : bool;
  foundArg : option StringVariable;
  foundOpt : option BoolVariable
}.

(** [{ ZERO_STRUCT_INIT }] *)
Definition zeroDemoOption : DemoOption := {|
  opt := None; optAlternative := None; hasArg := false;
  foundArg := None; foundOpt := None
|}.

(** [struct option] of [getopt.h]; [flag] is [NULL] in every entry. *)
Record LongOption := {
  name : option string;
  has_arg : Z;
  val : Z
}.

Definition no_argument : Z := 0.
Definition required_argument : Z := 1.

Definition zeroLongOption : LongOption := {| name := None; has_arg := 0; val := 0 |}.

(** [checkDuplicates]: the entries below [currentOptsSize] have names. *)
Definition checkDuplicates (currentOpts : list LongOption) (currentOptsSize : nat)
    (newOption : string) : Run unit :=
  if existsb
       (fun current =>
          match name current with
          | Some currentName => String.eqb currentName newOption
          | None => false
          end)
       (take currentOptsSize currentOpts)
  then Fatal (DuplicateOption newOption)
  else Done tt.

(** One of the two blocks [if (demoOpts[ii].opt != NULL) ...] and
    [if (demoOpts[ii].optAlternative != NULL) ...] of [constructlongOptions]. *)
Definition addLongOption (out : list LongOption * nat) (optionName : option string)
    (hasArg : Z) (val : Z) : Run (list LongOption * nat) :=
  match optionName with
  | None => Done out
  | Some optionName =>
      _ ← checkDuplicates out.1 out.2 optionName;
      match storeAt out.1 out.2
              {| name := Some optionName; has_arg := hasArg; val := val |} with
      | Some optionsOut => Done (optionsOut, S out.2)
      | None => Undefined
      end
  end.

(** The loop of [constructlongOptions] from [demoOpts[ii]] on;
    [out] is [optionsOut] with [outIndex]. *)
Fixpoint constructlongOptionsLoop (demoOpts : list DemoOption) (ii : nat)
    (out : list LongOption * nat) : Run (list LongOption * nat) :=
  match demoOpts with
  | [] => Done out
  | demoOpt :: rest =>
      let hasArg := if hasArg demoOpt then required_argument else no_argument in
      let val := Z.of_nat ii in
      match opt demoOpt, optAlternative demoOpt with
      | None, None => Fatal (OptionsMissingBothNames ii)
      | _, _ =>
          out ← addLongOption out (opt demoOpt) hasArg val;
          out ← addLongOption out (optAlternative demoOpt) hasArg val;
          constructlongOptionsLoop rest (S ii) out
      end
  end.

(** [constructlongOptions]; [demoOpts] has [demoOptsSize] entries and
    [optionsOut] has [optionsOutSize]. *)
Definition constructlongOptions (demoOpts : list DemoOption)
    (optionsOut : list LongOption) : Run (list LongOption) :=
  let demoOptsSize := length demoOpts in
  let optionsOutSize := length optionsOut in
  if negb (2 * demoOptsSize + 1 <=? optionsOutSize)%nat then AssertionFailed
  else if negb (Z.of_nat demoOptsSize <? INT_MAX) then AssertionFailed
  else
    '(optionsOut, outIndex) ← constructlongOptionsLoop demoOpts 0 (optionsOut, 0%nat);
    match storeAt optionsOut outIndex zeroLongOption with
    | Some optionsOut => Done optionsOut
    | None => Undefined
    end.

(** ** [getopt_long_only]

    One call that does not return [-1]: the value returned, [longIndex],
    [optarg] and [optind] after the call, and [argv] as the call leaves it
    (libc may reorder its elements).  [longIndex] is [-1] when the call
    does not set it. *)
Record GetoptCall := {
  getoptReturn : Z;
  getoptLongIndex : Z;
  getoptOptarg : option string;
  getoptOptind : Z;
  getoptArgv : list string
}.

(** The calls of one parse, up to the call that returns [-1], and [optind]
    and [argv] after that call. *)
Record GetoptRun := {
  getoptCalls : list GetoptCall;
  getoptFinalOptind : Z;
  getoptFinalArgv : list string
}.

(** What [parseArgs] takes from libc and from the compiler.
    [getopt_long_only] is given [argc], [argv] and the long options, with
    [optind = 0], [opterr = 0] and the option string [":"]; what it
    reports is what the calls of the parse return, each one called on
    [argv] as [modifyNextArgvForNewLibc] has rewritten it by then.
    [newlib] is whether [_NEWLIB_VERSION] or [MOCK_NEWLIB_VERSION] is
    defined; [calloc] is whether [calloc(count, size)] gives a block. *)
Record CommandLinePlatform := {
  getopt_long_only : Z -> list string -> list LongOption -> GetoptRun;
  strtol : string -> StrtolResult;
  newlib : bool;
  calloc : nat -> nat -> bool;
  (** [sizeof(struct option)] and [sizeof(DemoOption)] *)
  sizeofOption : nat;
  sizeofDemoOption : nat
}.

(** The messages that [parseArgs] writes to [stderr], with the text
    that they print of an element of [argv]. *)
Inductive CommandLineDiagnostic : Type :=
| InvalidOption (text : string)
| OptionMissingMandatoryArgument (text : string)
| UnhandledGetoptError (returned : Z)
| UnexpectedArgument (text : string)
| CouldNotReadInputFilePath
| CouldNotReadOutputFilePath
| OutputSelectedMustBeAnInteger
| OutputSelectedMustBeNonNegative
| MultipleExecutionsMustBeAnInteger
| MultipleExecutionsMustBePositive
| JSONAndBenchmarkingAreNotCompatible.

(** What a call leaves behind when it returns: the memory, and [argv],
    whose strings [modifyNextArgvForNewLibc] rewrites in place. *)
Record Parsed := {
  parsedReturnCode : CommonConstantReturnType;
  parsedStderr : option CommandLineDiagnostic;
  parsedMemory : ArgsMemory;
  parsedArgv : list string
}.

(** [getOptIsNewlib]: whether [_NEWLIB_VERSION] or [MOCK_NEWLIB_VERSION]
    is defined. *)
Definition getOptIsNewlib (newlib : bool) : bool := newlib.

(** [arg[1]]: the terminating NUL when [arg] has one character. *)
Definition secondChar (arg : string) : ascii :=
  match arg with
  | String _ (String c _) => c
  | _ => NUL
  end.

(** [if ((arg[0] == '-') && (arg[1] != '-')) arg[0] = '+';] *)
Definition plusForDash (arg : string) : string :=
  match arg with
  | String c rest =>
      if Ascii.eqb c "-" && negb (Ascii.eqb (secondChar arg) "-")
      then String "+"%char rest else arg
  | EmptyString => arg
  end.

(** [modifyNextArgvForNewLibc]: [argv] holds [argc] arguments and then
    [NULL]. *)
Definition modifyNextArgvForNewLibc (newlib : bool) (optind : Z) (argv : list string)
    : Run (list string) :=
  if getOptIsNewlib newlib then
    let index := if optind =? 0 then 1 else optind in
    if (index <? 0) || (Z.of_nat (length argv) <? index) then Undefined
    else Done (alter plusForDash (Z.to_nat index) argv)
  else Done argv.

(** The first loop of [parseArgsCoreImplementation], for one option. *)
Definition resetOption (m : ArgsMemory) (demoOption : DemoOption) : ArgsMemory :=
  let m := match foundOpt demoOption with
           | Some v => writeBool v false m
           | None => m
           end in
  match foundArg demoOption with
  | Some v => writeString v None m
  | None => m
  end.

Definition questionMark : Z := 63.
Definition colon : Z := 58.

(** [argv[index]] as a string: [argv] holds the arguments; the [NULL]
    after them is no string. *)
Definition readArgv (argv : list string) (index : Z) : Run string :=
  if index <? 0 then Undefined else readAt argv (Z.to_nat index).

(** [arg + 1] as a string: what follows the first character. *)
Definition afterFirstChar (arg : string) : Run string :=
  match arg with
  | String _ rest => Done rest
  | EmptyString => Undefined
  end.

(** The [switch (opt)] of the error case. *)
Definition getoptDiagnostic (argv : list string) (previousOptInd optind returned : Z)
    : Run CommandLineDiagnostic :=
  if returned =? questionMark then
    arg ← readArgv argv previousOptInd;
    text ← afterFirstChar arg;
    Done (InvalidOption text)
  else if returned =? colon then
    arg ← readArgv argv (optind - 1);
    text ← afterFirstChar arg;
    Done (OptionMissingMandatoryArgument text)
  else Done (UnhandledGetoptError returned).

(** The loop [while (!error)] over the calls of [getopt_long_only], with
    [optind] and [argv] as the last call left them: the diagnostic of an
    error, [optind], the memory and [argv]. *)
Fixpoint getoptLoop (newlib : bool) (options : list DemoOption)
    (longOptions : list LongOption) (optind previousOptInd : Z) (m : ArgsMemory)
    (argv : list string) (calls : list GetoptCall) (finalOptind : Z)
    (finalArgv : list string)
    : Run (option CommandLineDiagnostic * Z * ArgsMemory * list string) :=
  match modifyNextArgvForNewLibc newlib optind argv with
  | Done _ =>
      match calls with
      | [] => Done (None, finalOptind, m, finalArgv)
      | call :: rest =>
          let returned := getoptReturn call in
          let optind := getoptOptind call in
          let argv := getoptArgv call in
          if returned =? -1 then Done (None, optind, m, argv)
          else if getoptLongIndex call =? -1 then
            diagnostic ← getoptDiagnostic argv previousOptInd optind returned;
            Done (Some diagnostic, optind, m, argv)
          else if negb (0 <=? returned) then AssertionFailed
          else
            match options !! Z.to_nat returned with
            | None => AssertionFailed
            | Some selected =>
                let m := match foundOpt selected with
                         | Some v => writeBool v true m
                         | None => m
                         end in
                if hasArg selected then
                  match getoptOptarg call with
                  | None =>
                      if getoptLongIndex call <? 0 then Undefined
                      else
                        longOption ← readAt longOptions (Z.to_nat (getoptLongIndex call));
                        Fatal (OptionMissingArgument (name longOption))
                  | Some optarg =>
                      let m := match foundArg selected with
                               | Some v => writeString v (Some optarg) m
                               | None => m
                               end in
                      getoptLoop newlib options longOptions optind optind m argv rest
                        finalOptind finalArgv
                  end
                else
                  getoptLoop newlib options longOptions optind optind m argv rest
                    finalOptind finalArgv
            end
      end
  | Fatal message => Fatal message
  | AssertionFailed => AssertionFailed
  | Undefined => Undefined
  end.

(** [parseArgsCoreImplementation]; [options] has [optionsSize] entries. *)
Definition parseArgsCoreImplementation (P : CommandLinePlatform) (argc : Z)
    (argv : list string) (options : list DemoOption) (m : ArgsMemory) : Run Parsed :=
  let optionsSize := length options in
  let m := fold_left resetOption options m in
  let longOptionsSize := (optionsSize * 2 + 1)%nat in
  _ ← checkedCalloc (calloc P) longOptionsSize (sizeofOption P) 1131;
  longOptions ← constructlongOptions options (replicate longOptionsSize zeroLongOption);
  let run := getopt_long_only P argc argv longOptions in
  '(diagnostic, optind, m, argv) ←
    getoptLoop (newlib P) options longOptions 0 1 m argv (getoptCalls run)
      (getoptFinalOptind run) (getoptFinalArgv run);
  match diagnostic with
  | Some d =>
      Done {| parsedReturnCode := kCommonConstantReturnTypeError;
              parsedStderr := Some d; parsedMemory := m; parsedArgv := argv |}
  | None =>
      if optind <? argc then
        arg ← readArgv argv optind;
        Done {| parsedReturnCode := kCommonConstantReturnTypeError;
                parsedStderr := Some (UnexpectedArgument arg);
                parsedMemory := m; parsedArgv := argv |}
      else
        Done {| parsedReturnCode := kCommonConstantReturnTypeSuccess;
                parsedStderr := None; parsedMemory := m; parsedArgv := argv |}
  end.

(** The number of entries of an array of options before the first entry
    without a name; [None] when the array has no such entry. *)
Fixpoint countOptions (options : list DemoOption) : option nat :=
  match options with
  | [] => None
  | demoOption :: rest =>
      match opt demoOption, optAlternative demoOption with
      | None, None => Some 0%nat
      | _, _ => S <$> countOptions rest
      end
  end.

(** [concatAndParseArgs] *)
Definition concatAndParseArgs (P : CommandLinePlatform) (argc : Z) (argv : list string)
    (demoSpecificOptions commonOptions : list DemoOption) (m : ArgsMemory)
    : Run Parsed :=
  match countOptions demoSpecificOptions, countOptions commonOptions with
  | Some demoSpecificOptionsSize, Some commonOptionsSize =>
      let concatOptionsSize := (demoSpecificOptionsSize + commonOptionsSize)%nat in
      _ ← checkedCalloc (calloc P) concatOptionsSize (sizeofDemoOption P) 1272;
      let concatOptions :=
        take demoSpecificOptionsSize demoSpecificOptions
        ++ take commonOptionsSize commonOptions in
      parseArgsCoreImplementation P argc argv concatOptions m
  | _, _ => Undefined
  end.

(** The table [commonOptions] of [parseArgs]. *)
Definition commonOptions : list DemoOption := [
  {| opt := Some "input"%string; optAlternative := Some "i"%string; hasArg := true;
     foundArg := Some addressOfInputArg; foundOpt := None |};
  {| opt := Some "output"%string; optAlternative := Some "o"%string; hasArg := true;
     foundArg := Some addressOfOutputArg; foundOpt := None |};
  {| opt := Some "select-output"%string; optAlternative := Some "S"%string;
     hasArg := true; foundArg := Some addressOfOutputSelectArg; foundOpt := None |};
  {| opt := Some "time"%string; optAlternative := Some "T"%string; hasArg := false;
     foundArg := None; foundOpt := Some (argumentsFlag IsTimingEnabled) |};
  {| opt := Some "multiple-executions"%string; optAlternative := Some "M"%string;
     hasArg := true; foundArg := Some addressOfMultipleExecutionsArg; foundOpt := None |};
  {| opt := Some "verbose"%string; optAlternative := Some "v"%string; hasArg := false;
     foundArg := None; foundOpt := Some (argumentsFlag IsVerbose) |};
  {| opt := Some "json"%string; optAlternative := Some "j"%string; hasArg := false;
     foundArg := None; foundOpt := Some (argumentsFlag IsOutputJSONMode) |};
  {| opt := Some "help"%string; optAlternative := Some "h"%string; hasArg := false;
     foundArg := None; foundOpt := Some (argumentsFlag IsHelpEnabled) |};
  {| opt := Some "benchmarking"%string; optAlternative := Some "b"%string;
     hasArg := false; foundArg := None;
     foundOpt := Some (argumentsFlag IsBenchmarkingMode) |};
  zeroDemoOption
].

(** [snprintf(buffer, size, "%s", text)]: the value returned and the
    string left in the buffer. *)
Definition snprintf (size : nat) (text : string) : Z * string :=
  (Z.of_nat (String.length text), String.substring 0 (size - 1) text).

(** A block of [parseArgs] goes on with [*arguments] or returns an error
    with a message, leaving [*arguments] as it is then. *)
Inductive Block : Type :=
| GoOn (a : CommonCommandLineArguments)
| ReturnError (d : CommandLineDiagnostic) (a : CommonCommandLineArguments).

Definition thenBlock (b : Block) (next : CommonCommandLineArguments -> Block) : Block :=
  match b with
  | GoOn a => next a
  | ReturnError d a => ReturnError d a
  end.

(** [if (inputArg != NULL) ...] *)
Definition readInputArg (inputArg : option string) (a : CommonCommandLineArguments)
    : Block :=
  match inputArg with
  | None => GoOn a
  | Some inputArg =>
      let '(ret, path) := snprintf kCommonConstantMaxCharsPerFilepath inputArg in
      let a := {|
        outputFilePath := outputFilePath a;
        inputFilePath := path;
        isWriteToFileEnabled := isWriteToFileEnabled a;
        isTimingEnabled := isTimingEnabled a;
        numberOfMonteCarloIterations := numberOfMonteCarloIterations a;
        outputSelect := outputSelect a;
        isOutputSelected := isOutputSelected a;
        isVerbose := isVerbose a;
        isInputFromFileEnabled := isInputFromFileEnabled a;
        isOutputJSONMode := isOutputJSONMode a;
        isHelpEnabled := isHelpEnabled a;
        isBenchmarkingMode := isBenchmarkingMode a;
        isMonteCarloMode := isMonteCarloMode a;
        isSingleShotExecution := isSingleShotExecution a |} in
      if (ret <? 0) || (ret >=? Z.of_nat kCommonConstantMaxCharsPerFilepath) then
        ReturnError CouldNotReadInputFilePath a
      else GoOn (writeArgumentsFlag IsInputFromFileEnabled true a)
  end.

(** [if (outputArg != NULL) ...] *)
Definition readOutputArg (outputArg : option string) (a : CommonCommandLineArguments)
    : Block :=
  match outputArg with
  | None => GoOn a
  | Some outputArg =>
      let '(ret, path) := snprintf kCommonConstantMaxCharsPerFilepath outputArg in
      let a := {|
        outputFilePath := path;
        inputFilePath := inputFilePath a;
        isWriteToFileEnabled := isWriteToFileEnabled a;
        isTimingEnabled := isTimingEnabled a;
        numberOfMonteCarloIterations := numberOfMonteCarloIterations a;
        outputSelect := outputSelect a;
        isOutputSelected := isOutputSelected a;
        isVerbose := isVerbose a;
        isInputFromFileEnabled := isInputFromFileEnabled a;
        isOutputJSONMode := isOutputJSONMode a;
        isHelpEnabled := isHelpEnabled a;
        isBenchmarkingMode := isBenchmarkingMode a;
        isMonteCarloMode := isMonteCarloMode a;
        isSingleShotExecution := isSingleShotExecution a |} in
      if (ret <? 0) || (ret >=? Z.of_nat kCommonConstantMaxCharsPerFilepath) then
        ReturnError CouldNotReadOutputFilePath a
      else GoOn (writeArgumentsFlag IsWriteToFileEnabled true a)
  end.

(** [if (outputSelectArg != NULL) ...] *)
Definition readOutputSelectArg (strtol : string -> StrtolResult)
    (outputSelectArg : option string) (a : CommonCommandLineArguments) : Block :=
  match outputSelectArg with
  | None => GoOn a
  | Some outputSelectArg =>
      match parseIntChecked strtol outputSelectArg with
      | None => ReturnError OutputSelectedMustBeAnInteger a
      | Some selected =>
          if selected <? 0 then ReturnError OutputSelectedMustBeNonNegative a
          else
            GoOn (writeArgumentsFlag IsOutputSelected true {|
              outputFilePath := outputFilePath a;
              inputFilePath := inputFilePath a;
              isWriteToFileEnabled := isWriteToFileEnabled a;
              isTimingEnabled := isTimingEnabled a;
              numberOfMonteCarloIterations := numberOfMonteCarloIterations a;
              outputSelect := selected;
              isOutputSelected := isOutputSelected a;
              isVerbose := isVerbose a;
              isInputFromFileEnabled := isInputFromFileEnabled a;
              isOutputJSONMode := isOutputJSONMode a;
              isHelpEnabled := isHelpEnabled a;
              isBenchmarkingMode := isBenchmarkingMode a;
              isMonteCarloMode := isMonteCarloMode a;
              isSingleShotExecution := isSingleShotExecution a |})
      end
  end.

(** [if (multipleExecutionsArg != NULL) ...] *)
Definition readMultipleExecutionsArg (strtol : string -> StrtolResult)
    (multipleExecutionsArg : option string) (a : CommonCommandLineArguments) : Block :=
  match multipleExecutionsArg with
  | None => GoOn a
  | Some multipleExecutionsArg =>
      match parseIntChecked strtol multipleExecutionsArg with
      | None => ReturnError MultipleExecutionsMustBeAnInteger a
      | Some multipleExecutions =>
          if multipleExecutions <=? 0 then
            ReturnError MultipleExecutionsMustBePositive a
          else
            GoOn (writeArgumentsFlag IsSingleShotExecution false
                    (writeArgumentsFlag IsTimingEnabled true
                       (writeArgumentsFlag IsMonteCarloMode true {|
              outputFilePath := outputFilePath a;
              inputFilePath := inputFilePath a;
              isWriteToFileEnabled := isWriteToFileEnabled a;
              isTimingEnabled := isTimingEnabled a;
              numberOfMonteCarloIterations := multipleExecutions;
              outputSelect := outputSelect a;
              isOutputSelected := isOutputSelected a;
              isVerbose := isVerbose a;
              isInputFromFileEnabled := isInputFromFileEnabled a;
              isOutputJSONMode := isOutputJSONMode a;
              isHelpEnabled := isHelpEnabled a;
              isBenchmarkingMode := isBenchmarkingMode a;
              isMonteCarloMode := isMonteCarloMode a;
              isSingleShotExecution := isSingleShotExecution a |})))
      end
  end.

(** [if ((arguments->isOutputJSONMode) && (arguments->isBenchmarkingMode)) ...] *)
Definition checkModes (a : CommonCommandLineArguments) : Block :=
  if isOutputJSONMode a && isBenchmarkingMode a then
    ReturnError JSONAndBenchmarkingAreNotCompatible a
  else GoOn a.

(** [parseArgs].  [m] is the memory at the call; the locals of [parseArgs]
    start as [NULL]. *)
Definition parseArgs (P : CommandLinePlatform) (argc : Z) (argv : list string)
    (m : ArgsMemory) (demoSpecificOptions : list DemoOption) : Run Parsed :=
  let m := {|
    arguments := setDefaultCommandLineArgumentValues;
    stringVariables := fun v =>
      match v with
      | demoString _ => stringVariables m v
      | _ => None
      end;
    demoBools := demoBools m |} in
  parsed ← concatAndParseArgs P argc argv demoSpecificOptions commonOptions m;
  match parsedReturnCode parsed with
  | kCommonConstantReturnTypeError =>
      Done {| parsedReturnCode := kCommonConstantReturnTypeError;
              parsedStderr := parsedStderr parsed;
              parsedMemory := parsedMemory parsed;
              parsedArgv := parsedArgv parsed |}
  | kCommonConstantReturnTypeSuccess =>
      let m := parsedMemory parsed in
      let found := stringVariables m in
      match
        thenBlock (readInputArg (found addressOfInputArg) (arguments m)) (fun a =>
        thenBlock (readOutputArg (found addressOfOutputArg) a) (fun a =>
        thenBlock (readOutputSelectArg (strtol P) (found addressOfOutputSelectArg) a) (fun a =>
        thenBlock (readMultipleExecutionsArg (strtol P) (found addressOfMultipleExecutionsArg) a)
          checkModes)))
      with
      | GoOn a =>
          Done {| parsedReturnCode := kCommonConstantReturnTypeSuccess;
                  parsedStderr := None; parsedMemory := writeArguments a m;
                  parsedArgv := parsedArgv parsed |}
      | ReturnError d a =>
          Done {| parsedReturnCode := kCommonConstantReturnTypeError;
                  parsedStderr := Some d; parsedMemory := writeArguments a m;
                  parsedArgv := parsedArgv parsed |}
      end
  end.

(* ===================================================================== *)
(** * JSON output *)
(* ===================================================================== *)

Definition kCommonConstantMaxCharsPerJSONVariableSymbol : nat := 256.
Definition kCommonConstantMaxCharsPerJSONVariableDescription : nat := 1024.

Inductive JSONVariableType : Type :=
| kJSONVariableTypeUnknown
| kJSONVariableTypeFloat
| kJSONVariableTypeDouble
| kJSONVariableTypeFloatParticle
| kJSONVariableTypeDoubleParticle.

(** [values] is the array that the pointer of the union points into, from
    the element pointed to on; [type] says whether its elements are
    [float]s or [double]s. *)
Record JSONVariable := {
  variableSymbol : string;
  variableDescription : string;
  values : list spec_float;
  type : JSONVariableType;
  size : nat
}.

(** An element of an array that [calloc] returns. *)
Definition zeroJSONVariable : JSONVariable := {|
  variableSymbol := EmptyString;
  variableDescription := EmptyString;
  values := [];
  type := kJSONVariableTypeUnknown;
  size := 0
|}.

(** The second moment that the runtime computes of a value. *)
Record Moments := {
  UxHwDoubleNthMoment : binary64 -> Z -> binary64;
  UxHwFloatNthMoment : binary32 -> Z -> binary32
}.

Definition tab : ascii := "009"%char.
Definition quote : ascii := "034"%char.

(** [n] tabs and then [text]. *)
Fixpoint tabbed (n : nat) (text : string) : string :=
  match n with
  | O => text
  | S n' => String tab (tabbed n' text)
  end.

Definition quoted (text : string) : string :=
  String quote (text ++ String quote EmptyString).

(** What follows an element of an array of [size] elements:
    [if (jj < (size - 1)) printf(", \n"); else printf("\n");] *)
Definition afterElement (jj size : nat) : string :=
  if decide (jj < size - 1)%nat then (", " ++ endOfLine)%string else endOfLine.

(** The loop that prints ["values"]. *)
Definition printJSONValues (io : Stdio) (jsonVariable : JSONVariable) : Run string :=
  fold_left
    (fun out jj =>
       text ← out;
       printed ←
         match type jsonVariable with
         | kJSONVariableTypeDouble =>
             value ← readAt (values jsonVariable) jj;
             Done (formatF io value)
         | kJSONVariableTypeFloat =>
             value ← readAt (values jsonVariable) jj;
             Done (formatF io (floatToDouble value))
         | kJSONVariableTypeDoubleParticle =>
             value ← readAt (values jsonVariable) jj;
             Done (formatParticle io value)
         | kJSONVariableTypeFloatParticle =>
             value ← readAt (values jsonVariable) jj;
             Done (formatParticle io (floatToDouble value))
         | kJSONVariableTypeUnknown => Fatal JSONVariableTypeMustBeSpecified
         end;
       Done (text ++ tabbed 4 (quoted printed) ++ afterElement jj (size jsonVariable))%string)
    (seq 0 (size jsonVariable)) (Done EmptyString).

(** The loop that prints ["stdValues"]. *)
Definition printJSONStdValues (io : Stdio) (moments : Moments)
    (jsonVariable : JSONVariable) : Run string :=
  fold_left
    (fun out jj =>
       text ← out;
       printed ←
         match type jsonVariable with
         | kJSONVariableTypeDouble =>
             value ← readAt (values jsonVariable) jj;
             Done (formatParticle io (UxHwDoubleNthMoment moments value 2))
         | kJSONVariableTypeFloat =>
             value ← readAt (values jsonVariable) jj;
             Done (formatParticle io
                     (floatToDouble (UxHwFloatNthMoment moments value 2)))
         | kJSONVariableTypeFloatParticle | kJSONVariableTypeDoubleParticle =>
             Done (formatParticle io (S754_zero false))
         | kJSONVariableTypeUnknown => Fatal JSONVariableTypeMustBeSpecified
         end;
       Done (text ++ tabbed 4 printed ++ afterElement jj (size jsonVariable))%string)
    (seq 0 (size jsonVariable)) (Done EmptyString).

(** The body of the loop of [printJSONVariables] over the variables. *)
Definition printJSONVariable (io : Stdio) (moments : Moments)
    (jsonVariables : list JSONVariable) (count ii : nat) : Run string :=
  jsonVariable ← readAt jsonVariables ii;
  printedValues ← printJSONValues io jsonVariable;
  printedStdValues ← printJSONStdValues io moments jsonVariable;
  Done (tabbed 2 ("{" ++ endOfLine)
        ++ tabbed 3 (quoted "variableID" ++ ": "
                     ++ quoted (variableSymbol jsonVariable) ++ "," ++ endOfLine)
        ++ tabbed 3 (quoted "variableSymbol" ++ ": "
                     ++ quoted (variableSymbol jsonVariable) ++ "," ++ endOfLine)
        ++ tabbed 3 (quoted "variableDescription" ++ ": "
                     ++ quoted (variableDescription jsonVariable) ++ "," ++ endOfLine)
        ++ tabbed 3 (quoted "values" ++ ": [" ++ endOfLine)
        ++ printedValues
        ++ tabbed 3 ("]," ++ endOfLine)
        ++ tabbed 3 (quoted "stdValues" ++ ": [" ++ endOfLine)
        ++ printedStdValues
        ++ tabbed 3 ("]" ++ endOfLine)
        ++ tabbed 2 "}"
        ++ (if decide (ii < count - 1)%nat then "," else EmptyString)
        ++ endOfLine)%string.

(** [printJSONVariables]: the text written to [stdout]. *)
Definition printJSONVariables (io : Stdio) (moments : Moments)
    (jsonVariables : list JSONVariable) (count : nat) (description : string)
    : Run string :=
  plots ←
    fold_left
      (fun out ii =>
         text ← out;
         plot ← printJSONVariable io moments jsonVariables count ii;
         Done (text ++ plot)%string)
      (seq 0 count) (Done EmptyString);
  Done ("{" ++ endOfLine
        ++ tabbed 1 (quoted "description" ++ ": " ++ quoted description ++ ","
                     ++ endOfLine)
        ++ tabbed 1 (quoted "plots" ++ ": [" ++ endOfLine)
        ++ plots
        ++ tabbed 1 ("]" ++ endOfLine)
        ++ "}" ++ endOfLine)%string.

(** [populateJSONVariableStruct]: the value that it leaves in
    [*jsonVariable]. *)
Definition populateJSONVariableStruct (io : Stdio)
    (outputVariableValues : list binary64) (outputVariableDescription : string)
    (outputSelect : nat) (numberOfOutputVariableValues : nat) : JSONVariable := {|
  variableSymbol :=
    (snprintf kCommonConstantMaxCharsPerJSONVariableSymbol
       ("outputVariables[" ++ formatZu io outputSelect ++ "]")).2;
  variableDescription :=
    (snprintf kCommonConstantMaxCharsPerJSONVariableDescription
       outputVariableDescription).2;
  values := outputVariableValues;
  type := kJSONVariableTypeDouble;
  size := numberOfOutputVariableValues
|}.

(** The body of the loop of [printJSONFormattedOutput] over the selected
    outputs. *)
Definition populateSelected (io : Stdio) (arguments : CommonCommandLineArguments)
    (monteCarloOutputSamples outputVariables : list binary64)
    (outputVariableDescriptions : list string)
    (out : Run (list JSONVariable)) (outputSelect : nat) : Run (list JSONVariable) :=
  jsonVariables ← out;
  let pointerToOutputVariable :=
    if isMonteCarloMode arguments then monteCarloOutputSamples
    else drop outputSelect outputVariables in
  description ← readAt outputVariableDescriptions outputSelect;
  match storeAt jsonVariables outputSelect
          (populateJSONVariableStruct io pointerToOutputVariable description
             outputSelect (Z.to_nat (numberOfMonteCarloIterations arguments))) with
  | Some jsonVariables => Done jsonVariables
  | None => Undefined
  end.

(** [printJSONFormattedOutput]: the text written to [stdout].  The fields
    of [arguments] of type [size_t] are not negative. *)
Definition printJSONFormattedOutput (io : Stdio) (moments : Moments)
    (arguments : CommonCommandLineArguments)
    (monteCarloOutputSamples outputVariables : list binary64)
    (outputVariableDescriptions : list string) (numberOfOutputVariables : nat)
    (description : string) : Run string :=
  let jsonVariables := replicate numberOfOutputVariables zeroJSONVariable in
  let '(outputSelectLowerBound, outputSelectUpperBound) :=
    if decide (Z.to_nat (outputSelect arguments) = numberOfOutputVariables)
    then (0%nat, numberOfOutputVariables)
    else (Z.to_nat (outputSelect arguments), S (Z.to_nat (outputSelect arguments))) in
  jsonVariables ←
    fold_left
      (populateSelected io arguments monteCarloOutputSamples outputVariables
         outputVariableDescriptions)
      (seq outputSelectLowerBound (outputSelectUpperBound - outputSelectLowerBound))
      (Done jsonVariables);
  printJSONVariables io moments (drop outputSelectLowerBound jsonVariables)
    (outputSelectUpperBound - outputSelectLowerBound) description.

(* ===================================================================== *)
(** * Vocabulary of the statements *)
(* ===================================================================== *)

(** ** Statistics *)

Definition meanFormula {T : FloatType} (samples : list T) : T :=
  fpDiv (sumOf samples) (fpOfSize (Z.of_nat (length samples))).

Definition varianceFormula {T : FloatType} (samples : list T) : T :=
  fpSub (fpDiv (sumOfSquaresOf samples) (fpOfSize (Z.of_nat (length samples))))
        (fpMul (meanFormula samples) (meanFormula samples)).

(** The [jj]-th entries of the rows. *)
Definition columnOf (T : FloatType) (dataArray : list (list T)) (jj : nat) : list T :=
  (fun row => default fpZero (row !! jj)) <$> dataArray.

(** The pair that the outer loop stores for column [jj]. *)
Definition columnResult (T : FloatType) (dataArray : list (list T)) (jj : nat) : T * T :=
  let column := columnOf T dataArray jj in
  let size := fpOfSize (Z.of_nat (length dataArray)) in
  let m := fpDiv (sumOf column) size in
  (m, fpSub (fpDiv (sumOfSquaresOf column) size) (fpMul m m)).

(** [x] is NaN or carries the sign [s]. *)
Definition nanOrSign (s : bool) (x : spec_float) : Prop :=
  match x with
  | S754_zero s' | S754_infinity s' | S754_finite s' _ _ => s' = s
  | S754_nan => True
  end.

Definition isPositive (x : spec_float) : bool := SFltb (S754_zero false) x.

(** The [int] that a comparison function returns for an order. *)
Definition comparisonSign (c : option comparison) : Z :=
  match c with
  | Some Lt => -1
  | Some Gt => 1
  | Some Eq | None => 0
  end.

(** The last step of [binary_round_aux]: the number of mantissa [m] and
    exponent [e], or an infinity when the exponent is above the format. *)
Definition roundedFloat (prec emax : Z) (s : bool) (m e : Z) : spec_float :=
  match m with
  | Z0 => S754_zero s
  | Zpos p => if e <=? emax - prec then S754_finite s p e else S754_infinity s
  | Zneg _ => S754_nan
  end.

(** The real number that [x] stands for (zero for the infinities and
    NaN), and the numbers: zeros and finite values. *)
Definition SF2R (x : spec_float) : R :=
  match x with
  | S754_finite s m e => (IZR (cond_Zopp s (Zpos m)) * powerRZ 2 e)%R
  | S754_zero _ | S754_infinity _ | S754_nan => 0%R
  end.

Definition isFinite (x : spec_float) : bool :=
  match x with
  | S754_zero _ | S754_finite _ _ _ => true
  | S754_infinity _ | S754_nan => false
  end.

(** The floating-point tolerance of a format.  Each operation returns its
    exact result within the relative error [roundingUnit] (four units in
    the last place of the mantissa of [prec] digits: the bound allows for
    any rounding direction), or, for a product or quotient below the
    normal range, within [underflowUnit], twice the smallest positive
    number of the format. *)
Definition roundingUnit (prec : Z) : R := powerRZ 2 (2 - prec).
Definition underflowUnit (prec emax : Z) : R := powerRZ 2 (emin prec emax + 1).

(** The tolerance on the mean and on the variance of [n] copies of [c]:
    a relative part that grows with the number of operations, and an
    absolute part for underflow. *)
Definition meanTolerance (prec emax : Z) (n : nat) (c : R) : R :=
  ((1 + roundingUnit prec) ^ (n + 3) - 1) * Rabs c + underflowUnit prec emax.

Definition varianceTolerance (prec emax : Z) (n : nat) (c : R) : R :=
  2 * ((1 + roundingUnit prec) ^ (2 * n + 10) - 1) * (c * c)
  + 6 * (1 + roundingUnit prec) ^ (n + 5) * underflowUnit prec emax.

(** The floor of the product [p * n] of the number [p] and the integer
    [n], with no rounding. *)
Definition productFloor (p : spec_float) (n : Z) : option Z :=
  match p with
  | S754_zero _ => Some 0
  | S754_finite s m e => Some (Z.shiftl (cond_Zopp s (Zpos m) * n) e)
  | S754_infinity _ | S754_nan => None
  end.

(** The samples [0.0f], [1.0f], ... [49.0f], and [0.58f]. *)
Definition fiftySamples : list binary32 :=
  (fun i => fpOfSize (Z.of_nat i) : binary32) <$> seq 0 50.

Definition fiftyEightPercent : binary32 := decimal32 58 2.

(** [2.0f], NaN, [1.0f] *)
Definition samplesWithNaN : list binary32 :=
  [fpOfSize 2 : binary32; S754_nan : binary32; fpOfSize 1 : binary32].

(** [0.75f] *)
Definition threeQuarters : binary32 := decimal32 75 2.

(** ** The ingester, column by column

    The working arrays of the ingester hold, for each column, a flag, a
    fill count and a buffer of [sampleCapacity] values.  A [Column] is the
    flag with the samples below the fill count; [arraysOf] gives the
    arrays back.  The functions below ingest entries into columns; the
    lemmas show that the array code computes the same, diagnostics
    included. *)

Definition sampleCapacity : nat := Z.to_nat kCommonConstantMaxNumberOfInputSamples.

Definition Column : Type := bool * list spec_float.

#[global] Instance Column_inhabited : Inhabited Column := populate (false, []).

Definition padded (samples : list spec_float) : list spec_float :=
  samples ++ replicate (sampleCapacity - length samples) (S754_zero false).

Definition arraysOf (columns : list Column) : IngestState := {|
  sampleValues := (fun c : Column => padded c.2) <$> columns;
  sampleCounts := (fun c : Column => length c.2) <$> columns;
  uxColumns := (fun c : Column => c.1) <$> columns
|}.

#[global] Instance Checked_fmap : FMap Checked := fun A B f c =>
  match c with
  | Passed a => Passed (f a)
  | Failed d => Failed d
  end.

(** The entries of a data row: its tokens without their leading whitespace. *)
Definition rowTokens (buffer : string) : list string :=
  trimLeadingWhitespace <$> strtokAll (cString buffer).

Section Columns.
Context (parse : string -> option spec_float).

Definition ingestEntry (rowCount : Z) (columnCount : nat) (c : Column)
    (token : string) : Checked Column :=
  if c.1 then Passed c
  else
    let ux := (rowCount =? 0) && strstr token uxMarker in
    if shouldIgnore token then Passed (ux, c.2)
    else match parse token with
         | None => Failed (NotAValidNumber rowCount columnCount token)
         | Some v => Passed (ux, c.2 ++ [v])
         end.

Fixpoint ingestEntries (rowCount : Z) (columnCount : nat)
    (columns : list Column) (tokens : list string) : Checked (list Column) :=
  match tokens, columns with
  | [], [] => Passed []
  | [], _ :: _ => Failed (LessThanExpectedEntries rowCount)
  | _ :: _, [] => Failed (MoreThanExpectedEntries rowCount)
  | token :: tokens', c :: columns' =>
      c' ← ingestEntry rowCount columnCount c token;
      rest ← ingestEntries rowCount (S columnCount) columns' tokens';
      Passed (c' :: rest)
  end.

Fixpoint ingestRows (rowCount : Z) (columns : list Column)
    (rows : list (list string)) : Checked (list Column * Z) :=
  match rows with
  | [] => Passed (columns, rowCount)
  | tokens :: rest =>
      if rowCount >=? kCommonConstantMaxNumberOfInputSamples then
        Failed (TooManyRows rowCount)
      else
        columns' ← ingestEntries rowCount 0 columns tokens;
        ingestRows (rowCount + 1) columns' rest
  end.

(** The entries of one column, down the rows from row [rowCount]. *)
Fixpoint ingestColumn (rowCount : Z) (columnCount : nat) (c : Column)
    (tokens : list string) : Checked Column :=
  match tokens with
  | [] => Passed c
  | token :: rest =>
      c' ← ingestEntry rowCount columnCount c token;
      ingestColumn (rowCount + 1) columnCount c' rest
  end.

(** An entry that the ingester takes: the ignore pattern or a number. *)
Definition entryAccepted (token : string) : bool :=
  shouldIgnore token || bool_decide (is_Some (parse token)).

(** The samples of the entries of a column: one for each entry that is
    not the ignore pattern. *)
Definition columnSamples (tokens : list string) : list spec_float :=
  tokens ≫= (fun token =>
    if shouldIgnore token then []
    else match parse token with Some v => [v] | None => [] end).

(** The number of entries of a column that are the ignore pattern. *)
Definition ignoredEntries (tokens : list string) : nat :=
  length (filter (fun token => shouldIgnore token = true) tokens).
End Columns.

(** The [i]-th entries of the rows. *)
Definition columnEntries (i : nat) (rows : list (list string)) : list string :=
  (fun tokens => default EmptyString (tokens !! i)) <$> rows.

(** The distribution that the materializer writes for a column. *)
Definition columnDistribution (dist : list spec_float -> nat -> spec_float)
    (c : Column) : spec_float :=
  if c.1 then padded c.2 !!! 0%nat else dist (padded c.2) (length c.2).

(** The same from the entries of the column: the value of the first entry
    when it carries the marker, and otherwise the primitive applied to the
    buffer of the column's samples and to their number. *)
Definition expectedDistribution (parse : string -> option spec_float)
    (dist : list spec_float -> nat -> spec_float) (entries : list string) : spec_float :=
  match entries with
  | first :: _ =>
      if strstr first uxMarker then default (S754_zero false) (parse first)
      else dist (padded (columnSamples parse entries))
                (length (columnSamples parse entries))
  | [] => dist (padded []) 0%nat
  end.

(** Entries of a well-formed file: as the ingester takes them, and as the
    specification words them (a first-row entry with the marker counts
    without being a number). *)
Definition entryAsSpecified (parse : string -> option spec_float)
    (rowIndex : nat) (token : string) : bool :=
  entryAccepted parse token || ((rowIndex =? 0)%nat && strstr token uxMarker).

Fixpoint rowsAccepted (accept : nat -> string -> bool) (n rowIndex : nat)
    (rows : list (list string)) : bool :=
  match rows with
  | [] => true
  | tokens :: rest =>
      (length tokens =? n)%nat && forallb (accept rowIndex) tokens
      && rowsAccepted accept n (S rowIndex) rest
  end.

(** A header line that matches the expected headers, then between one and
    [kCommonConstantMaxNumberOfInputSamples] data rows of as many accepted
    entries as there are headers. *)
Definition wellFormedCSV (accept : nat -> string -> bool)
    (expectedHeaders : list string) (lines : list string) : bool :=
  match lines with
  | [] => false
  | header :: rows =>
      match validateInputDistributionCSVHeader (cString header) expectedHeaders with
      | Passed _ => true
      | Failed _ => false
      end
      && (1 <=? length rows)%nat
      && (Z.of_nat (length rows) <=? kCommonConstantMaxNumberOfInputSamples)
      && rowsAccepted accept (length expectedHeaders) 0 (rowTokens <$> rows)
  end.

(** The lines of a text: each with the newline that ends it, and a last
    line without one when the text does not end in a newline.  [linesAux]
    gives the line at the head of the text and the lines after it. *)
Fixpoint linesAux (stream : string) : string * list string :=
  match stream with
  | EmptyString => (EmptyString, [])
  | String c rest =>
      let '(first, others) := linesAux rest in
      if Ascii.eqb c newline then (String c EmptyString, consNonEmpty first others)
      else (String c first, others)
  end.

Definition linesOf (stream : string) : list string :=
  let '(first, others) := linesAux stream in consNonEmpty first others.

(** A line that one call of [fgets] returns whole: with its newline it
    is shorter than the buffer of [kCommonConstantMaxCharsPerLine]
    characters, which keeps one character for the NUL. *)
Definition lineFits (text : string) : Prop :=
  (N.of_nat (String.length text) < kCommonConstantMaxCharsPerLine)%N.

(** The value checks on one header token: the text, then what trails it. *)
Definition headerValueError (columnCount : nat) (expected token : string)
    : option Diagnostic :=
  let token := trimLeadingWhitespace token in
  if negb (String.prefix expected token) then
    Some (HeaderMismatch columnCount expected token)
  else if negb (allChars safeIsspace (dropChars (String.length expected) token)) then
    Some (HeaderTrailingCharacters columnCount expected token)
  else None.

(** The header tokens that have an expected header all pass the value
    checks, up to column [limit]. *)
Definition valuesPassBelow (limit : nat) (expectedHeaders tokens : list string) : Prop :=
  forall j expected token,
    (j < limit)%nat ->
    expectedHeaders !! j = Some expected -> tokens !! j = Some token ->
    headerValueError j expected token = None.

(** ** Example files *)

Definition line (text : string) : string := (text ++ String newline EmptyString)%string.

(** Three rows of two numbers. *)
Definition plainFile : string :=
  (line "a,b" ++ line "1,2" ++ line "3,4" ++ line "5,6")%string.

(** A first entry that carries the marker and is not a number. *)
Definition markerOnlyFile : string := (line "a" ++ line "Ux")%string.

(** A distribution column, the ignore pattern and an entry that is not a
    number under the distribution column. *)
Definition mixedFile : string :=
  (line "a , b" ++ line "1.5Ux04, -  " ++ line "garbage, 7")%string.

(** An empty field between two commas, and no final newline. *)
Definition collapsedFieldsFile : string := (line "a,b" ++ "1,,2")%string.

(** An empty field at the end of a line. *)
Definition trailingCommaFile : string := (line "a,b" ++ line "1,2,")%string.

(** A header, a first data row that is not a number, and
    [kCommonConstantMaxNumberOfInputSamples] rows after it. *)
Definition tooManyRowsAfterBadRow : string :=
  (line "a" ++ line "x" ++ String.concat EmptyString (replicate sampleCapacity (line "1")))%string.

(** A header and one data row more than the buffers take. *)
Definition tooManyRowsFile : string :=
  (line "a" ++ String.concat EmptyString (replicate (S sampleCapacity) (line "1")))%string.

Definition exampleFiles : list (string * string) :=
  [("plain.csv", plainFile); ("marker.csv", markerOnlyFile);
   ("mixed.csv", mixedFile); ("collapsed.csv", collapsedFieldsFile);
   ("trailing.csv", trailingCommaFile)]%string.

(** Two rows of two samples. *)
Definition exampleFloatMatrix : list (list binary32) :=
  [[decimal32 1 0; decimal32 2 0]; [decimal32 3 0; decimal32 4 0]].

Definition exampleDoubleMatrix : list (list binary64) :=
  [[decimal64 1 0; decimal64 2 0]; [decimal64 3 0; decimal64 4 0]].

(** ** More vocabulary *)

(** [x] with the sign [s]. *)
Definition withSign (s : bool) (x : spec_float) : spec_float :=
  match x with
  | S754_zero _ => S754_zero s
  | S754_infinity _ => S754_infinity s
  | S754_finite _ m e => S754_finite s m e
  | S754_nan => S754_nan
  end.

Definition isNegative (x : spec_float) : bool := SFltb x (S754_zero false).

(** A header token that stands for [expected]: optional whitespace, the
    text of [expected], then whitespace only. *)
Definition headerTokenMatches (token expected : string) : Prop :=
  exists trailing,
    trimLeadingWhitespace token = (expected ++ trailing)%string
    /\ allChars safeIsspace trailing = true.

Definition isComma (c : ascii) : bool := Ascii.eqb c comma.

(** [s] has a character that [p] holds of. *)
Fixpoint someChar (p : ascii -> bool) (s : string) : bool :=
  match s with
  | EmptyString => false
  | String c rest => p c || someChar p rest
  end.

(** [s] begins with a whitespace character. *)
Definition beginsWithWhitespace (s : string) : bool :=
  match s with
  | String c _ => safeIsspace c
  | EmptyString => false
  end.

(** Files without data rows. *)
Definition emptyFile : string := EmptyString.
Definition headerOnlyFile : string := line "a,b".

Definition filesWithoutRows : list (string * string) :=
  [("empty.csv", emptyFile); ("header.csv", headerOnlyFile)]%string.

(** The value of the decimal integer at the head of [str], after leading
    whitespace: an optional sign and at least one digit. *)
Definition decimalPrefix (str : string) : option Z :=
  let '(negative, _, unsigned) := scanSign (trimLeadingWhitespace str) in
  let '(magnitude, digits, _) := scanDigits 0 0 unsigned in
  if (digits =? 0)%nat then None else Some (cond_Zopp negative magnitude).

(** ** Fields of a CSV line *)

Definition isNUL (c : ascii) : bool := Ascii.eqb c NUL.
Definition isNewline (c : ascii) : bool := Ascii.eqb c newline.

(** A field that can be written between two separators and read back as
    one token: not empty, without comma, NUL or newline, and without
    whitespace at its head. *)
Definition isPlainField (field : string) : bool :=
  negb (String.eqb field EmptyString)
  && negb (beginsWithWhitespace field)
  && negb (someChar isComma field)
  && negb (someChar isNUL field)
  && negb (someChar isNewline field).

(** The line that a writer makes of its fields. *)
Definition lineOfFields (fields : list string) : string :=
  (String.concat separator fields ++ endOfLine)%string.

(** The entries that the reader takes from that line: the fields, the last
    one with the newline. *)
Fixpoint entriesOfLine (fields : list string) : list string :=
  match fields with
  | [] => []
  | [field] => [(field ++ endOfLine)%string]
  | field :: rest => field :: entriesOfLine rest
  end.

(** ** A stand-in for [printf]

    The decimal digits of a natural number, and conversions that print the
    integral part of a finite value. *)
Fixpoint decimalDigits (fuel : nat) (n : N) (acc : string) : string :=
  match fuel with
  | O => acc
  | S fuel' =>
      let acc' := String (ascii_of_N (48 + n mod 10)) acc in
      if (n / 10 =? 0)%N then acc' else decimalDigits fuel' (n / 10)%N acc'
  end.

Definition decimalOfN (n : N) : string :=
  decimalDigits (S (N.to_nat (N.log2 n))) n EmptyString.

Definition integralPart (x : spec_float) : string :=
  match SFtrunc x with
  | Some (Zneg p) => String "-"%char (decimalOfN (Npos p))
  | Some z => decimalOfN (Z.to_N z)
  | None => "nan"%string
  end.

Definition exampleStdio (files : list string) : Stdio := {|
  fopenForWriting := fun path => existsb (String.eqb path) files;
  formatE := integralPart;
  formatF := integralPart;
  format20F := integralPart;
  formatParticle := integralPart;
  formatU64 := fun n => decimalOfN (Z.to_N n);
  formatZu := fun n => decimalOfN (N.of_nat n)
|}.

(** The texts that [writeOutputDistributionsToCSV] prints for the values. *)
Definition printedValues (io : Stdio) (outputVariablesType : FloatingPointVariableType)
    (outputVariables : list spec_float) : list string :=
  match outputVariablesType with
  | kFloatingPointVariableTypeFloat =>
      (fun x => formatE io (floatToDouble x)) <$> outputVariables
  | _ => formatE io <$> outputVariables
  end.

(** A file written by [writeOutputDoubleDistributionsToCSV] for the values
    [1] and [2] under the names ["a"] and ["b"]. *)
Definition writtenFile : string := (lineOfFields ["a"; "b"] ++ lineOfFields ["1"; "2"])%string.

(** ** Options and their names *)

Definition optionNames (demoOption : DemoOption) : list string :=
  option_list (opt demoOption) ++ option_list (optAlternative demoOption).

Definition longOptionEntry (argumentKind optionIndex : Z) (optionName : string)
    : LongOption :=
  {| name := Some optionName; has_arg := argumentKind; val := optionIndex |}.

(** The long options of the options from index [ii] on: for each one its
    [opt] and then its [optAlternative], with the index as [val]. *)
Fixpoint longOptionsFrom (ii : nat) (options : list DemoOption) : list LongOption :=
  match options with
  | [] => []
  | demoOption :: rest =>
      (longOptionEntry (if hasArg demoOption then required_argument else no_argument)
         (Z.of_nat ii) <$> optionNames demoOption)
      ++ longOptionsFrom (S ii) rest
  end.

(** The names of the entries of a table. *)
Definition namesOf (table : list LongOption) : list string := omap name table.

(** The table that [parseArgsCoreImplementation] gives to
    [getopt_long_only]: the long options, and zero entries up to two
    entries for each option and one more. *)
Definition longOptionsTable (options : list DemoOption) : list LongOption :=
  longOptionsFrom 0 options
  ++ replicate (length options * 2 + 1 - length (longOptionsFrom 0 options))
       zeroLongOption.

(** ** What a parse finds *)

(** The options that [concatAndParseArgs] passes on: those of the demo
    before its first entry without a name, then the common ones. *)
Definition activeOptions (demoSpecificOptions : list DemoOption) : list DemoOption :=
  take (default 0%nat (countOptions demoSpecificOptions)) demoSpecificOptions
  ++ take 9 commonOptions.

(** [option] points its [foundOpt] to [v]. *)
Definition setsFlag (v : BoolVariable) (demoOption : DemoOption) : bool :=
  bool_decide (foundOpt demoOption = Some v).

(** The call reports an option that points its [foundOpt] to [v]. *)
Definition reportsFlag (options : list DemoOption) (v : BoolVariable)
    (call : GetoptCall) : bool :=
  match options !! Z.to_nat (getoptReturn call) with
  | Some selected => setsFlag v selected
  | None => false
  end.

(** The string that the calls leave in [v], on top of [current]: the
    argument of the last call that reports an option with an argument that
    points its [foundArg] to [v]. *)
Fixpoint argumentFound (options : list DemoOption) (v : StringVariable)
    (calls : list GetoptCall) (current : option string) : option string :=
  match calls with
  | [] => current
  | call :: rest =>
      argumentFound options v rest
        match options !! Z.to_nat (getoptReturn call) with
        | Some selected =>
            if hasArg selected && bool_decide (foundArg selected = Some v)
            then getoptOptarg call else current
        | None => current
        end
  end.

(** An option that does not point into [*arguments]. *)
Definition leavesArgumentsAlone (demoOption : DemoOption) : bool :=
  match foundOpt demoOption with
  | Some (argumentsFlag _) => false
  | _ => true
  end.

(** What holds of [*arguments] after a successful parse. *)
Definition consistentArguments (a : CommonCommandLineArguments) : Prop :=
  1 <= numberOfMonteCarloIterations a <= INT_MAX
  /\ 0 <= outputSelect a <= INT_MAX
  /\ isSingleShotExecution a = negb (isMonteCarloMode a)
  /\ (isMonteCarloMode a = true -> isTimingEnabled a = true)
  /\ (isMonteCarloMode a = false -> numberOfMonteCarloIterations a = 1)
  /\ isOutputJSONMode a && isBenchmarkingMode a = false
  /\ (String.length (inputFilePath a) < kCommonConstantMaxCharsPerFilepath)%nat
  /\ (String.length (outputFilePath a) < kCommonConstantMaxCharsPerFilepath)%nat
  /\ (isInputFromFileEnabled a = false -> inputFilePath a = EmptyString)
  /\ (isWriteToFileEnabled a = false -> outputFilePath a = EmptyString)
  /\ (isOutputSelected a = false -> outputSelect a = 0).

(** ** An example command line

    A platform whose [getopt_long_only] reports the given calls and leaves
    [argv] in its order, with the [strtol] of a 64-bit [long], without
    newlib, and whose [calloc] gives every block. *)
Definition scriptedPlatform (calls : list GetoptCall) (finalOptind : Z)
    : CommandLinePlatform := {|
  getopt_long_only := fun _ argv _ =>
    {| getoptCalls := calls; getoptFinalOptind := finalOptind;
       getoptFinalArgv := argv |};
  strtol := strtolDecimal (2 ^ 63 - 1);
  newlib := false;
  calloc := fun _ _ => true;
  sizeofOption := 32;
  sizeofDemoOption := 40
|}.

Definition emptyMemory : ArgsMemory := {|
  arguments := setDefaultCommandLineArgumentValues;
  stringVariables := fun _ => None;
  demoBools := fun _ => true
|}.

(** The options of a demo: a flag and an option with an argument. *)
Definition exampleDemoOptions : list DemoOption := [
  {| opt := Some "fast"%string; optAlternative := Some "f"%string; hasArg := false;
     foundArg := None; foundOpt := Some (demoBool 0) |};
  {| opt := Some "seed"%string; optAlternative := None; hasArg := true;
     foundArg := Some (demoString 0); foundOpt := Some (demoBool 1) |};
  zeroDemoOption
].

(** [demo -M 100 --seed 7]: the calls report option 6 ([multiple-executions],
    after the two options of the demo) and option 1 ([seed]). *)
Definition exampleArgv : list string := ["demo"; "-M"; "100"; "--seed"; "7"]%string.

Definition exampleCalls : list GetoptCall := [
  {| getoptReturn := 6; getoptLongIndex := 11;
     getoptOptarg := Some "100"%string; getoptOptind := 3;
     getoptArgv := exampleArgv |};
  {| getoptReturn := 1; getoptLongIndex := 2;
     getoptOptarg := Some "7"%string; getoptOptind := 5;
     getoptArgv := exampleArgv |}
].

(** The value that a run returns, or [fallback]. *)
Definition returned {A : Type} (run : Run A) (fallback : A) : A :=
  match run with
  | Done a => a
  | _ => fallback
  end.

Definition exampleParsed : Parsed :=
  returned
    (parseArgs (scriptedPlatform exampleCalls 5) 5 exampleArgv emptyMemory
       exampleDemoOptions)
    {| parsedReturnCode := kCommonConstantReturnTypeError; parsedStderr := None;
       parsedMemory := emptyMemory; parsedArgv := exampleArgv |}.

(** The fields of [*arguments] that are not flags. *)
Definition plainFields (a : CommonCommandLineArguments) : string * string * Z * Z :=
  (outputFilePath a, inputFilePath a, numberOfMonteCarloIterations a, outputSelect a).

(** [option] points its [foundArg] to [v]. *)
Definition setsString (v : StringVariable) (demoOption : DemoOption) : bool :=
  bool_decide (foundArg demoOption = Some v).

(** The memory in which [parseArgs] calls [concatAndParseArgs]. *)
Definition memoryAtParse (m : ArgsMemory) : ArgsMemory := {|
  arguments := setDefaultCommandLineArgumentValues;
  stringVariables := fun v =>
    match v with
    | demoString _ => stringVariables m v
    | _ => None
    end;
  demoBools := demoBools m
|}.

(** The blocks of [parseArgs] after [concatAndParseArgs], in order. *)
Definition commonBlocks (strtol : string -> StrtolResult)
    (found : StringVariable -> option string) (a : CommonCommandLineArguments) : Block :=
  thenBlock (readInputArg (found addressOfInputArg) a) (fun a =>
  thenBlock (readOutputArg (found addressOfOutputArg) a) (fun a =>
  thenBlock (readOutputSelectArg strtol (found addressOfOutputSelectArg) a) (fun a =>
  thenBlock (readMultipleExecutionsArg strtol (found addressOfMultipleExecutionsArg) a)
    checkModes))).

(** The options of a demo that names an option like a common one. *)
Definition clashingDemoOptions : list DemoOption := [
  {| opt := Some "seed"%string; optAlternative := Some "S"%string; hasArg := true;
     foundArg := Some (demoString 0); foundOpt := None |};
  zeroDemoOption
].

(** ** An example of JSON output *)

Definition exampleMoments : Moments := {|
  UxHwDoubleNthMoment := fun _ _ => S754_zero false;
  UxHwFloatNthMoment := fun _ _ => S754_zero false
|}.

Definition shortArgv : list string := ["demo"; "-M"; "100"]%string.

(** A call that honours the table it was given: it sets [longIndex] to
    the index of an entry with a name and returns the [val] of that
    entry, or it leaves [longIndex] alone. *)
Definition honoursTable (table : list LongOption) (call : GetoptCall) : Prop :=
  getoptLongIndex call = -1
  \/ (0 <= getoptLongIndex call
      /\ exists longOption optionName,
           table !! Z.to_nat (getoptLongIndex call) = Some longOption
           /\ name longOption = Some optionName
           /\ getoptReturn call = val longOption).

(** [argv] holds [argc] arguments, none of them empty. *)
Definition keepsArgv (argc : Z) (argv : list string) : Prop :=
  Z.of_nat (length argv) = argc /\ Forall (fun arg => arg <> EmptyString) argv.

(** Calls that stay within [argv], [previous] being [optind] before the
    first of them: a call that does not return [-1] found [optind] below
    [argc], and it leaves [optind] between [1] and [argc] and [argv] with
    its [argc] arguments. *)
Fixpoint conformingCalls (argc previous : Z) (calls : list GetoptCall) : Prop :=
  match calls with
  | [] => True
  | call :: rest =>
      previous < argc
      /\ 1 <= getoptOptind call <= argc
      /\ keepsArgv argc (getoptArgv call)
      /\ conformingCalls argc (getoptOptind call) rest
  end.

(** A run of [getopt_long_only] on the [argc] arguments of [argv], the
    name of the program being the first. *)
Definition conformingRun (argc : Z) (argv : list string) (run : GetoptRun) : Prop :=
  1 <= argc
  /\ keepsArgv argc argv
  /\ conformingCalls argc 1 (getoptCalls run)
  /\ 1 <= getoptFinalOptind run <= argc
  /\ keepsArgv argc (getoptFinalArgv run).

(** [parseArgs] after its two allocations. *)
Definition afterAllocations (P : CommandLinePlatform) (argc : Z) (argv : list string)
    (m : ArgsMemory) (options : list DemoOption) : Run Parsed :=
  let m := fold_left resetOption options (memoryAtParse m) in
  longOptions ←
    constructlongOptions options (replicate (length options * 2 + 1) zeroLongOption);
  let run := getopt_long_only P argc argv longOptions in
  '(diagnostic, optind, m, argv) ←
    getoptLoop (newlib P) options longOptions 0 1 m argv (getoptCalls run)
      (getoptFinalOptind run) (getoptFinalArgv run);
  parsed ←
    match diagnostic with
    | Some d =>
        Done {| parsedReturnCode := kCommonConstantReturnTypeError;
                parsedStderr := Some d; parsedMemory := m; parsedArgv := argv |}
    | None =>
        if optind <? argc then
          arg ← readArgv argv optind;
          Done {| parsedReturnCode := kCommonConstantReturnTypeError;
                  parsedStderr := Some (UnexpectedArgument arg);
                  parsedMemory := m; parsedArgv := argv |}
        else
          Done {| parsedReturnCode := kCommonConstantReturnTypeSuccess;
                  parsedStderr := None; parsedMemory := m; parsedArgv := argv |}
    end;
  match parsedReturnCode parsed with
  | kCommonConstantReturnTypeError =>
      Done {| parsedReturnCode := kCommonConstantReturnTypeError;
              parsedStderr := parsedStderr parsed;
              parsedMemory := parsedMemory parsed;
              parsedArgv := parsedArgv parsed |}
  | kCommonConstantReturnTypeSuccess =>
      match commonBlocks (strtol P) (stringVariables (parsedMemory parsed))
              (arguments (parsedMemory parsed)) with
      | GoOn a =>
          Done {| parsedReturnCode := kCommonConstantReturnTypeSuccess;
                  parsedStderr := None;
                  parsedMemory := writeArguments a (parsedMemory parsed);
                  parsedArgv := parsedArgv parsed |}
      | ReturnError d a =>
          Done {| parsedReturnCode := kCommonConstantReturnTypeError;
                  parsedStderr := Some d;
                  parsedMemory := writeArguments a (parsedMemory parsed);
                  parsedArgv := parsedArgv parsed |}
      end
  end.

(** A platform like [scriptedPlatform] whose [calloc] gives no block. *)
Definition outOfMemoryPlatform : CommandLinePlatform := {|
  getopt_long_only := fun _ argv _ =>
    {| getoptCalls := []; getoptFinalOptind := 1; getoptFinalArgv := argv |};
  strtol := strtolDecimal (2 ^ 63 - 1);
  newlib := false;
  calloc := fun _ _ => false;
  sizeofOption := 32;
  sizeofDemoOption := 40
|}.

(** A file with a blank line between two rows. *)
Definition blankLineFile : string :=
  (line "a,b" ++ line "1,2" ++ endOfLine ++ line "3,4")%string.

(* ===================================================================== *)
(** * Rounding to a binary format *)
(* ===================================================================== *)

Lemma iter_pos_commute {A : Type} (f : A -> A) (n : positive) :
  forall x, SpecFloat.iter_pos f n (f x) = f (SpecFloat.iter_pos f n x).
Proof.
  induction n as [n IH|n IH|]; intros x; simpl; [|by rewrite !IH|done].
  by rewrite !IH.
Qed.

Lemma iter_pos_succ {A : Type} (f : A -> A) (n : positive) (x : A) :
  SpecFloat.iter_pos f (Pos.succ n) x = SpecFloat.iter_pos f n (f x).
Proof.
  revert x. induction n as [n IH|n IH|]; intros x; simpl; try done.
  rewrite !IH. by rewrite !iter_pos_commute.
Qed.

Lemma digits2_pos_lower (q : positive) :
  2 ^ (Zpos (digits2_pos q) - 1) <= Zpos q.
Proof.
  induction q as [q IH|q IH|]; simpl digits2_pos; [| |done].
  - rewrite Pos2Z.inj_succ. replace (Z.succ (Zpos (digits2_pos q)) - 1)
      with (Z.succ (Zpos (digits2_pos q) - 1)) by lia.
    rewrite Z.pow_succ_r by lia. lia.
  - rewrite Pos2Z.inj_succ. replace (Z.succ (Zpos (digits2_pos q)) - 1)
      with (Z.succ (Zpos (digits2_pos q) - 1)) by lia.
    rewrite Z.pow_succ_r by lia. lia.
Qed.

Lemma digits2_pos_below (q : positive) (prec : Z) :
  0 <= prec -> Zpos q < 2 ^ prec -> Zpos (digits2_pos q) <= prec.
Proof.
  intros Hprec Hq. pose proof (digits2_pos_lower q) as Hlow.
  destruct (Z.le_gt_cases (Zpos (digits2_pos q)) prec) as [|Hgt]; [done|].
  assert (2 ^ prec <= 2 ^ (Zpos (digits2_pos q) - 1))
    by (apply Z.pow_le_mono_r; lia).
  lia.
Qed.

Lemma digits2_pos_upper (q : positive) : Zpos q < 2 ^ Zpos (digits2_pos q).
Proof.
  induction q as [q IH|q IH|]; simpl digits2_pos; [| |done].
  - rewrite Pos2Z.inj_succ, Z.pow_succ_r by lia. lia.
  - rewrite Pos2Z.inj_succ, Z.pow_succ_r by lia. lia.
Qed.

Lemma Zdigits2_bounds (m : Z) :
  0 < m -> 2 ^ (Zdigits2 m - 1) <= m < 2 ^ Zdigits2 m.
Proof.
  destruct m as [|q|q]; try lia. intros _. simpl.
  split; [apply digits2_pos_lower | apply digits2_pos_upper].
Qed.

Lemma Zdigits2_unique (m d : Z) :
  0 < m -> 2 ^ (d - 1) <= m < 2 ^ d -> Zdigits2 m = d.
Proof.
  intros Hm [Hlo Hhi]. pose proof (Zdigits2_bounds m Hm) as [Hl Hu].
  assert (0 < Zdigits2 m) by (destruct m; simpl; lia).
  assert (0 < d).
  { destruct (Z.lt_ge_cases 0 d) as [|Hd]; [done|].
    destruct (Z.eq_dec d 0) as [->|]; [simpl in Hhi; lia|].
    rewrite Z.pow_neg_r in Hhi by lia. lia. }
  destruct (Z.lt_trichotomy (Zdigits2 m) d) as [Hlt|[Heq|Hgt]]; [|done|].
  - assert (2 ^ Zdigits2 m <= 2 ^ (d - 1)) by (apply Z.pow_le_mono_r; lia). lia.
  - assert (2 ^ d <= 2 ^ (Zdigits2 m - 1)) by (apply Z.pow_le_mono_r; lia). lia.
Qed.

Lemma Zdigits2_nonneg (m : Z) : 0 <= Zdigits2 m.
Proof. destruct m; simpl; lia. Qed.

Lemma Zdigits2_le (m d : Z) : 0 <= d -> 0 <= m < 2 ^ d -> Zdigits2 m <= d.
Proof.
  intros Hd [H0 Hm]. destruct m as [|q|q]; simpl; try lia.
  by apply digits2_pos_below.
Qed.

(** One step of the shifter halves the mantissa. *)
Lemma shr_1_m (mrs : shr_record) : 0 <= shr_m mrs -> shr_m (shr_1 mrs) = shr_m mrs / 2.
Proof.
  destruct mrs as [m r s]. simpl. intros Hm.
  destruct m as [|[p|p|]|p]; cbn [shr_m]; try lia; try done.
  - apply (Z.div_unique _ _ _ 1); lia.
  - apply (Z.div_unique _ _ _ 0); lia.
Qed.

Lemma iter_shr_1_m (p : positive) (mrs : shr_record) :
  0 <= shr_m mrs ->
  shr_m (SpecFloat.iter_pos shr_1 p mrs) = shr_m mrs / 2 ^ Zpos p.
Proof.
  revert mrs. induction p as [|p IH] using Pos.peano_ind; intros mrs Hm.
  - simpl. rewrite shr_1_m by done. reflexivity.
  - rewrite iter_pos_succ, IH by (rewrite shr_1_m by done; apply Z.div_pos; lia).
    rewrite shr_1_m by done. rewrite Pos2Z.inj_succ, Z.pow_succ_r by lia.
    rewrite Z.div_div by lia. reflexivity.
Qed.

Lemma shr_record_of_loc_m m l : shr_m (shr_record_of_loc m l) = m.
Proof. by destruct l as [|[]]. Qed.

Lemma loc_of_shr_record_of_loc m l : loc_of_shr_record (shr_record_of_loc m l) = l.
Proof. by destruct l as [|[]]. Qed.

(** What [shr_fexp] returns. *)
Lemma shr_fexp_spec prec emax (m e : Z) (l : location) :
  0 <= m -> e <= fexp prec emax (Zdigits2 m + e) ->
  exists mrs,
    shr_fexp prec emax m e l = (mrs, fexp prec emax (Zdigits2 m + e))
    /\ shr_m mrs = m / 2 ^ (fexp prec emax (Zdigits2 m + e) - e)
    /\ (fexp prec emax (Zdigits2 m + e) = e -> loc_of_shr_record mrs = l).
Proof.
  intros Hm He. unfold shr_fexp, shr.
  destruct (fexp prec emax (Zdigits2 m + e) - e) as [|k|k] eqn:Hk; try lia.
  - eexists. split; [f_equal; lia|]. rewrite shr_record_of_loc_m.
    split; [by rewrite Z.div_1_r|]. intros _. apply loc_of_shr_record_of_loc.
  - eexists. split; [f_equal; lia|].
    rewrite iter_shr_1_m by (by rewrite shr_record_of_loc_m).
    rewrite shr_record_of_loc_m. split; [done|]. lia.
Qed.

Lemma shr_fexp_unchanged prec emax (m e : Z) :
  fexp prec emax (Zdigits2 m + e) <= e ->
  shr_fexp prec emax m e loc_Exact = ({| shr_m := m; shr_r := false; shr_s := false |}, e).
Proof.
  intros He. unfold shr_fexp, shr.
  destruct (fexp prec emax (Zdigits2 m + e) - e) as [|k|k] eqn:Hk; try lia; done.
Qed.

Lemma round_nearest_even_range (m : Z) (l : location) :
  round_nearest_even m l = m \/ round_nearest_even m l = m + 1.
Proof. destruct l as [|[]]; simpl; auto. destruct (Z.even m); auto. Qed.

Section Rounding.
Context (prec emax : Z).
Hypothesis prec_gt_1 : 1 < prec.

Lemma fexp_ge_emin (x : Z) : emin prec emax <= fexp prec emax x.
Proof. unfold fexp. lia. Qed.

Lemma fexp_mono (x y : Z) : x <= y -> fexp prec emax x <= fexp prec emax y.
Proof. unfold fexp. lia. Qed.

(** The mantissa that [shr_fexp] leaves has at most [prec] digits, and
    exactly [prec] unless the exponent is [emin]. *)
Lemma truncated_mantissa (m e : Z) :
  0 <= m -> e <= fexp prec emax (Zdigits2 m + e) ->
  0 <= m / 2 ^ (fexp prec emax (Zdigits2 m + e) - e) < 2 ^ prec
  /\ (2 ^ (prec - 1) <= m / 2 ^ (fexp prec emax (Zdigits2 m + e) - e)
      \/ fexp prec emax (Zdigits2 m + e) = emin prec emax).
Proof.
  intros Hm He.
  set (E := fexp prec emax (Zdigits2 m + e)) in *.
  assert (Hk : 0 <= E - e) by lia.
  assert (HP : 0 < 2 ^ (E - e)) by (apply Z.pow_pos_nonneg; lia).
  destruct (Z.eq_dec m 0) as [->|Hm0].
  - rewrite Z.div_0_l by lia. split; [split; [lia | apply Z.pow_pos_nonneg; lia]|].
    right. subst E. simpl in *. unfold fexp in *. lia.
  - pose proof (Zdigits2_bounds m ltac:(lia)) as [Hlo Hhi].
    assert (HE : Zdigits2 m + e - prec <= E) by (subst E; unfold fexp; lia).
    split; [split|].
    + apply Z.div_pos; lia.
    + apply Z.div_lt_upper_bound; [lia|].
      rewrite <- Z.pow_add_r by lia.
      eapply Z.lt_le_trans; [exact Hhi|]. apply Z.pow_le_mono_r; lia.
    + destruct (Z.eq_dec E (emin prec emax)) as [|Hne]; [by right|left].
      assert (HE' : E = Zdigits2 m + e - prec) by (subst E; unfold fexp in *; lia).
      apply Z.div_le_lower_bound; [lia|].
      rewrite <- Z.pow_add_r by lia.
      eapply Z.le_trans; [|exact Hlo]. apply Z.pow_le_mono_r; lia.
Qed.

(** [binary_round_aux], for a mantissa that is to be shortened or kept:
    the result has the mantissa [m3] and the exponent [e3], canonical for
    the format, and [m3 * 2^e3] is within [2^e3] of the interval from
    [m * 2^e] to [(m + 1) * 2^e] that holds the number to round. *)
Lemma binary_round_aux_spec (s : bool) (m e : Z) (l : location) :
  0 <= m -> e <= fexp prec emax (Zdigits2 m + e) ->
  exists m3 e3,
    binary_round_aux prec emax s m e l = roundedFloat prec emax s m3 e3
    /\ 0 <= m3 < 2 ^ prec
    /\ (m3 = 0 \/ fexp prec emax (Zdigits2 m3 + e3) = e3)
    /\ (2 ^ (prec - 1) <= m3 \/ e3 = emin prec emax)
    /\ fexp prec emax (Zdigits2 m + e) <= e3 <= fexp prec emax (Zdigits2 m + e) + 1
    /\ (1 <= m / 2 ^ (fexp prec emax (Zdigits2 m + e) - e) -> 1 <= m3)
    /\ (m3 - 1) * 2 ^ (e3 - e) <= m /\ m + 1 <= (m3 + 1) * 2 ^ (e3 - e)
    /\ (l = loc_Exact -> fexp prec emax (Zdigits2 m + e) = e -> m3 = m /\ e3 = e).
Proof.
  intros Hm He.
  destruct (truncated_mantissa m e Hm He) as [[Hq0 Hq] Hshape].
  destruct (shr_fexp_spec prec emax m e l Hm He) as (mrs & Hshr & Hmrs & Hloc).
  unfold binary_round_aux. rewrite Hshr.
  set (E := fexp prec emax (Zdigits2 m + e)) in *.
  assert (Hemin : emin prec emax <= E) by apply fexp_ge_emin.
  assert (Hk : 0 <= E - e) by lia.
  assert (HP : 0 < 2 ^ (E - e)) by (apply Z.pow_pos_nonneg; lia).
  set (q := m / 2 ^ (E - e)) in *.
  assert (Hdiv : q * 2 ^ (E - e) <= m < (q + 1) * 2 ^ (E - e)).
  { subst q. pose proof (Z.mul_div_le m (2 ^ (E - e)) HP).
    pose proof (Z.mul_succ_div_gt m (2 ^ (E - e)) HP). lia. }
  rewrite Hmrs.
  set (q' := round_nearest_even q (loc_of_shr_record mrs)).
  assert (Hq' : q' = q \/ q' = q + 1) by apply round_nearest_even_range.
  assert (Hexact : l = loc_Exact -> E = e -> q' = m).
  { intros -> HEe. unfold q'. rewrite (Hloc HEe). simpl. subst q.
    rewrite HEe, Z.sub_diag. simpl. apply Z.div_1_r. }
  assert (Hp0 : 0 < 2 ^ prec) by (apply Z.pow_pos_nonneg; lia).
  assert (Hprec : 2 ^ prec = 2 * 2 ^ (prec - 1)).
  { rewrite <- Z.pow_succ_r by lia. f_equal. lia. }
  destruct (Z.eq_dec q' (2 ^ prec)) as [Hcarry|Hno].
  - (* the rounded mantissa has one digit too many *)
    assert (Hd : Zdigits2 q' = prec + 1).
    { apply Zdigits2_unique; [lia|]. rewrite Hcarry.
      replace (prec + 1 - 1) with prec by lia.
      rewrite Z.pow_add_r by lia. lia. }
    assert (HE1 : fexp prec emax (Zdigits2 q' + E) = E + 1).
    { rewrite Hd. unfold fexp. lia. }
    destruct (shr_fexp_spec prec emax q' E loc_Exact) as (mrs2 & Hshr2 & Hmrs2 & _);
      [lia | lia |].
    rewrite Hshr2, Hmrs2, HE1.
    replace (E + 1 - E) with 1 by lia. rewrite Z.pow_1_r.
    assert (Hhalf : q' / 2 = 2 ^ (prec - 1)).
    { rewrite Hcarry, Hprec. rewrite Z.mul_comm, Z.div_mul by lia. done. }
    rewrite Hhalf. exists (2 ^ (prec - 1)), (E + 1).
    assert (Hp1 : 0 < 2 ^ (prec - 1)) by (apply Z.pow_pos_nonneg; lia).
    assert (HP2 : 2 ^ (E + 1 - e) = 2 * 2 ^ (E - e)).
    { rewrite <- Z.pow_succ_r by lia. f_equal. lia. }
    split; [done|]. split; [lia|]. split.
    { right. rewrite (Zdigits2_unique _ prec); [unfold fexp; lia | lia |].
      split; [lia|]. lia. }
    split; [left; lia|].
    split; [lia|]. split; [lia|].
    rewrite HP2. split; [nia|]. split; [nia|].
    intros Hl HEe. specialize (Hexact Hl HEe).
    (* then [q' = m = q] and no carry *)
    subst q. rewrite HEe, Z.sub_diag in Hq'. simpl in Hq'. rewrite Z.div_1_r in Hq'.
    rewrite HEe, Z.sub_diag in Hq. simpl in Hq. rewrite Z.div_1_r in Hq. lia.
  - assert (Hq'lt : 0 <= q' < 2 ^ prec) by lia.
    assert (Hd : Zdigits2 q' <= prec) by (apply Zdigits2_le; lia).
    rewrite shr_fexp_unchanged by (unfold fexp; lia).
    cbn [shr_m]. exists q', E.
    split; [done|]. split; [done|]. split.
    { destruct (Z.eq_dec q' 0) as [|Hq'0]; [by left|right].
      destruct Hshape as [Hnormal|HEmin].
      - rewrite (Zdigits2_unique q' prec); [unfold fexp; lia | lia | lia].
      - unfold fexp. lia. }
    split; [destruct Hshape; [left; lia | by right]|].
    split; [lia|]. split; [lia|].
    split; [nia|]. split; [nia|].
    intros Hl HEe. split; [by apply Hexact | done].
Qed.

Lemma digits2_pos_shift (q k : positive) :
  digits2_pos (Pos.iter xO q k) = (digits2_pos q + k)%positive.
Proof.
  induction k as [|k IH] using Pos.peano_ind.
  - simpl. lia.
  - rewrite Pos.iter_succ. simpl. rewrite IH. lia.
Qed.

Lemma Zpos_shift (m k : positive) :
  Zpos (Pos.iter xO m k) = Z.shiftl (Zpos m) (Zpos k).
Proof.
  induction k as [|k IH] using Pos.peano_ind; [done|].
  rewrite Pos.iter_succ, Pos2Z.inj_xO, IH, Pos2Z.inj_succ.
  rewrite !Z.shiftl_mul_pow2 by lia. rewrite Z.pow_succ_r by lia. lia.
Qed.

(** [shl_align] brings the exponent down to [e'] when it is above. *)
Lemma shl_align_spec (m : positive) (e e' : Z) :
  exists mz,
    shl_align m e e' = (mz, Z.min e e')
    /\ Zpos mz = Zpos m * 2 ^ (e - Z.min e e')
    /\ Zpos (digits2_pos mz) = Zpos (digits2_pos m) + (e - Z.min e e').
Proof.
  unfold shl_align. destruct (e' - e) as [|d|d] eqn:Hd.
  - exists m. replace (Z.min e e') with e by lia. rewrite Z.sub_diag. simpl.
    repeat split; lia.
  - exists m. replace (Z.min e e') with e by lia. rewrite Z.sub_diag. simpl.
    repeat split; lia.
  - exists (Pos.iter xO m d). replace (Z.min e e') with e' by lia.
    replace (e - e') with (Zpos d) by lia.
    rewrite Zpos_shift, Z.shiftl_mul_pow2, digits2_pos_shift by lia.
    repeat split; lia.
Qed.

(** [binary_round]: as [binary_round_aux], for the number [m * 2^e]; a
    number that needs no shortening is returned as it is, and a number
    with an exponent of the format is not rounded to zero. *)
Lemma binary_round_spec (s : bool) (m : positive) (e : Z) :
  exists mz ez m3 e3,
    binary_round prec emax s m e = roundedFloat prec emax s m3 e3
    /\ ez = Z.min e (fexp prec emax (Zpos (digits2_pos m) + e))
    /\ mz = Zpos m * 2 ^ (e - ez)
    /\ 0 <= m3 < 2 ^ prec
    /\ (m3 = 0 \/ fexp prec emax (Zdigits2 m3 + e3) = e3)
    /\ (2 ^ (prec - 1) <= m3 \/ e3 = emin prec emax)
    /\ ez <= e3 <= fexp prec emax (Zpos (digits2_pos m) + e) + 1
    /\ (m3 - 1) * 2 ^ (e3 - ez) <= mz /\ mz + 1 <= (m3 + 1) * 2 ^ (e3 - ez)
    /\ (fexp prec emax (Zpos (digits2_pos m) + e) <= e -> m3 = mz /\ e3 = ez)
    /\ (emin prec emax <= e -> 1 <= m3).
Proof.
  unfold binary_round.
  set (E := fexp prec emax (Zpos (digits2_pos m) + e)).
  destruct (shl_align_spec m e E) as (mz & -> & Hmz & Hdz).
  assert (HEz : fexp prec emax (Zdigits2 (Zpos mz) + Z.min e E) = E).
  { simpl. rewrite Hdz. subst E. f_equal. lia. }
  destruct (binary_round_aux_spec s (Zpos mz) (Z.min e E) loc_Exact)
    as (m3 & e3 & Hr & Hm3 & Hcanon & Hshape & He3 & Hnz & Hlo & Hhi & Hexact);
    [lia | rewrite HEz; lia |].
  rewrite HEz in *.
  exists (Zpos mz), (Z.min e E), m3, e3.
  split; [done|]. split; [done|]. split; [done|]. split; [done|].
  split; [done|]. split; [done|]. split; [lia|]. split; [done|]. split; [done|].
  split.
  - intros HE. apply Hexact; [done | lia].
  - intros Hemin. apply Hnz.
    destruct (Z.le_gt_cases E e) as [HEe|HEe].
    + replace (E - Z.min e E) with 0 by lia. simpl. rewrite Z.div_1_r. lia.
    + destruct (truncated_mantissa (Zpos mz) (Z.min e E)) as [_ [Hn|Hs]];
        [lia | rewrite HEz; lia | |].
      * rewrite HEz in Hn.
        assert (0 < 2 ^ (prec - 1)) by (apply Z.pow_pos_nonneg; lia). lia.
      * rewrite HEz in Hs. lia.
Qed.

Lemma roundedFloat_sign (s : bool) (m3 e3 : Z) :
  1 <= m3 ->
  isPositive (roundedFloat prec emax s m3 e3) = negb s
  /\ isNegative (roundedFloat prec emax s m3 e3) = s.
Proof.
  intros Hm. destruct m3 as [|p|p]; try lia. simpl.
  destruct (e3 <=? emax - prec), s; done.
Qed.

(** The sign of a number normalized at an exponent of the format is the
    sign of its mantissa: nothing is rounded to zero. *)
Lemma binary_normalize_sign (z e : Z) :
  emin prec emax <= e ->
  isPositive (binary_normalize prec emax z e false) = (0 <? z)
  /\ isNegative (binary_normalize prec emax z e false) = (z <? 0).
Proof.
  intros He. destruct z as [|p|p]; simpl.
  - done.
  - destruct (binary_round_spec false p e)
      as (mz & ez & m3 & e3 & -> & _ & _ & _ & _ & _ & _ & _ & _ & _ & Hnz).
    apply (roundedFloat_sign false). by apply Hnz.
  - destruct (binary_round_spec true p e)
      as (mz & ez & m3 & e3 & -> & _ & _ & _ & _ & _ & _ & _ & _ & _ & Hnz).
    apply (roundedFloat_sign true). by apply Hnz.
Qed.
(** The mantissa and the exponent of a number of the format. *)
Lemma valid_finite (s : bool) (m : positive) (e : Z) :
  valid_binary prec emax (S754_finite s m e) = true ->
  emin prec emax <= e <= emax - prec /\ Zpos m < 2 ^ prec
  /\ (2 ^ (prec - 1) <= Zpos m \/ e = emin prec emax).
Proof.
  unfold valid_binary, bounded, canonical_mantissa.
  intros [He Hmax%Z.leb_le]%andb_true_iff. apply Z.eqb_eq in He.
  pose proof (digits2_pos_upper m) as Hup.
  pose proof (digits2_pos_lower m) as Hlow.
  assert (Hd : Zpos (digits2_pos m) <= prec) by (unfold fexp in He; lia).
  assert (Hemin : emin prec emax <= e) by (unfold fexp in He; lia).
  split; [lia|]. split.
  - eapply Z.lt_le_trans; [exact Hup|]. apply Z.pow_le_mono_r; lia.
  - destruct (Z.eq_dec e (emin prec emax)) as [|Hne]; [by right|left].
    replace (prec - 1) with (Zpos (digits2_pos m) - 1) by (unfold fexp in He; lia).
    done.
Qed.

End Rounding.

(* ===================================================================== *)
(** * Loops over arrays *)
(* ===================================================================== *)

Section LoopLemmas.
Context {T : FloatType}.

(** A loop that reads [get ii] for [ii] from [start] accumulates the
    values read, in order. *)
Lemma read_loop (f : option (T * T) -> nat -> option (T * T))
    (get : nat -> option T) (values : list T) :
  (forall a ii, f (Some a) ii =
                match get ii with Some x => Some (accumulate a x) | None => None end) ->
  forall start acc,
    (forall k x, values !! k = Some x -> get (start + k)%nat = Some x) ->
    fold_left f (seq start (length values)) (Some acc)
    = Some (fold_left accumulate values acc).
Proof.
  intros Hf. induction values as [|x values IH]; intros start acc Hget; simpl.
  - done.
  - rewrite Hf. specialize (Hget 0%nat x eq_refl) as H0.
    rewrite Nat.add_0_r in H0. rewrite H0.
    apply IH. intros k y Hk.
    replace (S start + k)%nat with (start + S k)%nat by lia.
    by apply Hget.
Qed.

Lemma fold_accumulate (l : list T) (s q : T) :
  fold_left accumulate l (s, q)
  = (fold_left fpAdd l s, fold_left (fun a x => fpAdd a (fpMul x x)) l q).
Proof. revert s q. induction l as [|x l IH]; intros s q; simpl; [done | apply IH]. Qed.

Lemma sumLoop_whole (dataArray : list T) :
  sumLoop dataArray (length dataArray)
  = Some (sumOf dataArray, sumOfSquaresOf dataArray).
Proof.
  unfold sumLoop.
  rewrite (read_loop _ (fun ii => dataArray !! ii) dataArray); try done.
  by rewrite fold_accumulate.
Qed.

Lemma columnSumLoop_whole (dataArray : list (list T)) (jj : nat) (column : list T) :
  isColumn dataArray jj column ->
  columnSumLoop T dataArray (length dataArray) jj
  = Some (sumOf column, sumOfSquaresOf column).
Proof.
  intros Hcol. unfold columnSumLoop.
  rewrite (Forall2_length _ _ _ Hcol).
  rewrite (read_loop _ (fun ii => match dataArray !! ii with
                                  | Some row => row !! jj
                                  | None => None
                                  end) column).
  - by rewrite fold_accumulate.
  - intros a ii. by destruct (dataArray !! ii) as [row|].
  - intros k x Hk. simpl.
    destruct (Forall2_lookup_r _ _ _ _ _ Hcol Hk) as (row & Hrow & Hx).
    by rewrite Hrow.
Qed.
End LoopLemmas.

(* ===================================================================== *)
(** * Mean and variance: the formula *)
(* ===================================================================== *)

Lemma meanAndVariance_whole (T : FloatType) (dataArray : list T) :
  calculateMeanAndVarianceOfSamples T dataArray (length dataArray)
  = let size := fpOfSize (Z.of_nat (length dataArray)) in
    let m := fpDiv (sumOf dataArray) size in
    Some (m, fpSub (fpDiv (sumOfSquaresOf dataArray) size) (fpMul m m)).
Proof. unfold calculateMeanAndVarianceOfSamples. by rewrite sumLoop_whole. Qed.

(* ===================================================================== *)
(** * The multi-dimensional routine against the one-dimensional one *)
(* ===================================================================== *)

Section MultiDimensionalLemmas.
Context (T : FloatType).

Lemma columnOf_isColumn (dataArray : list (list T)) (rows cols jj : nat) :
  isMatrix dataArray rows cols -> (jj < cols)%nat ->
  isColumn dataArray jj (columnOf T dataArray jj).
Proof.
  intros [_ Hrows] Hjj. unfold isColumn, columnOf.
  induction Hrows as [|row dataArray Hrow _ IH]; simpl; constructor; [|exact IH].
  destruct (lookup_lt_is_Some_2 row jj) as [x Hx]; [lia|]. by rewrite Hx.
Qed.

Lemma columnStep_stores (dataArray : list (list T)) (rows cols jj : nat)
    (means variances : list T) :
  isMatrix dataArray rows cols -> (jj < cols)%nat ->
  (jj < length means)%nat -> (jj < length variances)%nat ->
  columnStep T dataArray rows (Some (means, variances)) jj
  = Some (<[jj := (columnResult T dataArray jj).1]> means,
          <[jj := (columnResult T dataArray jj).2]> variances).
Proof.
  intros Hm Hjj Hmeans Hvars. unfold columnStep.
  destruct Hm as [Hlen Hrows]. subst rows.
  rewrite (columnSumLoop_whole dataArray jj (columnOf T dataArray jj));
    [|by eapply columnOf_isColumn].
  unfold storeAt. rewrite !decide_True by done. reflexivity.
Qed.

Lemma columnLoop_stores (dataArray : list (list T)) (rows cols : nat)
    (means variances : list T) (k : nat) :
  isMatrix dataArray rows cols -> (k <= cols)%nat ->
  (k <= length means)%nat -> (k <= length variances)%nat ->
  exists means' variances',
    fold_left (columnStep T dataArray rows) (seq 0 k) (Some (means, variances))
    = Some (means', variances')
    /\ length means' = length means /\ length variances' = length variances
    /\ (forall jj, (jj < k)%nat ->
          means' !! jj = Some (columnResult T dataArray jj).1
          /\ variances' !! jj = Some (columnResult T dataArray jj).2)
    /\ (forall jj, (k <= jj)%nat ->
          means' !! jj = means !! jj /\ variances' !! jj = variances !! jj).
Proof.
  intros Hm. induction k as [|k IH]; intros Hk Hmeans Hvars.
  - exists means, variances. simpl. repeat split; try done. all: lia.
  - destruct IH as (m1 & v1 & Hfold & Hlm & Hlv & Hdone & Hrest); [lia..|].
    rewrite seq_S, fold_left_app, Hfold. cbn [fold_left Nat.add].
    rewrite (columnStep_stores dataArray rows cols) by (done || lia).
    eexists _, _. split; [reflexivity|].
    rewrite !length_insert. repeat split; try done.
    + destruct (decide (jj = k)) as [->|Hne].
      * apply list_lookup_insert_eq. lia.
      * rewrite list_lookup_insert_ne by done. apply Hdone. lia.
    + destruct (decide (jj = k)) as [->|Hne].
      * apply list_lookup_insert_eq. lia.
      * rewrite list_lookup_insert_ne by done. apply Hdone. lia.
    + rewrite list_lookup_insert_ne by lia. apply Hrest. lia.
    + rewrite list_lookup_insert_ne by lia. apply Hrest. lia.
Qed.
End MultiDimensionalLemmas.

(* ===================================================================== *)
(** * Signs of IEEE results and the comparison function *)
(* ===================================================================== *)

Lemma binary_round_aux_sign prec emax s m e l :
  nanOrSign s (binary_round_aux prec emax s m e l).
Proof.
  unfold binary_round_aux.
  destruct (shr_fexp prec emax m e l) as [mrs' e'].
  destruct (shr_fexp prec emax _ e' loc_Exact) as [mrs'' e''].
  destruct (shr_m mrs''); simpl; try done.
  by destruct (e'' <=? emax - prec).
Qed.

Lemma binary_round_sign prec emax s m e :
  nanOrSign s (binary_round prec emax s m e).
Proof.
  unfold binary_round. destruct (shl_align _ _ _) as [mz ez].
  apply binary_round_aux_sign.
Qed.

Lemma binary_round_aux_withSign prec emax s m e l :
  binary_round_aux prec emax s m e l
  = withSign s (binary_round_aux prec emax false m e l).
Proof.
  unfold binary_round_aux.
  destruct (shr_fexp prec emax m e l) as [mrs' e'].
  destruct (shr_fexp prec emax _ e' loc_Exact) as [mrs'' e''].
  destruct (shr_m mrs''); simpl; try done.
  by destruct (e'' <=? emax - prec).
Qed.

Lemma binary_round_withSign prec emax s m e :
  binary_round prec emax s m e = withSign s (binary_round prec emax false m e).
Proof.
  unfold binary_round. destruct (shl_align _ _ _) as [mz ez].
  apply binary_round_aux_withSign.
Qed.

Lemma isNegative_withSign (x : spec_float) :
  nanOrSign false x ->
  isNegative (withSign true x) = isPositive x
  /\ isPositive (withSign true x) = false
  /\ isNegative x = false.
Proof. destruct x as [s|s| |s m e]; simpl; try done; by intros ->. Qed.

(** The sign of a rounded integer is the sign of the integer. *)
Lemma binary_normalize_opp prec emax z e :
  isNegative (binary_normalize prec emax (- z) e false)
  = isPositive (binary_normalize prec emax z e false).
Proof.
  destruct z as [|p|p]; [done| |].
  - change (- Z.pos p) with (Z.neg p). unfold binary_normalize.
    rewrite (binary_round_withSign _ _ true).
    apply isNegative_withSign, binary_round_sign.
  - change (- Z.neg p) with (Z.pos p). unfold binary_normalize.
    rewrite (binary_round_withSign _ _ true).
    destruct (isNegative_withSign (binary_round prec emax false p e))
      as (_ & -> & ->); [apply binary_round_sign | done].
Qed.

Lemma SFsub_negative_swap prec emax a b :
  isNegative (SFsub prec emax b a) = isPositive (SFsub prec emax a b).
Proof.
  destruct a as [sa|sa| |sa ma ea], b as [sb|sb| |sb mb eb]; cbn [SFsub];
    lazymatch goal with
    | |- context [binary_normalize] => idtac
    | _ => repeat match goal with s : bool |- _ => destruct s end; reflexivity
    end.
  rewrite (Z.min_comm eb ea), <- binary_normalize_opp. f_equal. f_equal. lia.
Qed.

Lemma compareSamples_opp prec emax (a b : ieee prec emax) :
  compareSamples a b = - compareSamples b a.
Proof.
  unfold compareSamples. simpl.
  change (SFltb (S754_zero false) ?x) with (isPositive x).
  change (SFltb ?x (S754_zero false)) with (isNegative x).
  rewrite (SFsub_negative_swap prec emax b a), (SFsub_negative_swap prec emax a b).
  lia.
Qed.

Lemma compareSamples_range {T : FloatType} (a b : T) : -1 <= compareSamples a b <= 1.
Proof. unfold compareSamples. destruct (fpLt _ _), (fpLt _ _); simpl; lia. Qed.

Lemma compareSamples_nan prec emax (a : ieee prec emax) :
  compareSamples a (S754_nan : ieee prec emax) = 0.
Proof. unfold compareSamples. simpl. by destruct a. Qed.


(* ===================================================================== *)
(** * The comparison function and the order of the numbers *)
(* ===================================================================== *)

Lemma comparisonSign_b2z (z : Z) : Z.b2z (0 <? z) - Z.b2z (z <? 0) = Z.sgn z.
Proof.
  destruct (Z.ltb_spec 0 z), (Z.ltb_spec z 0); simpl; lia.
Qed.

Section Comparison.
Context (prec emax : Z).
Hypothesis prec_gt_1 : 1 < prec.

(** The sign of [a - b], which [compareFloats] and [compareDoubles]
    return, is the order of the numbers [a] and [b]. *)
Lemma compareSamples_SFcompare (a b : ieee prec emax) :
  valid_binary prec emax a = true -> valid_binary prec emax b = true ->
  compareSamples a b = comparisonSign (SFcompare a b).
Proof.
  intros Ha Hb. unfold compareSamples. cbn [fpSub fpLt fpZero ieee].
  change (SFltb (S754_zero false) ?x) with (isPositive x).
  change (SFltb ?x (S754_zero false)) with (isNegative x).
  destruct a as [sa|sa| |sa ma ea], b as [sb|sb| |sb mb eb]; cbn [SFsub];
    lazymatch goal with
    | |- context [binary_normalize] => idtac
    | _ => repeat match goal with s : bool |- _ => destruct s end; reflexivity
    end.
  destruct (valid_finite prec emax _ _ _ Ha) as ([Hea _] & Hma & Hna).
  destruct (valid_finite prec emax _ _ _ Hb) as ([Heb _] & Hmb & Hnb).
  destruct (binary_normalize_sign prec emax prec_gt_1
              (cond_Zopp sa (Zpos (shl_align ma ea (Z.min ea eb)).1)
               - cond_Zopp sb (Zpos (shl_align mb eb (Z.min ea eb)).1))
              (Z.min ea eb)) as [-> ->]; [lia|].
  rewrite comparisonSign_b2z.
  destruct (shl_align_spec ma ea (Z.min ea eb)) as (mza & -> & Hmza & _).
  destruct (shl_align_spec mb eb (Z.min ea eb)) as (mzb & -> & Hmzb & _).
  cbn [fst]. replace (Z.min ea (Z.min ea eb)) with (Z.min ea eb) in Hmza by lia.
  replace (Z.min eb (Z.min ea eb)) with (Z.min ea eb) in Hmzb by lia.
  assert (Hp1 : 0 < 2 ^ (prec - 1)) by (apply Z.pow_pos_nonneg; lia).
  assert (Hprec : 2 ^ prec = 2 * 2 ^ (prec - 1)).
  { rewrite <- Z.pow_succ_r by lia. f_equal. lia. }
  assert (Hlt : forall (m m' : positive) (e e' : Z),
             e < e' -> Zpos m < 2 ^ prec ->
             2 ^ (prec - 1) <= Zpos m' \/ e' = emin prec emax -> emin prec emax <= e ->
             Zpos m * 2 ^ (e - Z.min e e') < Zpos m' * 2 ^ (e' - Z.min e e')).
  { intros m m' e e' Hee Hm [Hm'|He'] He; [|lia].
    replace (Z.min e e') with e by lia. rewrite Z.sub_diag, Z.mul_1_r.
    assert (2 ^ 1 <= 2 ^ (e' - e)) by (apply Z.pow_le_mono_r; lia).
    change (2 ^ 1) with 2 in *. nia. }
  cbn [SFcompare comparisonSign].
  change (Pos.compare_cont Eq ma mb) with (ma ?= mb)%positive.
  destruct sa, sb; cbn [cond_Zopp].
  - destruct (Z.compare_spec ea eb) as [Heq|Hlte|Hgte].
    + subst eb. rewrite Z.min_id, Z.sub_diag, Z.mul_1_r in Hmza, Hmzb.
      destruct (Pos.compare_spec ma mb) as [Hm|Hm|Hm]; cbn [CompOpp].
      * subst. rewrite Hmza, Hmzb. by replace (- Zpos mb - - Zpos mb) with 0 by lia.
      * apply Z.sgn_pos. lia.
      * apply Z.sgn_neg. lia.
    + specialize (Hlt ma mb ea eb Hlte Hma Hnb Hea). apply Z.sgn_pos. lia.
    + specialize (Hlt mb ma eb ea ltac:(lia) Hmb Hna Heb).
      rewrite (Z.min_comm eb ea) in Hlt. apply Z.sgn_neg. lia.
  - apply Z.sgn_neg. lia.
  - apply Z.sgn_pos. lia.
  - destruct (Z.compare_spec ea eb) as [Heq|Hlte|Hgte].
    + subst eb. rewrite Z.min_id, Z.sub_diag, Z.mul_1_r in Hmza, Hmzb.
      destruct (Pos.compare_spec ma mb) as [Hm|Hm|Hm].
      * subst. rewrite Hmza, Hmzb. by rewrite Z.sub_diag.
      * apply Z.sgn_neg. lia.
      * apply Z.sgn_pos. lia.
    + specialize (Hlt ma mb ea eb Hlte Hma Hnb Hea). apply Z.sgn_neg. lia.
    + specialize (Hlt mb ma eb ea ltac:(lia) Hmb Hna Heb).
      rewrite (Z.min_comm eb ea) in Hlt. apply Z.sgn_pos. lia.
Qed.

(** Numbers that compare "not greater" are in order. *)
Lemma compareSamples_SFleb (a b : ieee prec emax) :
  valid_binary prec emax a = true -> valid_binary prec emax b = true ->
  a <> S754_nan -> b <> S754_nan ->
  compareSamples a b <= 0 <-> SFleb a b = true.
Proof.
  intros Ha Hb Hna Hnb. rewrite (compareSamples_SFcompare a b Ha Hb).
  unfold SFleb.
  destruct (SFcompare a b) as [[]|] eqn:Hc; simpl; try (split; (done || lia)).
  destruct a, b; done.
Qed.
End Comparison.

Lemma SFleb_trans (a b c : spec_float) :
  SFleb a b = true -> SFleb b c = true -> SFleb a c = true.
Proof.
  unfold SFleb.
  destruct a as [sa|sa| |sa ma ea], b as [sb|sb| |sb mb eb], c as [sc|sc| |sc mc ec];
    cbn [SFcompare]; try done;
    repeat match goal with s : bool |- _ => destruct s end; try done;
    change (Pos.compare_cont Eq ?x ?y) with (x ?= y)%positive;
    destruct (Z.compare_spec ea eb); try done;
    destruct (Z.compare_spec eb ec); try done;
    destruct (Z.compare_spec ea ec); try done; try lia;
    destruct (Pos.compare_spec ma mb); try done;
    destruct (Pos.compare_spec mb mc); try done;
    destruct (Pos.compare_spec ma mc); try done; lia.
Qed.

(** On an array of numbers, [compareFloats] and [compareDoubles] are what
    [qsort] asks for. *)
Lemma compareSamples_ordersElements prec emax (base : list (ieee prec emax)) :
  1 < prec ->
  Forall (fun x => valid_binary prec emax x = true /\ x <> S754_nan) base ->
  ordersElements (@compareSamples (ieee prec emax)) base.
Proof.
  intros Hprec Hbase a b c Ha Hb Hc.
  rewrite Forall_forall in Hbase.
  destruct (Hbase a Ha) as [Hva Hna], (Hbase b Hb) as [Hvb Hnb],
           (Hbase c Hc) as [Hvc Hnc].
  split.
  - rewrite (compareSamples_opp prec emax b a). apply Z.sgn_opp.
  - rewrite !(compareSamples_SFleb prec emax Hprec) by done. apply SFleb_trans.
Qed.

(** An ascending array of numbers is in the order of the numbers. *)
Lemma ascending_numbers prec emax (sorted : list (ieee prec emax)) :
  1 < prec ->
  Forall (fun x => valid_binary prec emax x = true /\ x <> S754_nan) sorted ->
  ascending (@compareSamples (ieee prec emax)) sorted ->
  StronglySorted (fun a b => SFleb a b = true) sorted.
Proof.
  intros Hprec Hall Hasc.
  apply Sorted_StronglySorted; [intros a b c; apply SFleb_trans|].
  unfold ascending in Hasc.
  induction Hasc as [|x l Hl IH Hhd]; [constructor|].
  apply Forall_cons in Hall as [[Hvx Hnx] Hall].
  constructor; [by apply IH|].
  destruct Hhd as [|y l Hxy]; constructor.
  apply Forall_cons in Hall as [[Hvy Hny] _].
  by apply (compareSamples_SFleb prec emax Hprec).
Qed.

(* ===================================================================== *)
(** * The selected index *)
(* ===================================================================== *)

Lemma SFmul_nonneg_sign prec emax (p x : spec_float) :
  SFleb (S754_zero false) p = true -> nanOrSign false x ->
  nanOrSign false (SFmul prec emax p x)
  \/ exists s, SFmul prec emax p x = S754_zero s.
Proof.
  intros Hp Hx.
  assert (Hsp : match p with
                | S754_infinity sp | S754_finite sp _ _ => sp = false
                | S754_zero _ => True
                | S754_nan => False
                end).
  { destruct p as [sp|sp| |sp mp ep]; try done; by destruct sp. }
  clear Hp.
  destruct p as [sp|sp| |sp mp ep], x as [sx|sx| |sx mx ex];
    simpl in *; subst; try done; eauto.
  left. apply binary_round_aux_sign.
Qed.

Lemma ofSize_sign prec emax (n : nat) :
  nanOrSign false (binary_normalize prec emax (Z.of_nat n) 0 false).
Proof.
  destruct n; simpl; [done|]. apply binary_round_sign.
Qed.

(* ===================================================================== *)
(** * Sizes that are floating-point numbers *)
(* ===================================================================== *)

Lemma shr_shift (m k : positive) :
  SpecFloat.iter_pos shr_1 k {| shr_m := Zpos (Pos.iter xO m k); shr_r := false; shr_s := false |}
  = {| shr_m := Zpos m; shr_r := false; shr_s := false |}.
Proof.
  induction k as [|k IH] using Pos.peano_ind; [done|].
  rewrite iter_pos_succ, Pos.iter_succ. simpl. exact IH.
Qed.

Lemma mul_shift (m k : positive) :
  (Pos.iter xO 1 k * m)%positive = Pos.iter xO m k.
Proof.
  induction k as [|k IH] using Pos.peano_ind; [done|].
  rewrite !Pos.iter_succ.
  change ((Pos.iter xO 1 k)~0 * m)%positive with ((Pos.iter xO 1 k * m)~0)%positive.
  by rewrite IH.
Qed.

Section Format.
Context (prec emax : Z).
Hypothesis prec_gt_1 : 1 < prec.
Hypothesis emax_ge_prec : prec <= emax.

(** A mantissa of [prec] digits with an exponent in range is a number of
    the format as it stands. *)
Lemma binary_round_aux_canonical (s : bool) (m : positive) (e : Z) :
  Zpos (digits2_pos m) = prec -> emin prec emax <= e <= emax - prec ->
  binary_round_aux prec emax s (Zpos m) e loc_Exact = S754_finite s m e.
Proof.
  intros Hm He. unfold binary_round_aux.
  assert (Hshr : shr_fexp prec emax (Zpos m) e loc_Exact
                 = ({| shr_m := Zpos m; shr_r := false; shr_s := false |}, e)).
  { unfold shr_fexp, fexp. simpl Zdigits2. rewrite Hm.
    replace (Z.max (prec + e - prec) (emin prec emax) - e) with 0 by lia. done. }
  rewrite Hshr. simpl. rewrite Hshr. simpl.
  by rewrite (proj2 (Z.leb_le _ _)) by lia.
Qed.

(** The conversion of a size below [2^prec]. *)
Lemma ofSize_exact (q : positive) :
  Zpos q < 2 ^ prec ->
  exists (m : positive) (e : Z),
    binary_normalize prec emax (Zpos q) 0 false = S754_finite false m e
    /\ Zpos (digits2_pos m) = prec /\ emin prec emax <= e <= 0
    /\ SFtrunc (S754_finite false m e) = Some (Zpos q).
Proof.
  intros Hq. pose proof (digits2_pos_below q prec ltac:(lia) Hq) as Hd.
  unfold binary_normalize, binary_round, shl_align, fexp.
  assert (Hemin : emin prec emax <= Zpos (digits2_pos q) - prec).
  { unfold emin. lia. }
  replace (Z.max (Zpos (digits2_pos q) + 0 - prec) (emin prec emax) - 0)
    with (Zpos (digits2_pos q) - prec) by lia.
  replace (Z.max (Zpos (digits2_pos q) + 0 - prec) (emin prec emax))
    with (Zpos (digits2_pos q) - prec) by lia.
  destruct (Zpos (digits2_pos q) - prec) as [|k|k] eqn:Hk; [| lia |].
  - exists q, 0. rewrite binary_round_aux_canonical by lia.
    repeat split; try lia. 
  - exists (Pos.iter xO q k), (Zneg k).
    assert (Hdigits : Zpos (digits2_pos (Pos.iter xO q k)) = prec).
    { rewrite digits2_pos_shift. lia. }
    rewrite binary_round_aux_canonical by lia.
    repeat split; try lia.
    simpl. rewrite Zpos_shift, Z.shiftr_shiftl_l by lia.
    by rewrite Z.sub_diag.
Qed.

(** [1.0] *)
Lemma ofSize_one :
  exists k : positive,
    Zpos k = prec - 1
    /\ binary_normalize prec emax 1 0 false
       = S754_finite false (Pos.iter xO 1%positive k) (1 - prec).
Proof.
  destruct (prec - 1) as [|k|k] eqn:Hk; try lia.
  exists k. split; [done|].
  unfold binary_normalize, binary_round, shl_align, fexp. simpl digits2_pos.
  assert (Hemin : emin prec emax <= 1 - prec) by (unfold emin; lia).
  replace (Z.max (1 + 0 - prec) (emin prec emax) - 0) with (Zneg k) by lia.
  replace (Z.max (1 + 0 - prec) (emin prec emax)) with (1 - prec) by lia.
  rewrite binary_round_aux_canonical; [done | | lia].
  rewrite digits2_pos_shift. simpl. lia.
Qed.

(** Multiplying by [1.0] changes nothing. *)
Lemma SFmul_one (m : positive) (e : Z) :
  Zpos (digits2_pos m) = prec -> emin prec emax <= e <= emax - prec ->
  SFmul prec emax (binary_normalize prec emax 1 0 false) (S754_finite false m e)
  = S754_finite false m e.
Proof.
  intros Hm He. destruct ofSize_one as (k & Hk & ->).
  cbn [SFmul xorb]. rewrite mul_shift.
  unfold binary_round_aux.
  assert (Hshr : shr_fexp prec emax (Zpos (Pos.iter xO m k)) (1 - prec + e) loc_Exact
                 = ({| shr_m := Zpos m; shr_r := false; shr_s := false |}, e)).
  { unfold shr_fexp, fexp, shr. simpl Zdigits2. rewrite digits2_pos_shift.
    replace (Z.max (Zpos (digits2_pos m + k) + (1 - prec + e) - prec) (emin prec emax)
             - (1 - prec + e)) with (Zpos k) by lia.
    simpl shr_record_of_loc. rewrite shr_shift. f_equal. lia. }
  rewrite Hshr. simpl.
  assert (Hshr2 : shr_fexp prec emax (Zpos m) e loc_Exact
                  = ({| shr_m := Zpos m; shr_r := false; shr_s := false |}, e)).
  { unfold shr_fexp, fexp. simpl Zdigits2. rewrite Hm.
    replace (Z.max (prec + e - prec) (emin prec emax) - e) with 0 by lia. done. }
  rewrite Hshr2. simpl. by rewrite (proj2 (Z.leb_le _ _)) by lia.
Qed.

(** With [quantilePercentage = 1.0] and a size below [2^prec] that is an
    [int], the index is the size. *)
Lemma quantileIndex_one (n : nat) :
  0 < Z.of_nat n < 2 ^ prec -> Z.of_nat n <= INT_MAX ->
  quantileIndex (fpOfSize 1 : ieee prec emax) n = Some (Z.of_nat n).
Proof.
  intros Hn Hint. unfold quantileIndex. simpl.
  destruct (Z.of_nat n) as [|q|q] eqn:Hq; try lia.
  destruct (ofSize_exact q) as (m & e & -> & Hm & He & Htrunc); [lia|].
  rewrite SFmul_one by lia. unfold castToInt. cbn [fpTrunc ieee].
  rewrite Htrunc.
  assert (Hrange : (INT_MIN <=? Zpos q) && (Zpos q <=? INT_MAX) = true).
  { apply andb_true_iff. split; apply Z.leb_le; unfold INT_MIN, INT_MAX in *; lia. }
  by rewrite Hrange.
Qed.
End Format.

(* ===================================================================== *)
(** * Statements about the statistics *)
(* ===================================================================== *)

Lemma quantile_reads_index (libc : Qsort) (T : FloatType) (dataArray : list T)
    (p : T) (k : Z) :
  quantileIndex p (length dataArray) = Some k ->
  calculatePercentageQuantileOfSamples libc T dataArray p (length dataArray)
  = Some {| quantile := loadAt (qsort libc compareSamples dataArray) k;
            dataArrayAfter := dataArray |}.
Proof.
  intros Hk. unfold calculatePercentageQuantileOfSamples.
  rewrite decide_True by done. rewrite Hk, firstn_all. reflexivity.
Qed.

Lemma productIndex prec emax (p : ieee prec emax) (n : nat) (k : Z) :
  SFleb (S754_zero false) p = true ->
  SFfloor (fpMul p (fpOfSize (Z.of_nat n))) = Some k ->
  0 <= k /\ (k <= INT_MAX -> quantileIndex p n = Some k).
Proof.
  intros Hp Hfloor. cbn [fpMul fpOfSize ieee] in Hfloor.
  assert (Htrunc : SFtrunc (SFmul prec emax p (binary_normalize prec emax (Z.of_nat n) 0 false))
                   = Some k /\ 0 <= k).
  { destruct (SFmul_nonneg_sign prec emax p _ Hp (ofSize_sign prec emax n))
      as [Hs|[s Hs]].
    - destruct (SFmul _ _ _ _) as [s|s| |s m e]; simpl in *; try done.
      + split; [done|]. injection Hfloor as <-. lia.
      + subst s. split; [done|]. injection Hfloor as <-. cbn [cond_Zopp].
        destruct e; [apply Z.shiftl_nonneg | apply Z.shiftl_nonneg
                    | apply Z.shiftr_nonneg]; lia.
    - rewrite Hs in *. simpl in *. split; [done|]. injection Hfloor as <-. lia. }
  destruct Htrunc as [Htrunc Hk0]. split; [done|]. intros Hint.
  unfold quantileIndex, castToInt. cbn [fpMul fpOfSize fpTrunc ieee].
  rewrite Htrunc.
  assert (Hrange : (INT_MIN <=? k) && (k <=? INT_MAX) = true).
  { apply andb_true_iff. split; apply Z.leb_le; unfold INT_MIN in *; lia. }
  by rewrite Hrange.
Qed.

(** C3 (as amended).  Nearest-rank selection.  For a non-empty array of
    [n] samples that are numbers (no NaN) and a fraction [p] with [0 <= p],
    let [k] be the floor of the product [p * n] that the routine computes:
    [n] converted to the type of the samples, and the product rounded in
    that type.  When [k < n] and [k <= INT_MAX], the index that the routine
    computes is [k], and the routine returns the element at index [k] of a
    permutation of the samples that is in the order of the numbers, each
    element less than or equal to every later one; the caller's array is as
    it was.  For every [qsort] that meets its contract and every binary
    format; [float] is [ieee 24 128] and [double] is [ieee 53 1024]. *)
Theorem quantile_nearest_rank (libc : Qsort) (prec emax : Z)
    (dataArray : list (ieee prec emax)) (p : ieee prec emax) (k : Z) :
  1 < prec ->
  dataArray <> [] ->
  Forall (fun x => valid_binary prec emax x = true /\ x <> S754_nan) dataArray ->
  SFleb (S754_zero false) p = true ->
  SFfloor (fpMul p (fpOfSize (Z.of_nat (length dataArray)))) = Some k ->
  k < Z.of_nat (length dataArray) ->
  k <= INT_MAX ->
  quantileIndex p (length dataArray) = Some k
  /\ exists sorted x,
       Permutation dataArray sorted
       /\ StronglySorted (fun a b => SFleb a b = true) sorted
       /\ sorted !! Z.to_nat k = Some x
       /\ calculatePercentageQuantileOfSamples libc (ieee prec emax) dataArray p
            (length dataArray)
          = Some {| quantile := Loaded x; dataArrayAfter := dataArray |}.
Proof.
  intros Hprec _ Hnumbers Hp Hfloor Hlt Hint.
  destruct (productIndex prec emax p _ k Hp Hfloor) as [Hk0 Hk].
  specialize (Hk Hint). split; [exact Hk|].
  set (sorted := qsort libc (@compareSamples (ieee prec emax)) dataArray).
  destruct (qsort_sorts libc _ (@compareSamples (ieee prec emax)) dataArray)
    as [Hperm Hasc]; [by apply compareSamples_ordersElements|].
  fold sorted in Hperm, Hasc.
  destruct (lookup_lt_is_Some_2 sorted (Z.to_nat k)) as [x Hx].
  { unfold sorted. rewrite qsort_size. lia. }
  exists sorted, x. repeat split.
  - exact Hperm.
  - apply (ascending_numbers prec emax); [done| |done].
    by rewrite <- Hperm.
  - exact Hx.
  - rewrite (quantile_reads_index libc _ _ _ k Hk). fold sorted.
    unfold loadAt. rewrite (proj2 (Z.ltb_ge k 0) Hk0), Hx. reflexivity.
Qed.

Lemma quantile_nearest_rank_witness :
  quantileIndex (decimal64 5 1 : binary64)
    (length [decimal64 5 0; decimal64 3 0; decimal64 1 0]) = Some 1
  /\ exists sorted x,
       Permutation [decimal64 5 0; decimal64 3 0; decimal64 1 0] sorted
       /\ StronglySorted (fun a b => SFleb a b = true) sorted
       /\ sorted !! Z.to_nat 1 = Some x
       /\ calculatePercentageQuantileOfSamples referenceQsort (ieee 53 1024)
            [decimal64 5 0; decimal64 3 0; decimal64 1 0] (decimal64 5 1)
            (length [decimal64 5 0; decimal64 3 0; decimal64 1 0])
          = Some {| quantile := Loaded x;
                    dataArrayAfter := [decimal64 5 0; decimal64 3 0; decimal64 1 0] |}.
Proof.
  apply (quantile_nearest_rank referenceQsort 53 1024
           [decimal64 5 0; decimal64 3 0; decimal64 1 0] (decimal64 5 1) 1).
  - lia.
  - discriminate.
  - repeat constructor; (vm_compute; reflexivity) || discriminate.
  - vm_compute. reflexivity.
  - vm_compute. reflexivity.
  - vm_compute. reflexivity.
  - vm_compute. discriminate.
Defined.

Lemma quantileIndex_too_large (n : nat) :
  Z.of_nat n = 2 ^ 32 ->
  quantileIndex threeQuarters n = None
  /\ forall (libc : Qsort) (dataArray : list binary32),
       calculatePercentageQuantileOfFloatSamples libc dataArray threeQuarters n = None.
Proof.
  intros Hn.
  assert (Hidx : quantileIndex threeQuarters n = None).
  { unfold quantileIndex. rewrite Hn. vm_compute. reflexivity. }
  split; [exact Hidx|]. intros libc dataArray.
  unfold calculatePercentageQuantileOfFloatSamples, calculatePercentageQuantileOfSamples.
  destruct (decide _); [|done]. by rewrite Hidx.
Qed.

(** C3, as stated, fails in three ways.  The index is the floor of the
    rounded product: [0.58f] is [9730785 * 2^-24], a little below 0.58, so
    for 50 samples the floor of [p * n] is 28, but the product rounds to
    [29.0f] and the routine returns the element at index 29 of the sorted
    copy.  The index is an [int]: for [p = 0.75] and [2^32] samples the
    floor of [p * n] is below [n] and above [INT_MAX], and the conversion
    has no defined result.  And with a NaN among the samples the
    comparison function is no order ([2.0f] and [1.0f] both compare equal
    to NaN), so [qsort] need not sort: the reference sort leaves
    the array [2.0f, NaN, 1.0f] as it is. *)
Lemma quantile_index_is_of_the_rounded_product :
  (fiftyEightPercent = S754_finite false 9730785 (-24)
   /\ productFloor fiftyEightPercent 50 = Some 28
   /\ quantileIndex fiftyEightPercent 50 = Some 29
   /\ qsort referenceQsort compareFloats fiftySamples !! 28%nat = Some (fpOfSize 28)
   /\ calculatePercentageQuantileOfFloatSamples referenceQsort fiftySamples
        fiftyEightPercent 50
      = Some {| quantile := Loaded (fpOfSize 29); dataArrayAfter := fiftySamples |}
   /\ SFeqb (fpOfSize 28 : binary32) (fpOfSize 29 : binary32) = false)
  /\ (productFloor threeQuarters (2 ^ 32) = Some (3 * 2 ^ 30)
      /\ quantileIndex threeQuarters (Z.to_nat (2 ^ 32)) = None
      /\ forall (libc : Qsort) (dataArray : list binary32),
           calculatePercentageQuantileOfFloatSamples libc dataArray threeQuarters
             (Z.to_nat (2 ^ 32)) = None)
  /\ (compareFloats (fpOfSize 2) S754_nan = 0
      /\ compareFloats S754_nan (fpOfSize 1) = 0
      /\ compareFloats (fpOfSize 2) (fpOfSize 1) = 1
      /\ qsort referenceQsort compareFloats samplesWithNaN = samplesWithNaN).
Proof.
  split; [|split].
  - repeat split; vm_compute; reflexivity.
  - split; [vm_compute; reflexivity|].
    apply quantileIndex_too_large. apply Z2Nat.id. done.
  - repeat split; vm_compute; reflexivity.
Qed.

Lemma quantile_past_the_end (libc : Qsort) (T : FloatType) (dataArray : list T) (p : T) :
  quantileIndex p (length dataArray) = Some (Z.of_nat (length dataArray)) ->
  calculatePercentageQuantileOfSamples libc T dataArray p (length dataArray)
  = Some {| quantile := OutOfBounds (Z.of_nat (length dataArray)) (length dataArray);
            dataArrayAfter := dataArray |}.
Proof.
  intros Hk. rewrite (quantile_reads_index libc _ _ _ _ Hk).
  unfold loadAt. rewrite (proj2 (Z.ltb_ge _ 0)) by lia.
  rewrite Nat2Z.id, lookup_ge_None_2 by (rewrite qsort_size; lia).
  by rewrite qsort_size.
Qed.

(** C4 (as amended).  With [quantilePercentage] exactly [1.0] and a
    non-empty array of [n] samples, [n < 2^24] for the [float] routine and
    [n <= INT_MAX] for the [double] routine (sizes that are numbers of the
    floating-point type and of [int]), the index computed is [n] and the
    routine reads index [n] of the sorted copy of [n] elements: one past
    the last element, with nothing to clamp it.  Whatever [qsort] did with
    the copy. *)
Theorem quantile_at_one_out_of_bounds (libc : Qsort)
    (floats : list binary32) (doubles : list binary64) :
  floats <> [] -> Z.of_nat (length floats) < 2 ^ 24 ->
  doubles <> [] -> Z.of_nat (length doubles) <= INT_MAX ->
  (quantileIndex (fpOfSize 1 : binary32) (length floats) = Some (Z.of_nat (length floats))
   /\ calculatePercentageQuantileOfFloatSamples libc floats (fpOfSize 1) (length floats)
      = Some {| quantile := OutOfBounds (Z.of_nat (length floats)) (length floats);
                dataArrayAfter := floats |})
  /\ (quantileIndex (fpOfSize 1 : binary64) (length doubles)
      = Some (Z.of_nat (length doubles))
      /\ calculatePercentageQuantileOfDoubleSamples libc doubles (fpOfSize 1)
           (length doubles)
         = Some {| quantile := OutOfBounds (Z.of_nat (length doubles)) (length doubles);
                   dataArrayAfter := doubles |}).
Proof.
  intros Hfloats Hf Hdoubles Hd.
  assert (Hf0 : 0 < Z.of_nat (length floats))
    by (destruct floats; [done | simpl length; lia]).
  assert (Hd0 : 0 < Z.of_nat (length doubles))
    by (destruct doubles; [done | simpl length; lia]).
  assert (H24 : 2 ^ 24 <= INT_MAX) by (by vm_compute).
  assert (H53 : INT_MAX < 2 ^ 53) by (by vm_compute).
  assert (Hi32 : quantileIndex (fpOfSize 1 : binary32) (length floats)
                 = Some (Z.of_nat (length floats)))
    by (apply (quantileIndex_one 24 128); lia).
  assert (Hi64 : quantileIndex (fpOfSize 1 : binary64) (length doubles)
                 = Some (Z.of_nat (length doubles)))
    by (apply (quantileIndex_one 53 1024); lia).
  split; (split; [done|]).
  - by apply (quantile_past_the_end libc binary32).
  - by apply (quantile_past_the_end libc binary64).
Qed.

Lemma quantile_at_one_out_of_bounds_witness :
  (quantileIndex (fpOfSize 1 : binary32)
     (length [decimal32 5 0; decimal32 3 0; decimal32 1 0])
   = Some (Z.of_nat (length [decimal32 5 0; decimal32 3 0; decimal32 1 0]))
   /\ calculatePercentageQuantileOfFloatSamples referenceQsort
        [decimal32 5 0; decimal32 3 0; decimal32 1 0] (fpOfSize 1)
        (length [decimal32 5 0; decimal32 3 0; decimal32 1 0])
      = Some {| quantile :=
                  OutOfBounds (Z.of_nat (length [decimal32 5 0; decimal32 3 0; decimal32 1 0]))
                    (length [decimal32 5 0; decimal32 3 0; decimal32 1 0]);
                dataArrayAfter := [decimal32 5 0; decimal32 3 0; decimal32 1 0] |})
  /\ (quantileIndex (fpOfSize 1 : binary64)
        (length [decimal64 5 0; decimal64 3 0; decimal64 1 0])
      = Some (Z.of_nat (length [decimal64 5 0; decimal64 3 0; decimal64 1 0]))
      /\ calculatePercentageQuantileOfDoubleSamples referenceQsort
           [decimal64 5 0; decimal64 3 0; decimal64 1 0] (fpOfSize 1)
           (length [decimal64 5 0; decimal64 3 0; decimal64 1 0])
         = Some {| quantile :=
                     OutOfBounds (Z.of_nat (length [decimal64 5 0; decimal64 3 0; decimal64 1 0]))
                       (length [decimal64 5 0; decimal64 3 0; decimal64 1 0]);
                   dataArrayAfter := [decimal64 5 0; decimal64 3 0; decimal64 1 0] |}).
Proof.
  apply (quantile_at_one_out_of_bounds referenceQsort
           [decimal32 5 0; decimal32 3 0; decimal32 1 0]
           [decimal64 5 0; decimal64 3 0; decimal64 1 0]).
  - discriminate.
  - vm_compute. reflexivity.
  - discriminate.
  - vm_compute. discriminate.
Defined.

(** With [n] samples, all zero, where [n] is [2^24 + 1]: the size converts
    to the [float] [2^24], the index is [n - 1], and the read is inside the
    array. *)
Lemma quantile_at_one_large_float (libc : Qsort) (n : nat) :
  Z.of_nat n = 2 ^ 24 + 1 ->
  quantileIndex (fpOfSize 1 : binary32) n = Some (2 ^ 24)
  /\ calculatePercentageQuantileOfFloatSamples libc
       (replicate n (S754_zero false)) (fpOfSize 1) n
     = Some {| quantile := Loaded (S754_zero false);
               dataArrayAfter := replicate n (S754_zero false) |}.
Proof.
  intros Hn.
  assert (Hidx : quantileIndex (fpOfSize 1 : binary32) n = Some (2 ^ 24)).
  { unfold quantileIndex. rewrite Hn. vm_compute. reflexivity. }
  split; [exact Hidx|].
  pose proof (quantile_reads_index libc binary32 (replicate n (S754_zero false))
                (fpOfSize 1) (2 ^ 24)) as Hread.
  rewrite length_replicate in Hread.
  unfold calculatePercentageQuantileOfFloatSamples. rewrite (Hread Hidx).
  f_equal. f_equal. unfold loadAt.
  rewrite (proj2 (Z.ltb_ge _ 0)) by lia.
  destruct (lookup_lt_is_Some_2
              (qsort libc (@compareSamples binary32) (replicate n (S754_zero false)))
              (Z.to_nat (2 ^ 24))) as [x Hx].
  { rewrite qsort_size, length_replicate. lia. }
  rewrite Hx. f_equal.
  assert (Hin : x ∈ replicate n (S754_zero false)).
  { destruct (qsort_sorts libc _ (@compareSamples binary32)
                (replicate n (S754_zero false))) as [Hperm _].
    - apply (compareSamples_ordersElements 24 128); [lia|].
      apply Forall_replicate. done.
    - rewrite Hperm. by eapply list_elem_of_lookup_2. }
  by apply elem_of_replicate in Hin as [-> _].
Qed.

(** C4, as stated, fails for [float]: [2^24 + 1] is not a [float], so with
    [quantilePercentage = 1.0] and [n = 2^24 + 1] samples the index is
    [n - 1], the last element, and nothing is read out of bounds. *)
Lemma quantile_at_one_in_bounds_float :
  quantileIndex (fpOfSize 1 : binary32) (Z.to_nat (2 ^ 24 + 1)) = Some (2 ^ 24)
  /\ calculatePercentageQuantileOfFloatSamples referenceQsort
       (replicate (Z.to_nat (2 ^ 24 + 1)) (S754_zero false)) (fpOfSize 1)
       (Z.to_nat (2 ^ 24 + 1))
     = Some {| quantile := Loaded (S754_zero false);
               dataArrayAfter := replicate (Z.to_nat (2 ^ 24 + 1)) (S754_zero false) |}.
Proof. apply quantile_at_one_large_float. apply Z2Nat.id. done. Qed.


(* ===================================================================== *)
(** * The error of one operation *)
(* ===================================================================== *)

Lemma bpow_pos (e : Z) : (0 < powerRZ 2 e)%R.
Proof. apply powerRZ_lt. lra. Qed.

Lemma bpow_add (a b : Z) : powerRZ 2 (a + b) = (powerRZ 2 a * powerRZ 2 b)%R.
Proof. apply powerRZ_add. lra. Qed.

Lemma IZR_pow2 (k : Z) : 0 <= k -> IZR (2 ^ k) = powerRZ 2 k.
Proof.
  intros Hk. rewrite <- (Z2Nat.id k Hk).
  rewrite <- pow_IZR, <- pow_powerRZ. reflexivity.
Qed.

Lemma bpow_ge_1 (k : Z) : 0 <= k -> (1 <= powerRZ 2 k)%R.
Proof.
  intros Hk. rewrite <- IZR_pow2 by done. apply IZR_le.
  assert (0 < 2 ^ k) by (apply Z.pow_pos_nonneg; lia). lia.
Qed.

Lemma bpow_le (a b : Z) : a <= b -> (powerRZ 2 a <= powerRZ 2 b)%R.
Proof.
  intros Hab. replace b with (a + (b - a)) by lia. rewrite bpow_add.
  pose proof (bpow_pos a). pose proof (bpow_ge_1 (b - a) ltac:(lia)). nra.
Qed.

Lemma bpow_succ (a : Z) : powerRZ 2 (a + 1) = (2 * powerRZ 2 a)%R.
Proof. rewrite bpow_add. simpl. lra. Qed.

(** [m * 2^(e' - e) * 2^e = m * 2^e'] *)
Lemma IZR_shift (m k e : Z) :
  0 <= k -> (IZR (m * 2 ^ k) * powerRZ 2 e = IZR m * powerRZ 2 (e + k))%R.
Proof.
  intros Hk. rewrite mult_IZR, IZR_pow2, bpow_add by done. ring.
Qed.

Section RoundingError.
Context (prec emax : Z).
Hypothesis prec_gt_1 : 1 < prec.

Lemma SF2R_roundedFloat (s : bool) (m3 e3 : Z) :
  0 <= m3 -> isFinite (roundedFloat prec emax s m3 e3) = true ->
  SF2R (roundedFloat prec emax s m3 e3)
  = ((if s then - IZR m3 else IZR m3) * powerRZ 2 e3)%R.
Proof.
  intros Hm. destruct m3 as [|p|p]; try lia; simpl.
  - intros _. destruct s; lra.
  - destruct (e3 <=? emax - prec); [|done]. intros _. by destruct s.
Qed.

Lemma valid_roundedFloat (s : bool) (m3 e3 : Z) :
  0 <= m3 -> m3 = 0 \/ fexp prec emax (Zdigits2 m3 + e3) = e3 ->
  valid_binary prec emax (roundedFloat prec emax s m3 e3) = true.
Proof.
  intros Hm Hc. destruct m3 as [|p|p]; try lia; simpl; [done|].
  destruct (e3 <=? emax - prec) eqn:He; [|done].
  simpl. unfold bounded, canonical_mantissa. rewrite He.
  destruct Hc as [|Hc]; [done|]. simpl in Hc. rewrite Hc, Z.eqb_refl. done.
Qed.

(** The error of [binary_round_aux] on the number [x], which lies from
    [m * 2^e] to [(m + 1) * 2^e]: relative to the result, or absolute when
    the result is below the normal range. *)
Lemma rounding_error (s : bool) (m e : Z) (l : location) (x : R) :
  0 <= m -> e <= fexp prec emax (Zdigits2 m + e) ->
  (IZR m * powerRZ 2 e <= x <= IZR (m + 1) * powerRZ 2 e)%R ->
  (l = loc_Exact -> x = (IZR m * powerRZ 2 e)%R) ->
  isFinite (binary_round_aux prec emax s m e l) = true ->
  valid_binary prec emax (binary_round_aux prec emax s m e l) = true
  /\ exists v : R,
       SF2R (binary_round_aux prec emax s m e l) = (if s then - v else v)%R
       /\ (0 <= v)%R
       /\ ((Rabs (v - x) <= powerRZ 2 (1 - prec) * v)%R
           \/ ((Rabs (v - x) <= powerRZ 2 (emin prec emax))%R
               /\ ~ (l = loc_Exact /\ emin prec emax <= e))).
Proof.
  intros Hm He Hx Hexact.
  destruct (binary_round_aux_spec prec emax prec_gt_1 s m e l Hm He)
    as (m3 & e3 & -> & Hm3 & Hcanon & Hshape & He3 & _ & Hlo & Hhi & Hex).
  intros Hfin. split; [apply valid_roundedFloat; [lia | done]|].
  exists (IZR m3 * powerRZ 2 e3)%R.
  rewrite SF2R_roundedFloat by (lia || done).
  split; [destruct s; lra|].
  pose proof (bpow_pos e3) as Hp3.
  assert (Hm3' : (0 <= IZR m3)%R) by (apply IZR_le; lia).
  split; [nra|].
  assert (Hk : 0 <= e3 - e) by lia.
  (* the interval of [x], at the exponent of the result *)
  assert (Hlow : ((IZR m3 - 1) * powerRZ 2 e3 <= x)%R).
  { apply IZR_le in Hlo. rewrite mult_IZR, minus_IZR, IZR_pow2 in Hlo by done.
    replace e3 with (e + (e3 - e)) by lia. rewrite bpow_add.
    pose proof (bpow_pos e). nra. }
  assert (Hhigh : (x <= (IZR m3 + 1) * powerRZ 2 e3)%R).
  { apply IZR_le in Hhi. rewrite mult_IZR, !plus_IZR, IZR_pow2 in Hhi by done.
    replace e3 with (e + (e3 - e)) by lia. rewrite bpow_add.
    rewrite plus_IZR in Hx. pose proof (bpow_pos e). nra. }
  assert (Hdist : (Rabs (IZR m3 * powerRZ 2 e3 - x) <= powerRZ 2 e3)%R).
  { apply Rabs_le. lra. }
  destruct Hshape as [Hnormal|Hemin].
  - left. apply IZR_le in Hnormal. rewrite IZR_pow2 in Hnormal by lia.
    eapply Rle_trans; [exact Hdist|].
    replace (powerRZ 2 e3) with (powerRZ 2 (1 - prec) * powerRZ 2 (prec - 1) * powerRZ 2 e3)%R
      at 1.
    + pose proof (bpow_pos (1 - prec)) as Hu.
      pose proof (Rmult_lt_0_compat _ _ Hu Hp3) as Hub.
      generalize dependent (powerRZ 2 (1 - prec)). generalize dependent (powerRZ 2 e3).
      generalize dependent (powerRZ 2 (prec - 1)). generalize dependent (IZR m3).
      intros. nra.
    + rewrite <- bpow_add. replace (1 - prec + (prec - 1)) with 0 by lia. simpl. lra.
  - assert (Hcases : (l = loc_Exact /\ emin prec emax <= e)
                      \/ ~ (l = loc_Exact /\ emin prec emax <= e)).
    { destruct l; [|right; by intros [? _]].
      destruct (Z.le_gt_cases (emin prec emax) e); [by left | right; lia]. }
    destruct Hcases as [[Hl Hee]|Hno].
    + left. pose proof (fexp_ge_emin prec emax (Zdigits2 m + e)).
      destruct (Hex Hl ltac:(lia)) as [-> ->].
      rewrite (Hexact Hl).
      replace (IZR m * powerRZ 2 e - IZR m * powerRZ 2 e)%R with 0%R by ring.
      rewrite Rabs_R0. apply Rmult_le_pos; [left; apply bpow_pos|].
      apply Rmult_le_pos; [done | left; apply bpow_pos].
    + right. split; [|done]. by rewrite <- Hemin.
Qed.
End RoundingError.

Lemma Rabs_zero_le (v : R) : (0 <= v)%R -> (Rabs (0 - 0) <= v)%R.
Proof. intros Hv. replace (0 - 0)%R with 0%R by ring. by rewrite Rabs_R0. Qed.

Lemma IZR_cond_Zopp (s : bool) (z : Z) :
  IZR (cond_Zopp s z) = (if s then - IZR z else IZR z)%R.
Proof. destruct s; simpl; [apply opp_IZR | done]. Qed.

Lemma signed_product (s t : bool) (a b c d : R) :
  ((if s then - a else a) * c * ((if t then - b else b) * d)
   = if xorb s t then - (a * b * (c * d)) else a * b * (c * d))%R.
Proof. destruct s, t; simpl; ring. Qed.

Lemma signed_distance (s : bool) (v x : R) :
  Rabs ((if s then - v else v) - (if s then - x else x)) = Rabs (v - x).
Proof.
  destruct s; [|done]. replace (- v - - x)%R with (- (v - x))%R by ring.
  apply Rabs_Ropp.
Qed.

Lemma signed_magnitude (s : bool) (v : R) : Rabs (if s then - v else v) = Rabs v.
Proof. destruct s; [apply Rabs_Ropp | done]. Qed.

Section Operations.
Context (prec emax : Z).
Hypothesis prec_gt_1 : 1 < prec.
Hypothesis emax_ge_prec : prec <= emax.

Lemma emin_negative : emin prec emax < 0.
Proof. unfold emin. lia. Qed.

(** The error of [binary_round] at an exponent of the format: relative. *)
Lemma binary_round_error (s : bool) (m : positive) (e : Z) :
  emin prec emax <= e ->
  isFinite (binary_round prec emax s m e) = true ->
  valid_binary prec emax (binary_round prec emax s m e) = true
  /\ exists v : R,
       SF2R (binary_round prec emax s m e) = (if s then - v else v)%R
       /\ (0 <= v)%R
       /\ (Rabs (v - IZR (Zpos m) * powerRZ 2 e) <= powerRZ 2 (1 - prec) * v)%R.
Proof.
  intros He. unfold binary_round.
  set (E := fexp prec emax (Zpos (digits2_pos m) + e)).
  destruct (shl_align_spec m e E) as (mz & -> & Hmz & Hdz).
  assert (HEz : fexp prec emax (Zdigits2 (Zpos mz) + Z.min e E) = E).
  { simpl. rewrite Hdz. subst E. f_equal. lia. }
  assert (HEmin : emin prec emax <= E) by apply fexp_ge_emin.
  assert (Hx : (IZR (Zpos m) * powerRZ 2 e
                = IZR (Zpos mz) * powerRZ 2 (Z.min e E))%R).
  { rewrite Hmz, IZR_shift by lia. f_equal. f_equal. lia. }
  intros Hfin.
  destruct (rounding_error prec emax prec_gt_1 s (Zpos mz) (Z.min e E) loc_Exact
              (IZR (Zpos mz) * powerRZ 2 (Z.min e E))%R)
    as (Hvalid & v & Hv & Hv0 & Herr); try done.
  - rewrite HEz. lia.
  - rewrite plus_IZR. pose proof (bpow_pos (Z.min e E)). nra.
  - split; [done|]. exists v. split; [done|]. split; [done|].
    rewrite Hx. destruct Herr as [Herr|[_ Hno]]; [done|].
    destruct Hno. split; [done | lia].
Qed.

Lemma binary_normalize_error (z e : Z) :
  emin prec emax <= e ->
  isFinite (binary_normalize prec emax z e false) = true ->
  valid_binary prec emax (binary_normalize prec emax z e false) = true
  /\ (Rabs (SF2R (binary_normalize prec emax z e false) - IZR z * powerRZ 2 e)
      <= powerRZ 2 (1 - prec) * Rabs (SF2R (binary_normalize prec emax z e false)))%R.
Proof.
  intros He. destruct z as [|p|p]; cbn [binary_normalize]; intros Hfin.
  - split; [done|]. simpl. rewrite Rmult_0_l, Rabs_R0. apply Rabs_zero_le. lra.
  - destruct (binary_round_error false p e He Hfin) as (Hvalid & v & -> & Hv0 & Herr).
    split; [done|]. by rewrite (Rabs_right v) by lra.
  - destruct (binary_round_error true p e He Hfin) as (Hvalid & v & -> & Hv0 & Herr).
    split; [done|]. rewrite Rabs_Ropp, (Rabs_right v) by lra.
    change (Zneg p) with (- Zpos p). rewrite opp_IZR.
    replace (- v - - IZR (Zpos p) * powerRZ 2 e)%R
      with (- (v - IZR (Zpos p) * powerRZ 2 e))%R by ring.
    by rewrite Rabs_Ropp.
Qed.

(** A mantissa brought to a lower exponent stands for the same number. *)
Lemma aligned_value (s : bool) (m : positive) (e ez : Z) :
  ez <= e ->
  (IZR (cond_Zopp s (Zpos (shl_align m e ez).1)) * powerRZ 2 ez
   = SF2R (S754_finite s m e))%R.
Proof.
  intros Hez. destruct (shl_align_spec m e ez) as (mz & -> & Hmz & _).
  cbn [fst SF2R]. rewrite !IZR_cond_Zopp, Hmz.
  replace (Z.min e ez) with ez by lia.
  pose proof (IZR_shift (Zpos m) (e - ez) ez ltac:(lia)) as Hs.
  replace (ez + (e - ez)) with e in Hs by lia.
  destruct s; lra.
Qed.

Lemma SFadd_finite (x y : spec_float) :
  isFinite (SFadd prec emax x y) = true -> isFinite x = true /\ isFinite y = true.
Proof.
  destruct x as [sx|sx| |sx mx ex], y as [sy|sy| |sy my ey]; cbn [SFadd isFinite];
    try done; by destruct sx, sy.
Qed.

Lemma SFsub_finite (x y : spec_float) :
  isFinite (SFsub prec emax x y) = true -> isFinite x = true /\ isFinite y = true.
Proof.
  destruct x as [sx|sx| |sx mx ex], y as [sy|sy| |sy my ey]; cbn [SFsub isFinite];
    try done; by destruct sx, sy.
Qed.

Lemma SFmul_finite (x y : spec_float) :
  isFinite (SFmul prec emax x y) = true -> isFinite x = true /\ isFinite y = true.
Proof.
  destruct x as [sx|sx| |sx mx ex], y as [sy|sy| |sy my ey]; cbn [SFmul isFinite];
    done.
Qed.

Lemma SFdiv_finite (x y : spec_float) :
  isFinite (SFdiv prec emax x y) = true -> isFinite x = true.
Proof.
  destruct x as [sx|sx| |sx mx ex], y as [sy|sy| |sy my ey]; cbn [SFdiv isFinite];
    done.
Qed.

(** [x + y] *)
Lemma SFadd_error (x y : spec_float) :
  valid_binary prec emax x = true -> valid_binary prec emax y = true ->
  isFinite (SFadd prec emax x y) = true ->
  valid_binary prec emax (SFadd prec emax x y) = true
  /\ (Rabs (SF2R (SFadd prec emax x y) - (SF2R x + SF2R y))
      <= powerRZ 2 (1 - prec) * Rabs (SF2R (SFadd prec emax x y)))%R.
Proof.
  intros Hx Hy Hfin.
  pose proof (bpow_pos (1 - prec)) as Hu.
  assert (Hsame : forall v : R, (Rabs (v - (0 + v)) <= powerRZ 2 (1 - prec) * Rabs v)%R).
  { intros v. replace (v - (0 + v))%R with 0%R by ring. rewrite Rabs_R0.
    pose proof (Rabs_pos v). nra. }
  assert (Hsame' : forall v : R, (Rabs (v - (v + 0)) <= powerRZ 2 (1 - prec) * Rabs v)%R).
  { intros v. replace (v - (v + 0))%R with 0%R by ring. rewrite Rabs_R0.
    pose proof (Rabs_pos v). nra. }
  destruct x as [sx|sx| |sx mx ex], y as [sy|sy| |sy my ey];
    cbn [SFadd isFinite] in Hfin |- *; try done; try (by destruct sx, sy).
  destruct (valid_finite prec emax _ _ _ Hx) as ([Hex _] & _).
  destruct (valid_finite prec emax _ _ _ Hy) as ([Hey _] & _).
  destruct (binary_normalize_error _ (Z.min ex ey) ltac:(lia) Hfin) as [Hvalid Herr].
  split; [done|].
  rewrite plus_IZR, Rmult_plus_distr_r in Herr.
    rewrite !aligned_value in Herr by lia. exact Herr.
Qed.

(** [x - y] *)
Lemma SFsub_error (x y : spec_float) :
  valid_binary prec emax x = true -> valid_binary prec emax y = true ->
  isFinite (SFsub prec emax x y) = true ->
  valid_binary prec emax (SFsub prec emax x y) = true
  /\ (Rabs (SF2R (SFsub prec emax x y) - (SF2R x - SF2R y))
      <= powerRZ 2 (1 - prec) * Rabs (SF2R (SFsub prec emax x y)))%R.
Proof.
  intros Hx Hy Hfin.
  pose proof (bpow_pos (1 - prec)) as Hu.
  assert (Hsame : forall v w : R, v = w ->
             (Rabs (v - w) <= powerRZ 2 (1 - prec) * Rabs v)%R).
  { intros v w <-. replace (v - v)%R with 0%R by ring. rewrite Rabs_R0.
    pose proof (Rabs_pos v). nra. }
  destruct x as [sx|sx| |sx mx ex], y as [sy|sy| |sy my ey];
    cbn [SFsub isFinite] in Hfin |- *; try done; try (by destruct sx, sy).
  - destruct sx, sy; (split; [done|]); cbn [SF2R]; apply Hsame; ring.
  - split; [exact Hy|]. apply Hsame. cbn [SF2R]. rewrite !IZR_cond_Zopp.
    destruct sy; simpl; ring.
  - split; [done|]. apply Hsame. cbn [SF2R]. ring.
  - destruct (valid_finite prec emax _ _ _ Hx) as ([Hex _] & _).
    destruct (valid_finite prec emax _ _ _ Hy) as ([Hey _] & _).
    destruct (binary_normalize_error _ (Z.min ex ey) ltac:(lia) Hfin) as [Hvalid Herr].
    split; [done|].
    rewrite minus_IZR, Rmult_minus_distr_r in Herr.
    rewrite !aligned_value in Herr by lia. exact Herr.
Qed.

(** [x * y] *)
Lemma SFmul_error (x y : spec_float) :
  valid_binary prec emax x = true -> valid_binary prec emax y = true ->
  isFinite (SFmul prec emax x y) = true ->
  valid_binary prec emax (SFmul prec emax x y) = true
  /\ (Rabs (SF2R (SFmul prec emax x y) - SF2R x * SF2R y)
      <= powerRZ 2 (1 - prec) * Rabs (SF2R (SFmul prec emax x y))
         + powerRZ 2 (emin prec emax))%R.
Proof.
  intros Hx Hy Hfin.
  pose proof (bpow_pos (1 - prec)) as Hu.
  pose proof (bpow_pos (emin prec emax)) as Heta.
  assert (Hzero : forall w : R, w = 0%R ->
             (Rabs (0 - w) <= powerRZ 2 (1 - prec) * Rabs 0
                              + powerRZ 2 (emin prec emax))%R).
  { intros w ->. replace (0 - 0)%R with 0%R by ring. rewrite Rabs_R0. lra. }
  destruct x as [sx|sx| |sx mx ex], y as [sy|sy| |sy my ey];
    cbn [SFmul isFinite] in Hfin |- *; try done;
    try (split; [done|]; cbn [SF2R]; apply Hzero; ring).
  destruct (valid_finite prec emax _ _ _ Hx) as ([Hex _] & Hmx & Hnx).
  destruct (valid_finite prec emax _ _ _ Hy) as ([Hey _] & Hmy & Hny).
  pose proof emin_negative as Hemin.
  assert (Hp1 : 0 < 2 ^ (prec - 1)) by (apply Z.pow_pos_nonneg; lia).
  assert (Hshift : ex + ey
                   <= fexp prec emax (Zdigits2 (Zpos (mx * my)) + (ex + ey))).
  { assert (Hnormal : 2 ^ (prec - 1) <= Zpos (mx * my) ->
              ex + ey <= fexp prec emax (Zdigits2 (Zpos (mx * my)) + (ex + ey))).
    { intros Hprod.
      destruct (Zdigits2_bounds (Zpos (mx * my)) ltac:(lia)) as [_ Hup].
      assert (prec <= Zdigits2 (Zpos (mx * my))).
      { destruct (Z.le_gt_cases prec (Zdigits2 (Zpos (mx * my)))) as [|Hlt]; [done|].
        assert (2 ^ Zdigits2 (Zpos (mx * my)) <= 2 ^ (prec - 1))
          by (apply Z.pow_le_mono_r; lia).
        lia. }
      unfold fexp. lia. }
    destruct Hnx as [Hnx|Hnx]; [apply Hnormal; rewrite Pos2Z.inj_mul; nia|].
    destruct Hny as [Hny|Hny]; [apply Hnormal; rewrite Pos2Z.inj_mul; nia|].
    pose proof (fexp_ge_emin prec emax (Zdigits2 (Zpos (mx * my)) + (ex + ey))). lia. }
  destruct (rounding_error prec emax prec_gt_1 (xorb sx sy) (Zpos (mx * my)) (ex + ey)
              loc_Exact (IZR (Zpos (mx * my)) * powerRZ 2 (ex + ey))%R)
    as (Hvalid & v & Hv & Hv0 & Herr); try done.
  { rewrite plus_IZR. pose proof (bpow_pos (ex + ey)). nra. }
  split; [done|]. rewrite Hv. cbn [SF2R]. rewrite !IZR_cond_Zopp.
  rewrite Pos2Z.inj_mul, mult_IZR, bpow_add in Herr.
  rewrite signed_product, signed_distance, signed_magnitude, (Rabs_right v) by lra.
  destruct Herr as [Herr|[Herr _]]; nra.
Qed.

Lemma new_location_exact (steps k : Z) : new_location steps k = loc_Exact -> k = 0.
Proof.
  unfold new_location, new_location_even, new_location_odd.
  destruct (Z.even steps); destruct (k =? 0) eqn:Hk; try done;
    intros _; by apply Z.eqb_eq.
Qed.

(** The quotient that [SFdiv_core_binary] passes to the rounding: the
    number to round lies from [q * 2^e'] to [(q + 1) * 2^e'], and [q] has
    the digits of the format at least. *)
Lemma SFdiv_core_binary_spec (mx my : positive) (ex ey : Z) :
  exists (q e' : Z) (l : location),
    SFdiv_core_binary prec emax (Zpos mx) ex (Zpos my) ey = (q, e', l)
    /\ 0 <= q /\ e' <= fexp prec emax (Zdigits2 q + e')
    /\ (IZR q * powerRZ 2 e'
        <= IZR (Zpos mx) * powerRZ 2 ex / (IZR (Zpos my) * powerRZ 2 ey)
        <= IZR (q + 1) * powerRZ 2 e')%R
    /\ (l = loc_Exact ->
        (IZR (Zpos mx) * powerRZ 2 ex / (IZR (Zpos my) * powerRZ 2 ey)
         = IZR q * powerRZ 2 e')%R).
Proof.
  unfold SFdiv_core_binary. cbn [Zdigits2].
  set (d1 := Zpos (digits2_pos mx)). set (d2 := Zpos (digits2_pos my)).
  set (e' := Z.min (fexp prec emax (d1 + ex - (d2 + ey))) (ex - ey)).
  set (s := ex - ey - e').
  assert (Hs : 0 <= s) by (subst s e'; lia).
  set (m' := match s with Z0 => Zpos mx | Zpos _ => Z.shiftl (Zpos mx) s | Zneg _ => 0 end).
  assert (Hm' : m' = Zpos mx * 2 ^ s).
  { subst m'. destruct s as [|k|k] eqn:Hk; [simpl; lia | | lia].
    by rewrite Z.shiftl_mul_pow2. }
  assert (H2s : 0 < 2 ^ s) by (apply Z.pow_pos_nonneg; lia).
  pose proof (Z_div_mod m' (Zpos my) ltac:(lia)) as Hdm.
  destruct (Z.div_eucl m' (Zpos my)) as [q r]. destruct Hdm as [Heq Hr].
  exists q, e', (new_location (Zpos my) r).
  assert (Hq : 0 <= q) by nia.
  split; [done|]. split; [done|]. split.
  { (* the digits of the quotient *)
    assert (Hdigits : d1 + s - d2 <= Zdigits2 q).
    { destruct (Z.le_gt_cases (d1 + s - d2) 0) as [|Ht].
      { pose proof (Zdigits2_nonneg q). lia. }
      pose proof (digits2_pos_lower mx) as Hlow. fold d1 in Hlow.
      pose proof (digits2_pos_upper my) as Hup. fold d2 in Hup.
      assert (Hd1 : 0 < d1) by (subst d1; lia).
      assert (Hd2 : 0 < d2) by (subst d2; lia).
      assert (Hpow : 2 ^ (d1 - 1) * 2 ^ s = 2 ^ (d1 + s - d2 - 1) * 2 ^ d2).
      { rewrite <- !Z.pow_add_r by lia. f_equal. lia. }
      assert (Ht1 : 0 < 2 ^ (d1 + s - d2 - 1)) by (apply Z.pow_pos_nonneg; lia).
      assert (Hqlow : 2 ^ (d1 + s - d2 - 1) <= q) by nia.
      destruct (Z.le_gt_cases (d1 + s - d2) (Zdigits2 q)) as [|Hlt]; [done|].
      destruct (Zdigits2_bounds q ltac:(lia)) as [_ Hqup].
      assert (2 ^ Zdigits2 q <= 2 ^ (d1 + s - d2 - 1))
        by (apply Z.pow_le_mono_r; lia).
      lia. }
    eapply Z.le_trans; [apply Z.le_min_l|].
    apply fexp_mono. subst s. lia. }
  assert (Hy : (0 < IZR (Zpos my))%R) by (apply IZR_lt; lia).
  pose proof (bpow_pos ey) as Hey. pose proof (bpow_pos e') as He'.
  assert (Hratio : (IZR (Zpos mx) * powerRZ 2 ex / (IZR (Zpos my) * powerRZ 2 ey)
                    = IZR m' / IZR (Zpos my) * powerRZ 2 e')%R).
  { rewrite Hm', mult_IZR, IZR_pow2 by done.
    replace ex with (s + e' + ey) by (subst s; lia). rewrite !bpow_add.
    field. split; lra. }
  rewrite Hratio.
  assert (Hquot : (IZR q <= IZR m' / IZR (Zpos my) <= IZR (q + 1))%R
                  /\ (r = 0 -> (IZR m' / IZR (Zpos my))%R = IZR q)).
  { rewrite Heq, plus_IZR, mult_IZR, plus_IZR.
    assert (Hr' : (0 <= IZR r <= IZR (Zpos my))%R) by (split; apply IZR_le; lia).
    replace ((IZR (Zpos my) * IZR q + IZR r) / IZR (Zpos my))%R
      with (IZR q + IZR r / IZR (Zpos my))%R by (field; lra).
    assert (0 <= IZR r / IZR (Zpos my) <= 1)%R.
    { split; [apply Rmult_le_pos; [lra | left; by apply Rinv_0_lt_compat]|].
      apply (Rmult_le_reg_r (IZR (Zpos my))); [done|].
      replace (IZR r / IZR (Zpos my) * IZR (Zpos my))%R with (IZR r) by (field; lra).
      lra. }
    split; [lra|]. intros ->. unfold Rdiv. rewrite Rmult_0_l. lra. }
  destruct Hquot as [[Hqlo Hqhi] Hqex].
  split; [split; nra|].
  intros Hl%new_location_exact. by rewrite (Hqex Hl).
Qed.

Lemma signed_quotient (s t : bool) (a b c d : R) :
  (b * d <> 0)%R ->
  ((if s then - a else a) * c / ((if t then - b else b) * d)
   = if xorb s t then - (a * c / (b * d)) else a * c / (b * d))%R.
Proof.
  intros Hbd. assert (b <> 0 /\ d <> 0)%R as [Hb Hd].
  { split; intros ->; apply Hbd; ring. }
  destruct s, t; simpl; field; done.
Qed.

(** [x / y] *)
Lemma SFdiv_error (x y : spec_float) :
  valid_binary prec emax x = true ->
  isFinite y = true -> SF2R y <> 0%R ->
  isFinite (SFdiv prec emax x y) = true ->
  valid_binary prec emax (SFdiv prec emax x y) = true
  /\ (Rabs (SF2R (SFdiv prec emax x y) - SF2R x / SF2R y)
      <= powerRZ 2 (1 - prec) * Rabs (SF2R (SFdiv prec emax x y))
         + powerRZ 2 (emin prec emax))%R.
Proof.
  intros Hx Hy Hy0 Hfin.
  pose proof (bpow_pos (1 - prec)) as Hu.
  pose proof (bpow_pos (emin prec emax)) as Heta.
  destruct y as [sy|sy| |sy my ey]; try done.
  destruct x as [sx|sx| |sx mx ex]; cbn [SFdiv isFinite] in Hfin |- *; try done.
  - split; [done|]. cbn [SF2R]. unfold Rdiv. rewrite Rmult_0_l.
    replace (0 - 0)%R with 0%R by ring. rewrite Rabs_R0. lra.
  - destruct (SFdiv_core_binary_spec mx my ex ey)
      as (q & e' & l & Hcore & Hq & Hshift & Hrange & Hexact).
    rewrite Hcore in Hfin |- *.
    destruct (rounding_error prec emax prec_gt_1 (xorb sx sy) q e' l _ Hq Hshift
                Hrange Hexact Hfin) as (Hvalid & v & Hv & Hv0 & Herr).
    split; [done|]. rewrite Hv. cbn [SF2R]. rewrite !IZR_cond_Zopp.
    assert (Hnz : (IZR (Zpos my) * powerRZ 2 ey <> 0)%R).
    { pose proof (bpow_pos ey). assert (0 < IZR (Zpos my))%R by (apply IZR_lt; lia).
      nra. }
    rewrite signed_quotient, signed_distance, signed_magnitude, (Rabs_right v)
      by (done || lra).
    assert (0 <= powerRZ 2 (1 - prec) * v)%R by (apply Rmult_le_pos; lra).
    destruct Herr as [Herr|[Herr _]]; lra.
Qed.

(** The conversion of a size. *)
Lemma ofSize_number (n : Z) :
  1 <= n < 2 ^ (emax - 1) ->
  isFinite (binary_normalize prec emax n 0 false) = true
  /\ valid_binary prec emax (binary_normalize prec emax n 0 false) = true
  /\ (Rabs (SF2R (binary_normalize prec emax n 0 false) - IZR n)
      <= powerRZ 2 (1 - prec) * Rabs (SF2R (binary_normalize prec emax n 0 false)))%R.
Proof.
  intros Hn. pose proof emin_negative as Hemin.
  assert (Hfin : isFinite (binary_normalize prec emax n 0 false) = true).
  { destruct n as [|p|p]; try lia. cbn [binary_normalize].
    destruct (binary_round_spec prec emax prec_gt_1 false p 0)
      as (mz & ez & m3 & e3 & -> & _ & _ & Hm3 & _ & _ & He3 & _).
    assert (Hd : Zpos (digits2_pos p) <= emax - 1).
    { apply digits2_pos_below; lia. }
    destruct m3 as [|m3|m3]; try lia; simpl; [done|].
    rewrite (proj2 (Z.leb_le e3 (emax - prec))); [done|].
    unfold fexp, emin in *. lia. }
  split; [done|].
  destruct (binary_normalize_error n 0 ltac:(lia) Hfin) as [Hvalid Herr].
  split; [done|]. simpl in Herr. by rewrite Rmult_1_r in Herr.
Qed.
End Operations.

(** [(double) x] is the number [x]. *)
Lemma floatToDouble_number (x : binary32) :
  valid_binary 24 128 x = true ->
  isFinite (floatToDouble x) = isFinite x
  /\ valid_binary 53 1024 (floatToDouble x) = true
  /\ SF2R (floatToDouble x) = SF2R x.
Proof.
  intros Hx. destruct x as [s|s| |s m e]; try done.
  destruct (valid_finite 24 128 _ _ _ Hx) as ([He1 He2] & Hm & _).
  assert (Hd : Zpos (digits2_pos m) <= 24) by (apply digits2_pos_below; lia).
  assert (Hemin : emin 24 128 = -149) by reflexivity. rewrite Hemin in He1.
  assert (Hround : floatToDouble (S754_finite s m e) = binary_round 53 1024 s m e).
  { unfold floatToDouble. by destruct s. }
  rewrite Hround.
  destruct (binary_round_spec 53 1024 ltac:(lia) s m e)
    as (mz & ez & m3 & e3 & -> & Hez & Hmz & _ & Hcanon & _ & _ & _ & _ & Hexact & _).
  assert (Hfexp : fexp 53 1024 (Zpos (digits2_pos m) + e) <= e).
  { unfold fexp, emin. lia. }
  destruct (Hexact Hfexp) as [-> ->].
  assert (Hmz0 : 0 < mz).
  { rewrite Hmz. apply Z.mul_pos_pos; [lia|]. apply Z.pow_pos_nonneg; lia. }
  assert (Hfin : isFinite (roundedFloat 53 1024 s mz ez) = true).
  { destruct mz as [|p|p]; try lia. simpl.
    rewrite (proj2 (Z.leb_le ez (1024 - 53))); [done | lia]. }
  split; [done|]. split; [apply valid_roundedFloat; [lia | done]|].
  rewrite SF2R_roundedFloat by (lia || done). cbn [SF2R].
  rewrite IZR_cond_Zopp, Hmz.
  pose proof (IZR_shift (Zpos m) (e - ez) ez ltac:(lia)) as Hs.
  replace (ez + (e - ez)) with e in Hs by lia.
  destruct s; lra.
Qed.

(* ===================================================================== *)
(** * Accumulated errors *)
(* ===================================================================== *)

Lemma Rabs_bounds (a b : R) : (Rabs a <= b -> - b <= a <= b)%R.
Proof. unfold Rabs. destruct (Rcase_abs a); lra. Qed.

Section Accumulation.
Local Open Scope R_scope.
Context (eps eta : R).
Hypothesis eps_pos : 0 < eps.
Hypothesis eps_small : eps <= 1 / 2.
Hypothesis eta_pos : 0 <= eta.
Hypothesis eta_small : eta <= eps.

Lemma growth_ge_1 (j : nat) : 1 <= (1 + eps) ^ j.
Proof. apply pow_R1_Rle. lra. Qed.

(** From an error relative to the result to an error relative to the
    exact value. *)
Lemma relative_to_exact (u a v x : R) :
  0 < u -> 2 * u = eps -> 0 <= a ->
  Rabs (v - x) <= u * Rabs v + a ->
  Rabs (v - x) <= eps * Rabs x + 2 * a.
Proof.
  intros Hu Heps Ha Herr.
  assert (Htri : Rabs v <= Rabs x + Rabs (v - x)).
  { replace v with (x + (v - x)) at 1 by ring. apply Rabs_triang. }
  pose proof (Rabs_pos (v - x)). pose proof (Rabs_pos x).
  generalize dependent (Rabs (v - x)). generalize dependent (Rabs x).
  generalize dependent (Rabs v). intros. nra.
Qed.

(** Errors in sequence: [v] for [x] after [j] roundings, then [w] for [v]
    after [k] more. *)
Lemma chain (j k : nat) (a b x v w : R) :
  0 <= a ->
  Rabs (v - x) <= ((1 + eps) ^ j - 1) * Rabs x + a ->
  Rabs (w - v) <= ((1 + eps) ^ k - 1) * Rabs v + b ->
  Rabs (w - x) <= ((1 + eps) ^ (j + k) - 1) * Rabs x + ((1 + eps) ^ k * a + b).
Proof.
  intros Ha Hv Hw. rewrite pow_add.
  pose proof (growth_ge_1 j) as Hj. pose proof (growth_ge_1 k) as Hk.
  assert (Htri : Rabs (w - x) <= Rabs (w - v) + Rabs (v - x)).
  { replace (w - x) with ((w - v) + (v - x)) by ring. apply Rabs_triang. }
  assert (Hv' : Rabs v <= Rabs x + Rabs (v - x)).
  { replace v with (x + (v - x)) at 1 by ring. apply Rabs_triang. }
  pose proof (Rabs_pos x).
  generalize dependent (Rabs (w - x)). generalize dependent (Rabs (w - v)).
  generalize dependent (Rabs (v - x)). generalize dependent (Rabs v).
  generalize dependent (Rabs x).
  generalize dependent ((1 + eps) ^ j). generalize dependent ((1 + eps) ^ k).
  intros gk Hk gj Hj X HX V D Hv HV D' Hw E HE. nra.
Qed.

(** One rounding more. *)
Lemma one_more (j : nat) (a b x v w : R) :
  0 <= a ->
  Rabs (v - x) <= ((1 + eps) ^ j - 1) * Rabs x + a ->
  Rabs (w - v) <= eps * Rabs v + b ->
  Rabs (w - x) <= ((1 + eps) ^ (j + 1) - 1) * Rabs x + ((1 + eps) * a + b).
Proof.
  intros Ha Hv Hw.
  pose proof (chain j 1 a b x v w Ha Hv) as H. rewrite pow_1 in H.
  apply H. replace (1 + eps - 1) with eps by ring. done.
Qed.

(** The sum of [k] copies of [c], then one more. *)
Lemma sum_step (k : nat) (c s s' : R) :
  Rabs (s - INR k * c) <= ((1 + eps) ^ k - 1) * (INR k * Rabs c) ->
  Rabs (s' - (s + c)) <= eps * Rabs (s + c) ->
  Rabs (s' - INR (S k) * c) <= ((1 + eps) ^ S k - 1) * (INR (S k) * Rabs c).
Proof.
  intros Hs Hs'. rewrite S_INR. cbn [pow].
  pose proof (growth_ge_1 k) as Hk. pose proof (pos_INR k) as Hn.
  assert (Htri : Rabs (s' - (INR k + 1) * c)
                 <= Rabs (s' - (s + c)) + Rabs (s - INR k * c)).
  { replace (s' - (INR k + 1) * c) with ((s' - (s + c)) + (s - INR k * c)) by ring.
    apply Rabs_triang. }
  assert (Hsum : Rabs (s + c) <= Rabs (s - INR k * c) + (INR k + 1) * Rabs c).
  { replace (s + c) with ((s - INR k * c) + (INR k + 1) * c) by ring.
    eapply Rle_trans; [apply Rabs_triang|].
    rewrite (Rabs_mult (INR k + 1)), (Rabs_right (INR k + 1)) by lra. lra. }
  pose proof (Rabs_pos c) as Hc.
  assert (Ht : 0 <= INR k * Rabs c) by (apply Rmult_le_pos; lra).
  replace ((INR k + 1) * Rabs c) with (INR k * Rabs c + Rabs c) in Hsum |- * by ring.
  generalize dependent (Rabs (s' - (INR k + 1) * c)).
  generalize dependent (Rabs (s' - (s + c))). generalize dependent (Rabs (s + c)).
  generalize dependent (Rabs (s - INR k * c)).
  generalize dependent (INR k * Rabs c). generalize dependent (Rabs c).
  generalize dependent ((1 + eps) ^ k).
  intros g Hg C HC T HT E HE Sm HSm D HD F HF.
  assert (0 <= eps * ((g - 1) * T - E)) by (apply Rmult_le_pos; lra).
  assert (0 <= eps * (E + (T + C) - Sm)) by (apply Rmult_le_pos; lra).
  assert (0 <= (1 + eps) * ((g - 1) * C)).
  { apply Rmult_le_pos; [lra|]. apply Rmult_le_pos; lra. }
  lra.
Qed.

(** The sum of [n] copies of [c] over the number that stands for [n]. *)
Lemma quotient_of_sum (j : nat) (n c s N : R) :
  1 <= n ->
  Rabs (s - n * c) <= ((1 + eps) ^ j - 1) * (n * Rabs c) ->
  Rabs (N - n) <= eps * n ->
  0 < N /\ Rabs (s / N - c) <= ((1 + eps) ^ (j + 2) - 1) * Rabs c.
Proof.
  intros Hn Hs HN. rewrite pow_add. simpl pow. rewrite Rmult_1_r.
  pose proof (growth_ge_1 j) as Hj.
  assert (HNlow : n * (1 - eps) <= N).
  { apply Rabs_bounds in HN. lra. }
  assert (HN0 : 0 < N) by nra.
  split; [done|].
  assert (Hquot : Rabs (s / N - c) * N = Rabs (s - c * N)).
  { rewrite <- (Rabs_right N) at 2 by lra. rewrite <- Rabs_mult.
    f_equal. field. lra. }
  assert (Hnum : Rabs (s - c * N) <= Rabs (s - n * c) + Rabs c * Rabs (N - n)).
  { replace (s - c * N) with ((s - n * c) + - (c * (N - n))) by ring.
    eapply Rle_trans; [apply Rabs_triang|]. rewrite Rabs_Ropp, Rabs_mult. lra. }
  pose proof (Rabs_pos c) as Hc. pose proof (Rabs_pos (s / N - c)) as Hq.
  generalize dependent (Rabs (s / N - c)). generalize dependent (Rabs (s - c * N)).
  generalize dependent (Rabs (s - n * c)). generalize dependent (Rabs (N - n)).
  generalize dependent (Rabs c). generalize dependent ((1 + eps) ^ j).
  intros g Hg C HC DN HDN E HE F HF Qt HQF HQ.
  (* [Q * N <= (g - 1 + eps) * (n * C)] and [(1 - eps) * n <= N] *)
  assert (Hgoal : (g - 1 + eps) <= (g * ((1 + eps) * (1 + eps)) - 1) * (1 - eps)).
  { assert (0 <= g * (eps * (1 - eps - eps * eps))).
    { apply Rmult_le_pos; [lra|]. apply Rmult_le_pos; nra. }
    nra. }
  assert (HnC : 0 <= n * C) by (apply Rmult_le_pos; lra).
  assert (H1 : Qt * N <= (g - 1 + eps) * (n * C)).
  { assert (C * DN <= C * (eps * n)) by (apply Rmult_le_compat_l; lra). nra. }
  assert (H2 : (g - 1 + eps) * (n * C)
               <= (g * ((1 + eps) * (1 + eps)) - 1) * (1 - eps) * (n * C)).
  { apply Rmult_le_compat_r; done. }
  set (K := g * ((1 + eps) * (1 + eps)) - 1) in *.
  assert (HK : 0 <= K) by (subst K; nra).
  assert (H3 : K * (1 - eps) * (n * C) <= K * C * N).
  { replace (K * (1 - eps) * (n * C)) with (K * C * (n * (1 - eps))) by ring.
    apply Rmult_le_compat_l; [apply Rmult_le_pos; lra | done]. }
  apply (Rmult_le_reg_r N); [done|]. lra.
Qed.

(** The square of a number near [c]. *)
Lemma square_error (g a c m : R) :
  1 <= g -> 0 <= a ->
  Rabs (m - c) <= (g - 1) * Rabs c + a ->
  Rabs (m * m - c * c) <= (g * g - 1) * (c * c) + 2 * g * a * Rabs c + a * a.
Proof.
  intros Hg Ha Hm.
  replace (m * m - c * c) with ((m - c) * (m + c)) by ring. rewrite Rabs_mult.
  assert (Hsum : Rabs (m + c) <= Rabs (m - c) + 2 * Rabs c).
  { replace (m + c) with ((m - c) + 2 * c) by ring.
    eapply Rle_trans; [apply Rabs_triang|].
    rewrite (Rabs_mult 2), (Rabs_right 2) by lra. lra. }
  assert (Hcc : c * c = Rabs c * Rabs c).
  { rewrite <- Rabs_mult. symmetry. apply Rabs_right. nra. }
  rewrite Hcc. pose proof (Rabs_pos c). pose proof (Rabs_pos (m - c)).
  pose proof (Rabs_pos (m + c)).
  generalize dependent (Rabs (m + c)). generalize dependent (Rabs (m - c)).
  generalize dependent (Rabs c). intros C _ HC D HD HD0 S HS HS0.
  assert (D * S <= ((g - 1) * C + a) * ((g - 1) * C + a + 2 * C)).
  { apply Rmult_le_compat; lra. }
  nra.
Qed.

(** A product with the underflow unit, against the two parts of a
    tolerance. *)
Lemma underflow_times (c : R) : eta * Rabs c <= eps * (c * c) + eta.
Proof.
  assert (Hcc : c * c = Rabs c * Rabs c).
  { rewrite <- Rabs_mult. symmetry. apply Rabs_right. nra. }
  rewrite Hcc. pose proof (Rabs_pos c). generalize dependent (Rabs c).
  intros C _ HC. destruct (Rle_lt_dec C 1).
  - assert (0 <= eta * (1 - C)) by (apply Rmult_le_pos; lra).
    assert (0 <= eps * (C * C)) by (apply Rmult_le_pos; nra). lra.
  - assert (0 <= eta * (C * (C - 1))).
    { apply Rmult_le_pos; [lra|]. apply Rmult_le_pos; lra. }
    assert (0 <= (eps - eta) * (C * C)) by (apply Rmult_le_pos; nra). lra.
Qed.

(** The mean of [n] copies of [c]. *)
Lemma mean_error (n : nat) (c s N m : R) :
  (1 <= n)%nat ->
  Rabs (s - INR n * c) <= ((1 + eps) ^ n - 1) * (INR n * Rabs c) ->
  Rabs (N - INR n) <= eps * INR n ->
  Rabs (m - s / N) <= eps * Rabs (s / N) + eta ->
  Rabs (m - c) <= ((1 + eps) ^ (n + 3) - 1) * Rabs c + eta.
Proof.
  intros Hn Hs HN Hm.
  assert (Hn' : 1 <= INR n) by (replace 1 with (INR 1) by done; by apply le_INR).
  destruct (quotient_of_sum n (INR n) c s N Hn' Hs HN) as [_ Hq].
  pose proof (one_more (n + 2) 0 eta c (s / N) m ltac:(lra)) as H.
  rewrite Rplus_0_r, Rmult_0_r, Rplus_0_l in H.
  replace (n + 2 + 1)%nat with (n + 3)%nat in H by lia.
  by apply H.
Qed.

(** The variance of [n] copies of [c]: the mean of the squares [a], less
    the square [b] of the mean [m]. *)
Lemma variance_error (n : nat) (c q s N a m b v : R) :
  (1 <= n)%nat ->
  Rabs (q - c * c) <= eps * (c * c) + eta ->
  Rabs (s - INR n * q) <= ((1 + eps) ^ n - 1) * (INR n * Rabs q) ->
  Rabs (N - INR n) <= eps * INR n ->
  Rabs (a - s / N) <= eps * Rabs (s / N) + eta ->
  Rabs (m - c) <= ((1 + eps) ^ (n + 3) - 1) * Rabs c + eta ->
  Rabs (b - m * m) <= eps * Rabs (m * m) + eta ->
  Rabs (v - (a - b)) <= eps * Rabs (a - b) ->
  Rabs v <= 2 * ((1 + eps) ^ (2 * n + 10) - 1) * (c * c)
            + 6 * (1 + eps) ^ (n + 5) * eta.
Proof.
  intros Hn Hq Hs HN Ha Hm Hb Hv.
  assert (Hcc : Rabs (c * c) = c * c) by (apply Rabs_right; nra).
  assert (Hcc0 : 0 <= c * c) by nra.
  pose proof (growth_ge_1 (n + 3)) as Hg.
  (* the mean of the squares *)
  pose proof (mean_error n q s N a Hn Hs HN Ha) as Haq.
  assert (Hq1 : Rabs (q - c * c) <= ((1 + eps) ^ 1 - 1) * Rabs (c * c) + eta).
  { rewrite pow_1, Hcc. replace (1 + eps - 1) with eps by ring. done. }
  pose proof (chain 1 (n + 3) eta eta (c * c) q a eta_pos Hq1 Haq) as Hac.
  rewrite Hcc in Hac.
  (* the square of the mean *)
  pose proof (square_error ((1 + eps) ^ (n + 3)) eta c m Hg eta_pos Hm) as Hmm.
  pose proof (underflow_times c) as Hunder.
  assert (Hmm' : Rabs (m * m - c * c)
                 <= ((1 + eps) ^ (2 * n + 8) - 1) * Rabs (c * c)
                    + (2 * (1 + eps) ^ (n + 3) + 1) * eta).
  { rewrite Hcc. replace (2 * n + 8)%nat with ((n + 3) + (n + 3) + 2)%nat by lia.
    rewrite (pow_add _ (n + 3 + (n + 3)) 2), (pow_add _ (n + 3) (n + 3)).
    cbn [pow]. rewrite Rmult_1_r.
    remember ((1 + eps) ^ (n + 3)) as g eqn:Hgdef. clear Hgdef.
    assert (2 * g * eta * Rabs c <= 2 * g * (eps * (c * c) + eta)).
    { replace (2 * g * eta * Rabs c) with (2 * g * (eta * Rabs c)) by ring.
      apply Rmult_le_compat_l; lra. }
    assert (eta * eta <= eta) by nra.
    assert (0 <= (g * g * (eps * eps) + 2 * eps * (g * (g - 1))) * (c * c)).
    { apply Rmult_le_pos; [|done]. apply Rplus_le_le_0_compat.
      - apply Rmult_le_pos; nra.
      - apply Rmult_le_pos; [lra|]. apply Rmult_le_pos; lra. }
    nra. }
  assert (Habs : 0 <= (2 * (1 + eps) ^ (n + 3) + 1) * eta)
    by (apply Rmult_le_pos; lra).
  pose proof (one_more (2 * n + 8) _ eta (c * c) (m * m) b Habs Hmm' Hb) as Hbc.
  rewrite Hcc in Hbc.
  (* their difference *)
  assert (Hdiff : Rabs (a - b) <= Rabs (a - c * c) + Rabs (b - c * c)).
  { replace (a - b) with ((a - c * c) + - (b - c * c)) by ring.
    eapply Rle_trans; [apply Rabs_triang|]. rewrite Rabs_Ropp. lra. }
  assert (Hv' : Rabs v <= (1 + eps) * Rabs (a - b)).
  { replace v with ((v - (a - b)) + (a - b)) at 1 by ring.
    eapply Rle_trans; [apply Rabs_triang|]. lra. }
  replace (1 + (n + 3))%nat with (n + 3 + 1)%nat in Hac by lia.
  replace (2 * n + 8 + 1)%nat with ((n + 3) + (n + 3) + 3)%nat in Hbc by lia.
  replace (2 * n + 10)%nat with ((n + 3) + (n + 3) + 4)%nat by lia.
  replace (n + 5)%nat with (n + 3 + 2)%nat by lia.
  rewrite (pow_add _ (n + 3) 1) in Hac.
  rewrite (pow_add _ (n + 3 + (n + 3)) 3), (pow_add _ (n + 3) (n + 3)) in Hbc.
  rewrite (pow_add _ (n + 3 + (n + 3)) 4), (pow_add _ (n + 3) (n + 3)),
    (pow_add _ (n + 3) 2).
  cbn [pow] in Hac, Hbc |- *. rewrite ?Rmult_1_r in Hac, Hbc |- *.
  clear Hmm Hmm' Haq Hq1 Hm Hq Hs HN Ha Hb Hv Hunder Hcc Habs.
  remember (Rabs (a - b)) as DAB eqn:E1. remember (Rabs (a - c * c)) as DA eqn:E2.
  remember (Rabs (b - c * c)) as DB eqn:E3. remember (Rabs v) as DV eqn:E4.
  remember ((1 + eps) ^ (n + 3)) as g eqn:E5. remember (c * c) as X eqn:E6.
  clear E1 E2 E3 E4 E5 E6. rename Hcc0 into HX, Hv' into HDV.
  set (G := 1 + eps) in *.
  assert (HG : 1 <= G <= 3 / 2) by (subst G; lra).
  (* all the terms are products of [g], [G], [X] and [eta] *)
  assert (HgG : 1 <= g * G) by nra.
  assert (HgGG : 1 <= g * G * G) by nra.
  assert (H1 : DV <= G * ((g * G - 1) * X + (g * eta + eta)
                          + ((g * g * (G * (G * G)) - 1) * X
                             + (G * ((2 * g + 1) * eta) + eta)))).
  { eapply Rle_trans; [exact HDV|]. apply Rmult_le_compat_l; lra. }
  eapply Rle_trans; [exact H1|].
  assert (HX1 : 0 <= (g * G * G) * (g * G * G - 1) * X).
  { apply Rmult_le_pos; [|done]. apply Rmult_le_pos; lra. }
  assert (HX2 : 0 <= (G - 1) * X) by (apply Rmult_le_pos; lra).
  assert (HE1 : 0 <= (g * G * (G - 1)) * eta).
  { apply Rmult_le_pos; [|done]. apply Rmult_le_pos; lra. }
  assert (HE2 : 0 <= (G * (g * G - 1)) * eta).
  { apply Rmult_le_pos; [|done]. apply Rmult_le_pos; lra. }
  assert (HE3 : 0 <= (G * G * (g - 1)) * eta).
  { apply Rmult_le_pos; [|done]. apply Rmult_le_pos; [nra | lra]. }
  nra.
Qed.
End Accumulation.

(* ===================================================================== *)
(** * The mean and the variance of a constant array *)
(* ===================================================================== *)

Lemma fold_left_replicate_end {A B : Type} (f : A -> B -> A) (n : nat) (x : B) (a : A) :
  fold_left f (replicate (S n) x) a = f (fold_left f (replicate n x) a) x.
Proof.
  revert a. induction n as [|n IH]; intros a; [done|].
  change (replicate (S (S n)) x) with (x :: replicate (S n) x).
  cbn [fold_left]. rewrite IH. reflexivity.
Qed.

Lemma sumOfSquaresOf_replicate (T : FloatType) (n : nat) (c : T) :
  sumOfSquaresOf (replicate n c) = sumOf (replicate n (fpMul c c)).
Proof.
  unfold sumOfSquaresOf, sumOf. generalize (@fpZero T).
  induction n as [|n IH]; intros a; [done|]. simpl. apply IH.
Qed.

Lemma isFinite_floatToDouble (x : binary32) :
  isFinite (floatToDouble x) = true -> isFinite x = true.
Proof. by destruct x. Qed.

Section ConstantArray.
Context (prec emax : Z).
Hypothesis prec_gt_2 : 2 < prec.
Hypothesis emax_ge_prec : prec <= emax.

Lemma roundingUnit_half : (2 * powerRZ 2 (1 - prec) = roundingUnit prec)%R.
Proof.
  unfold roundingUnit. replace (2 - prec) with (1 - prec + 1) by lia.
  by rewrite bpow_succ.
Qed.

Lemma roundingUnit_range : (0 < roundingUnit prec <= 1 / 2)%R.
Proof.
  unfold roundingUnit. split; [apply bpow_pos|].
  replace (1 / 2)%R with (powerRZ 2 (-1)) by (simpl; lra).
  apply bpow_le. lia.
Qed.

Lemma underflowUnit_half :
  (2 * powerRZ 2 (emin prec emax) = underflowUnit prec emax)%R.
Proof. unfold underflowUnit. by rewrite bpow_succ. Qed.

Lemma underflowUnit_range : (0 <= underflowUnit prec emax <= roundingUnit prec)%R.
Proof.
  unfold underflowUnit, roundingUnit. split; [left; apply bpow_pos|].
  apply bpow_le. unfold emin. lia.
Qed.

(** The operations, each within the tolerance of its exact result. *)
Lemma add_model (x y : spec_float) :
  valid_binary prec emax x = true -> valid_binary prec emax y = true ->
  isFinite (SFadd prec emax x y) = true ->
  valid_binary prec emax (SFadd prec emax x y) = true
  /\ (Rabs (SF2R (SFadd prec emax x y) - (SF2R x + SF2R y))
      <= roundingUnit prec * Rabs (SF2R x + SF2R y))%R.
Proof.
  intros Hx Hy Hfin.
  destruct (SFadd_error prec emax ltac:(lia) x y Hx Hy Hfin) as [Hv Herr].
  split; [done|].
  pose proof (relative_to_exact (roundingUnit prec) (proj2 roundingUnit_range)
                (powerRZ 2 (1 - prec)) 0
                (SF2R (SFadd prec emax x y)) (SF2R x + SF2R y)
                (bpow_pos _) roundingUnit_half ltac:(lra)) as H.
  rewrite Rplus_0_r, Rmult_0_r, Rplus_0_r in H. by apply H.
Qed.

Lemma sub_model (x y : spec_float) :
  valid_binary prec emax x = true -> valid_binary prec emax y = true ->
  isFinite (SFsub prec emax x y) = true ->
  valid_binary prec emax (SFsub prec emax x y) = true
  /\ (Rabs (SF2R (SFsub prec emax x y) - (SF2R x - SF2R y))
      <= roundingUnit prec * Rabs (SF2R x - SF2R y))%R.
Proof.
  intros Hx Hy Hfin.
  destruct (SFsub_error prec emax ltac:(lia) x y Hx Hy Hfin) as [Hv Herr].
  split; [done|].
  pose proof (relative_to_exact (roundingUnit prec) (proj2 roundingUnit_range)
                (powerRZ 2 (1 - prec)) 0
                (SF2R (SFsub prec emax x y)) (SF2R x - SF2R y)
                (bpow_pos _) roundingUnit_half ltac:(lra)) as H.
  rewrite Rplus_0_r, Rmult_0_r, Rplus_0_r in H. by apply H.
Qed.

Lemma mul_model (x y : spec_float) :
  valid_binary prec emax x = true -> valid_binary prec emax y = true ->
  isFinite (SFmul prec emax x y) = true ->
  valid_binary prec emax (SFmul prec emax x y) = true
  /\ (Rabs (SF2R (SFmul prec emax x y) - SF2R x * SF2R y)
      <= roundingUnit prec * Rabs (SF2R x * SF2R y) + underflowUnit prec emax)%R.
Proof.
  intros Hx Hy Hfin.
  destruct (SFmul_error prec emax ltac:(lia) emax_ge_prec x y Hx Hy Hfin) as [Hv Herr].
  split; [done|]. rewrite <- underflowUnit_half.
  apply (relative_to_exact (roundingUnit prec) (proj2 roundingUnit_range)
           (powerRZ 2 (1 - prec)));
    [apply bpow_pos | apply roundingUnit_half | left; apply bpow_pos | done].
Qed.

Lemma div_model (x y : spec_float) :
  valid_binary prec emax x = true ->
  isFinite y = true -> SF2R y <> 0%R ->
  isFinite (SFdiv prec emax x y) = true ->
  valid_binary prec emax (SFdiv prec emax x y) = true
  /\ (Rabs (SF2R (SFdiv prec emax x y) - SF2R x / SF2R y)
      <= roundingUnit prec * Rabs (SF2R x / SF2R y) + underflowUnit prec emax)%R.
Proof.
  intros Hx Hy Hy0 Hfin.
  destruct (SFdiv_error prec emax ltac:(lia) x y Hx Hy Hy0 Hfin)
    as [Hv Herr].
  split; [done|]. rewrite <- underflowUnit_half.
  apply (relative_to_exact (roundingUnit prec) (proj2 roundingUnit_range)
           (powerRZ 2 (1 - prec)));
    [apply bpow_pos | apply roundingUnit_half | left; apply bpow_pos | done].
Qed.

Lemma size_model (n : nat) :
  (1 <= n)%nat -> Z.of_nat n < 2 ^ (emax - 1) ->
  isFinite (binary_normalize prec emax (Z.of_nat n) 0 false) = true
  /\ valid_binary prec emax (binary_normalize prec emax (Z.of_nat n) 0 false) = true
  /\ (Rabs (SF2R (binary_normalize prec emax (Z.of_nat n) 0 false) - INR n)
      <= roundingUnit prec * INR n)%R.
Proof.
  intros Hn Hmax.
  destruct (ofSize_number prec emax ltac:(lia) emax_ge_prec (Z.of_nat n) ltac:(lia))
    as (Hfin & Hvalid & Herr).
  split; [done|]. split; [done|].
  rewrite INR_IZR_INZ.
  pose proof (relative_to_exact (roundingUnit prec) (proj2 roundingUnit_range)
                (powerRZ 2 (1 - prec)) 0
                (SF2R (binary_normalize prec emax (Z.of_nat n) 0 false))
                (IZR (Z.of_nat n))
                (bpow_pos _) roundingUnit_half ltac:(lra)) as H.
  rewrite Rplus_0_r, Rmult_0_r, Rplus_0_r in H.
  rewrite (Rabs_right (IZR (Z.of_nat n))) in H; [by apply H|].
  apply Rle_ge, IZR_le. lia.
Qed.

(** [n] copies of [x], added up from zero. *)
Lemma sum_of_copies (x : spec_float) (n : nat) :
  valid_binary prec emax x = true ->
  isFinite (fold_left (SFadd prec emax) (replicate n x) (S754_zero false)) = true ->
  valid_binary prec emax (fold_left (SFadd prec emax) (replicate n x) (S754_zero false))
  = true
  /\ ((1 <= n)%nat -> isFinite x = true)
  /\ (Rabs (SF2R (fold_left (SFadd prec emax) (replicate n x) (S754_zero false))
            - INR n * SF2R x)
      <= ((1 + roundingUnit prec) ^ n - 1) * (INR n * Rabs (SF2R x)))%R.
Proof.
  intros Hx. induction n as [|n IH].
  - intros _. split; [done|]. split; [lia|]. simpl.
    rewrite Rmult_0_l, Rminus_0_r, Rabs_R0. lra.
  - rewrite fold_left_replicate_end. intros Hfin.
    destruct (SFadd_finite prec emax _ _ Hfin) as [Hfs Hfx].
    destruct (IH Hfs) as (Hvs & _ & Hs).
    destruct (add_model _ _ Hvs Hx Hfin) as [Hv Herr].
    split; [done|]. split; [done|].
    apply (sum_step (roundingUnit prec)
             (proj1 roundingUnit_range) n (SF2R x) _ _ Hs Herr).
Qed.

Lemma valid_not_finite (x : spec_float) :
  isFinite x = false -> valid_binary prec emax x = true.
Proof. by destruct x. Qed.

(** The mean and the variance that the routines compute for [n] copies of
    [c], when the variance is a number: no operation has overflowed, and
    both are within the tolerance of [c] and of zero. *)
Lemma constant_array_error (c : ieee prec emax) (n : nat) :
  valid_binary prec emax c = true ->
  (1 <= n)%nat -> Z.of_nat n < 2 ^ (emax - 1) ->
  isFinite (varianceFormula (replicate n c)) = true ->
  isFinite (meanFormula (replicate n c)) = true
  /\ valid_binary prec emax (meanFormula (replicate n c)) = true
  /\ valid_binary prec emax (varianceFormula (replicate n c)) = true
  /\ (Rabs (SF2R (meanFormula (replicate n c)) - SF2R c)
      <= meanTolerance prec emax n (SF2R c))%R
  /\ (Rabs (SF2R (varianceFormula (replicate n c)))
      <= varianceTolerance prec emax n (SF2R c))%R.
Proof.
  intros Hc Hn Hmax. unfold varianceFormula, meanFormula.
  rewrite length_replicate, sumOfSquaresOf_replicate. unfold sumOf.
  cbn [fpDiv fpSub fpMul fpAdd fpZero fpOfSize ieee carrier].
  set (N := binary_normalize prec emax (Z.of_nat n) 0 false).
  set (s := fold_left (SFadd prec emax) (replicate n c) (S754_zero false)).
  set (q := SFmul prec emax c c).
  set (sq := fold_left (SFadd prec emax) (replicate n q) (S754_zero false)).
  intros Hfin.
  destruct (SFsub_finite prec emax _ _ Hfin) as [Hfa Hfb].
  destruct (SFmul_finite prec emax _ _ Hfb) as [Hfm _].
  pose proof (SFdiv_finite prec emax _ _ Hfa) as Hfsq.
  pose proof (SFdiv_finite prec emax _ _ Hfm) as Hfs.
  destruct (size_model n Hn Hmax) as (HfN & HvN & HN). fold N in HfN, HvN, HN.
  assert (Hn' : (1 <= INR n)%R).
  { replace 1%R with (INR 1) by done. by apply le_INR. }
  assert (HN0 : SF2R N <> 0%R).
  { pose proof (proj1 roundingUnit_range). pose proof (proj2 roundingUnit_range).
    apply Rabs_bounds in HN. nra. }
  (* the sum and the mean *)
  destruct (sum_of_copies c n Hc Hfs) as (Hvs & Hfc & Hs). fold s in Hvs, Hs.
  destruct (div_model s N Hvs HfN HN0 Hfm) as [Hvm Hm].
  (* the squares *)
  assert (Hvq : valid_binary prec emax q = true).
  { destruct (isFinite q) eqn:Hfq; [|by apply valid_not_finite].
    by apply (mul_model c c Hc Hc). }
  destruct (sum_of_copies q n Hvq Hfsq) as (Hvsq & Hfq & Hsq). fold sq in Hvsq, Hsq.
  destruct (mul_model c c Hc Hc (Hfq Hn)) as [_ Hq]. fold q in Hq.
  destruct (div_model sq N Hvsq HfN HN0 Hfa) as [Hva Ha].
  destruct (mul_model _ _ Hvm Hvm Hfb) as [Hvb Hb].
  destruct (sub_model _ _ Hva Hvb Hfin) as [Hvv Hv].
  pose proof roundingUnit_range as [Heps0 Heps1].
  pose proof underflowUnit_range as [Heta0 Heta1].
  pose proof (mean_error (roundingUnit prec) (underflowUnit prec emax)
                Heps0 Heps1 Heta0 Heta1 n (SF2R c) (SF2R s) (SF2R N) _ Hn Hs HN Hm)
    as Hmean.
  split; [done|]. split; [done|]. split; [done|]. split; [exact Hmean|].
  assert (Hq' : (Rabs (SF2R q - SF2R c * SF2R c)
                 <= roundingUnit prec * (SF2R c * SF2R c) + underflowUnit prec emax)%R).
  { rewrite <- (Rabs_right (SF2R c * SF2R c)) at 2; [done|]. nra. }
  exact (variance_error (roundingUnit prec) (underflowUnit prec emax)
           Heps0 Heps1 Heta0 Heta1 n (SF2R c) (SF2R q) (SF2R sq) (SF2R N) _ _ _ _
           Hn Hq' Hsq HN Ha Hmean Hb Hv).
Qed.
End ConstantArray.
Lemma meanAndVariance_formula (T : FloatType) (dataArray : list T) :
  calculateMeanAndVarianceOfSamples T dataArray (length dataArray)
  = Some (meanFormula dataArray, varianceFormula dataArray).
Proof. apply meanAndVariance_whole. Qed.

(** C8 (as amended).  For [n >= 1] samples the routines return
    [mean = sum / n] and [variance = sumOfSquares / n - mean * mean] (the
    population variance), the sums being accumulated from left to right in
    the type of the samples.  For a constant array of [n] copies of [c],
    when the returned variance is a number (neither infinite nor NaN),
    which is when no operation has overflowed, the returned mean is a
    number within [meanTolerance] of [c] and the returned variance is
    within [varianceTolerance] of zero: tolerances of the format, relative
    to [c] and to [c * c] and growing with [n], with an absolute part for
    underflow.  [n] is below [2^127], as every [size_t] is. *)
Theorem mean_and_variance_formula
    (floats : list binary32) (doubles : list binary64)
    (c32 : binary32) (c64 : binary64) (n : nat) :
  (1 <= n)%nat -> Z.of_nat n < 2 ^ 127 ->
  length floats = n -> length doubles = n ->
  valid_binary 24 128 c32 = true -> valid_binary 53 1024 c64 = true ->
  calculateMeanAndVarianceOfFloatSamples floats n
  = Some {| mean := floatToDouble (meanFormula floats);
            variance := floatToDouble (varianceFormula floats) |}
  /\ calculateMeanAndVarianceOfDoubleSamples doubles n
     = Some {| mean := meanFormula doubles; variance := varianceFormula doubles |}
  /\ (exists r,
        calculateMeanAndVarianceOfFloatSamples (replicate n c32) n = Some r
        /\ (isFinite (variance r) = true ->
            isFinite (mean r) = true
            /\ (Rabs (SF2R (mean r) - SF2R c32) <= meanTolerance 24 128 n (SF2R c32))%R
            /\ (Rabs (SF2R (variance r)) <= varianceTolerance 24 128 n (SF2R c32))%R))
  /\ (exists r,
        calculateMeanAndVarianceOfDoubleSamples (replicate n c64) n = Some r
        /\ (isFinite (variance r) = true ->
            isFinite (mean r) = true
            /\ (Rabs (SF2R (mean r) - SF2R c64) <= meanTolerance 53 1024 n (SF2R c64))%R
            /\ (Rabs (SF2R (variance r)) <= varianceTolerance 53 1024 n (SF2R c64))%R)).
Proof.
  intros Hn Hmax Hf Hd Hc32 Hc64. split; [|split; [|split]].
  - unfold calculateMeanAndVarianceOfFloatSamples.
    by rewrite <- Hf, meanAndVariance_formula.
  - unfold calculateMeanAndVarianceOfDoubleSamples.
    by rewrite <- Hd, meanAndVariance_formula.
  - pose proof (meanAndVariance_formula (ieee 24 128) (replicate n c32)) as Hrun.
    rewrite length_replicate in Hrun.
    unfold calculateMeanAndVarianceOfFloatSamples. unfold binary32 in Hrun |- *.
    rewrite Hrun.
    eexists. split; [reflexivity|]. cbn [mean variance].
    intros Hfin%isFinite_floatToDouble.
    assert (Hmax' : Z.of_nat n < 2 ^ (128 - 1)) by done.
    destruct (constant_array_error 24 128 ltac:(lia) ltac:(lia) c32 n Hc32 Hn Hmax' Hfin)
      as (Hfm & Hvm & Hvv & Hmean & Hvar).
    destruct (floatToDouble_number _ Hvm) as (-> & _ & ->).
    destruct (floatToDouble_number _ Hvv) as (_ & _ & ->).
    done.
  - pose proof (meanAndVariance_formula (ieee 53 1024) (replicate n c64)) as Hrun.
    rewrite length_replicate in Hrun.
    unfold calculateMeanAndVarianceOfDoubleSamples. unfold binary64 in Hrun |- *.
    rewrite Hrun.
    eexists. split; [reflexivity|]. cbn [mean variance]. intros Hfin.
    assert (Hmax' : Z.of_nat n < 2 ^ (1024 - 1)).
    { eapply Z.lt_le_trans; [exact Hmax|]. apply Z.pow_le_mono_r; lia. }
    destruct (constant_array_error 53 1024 ltac:(lia) ltac:(lia) c64 n Hc64 Hn Hmax' Hfin)
      as (Hfm & _ & _ & Hmean & Hvar).
    done.
Qed.

Lemma mean_and_variance_formula_witness :
  (calculateMeanAndVarianceOfFloatSamples [decimal32 1 0; decimal32 3 0; decimal32 5 0] 3
   = Some {| mean := floatToDouble (meanFormula [decimal32 1 0; decimal32 3 0; decimal32 5 0]);
             variance :=
               floatToDouble (varianceFormula [decimal32 1 0; decimal32 3 0; decimal32 5 0]) |}
   /\ calculateMeanAndVarianceOfDoubleSamples [decimal64 1 0; decimal64 3 0; decimal64 5 0] 3
      = Some {| mean := meanFormula [decimal64 1 0; decimal64 3 0; decimal64 5 0];
                variance := varianceFormula [decimal64 1 0; decimal64 3 0; decimal64 5 0] |}
   /\ (exists r,
         calculateMeanAndVarianceOfFloatSamples (replicate 3 (decimal32 1 1)) 3 = Some r
         /\ (isFinite (variance r) = true ->
             isFinite (mean r) = true
             /\ (Rabs (SF2R (mean r) - SF2R (decimal32 1 1))
                 <= meanTolerance 24 128 3 (SF2R (decimal32 1 1)))%R
             /\ (Rabs (SF2R (variance r))
                 <= varianceTolerance 24 128 3 (SF2R (decimal32 1 1)))%R))
   /\ (exists r,
         calculateMeanAndVarianceOfDoubleSamples (replicate 3 (decimal64 1 1)) 3 = Some r
         /\ (isFinite (variance r) = true ->
             isFinite (mean r) = true
             /\ (Rabs (SF2R (mean r) - SF2R (decimal64 1 1))
                 <= meanTolerance 53 1024 3 (SF2R (decimal64 1 1)))%R
             /\ (Rabs (SF2R (variance r))
                 <= varianceTolerance 53 1024 3 (SF2R (decimal64 1 1)))%R)))
  /\ (exists r,
        calculateMeanAndVarianceOfFloatSamples (replicate 3 (decimal32 1 1)) 3 = Some r
        /\ isFinite (variance r) = true)
  /\ (exists r,
        calculateMeanAndVarianceOfDoubleSamples (replicate 3 (decimal64 1 1)) 3 = Some r
        /\ isFinite (variance r) = true
        /\ SFeqb (mean r) (decimal64 1 1) = false
        /\ SFltb (variance r) (S754_zero false) = true).
Proof.
  split; [|split].
  - apply (mean_and_variance_formula
             [decimal32 1 0; decimal32 3 0; decimal32 5 0]
             [decimal64 1 0; decimal64 3 0; decimal64 5 0]
             (decimal32 1 1) (decimal64 1 1) 3).
    + lia.
    + reflexivity.
    + reflexivity.
    + reflexivity.
    + vm_compute. reflexivity.
    + vm_compute. reflexivity.
  - eexists. split; vm_compute; reflexivity.
  - eexists. split; [vm_compute; reflexivity|]. repeat split; vm_compute; reflexivity.
Defined.

(** C8, as stated, fails when [c * c] overflows: for the one-element array
    of [c = 2^600] in [double] (or [c = 2^100] in [float]) the sum of
    squares is infinite and the variance, infinity minus infinity, is NaN,
    which is within no tolerance of zero. *)
Lemma constant_array_variance_is_nan :
  calculateMeanAndVarianceOfDoubleSamples [fpOfSize (2 ^ 600) : binary64] 1
  = Some {| mean := fpOfSize (2 ^ 600) : binary64; variance := S754_nan |}
  /\ calculateMeanAndVarianceOfFloatSamples [fpOfSize (2 ^ 100) : binary32] 1
     = Some {| mean := floatToDouble (fpOfSize (2 ^ 100) : binary32);
               variance := S754_nan |}
  /\ forall tolerance : binary64,
       SFleb (SFabs (fpSub (S754_nan : binary64) fpZero)) tolerance = false.
Proof.
  split; [|split].
  - vm_compute. reflexivity.
  - vm_compute. reflexivity.
  - intros tolerance. reflexivity.
Qed.

Lemma multi_dimensional_columns (T : FloatType) (dataArray : list (list T))
    (rows cols : nat) (meanValueArray varianceArray : list T) :
  isMatrix dataArray rows cols ->
  length meanValueArray = cols -> length varianceArray = cols ->
  exists means variances,
    calculateMeanAndVarianceOfMultiDimensionalSamples T dataArray rows cols
      meanValueArray varianceArray = Some (means, variances)
    /\ forall jj, (jj < cols)%nat ->
         exists column m v,
           isColumn dataArray jj column
           /\ means !! jj = Some m /\ variances !! jj = Some v
           /\ calculateMeanAndVarianceOfSamples T column rows = Some (m, v).
Proof.
  intros Hm Hlm Hlv.
  destruct (columnLoop_stores T dataArray rows cols meanValueArray varianceArray cols Hm)
    as (means & variances & Hfold & _ & _ & Hdone & _); [lia..|].
  exists means, variances. split; [exact Hfold|].
  intros jj Hjj. destruct (Hdone jj Hjj) as [Hmean Hvar].
  pose proof (columnOf_isColumn T dataArray rows cols jj Hm Hjj) as Hcol.
  exists (columnOf T dataArray jj), (columnResult T dataArray jj).1,
         (columnResult T dataArray jj).2.
  repeat split; try done.
  destruct Hm as [<- _]. rewrite (Forall2_length _ _ _ Hcol).
  rewrite meanAndVariance_whole. unfold columnResult.
  by rewrite (Forall2_length _ _ _ Hcol).
Qed.

(** C9.  For a matrix of [rows >= 1] rows and [cols] columns, the
    multi-dimensional routines store, for each column [jj], the mean and
    the variance that the one-dimensional routine returns on the [rows]
    samples of that column ([float] results being widened to the [double]
    fields of [MeanAndVariance]); a column's result depends on no other
    column. *)
Theorem multi_dimensional_matches_one_dimensional
    (floats : list (list binary32)) (doubles : list (list binary64))
    (rows cols : nat)
    (floatMeans floatVariances : list binary32)
    (doubleMeans doubleVariances : list binary64) :
  (1 <= rows)%nat ->
  isMatrix floats rows cols -> isMatrix doubles rows cols ->
  length floatMeans = cols -> length floatVariances = cols ->
  length doubleMeans = cols -> length doubleVariances = cols ->
  (exists means variances,
     calculateMeanAndVarianceOfMultiDimensionalFloatSamples floats rows cols
       floatMeans floatVariances = Some (means, variances)
     /\ forall jj, (jj < cols)%nat ->
          exists column m v,
            isColumn floats jj column
            /\ means !! jj = Some m /\ variances !! jj = Some v
            /\ calculateMeanAndVarianceOfFloatSamples column rows
               = Some {| mean := floatToDouble m; variance := floatToDouble v |})
  /\ (exists means variances,
        calculateMeanAndVarianceOfMultiDimensionalDoubleSamples doubles rows cols
          doubleMeans doubleVariances = Some (means, variances)
        /\ forall jj, (jj < cols)%nat ->
             exists column m v,
               isColumn doubles jj column
               /\ means !! jj = Some m /\ variances !! jj = Some v
               /\ calculateMeanAndVarianceOfDoubleSamples column rows
                  = Some {| mean := m; variance := v |}).
Proof.
  intros _ Hf Hd Hfm Hfv Hdm Hdv. split.
  - destruct (multi_dimensional_columns binary32 floats rows cols _ _ Hf Hfm Hfv)
      as (means & variances & Hrun & Hcols).
    exists means, variances. split; [exact Hrun|].
    intros jj Hjj. destruct (Hcols jj Hjj) as (column & m & v & Hc & Hm & Hv & H1).
    exists column, m, v. repeat split; try done.
    unfold calculateMeanAndVarianceOfFloatSamples. by rewrite H1.
  - destruct (multi_dimensional_columns binary64 doubles rows cols _ _ Hd Hdm Hdv)
      as (means & variances & Hrun & Hcols).
    exists means, variances. split; [exact Hrun|].
    intros jj Hjj. destruct (Hcols jj Hjj) as (column & m & v & Hc & Hm & Hv & H1).
    exists column, m, v. repeat split; try done.
    unfold calculateMeanAndVarianceOfDoubleSamples. by rewrite H1.
Qed.

Lemma multi_dimensional_matches_one_dimensional_witness :
  exists means variances,
    calculateMeanAndVarianceOfMultiDimensionalDoubleSamples exampleDoubleMatrix 2 2
      [S754_nan; S754_nan] [S754_nan; S754_nan] = Some (means, variances)
    /\ forall jj, (jj < 2)%nat ->
         exists column m v,
           isColumn exampleDoubleMatrix jj column
           /\ means !! jj = Some m /\ variances !! jj = Some v
           /\ calculateMeanAndVarianceOfDoubleSamples column 2
              = Some {| mean := m; variance := v |}.
Proof.
  pose proof (multi_dimensional_matches_one_dimensional
                exampleFloatMatrix exampleDoubleMatrix 2 2
                [S754_nan; S754_nan] [S754_nan; S754_nan]
                [S754_nan; S754_nan] [S754_nan; S754_nan]) as H.
  apply H.
  - lia.
  - split; [reflexivity|]. repeat constructor.
  - split; [reflexivity|]. repeat constructor.
  - reflexivity.
  - reflexivity.
  - reflexivity.
  - reflexivity.
Defined.

(* ===================================================================== *)
(** * The array code ingests entries column by column *)
(* ===================================================================== *)

Lemma padded_length (samples : list spec_float) :
  (length samples <= sampleCapacity)%nat -> length (padded samples) = sampleCapacity.
Proof. intros H. unfold padded. rewrite length_app, length_replicate. lia. Qed.

Lemma padded_store (samples : list spec_float) (v : spec_float) :
  (length samples < sampleCapacity)%nat ->
  <[length samples := v]> (padded samples) = padded (samples ++ [v]).
Proof.
  intros H. unfold padded. rewrite length_app. simpl.
  destruct (sampleCapacity - length samples)%nat as [|k] eqn:Hk; [lia|].
  replace (sampleCapacity - (length samples + 1))%nat with k by lia.
  simpl. rewrite <- app_assoc. simpl.
  rewrite insert_app_r_alt by lia. by rewrite Nat.sub_diag.
Qed.

Lemma padded_store_zero (samples : list spec_float) :
  <[length samples := S754_zero false]> (padded samples) = padded samples.
Proof.
  unfold padded.
  destruct (sampleCapacity - length samples)%nat as [|k] eqn:Hk.
  - simpl. rewrite app_nil_r. apply list_insert_ge. lia.
  - simpl. rewrite insert_app_r_alt by lia. by rewrite Nat.sub_diag.
Qed.

Lemma arraysOf_initial (n : nat) :
  initialState n = arraysOf (replicate n (false, [])).
Proof.
  unfold initialState, arraysOf. rewrite !fmap_replicate.
  cbn [fst snd length]. unfold padded. cbn [length app].
  by rewrite Nat.sub_0_r.
Qed.

Section Refinement.
Context (P : Platform) (inputDistributionsType : FloatingPointVariableType).

Local Abbreviation parse := (parseChecked P inputDistributionsType).

Lemma storeSample_arraysOf (columns : list Column) (i : nat) (c : Column)
    (v : spec_float) (samples' : list spec_float) (ux' : bool) :
  columns !! i = Some c ->
  <[length c.2 := v]> (padded c.2) = padded samples' ->
  storeSample (arraysOf columns) i v
  = sampleValues (arraysOf (<[i := (ux', samples')]> columns)).
Proof.
  intros Hc Hstore. unfold storeSample. simpl.
  rewrite list_fmap_insert. simpl.
  apply list_eq. intros j. destruct (decide (j = i)) as [->|Hne].
  - rewrite list_lookup_alter_eq, list_lookup_fmap, Hc. simpl.
    rewrite list_lookup_insert_eq
      by (rewrite length_fmap; by eapply lookup_lt_Some).
    rewrite (list_lookup_total_correct _ i (length c.2))
      by (by rewrite list_lookup_fmap, Hc).
    by rewrite Hstore.
  - rewrite list_lookup_alter_ne by done.
    by rewrite list_lookup_insert_ne.
Qed.

(** One entry: the array code and [ingestEntry] agree. *)
Lemma ingestToken_entry (rowCount : Z) (columns : list Column) (i : nat)
    (c : Column) (token : string) :
  columns !! i = Some c ->
  (length c.2 < sampleCapacity)%nat ->
  ingestToken P inputDistributionsType (length columns) rowCount
    (arraysOf columns) i token
  = (fun c' => arraysOf (<[i := c']> columns))
      <$> ingestEntry parse rowCount i c (trimLeadingWhitespace token).
Proof.
  intros Hc Hshort. pose proof (lookup_lt_Some _ _ _ Hc) as Hi.
  unfold ingestToken, ingestEntry.
  rewrite decide_False by lia.
  assert (Hux : (uxColumns (arraysOf columns) !!! i : bool) = c.1).
  { simpl. apply list_lookup_total_correct. by rewrite list_lookup_fmap, Hc. }
  rewrite Hux. destruct c as [ux samples]. simpl in *.
  destruct ux.
  { simpl. by rewrite list_insert_id. }
  set (tok := trimLeadingWhitespace token).
  set (ux' := (rowCount =? 0) && strstr tok uxMarker).
  assert (Hflags : (if ux' then <[i := true]> ((fun c : Column => c.1) <$> columns)
                    else (fun c : Column => c.1) <$> columns)
                   = (fun c : Column => c.1) <$> <[i := (ux', samples)]> columns).
  { rewrite list_fmap_insert. simpl. destruct ux'; [done|].
    symmetry. apply list_insert_id. by rewrite list_lookup_fmap, Hc. }
  assert (Hflags' : forall samples',
             (fun c : Column => c.1) <$> <[i := (ux', samples)]> columns
             = (fun c : Column => c.1) <$> <[i := (ux', samples')]> columns).
  { intros samples'. by rewrite !list_fmap_insert. }
  destruct (shouldIgnore tok).
  - simpl. unfold arraysOf at 2. f_equal. f_equal.
    + apply (storeSample_arraysOf columns i (false, samples)); [done|].
      apply padded_store_zero.
    + rewrite list_fmap_insert. simpl. symmetry. apply list_insert_id.
      by rewrite list_lookup_fmap, Hc.
    + exact Hflags.
  - destruct (parse tok) as [v|]; [|done].
    simpl. unfold arraysOf at 2. f_equal. f_equal.
    + apply (storeSample_arraysOf columns i (false, samples)); [done|].
      by apply padded_store.
    + rewrite list_fmap_insert. simpl. rewrite length_app. simpl.
      rewrite (list_lookup_total_correct _ i (length samples))
        by (by rewrite list_lookup_fmap, Hc).
      f_equal. lia.
    + rewrite Hflags. apply Hflags'.
Qed.
End Refinement.

Section EntryLemmas.
Context (parse : string -> option spec_float).

Lemma ingestEntry_grows (rowCount : Z) (i : nat) (c c' : Column) (token : string) :
  ingestEntry parse rowCount i c token = Passed c' ->
  (length c.2 <= length c'.2 <= S (length c.2))%nat.
Proof.
  unfold ingestEntry. destruct c as [ux samples]. simpl.
  destruct ux; [intros [= <-]; simpl; lia|].
  destruct (shouldIgnore token); [intros [= <-]; simpl; lia|].
  destruct (parse token); [|done].
  intros [= <-]. simpl. rewrite length_app. simpl. lia.
Qed.

Lemma ingestEntries_grows (rowCount : Z) (tokens : list string) :
  forall (i : nat) (columns columns' : list Column),
    ingestEntries parse rowCount i columns tokens = Passed columns' ->
    length tokens = length columns
    /\ Forall2 (fun c c' : Column => (length c.2 <= length c'.2 <= S (length c.2))%nat)
         columns columns'.
Proof.
  induction tokens as [|token tokens IH]; intros i [|c columns] columns'; simpl;
    try done.
  - intros [= <-]. done.
  - destruct (ingestEntry parse rowCount i c token) as [c1|] eqn:Hc; [|done].
    simpl. destruct (ingestEntries parse rowCount (S i) columns tokens)
      as [rest|] eqn:Hrest; [|done].
    simpl. intros [= <-]. destruct (IH _ _ _ Hrest) as [Hlen Hall].
    split; [by rewrite Hlen|]. constructor; [|done].
    by eapply ingestEntry_grows.
Qed.

Lemma ingestEntries_length (rowCount : Z) (tokens : list string) (i : nat)
    (columns columns' : list Column) :
  ingestEntries parse rowCount i columns tokens = Passed columns' ->
  length columns' = length columns.
Proof.
  intros H. apply ingestEntries_grows in H as [_ H].
  symmetry. by eapply Forall2_length.
Qed.

Lemma ingestEntries_bound (rowCount : Z) (tokens : list string) (i : nat)
    (columns columns' : list Column) :
  ingestEntries parse rowCount i columns tokens = Passed columns' ->
  Forall (fun c : Column => Z.of_nat (length c.2) <= rowCount) columns ->
  Forall (fun c : Column => Z.of_nat (length c.2) <= rowCount + 1) columns'.
Proof.
  intros H. apply ingestEntries_grows in H as [_ H].
  induction H as [|c c' columns columns' Hc _ IH]; intros Hall; [done|].
  inversion Hall; subst. constructor; [lia | by apply IH].
Qed.
End EntryLemmas.

Section RowRefinement.
Context (P : Platform) (inputDistributionsType : FloatingPointVariableType).

Local Abbreviation parse := (parseChecked P inputDistributionsType).

Lemma ingestTokens_entries (rowCount : Z) (tokens : list string) :
  forall before after : list Column,
    Forall (fun c : Column => (length c.2 < sampleCapacity)%nat) after ->
    match ingestTokens P inputDistributionsType (length (before ++ after)) rowCount
            (arraysOf (before ++ after)) (length before) tokens with
    | Passed (st', columnCount) =>
        if decide (columnCount <> length (before ++ after)) then
          Failed (LessThanExpectedEntries rowCount)
        else Passed st'
    | Failed d => Failed d
    end
    = (fun after' => arraysOf (before ++ after'))
        <$> ingestEntries parse rowCount (length before) after
              (trimLeadingWhitespace <$> tokens).
Proof.
  induction tokens as [|token tokens IH]; intros before after Hshort.
  - simpl. destruct after as [|c after]; simpl.
    + rewrite app_nil_r. by rewrite decide_False by (intros H; by apply H).
    + rewrite decide_True; [done|]. rewrite length_app. simpl. lia.
  - destruct after as [|c after].
    + simpl. unfold ingestToken. rewrite app_nil_r.
      by rewrite decide_True by done.
    + cbn [ingestTokens fmap list_fmap ingestEntries].
      inversion Hshort as [|? ? Hc Hafter]; subst.
      rewrite (ingestToken_entry P inputDistributionsType rowCount
                 (before ++ c :: after) (length before) c token);
        [|by apply list_lookup_middle|done].
      destruct (ingestEntry parse rowCount (length before) c
                  (trimLeadingWhitespace token)) as [c'|d]; [|done].
      cbn [fmap Checked_fmap mbind Checked_bind].
      assert (Hins : <[length before := c']> (before ++ c :: after)
                     = (before ++ [c']) ++ after).
      { rewrite insert_app_r_alt by lia. rewrite Nat.sub_diag. simpl.
        by rewrite <- app_assoc. }
      rewrite Hins.
      assert (Hlen : length (before ++ c :: after) = length ((before ++ [c']) ++ after)).
      { rewrite !length_app. simpl. lia. }
      rewrite Hlen.
      replace (S (length before)) with (length (before ++ [c']))
        by (rewrite length_app; simpl; lia).
      rewrite (IH (before ++ [c']) after Hafter).
      destruct (ingestEntries parse rowCount (length (before ++ [c'])) after
                  (trimLeadingWhitespace <$> tokens)) as [after'|d]; [|done].
      simpl. by rewrite <- app_assoc.
Qed.

(** One data row. *)
Lemma ingestRow_entries (rowCount : Z) (columns : list Column) (buffer : string) :
  Forall (fun c : Column => (length c.2 < sampleCapacity)%nat) columns ->
  ingestRow P inputDistributionsType (length columns) rowCount (arraysOf columns) buffer
  = arraysOf <$> ingestEntries parse rowCount 0 columns (rowTokens buffer).
Proof.
  intros Hshort.
  pose proof (ingestTokens_entries rowCount (strtokAll (cString buffer)) [] columns Hshort)
    as H.
  simpl in H. etrans; [|exact H]. unfold ingestRow.
  destruct (ingestTokens _ _ _ _ _ _ _) as [[st' columnCount]|d]; done.
Qed.

(** The data rows, from row [rowCount] on. *)
Lemma ingestLines_rows (expectedHeaders : list string) (lines : list string) :
  forall (rowCount : Z) (columns : list Column),
    0 <= rowCount ->
    Forall (fun c : Column => Z.of_nat (length c.2) <= rowCount) columns ->
    ingestLines P inputDistributionsType (length columns) expectedHeaders rowCount
      (arraysOf columns) lines
    = (fun r : list Column * Z => (arraysOf r.1, r.2))
        <$> ingestRows parse rowCount columns (rowTokens <$> lines).
Proof.
  induction lines as [|buffer lines IH]; intros rowCount columns Hrc Hbound.
  - done.
  - cbn [ingestLines fmap list_fmap ingestRows].
    rewrite (proj2 (Z.eqb_neq rowCount (-1))) by lia.
    destruct (rowCount >=? kCommonConstantMaxNumberOfInputSamples) eqn:Hcap; [done|].
    rewrite ingestRow_entries.
    2:{ eapply Forall_impl; [exact Hbound|]. intros c Hc. simpl in Hc.
        unfold sampleCapacity, kCommonConstantMaxNumberOfInputSamples in *. lia. }
    destruct (ingestEntries parse rowCount 0 columns (rowTokens buffer))
      as [columns'|d] eqn:Hrow; [|done].
    cbn [fmap Checked_fmap mbind Checked_bind].
    rewrite <- (ingestEntries_length _ _ _ _ _ _ Hrow).
    apply IH; [lia|]. by eapply ingestEntries_bound.
Qed.
End RowRefinement.

(* ===================================================================== *)
(** * A whole file *)
(* ===================================================================== *)

Section FileRefinement.
Context (P : Platform) (inputDistributionsType : FloatingPointVariableType).

Local Abbreviation parse := (parseChecked P inputDistributionsType).
Local Abbreviation dist := (distFromSamples P inputDistributionsType).

(** The header line, then the data rows into empty columns. *)
Lemma ingestLines_file (n : nat) (expectedHeaders : list string)
    (header : string) (rows : list string) :
  ingestLines P inputDistributionsType n expectedHeaders (-1) (initialState n)
    (header :: rows)
  = (_ ← validateInputDistributionCSVHeader (cString header) expectedHeaders;
     (fun r : list Column * Z => (arraysOf r.1, r.2))
       <$> ingestRows parse 0 (replicate n (false, [])) (rowTokens <$> rows)).
Proof.
  cbn [ingestLines]. rewrite Z.eqb_refl.
  destruct (validateInputDistributionCSVHeader _ _) as [[]|d]; [|done].
  cbn [mbind Checked_bind]. change (-1 + 1) with 0.
  rewrite arraysOf_initial.
  pose proof (ingestLines_rows P inputDistributionsType expectedHeaders rows 0
                (replicate n (false, []))) as H.
  rewrite length_replicate in H. apply H; [done|].
  apply Forall_replicate. simpl. lia.
Qed.

Lemma store_loop (f : nat -> spec_float) (out : list spec_float) (k : nat) :
  (k <= length out)%nat ->
  fold_left (fun out ii => <[ii := f ii]> out) (seq 0 k) out
  = (f <$> seq 0 k) ++ drop k out.
Proof.
  induction k as [|k IH]; intros Hk.
  - simpl. by rewrite drop_0.
  - rewrite seq_S, fold_left_app, IH by lia. cbn [fold_left Nat.add].
    rewrite fmap_app. simpl.
    destruct (lookup_lt_is_Some_2 out k) as [x Hx]; [lia|].
    rewrite (drop_S _ _ _ Hx).
    rewrite insert_app_r_alt by (rewrite length_fmap, length_seq; lia).
    rewrite length_fmap, length_seq, Nat.sub_diag. simpl.
    by rewrite <- app_assoc.
Qed.

Lemma distributionOfColumn_arraysOf (columns : list Column) (ii : nat) (c : Column) :
  columns !! ii = Some c ->
  distributionOfColumn P inputDistributionsType (arraysOf columns) ii
  = columnDistribution dist c.
Proof.
  intros Hc. unfold distributionOfColumn, columnDistribution. simpl.
  rewrite (list_lookup_total_correct _ ii c.1) by (by rewrite list_lookup_fmap, Hc).
  rewrite (list_lookup_total_correct _ ii (padded c.2))
    by (by rewrite list_lookup_fmap, Hc).
  by rewrite (list_lookup_total_correct _ ii (length c.2))
    by (by rewrite list_lookup_fmap, Hc).
Qed.

(** The materializer overwrites the whole array, column by column. *)
Lemma materialize_columns (columns : list Column) (inputDistributions : list spec_float) :
  length inputDistributions = length columns ->
  materialize P inputDistributionsType (length columns) (arraysOf columns)
    inputDistributions
  = columnDistribution dist <$> columns.
Proof.
  intros Hlen. unfold materialize.
  rewrite store_loop by lia.
  rewrite drop_ge by lia. rewrite app_nil_r.
  apply list_eq. intros ii. rewrite !list_lookup_fmap.
  destruct (columns !! ii) as [c|] eqn:Hc.
  - rewrite lookup_seq_lt by (by eapply lookup_lt_Some). simpl.
    f_equal. by apply distributionOfColumn_arraysOf.
  - rewrite lookup_seq_ge; [done|]. by apply lookup_ge_None.
Qed.
End FileRefinement.

(* ===================================================================== *)
(** * From rows to columns *)
(* ===================================================================== *)

Section ColumnLemmas.
Context (parse : string -> option spec_float).

Lemma ingestEntries_lookup (rowCount : Z) (tokens : list string) :
  forall (j : nat) (columns columns' : list Column),
    ingestEntries parse rowCount j columns tokens = Passed columns' ->
    forall i c, columns !! i = Some c ->
      exists token c',
        tokens !! i = Some token /\ columns' !! i = Some c'
        /\ ingestEntry parse rowCount (j + i) c token = Passed c'.
Proof.
  induction tokens as [|token tokens IH]; intros j [|c0 columns] columns'; simpl;
    try done.
  destruct (ingestEntry parse rowCount j c0 token) as [c1|] eqn:Hc1; [|done].
  simpl. destruct (ingestEntries parse rowCount (S j) columns tokens)
    as [rest|] eqn:Hrest; [|done].
  simpl. intros [= <-] [|i] c Hc; simpl in *.
  - injection Hc as <-. exists token, c1. by rewrite Nat.add_0_r.
  - destruct (IH _ _ _ Hrest i c Hc) as (t & c' & Ht & Hc' & Hstep).
    exists t, c'. replace (j + S i)%nat with (S j + i)%nat by lia. done.
Qed.

Lemma ingestRows_columns (rows : list (list string)) :
  forall (rowCount : Z) (columns columns' : list Column) (rowCount' : Z),
    ingestRows parse rowCount columns rows = Passed (columns', rowCount') ->
    rowCount' = rowCount + Z.of_nat (length rows)
    /\ length columns' = length columns
    /\ Forall (fun tokens => length tokens = length columns) rows
    /\ (rows = [] \/ rowCount' <= kCommonConstantMaxNumberOfInputSamples)
    /\ forall i c, columns !! i = Some c ->
         exists c', columns' !! i = Some c'
           /\ ingestColumn parse rowCount i c (columnEntries i rows) = Passed c'.
Proof.
  induction rows as [|tokens rows IH]; intros rowCount columns columns' rowCount'.
  - simpl. intros [= <- <-]. repeat split; try done; [lia | by left | eauto].
  - cbn [ingestRows].
    destruct (rowCount >=? kCommonConstantMaxNumberOfInputSamples) eqn:Hcap; [done|].
    destruct (ingestEntries parse rowCount 0 columns tokens) as [columns1|] eqn:Hrow;
      [|done].
    cbn [mbind Checked_bind]. intros Hrest.
    destruct (IH _ _ _ _ Hrest) as (Hrc & Hlen & Hrows & Hcapacity & Hcols).
    pose proof (ingestEntries_grows _ _ _ _ _ _ Hrow) as [Htokens _].
    pose proof (ingestEntries_length _ _ _ _ _ _ Hrow) as Hlen1.
    repeat split.
    + rewrite Hrc. simpl length. lia.
    + congruence.
    + constructor; [done|]. eapply Forall_impl; [exact Hrows|].
      simpl. intros ? ->. done.
    + right. destruct Hcapacity as [->|?]; [|done].
      simpl in Hrc. lia.
    + intros i c Hc.
      destruct (ingestEntries_lookup _ _ _ _ _ Hrow i c Hc)
        as (token & c1 & Htoken & Hc1 & Hstep).
      destruct (Hcols i c1 Hc1) as (c' & Hc' & Hcolumn).
      exists c'. split; [done|].
      change (columnEntries i (tokens :: rows))
        with (default EmptyString (tokens !! i) :: columnEntries i rows).
      rewrite Htoken. cbn [ingestColumn from_option id].
      simpl in Hstep. rewrite Hstep. exact Hcolumn.
Qed.

(** ** One column *)

Lemma ingestColumn_flagged (tokens : list string) :
  forall (rowCount : Z) (i : nat) (samples : list spec_float),
    ingestColumn parse rowCount i (true, samples) tokens = Passed (true, samples).
Proof. induction tokens as [|token tokens IH]; intros; simpl; [done | apply IH]. Qed.

Lemma columnSamples_cons (token : string) (tokens : list string) :
  columnSamples parse (token :: tokens)
  = (if shouldIgnore token then []
     else match parse token with Some v => [v] | None => [] end)
    ++ columnSamples parse tokens.
Proof. reflexivity. Qed.

Lemma ingestColumn_plain (tokens : list string) :
  forall (rowCount : Z) (i : nat) (samples : list spec_float) (c' : Column),
    0 < rowCount ->
    ingestColumn parse rowCount i (false, samples) tokens = Passed c' ->
    c' = (false, samples ++ columnSamples parse tokens)
    /\ Forall (fun token => entryAccepted parse token = true) tokens.
Proof.
  induction tokens as [|token tokens IH]; intros rowCount i samples c' Hrc.
  - simpl. intros [= <-]. by rewrite app_nil_r.
  - cbn [ingestColumn]. unfold ingestEntry. cbn [fst snd].
    rewrite (proj2 (Z.eqb_neq rowCount 0)) by lia. cbn [andb].
    rewrite columnSamples_cons. unfold entryAccepted at 1.
    destruct (shouldIgnore token) eqn:Hignore.
    + cbn [mbind Checked_bind]. intros H.
      assert (Hnext : 0 < rowCount + 1) by lia.
      destruct (IH _ _ _ _ Hnext H) as [-> Hall].
      split; [done|]. constructor; [|done].
      unfold entryAccepted. by rewrite Hignore.
    + destruct (parse token) as [v|] eqn:Hparse; [|done].
      cbn [mbind Checked_bind]. intros H.
      assert (Hnext : 0 < rowCount + 1) by lia.
      destruct (IH _ _ _ _ Hnext H) as [-> Hall].
      split; [by rewrite <- app_assoc|]. constructor; [|done].
      unfold entryAccepted. rewrite Hignore, Hparse. done.
Qed.
End ColumnLemmas.

Lemma strstr_unfold (haystack needle : string) :
  strstr haystack needle
  = String.prefix needle haystack
    || match haystack with
       | EmptyString => false
       | String _ rest => strstr rest needle
       end.
Proof. by destruct haystack. Qed.

Lemma marker_prefix_head (c : ascii) (rest : string) :
  c <> "U"%char -> String.prefix uxMarker (String c rest) = false.
Proof.
  intros Hc. unfold uxMarker. cbn [String.prefix].
  destruct (ascii_dec "U" c) as [<-|_]; done.
Qed.

Lemma whitespace_no_marker (s : string) :
  allChars safeIsspace s = true -> strstr s uxMarker = false.
Proof.
  induction s as [|c rest IH]; [done|].
  cbn [allChars]. intros [Hc Hrest]%andb_true_iff.
  rewrite strstr_unfold, (IH Hrest), marker_prefix_head; [done|].
  intros ->. done.
Qed.

(** The ignore pattern never carries the marker. *)
Lemma shouldIgnore_no_marker (token : string) :
  shouldIgnore token = true -> strstr token uxMarker = false.
Proof.
  destruct token as [|c rest]; [done|].
  cbn [shouldIgnore]. intros [Hc Hrest]%andb_true_iff.
  rewrite strstr_unfold, (whitespace_no_marker _ Hrest), marker_prefix_head; [done|].
  intros ->. done.
Qed.

Section WholeColumn.
Context (parse : string -> option spec_float).

(** A column from the first data row on: flagged by its first entry, or
    one sample for each entry that is not the ignore pattern. *)
Lemma ingestColumn_whole (i : nat) (entries : list string) (c' : Column) :
  ingestColumn parse 0 i (false, []) entries = Passed c' ->
  match entries with
  | [] => c' = (false, [])
  | first :: _ =>
      if strstr first uxMarker then
        exists v, parse first = Some v /\ c' = (true, [v])
      else
        c' = (false, columnSamples parse entries)
        /\ Forall (fun token => entryAccepted parse token = true) entries
  end.
Proof.
  destruct entries as [|first later]; [by intros [= <-]|].
  cbn [ingestColumn]. unfold ingestEntry. cbn [fst snd andb Z.eqb].
  rewrite columnSamples_cons. unfold entryAccepted.
  destruct (shouldIgnore first) eqn:Hignore.
  - rewrite (shouldIgnore_no_marker _ Hignore).
    cbn [mbind Checked_bind]. intros H.
    apply ingestColumn_plain in H as [-> Hall]; [|done].
    split; [done|]. constructor; [|done]. by rewrite Hignore.
  - destruct (parse first) as [v|] eqn:Hparse; [|done].
    cbn [mbind Checked_bind app].
    destruct (strstr first uxMarker).
    + rewrite ingestColumn_flagged. intros [= <-]. by exists v.
    + intros H. apply ingestColumn_plain in H as [-> Hall]; [|done].
      split; [done|]. constructor; [|done]. by rewrite Hignore, Hparse.
Qed.

Lemma columnSamples_count (entries : list string) :
  Forall (fun token => entryAccepted parse token = true) entries ->
  (length (columnSamples parse entries) + ignoredEntries entries = length entries)%nat.
Proof.
  unfold ignoredEntries.
  induction 1 as [|token entries Htoken _ IH]; [done|].
  rewrite columnSamples_cons, length_app, filter_cons. simpl length.
  unfold entryAccepted in Htoken.
  destruct (shouldIgnore token) eqn:Hignore.
  - rewrite decide_True by done. simpl. lia.
  - rewrite decide_False by done.
    destruct (parse token) as [v|]; [simpl; lia | done].
Qed.

(** ** Accepted entries are ingested *)

Lemma ingestEntry_accepted (rowCount : Z) (i : nat) (c : Column) (token : string) :
  entryAccepted parse token = true ->
  exists c', ingestEntry parse rowCount i c token = Passed c'.
Proof.
  unfold entryAccepted, ingestEntry. intros H.
  destruct c.1; [eauto|].
  destruct (shouldIgnore token); [eauto|].
  destruct (parse token) as [v|]; [eauto | done].
Qed.

Lemma ingestEntries_accepted (rowCount : Z) (tokens : list string) :
  forall (j : nat) (columns : list Column),
    length tokens = length columns ->
    forallb (entryAccepted parse) tokens = true ->
    exists columns', ingestEntries parse rowCount j columns tokens = Passed columns'.
Proof.
  induction tokens as [|token tokens IH]; intros j [|c columns] Hlen; simpl in *;
    try done; [eauto|].
  intros [Htoken Htokens]%andb_true_iff.
  destruct (ingestEntry_accepted rowCount j c token Htoken) as [c' ->].
  destruct (IH (S j) columns) as [rest ->]; [lia | done |].
  simpl. eauto.
Qed.

Lemma ingestRows_accepted (rows : list (list string)) :
  forall (rowIndex : nat) (rowCount : Z) (columns : list Column),
    rowCount + Z.of_nat (length rows) <= kCommonConstantMaxNumberOfInputSamples ->
    rowsAccepted (fun _ => entryAccepted parse) (length columns) rowIndex rows = true ->
    exists columns',
      ingestRows parse rowCount columns rows
      = Passed (columns', rowCount + Z.of_nat (length rows)).
Proof.
  induction rows as [|tokens rows IH]; intros rowIndex rowCount columns Hcap.
  - simpl. intros _. exists columns. by rewrite Z.add_0_r.
  - cbn [rowsAccepted ingestRows].
    intros [[Hlen%Nat.eqb_eq Htokens]%andb_true_iff Hrows]%andb_true_iff.
    simpl length in Hcap.
    rewrite Z.geb_leb, (proj2 (Z.leb_gt _ _)) by lia.
    destruct (ingestEntries_accepted rowCount tokens 0 columns Hlen Htokens)
      as [columns1 Hrow].
    rewrite Hrow. cbn [mbind Checked_bind].
    rewrite <- (ingestEntries_length _ _ _ _ _ _ Hrow) in Hrows.
    destruct (IH (S rowIndex) (rowCount + 1) columns1) as [columns' ->]; [lia | done |].
    exists columns'. do 2 f_equal. simpl length. lia.
Qed.
End WholeColumn.

(* ===================================================================== *)
(** * Lines and the buffers of [fgets] *)
(* ===================================================================== *)

Lemma string_append_empty (s : string) : (s ++ EmptyString)%string = s.
Proof. induction s as [|c s IH]; [done|]. simpl. by rewrite IH. Qed.

Lemma linesAux_first_empty (stream : string) :
  (linesAux stream).1 = EmptyString -> stream = EmptyString.
Proof.
  destruct stream as [|c rest]; [done|]. cbn [linesAux].
  destruct (linesAux rest) as [first others]. by destruct (Ascii.eqb c newline).
Qed.

Lemma consNonEmpty_fits (first : string) (others : list string) :
  Forall lineFits (consNonEmpty first others) ->
  (N.of_nat (String.length first) <= kCommonConstantMaxCharsPerLine - 1)%N
  /\ Forall lineFits others.
Proof.
  destruct first as [|c first]; cbn [consNonEmpty].
  - intros H. split; [|done]. cbn. unfold kCommonConstantMaxCharsPerLine. lia.
  - intros [H ?]%Forall_cons. split; [|done]. unfold lineFits in H. lia.
Qed.

(** A call of [fgets] returns the line at the head of the stream whole
    when the buffer has room for it. *)
Lemma fgetsAux_linesAux (stream : string) :
  forall room : N,
    (N.of_nat (String.length (linesAux stream).1) <= room)%N ->
    Forall lineFits (linesAux stream).2 ->
    fgetsAux kCommonConstantMaxCharsPerLine room stream = linesAux stream.
Proof.
  induction stream as [|c rest IH]; intros room Hroom Hfit; [done|].
  cbn [fgetsAux linesAux] in *.
  destruct (linesAux rest) as [first others] eqn:Hrest.
  destruct (Ascii.eqb c newline) eqn:Hc; cbn [fst snd orb] in *.
  - apply consNonEmpty_fits in Hfit as [Hfirst Hothers].
    by rewrite IH.
  - cbn [String.length] in Hroom.
    destruct (N.eqb_spec room 1) as [->|Hroom1].
    + assert (first = EmptyString) as -> by (destruct first; [done|cbn in Hroom; lia]).
      pose proof (linesAux_first_empty rest) as Hempty.
      rewrite Hrest in Hempty. rewrite (Hempty eq_refl) in Hrest |- *.
      cbn in Hrest. by injection Hrest as <-.
    + by rewrite IH by (done || lia).
Qed.

(** When every line fits the buffer, the successive calls of [fgets]
    return the lines of the file. *)
Lemma fgetsAll_linesOf (stream : string) :
  Forall lineFits (linesOf stream) ->
  fgetsAll kCommonConstantMaxCharsPerLine stream = linesOf stream.
Proof.
  unfold fgetsAll, linesOf. intros Hfit.
  destruct (linesAux stream) as [first others] eqn:Hlines.
  apply consNonEmpty_fits in Hfit as [Hfirst Hothers].
  by rewrite fgetsAux_linesAux; rewrite Hlines.
Qed.

Lemma linesAux_line (text rest : string) :
  allChars (fun c => negb (Ascii.eqb c newline)) text = true ->
  linesAux (line text ++ rest) = (line text, linesOf rest).
Proof.
  unfold line. induction text as [|c text IH]; intros Htext.
  - cbn [append linesAux]. rewrite Ascii.eqb_refl. unfold linesOf.
    by destruct (linesAux rest).
  - cbn [allChars] in Htext. apply andb_prop in Htext as [Hc Htext].
    cbn [append linesAux]. rewrite (IH Htext).
    apply negb_true_iff in Hc. by rewrite Hc.
Qed.

Lemma linesOf_line (text rest : string) :
  allChars (fun c => negb (Ascii.eqb c newline)) text = true ->
  linesOf (line text ++ rest) = line text :: linesOf rest.
Proof.
  intros Htext. unfold linesOf at 1. rewrite linesAux_line by done.
  unfold line. by destruct text.
Qed.

Lemma concat_empty_cons (text : string) (texts : list string) :
  String.concat EmptyString (text :: texts)
  = (text ++ String.concat EmptyString texts)%string.
Proof.
  destruct texts as [|next texts]; [|done].
  cbn [String.concat]. by rewrite string_append_empty.
Qed.

Lemma linesOf_replicate (text : string) (n : nat) :
  allChars (fun c => negb (Ascii.eqb c newline)) text = true ->
  linesOf (String.concat EmptyString (replicate n (line text)))
  = replicate n (line text).
Proof.
  intros Htext. induction n as [|n IH]; [done|].
  cbn [replicate]. rewrite concat_empty_cons, linesOf_line by done.
  by rewrite IH.
Qed.

(* ===================================================================== *)
(** * Statements about the ingester *)
(* ===================================================================== *)

Section Ingestion.
Context (P : Platform) (inputDistributionsType : FloatingPointVariableType).

Local Abbreviation parse := (parseChecked P inputDistributionsType).
Local Abbreviation dist := (distFromSamples P inputDistributionsType).

(** What a successful run leaves in the arrays, column by column. *)
Lemma ingestLines_columns (n : nat) (expectedHeaders : list string)
    (header : string) (rows : list string) (st : IngestState) (rowCount : Z) :
  ingestLines P inputDistributionsType n expectedHeaders (-1) (initialState n)
    (header :: rows) = Passed (st, rowCount) ->
  exists columns : list Column,
    st = arraysOf columns /\ length columns = n
    /\ rowCount = Z.of_nat (length rows)
    /\ rowCount <= kCommonConstantMaxNumberOfInputSamples
    /\ Forall (fun tokens => length tokens = n) (rowTokens <$> rows)
    /\ forall i, (i < n)%nat ->
         exists c, columns !! i = Some c
           /\ ingestColumn parse 0 i (false, [])
                (columnEntries i (rowTokens <$> rows)) = Passed c.
Proof.
  rewrite ingestLines_file.
  destruct (validateInputDistributionCSVHeader _ _) as [[]|d]; [|done].
  cbn [mbind Checked_bind].
  destruct (ingestRows parse 0 (replicate n (false, [])) (rowTokens <$> rows))
    as [[columns rowCount']|d] eqn:Hrows; [|done].
  cbn [fmap Checked_fmap fst snd]. intros [= <- <-].
  destruct (ingestRows_columns parse _ _ _ _ _ Hrows)
    as (Hrc & Hlen & Hall & Hcap & Hcols).
  rewrite length_replicate in Hlen, Hall. rewrite length_fmap in Hrc.
  exists columns. split; [done|]. split; [done|]. split; [lia|].
  split; [|split; [done|]].
  - destruct Hcap as [Hnil|?]; [|done].
    rewrite Hrc. apply fmap_nil_inv in Hnil as ->. done.
  - intros i Hi. apply Hcols. by apply lookup_replicate_2.
Qed.

Lemma readInputDistributionsFromCSV_file (inputFilePath : string)
    (expectedHeaders : list string) (inputDistributions : list spec_float)
    (stream header : string) (rows : list string) :
  expectedHeaders <> [] ->
  inputDistributionsType <> kFloatingPointVariableTypeUnknown ->
  String.eqb inputFilePath "stdin" = false ->
  fopen P inputFilePath = Some stream ->
  fgetsAll kCommonConstantMaxCharsPerLine stream = header :: rows ->
  readInputDistributionsFromCSV P inputFilePath expectedHeaders inputDistributions
    inputDistributionsType
  = match ingestLines P inputDistributionsType (length expectedHeaders)
            expectedHeaders (-1) (initialState (length expectedHeaders))
            (header :: rows) with
    | Passed (st, _) =>
        Returned kCommonConstantReturnTypeSuccess None
          (materialize P inputDistributionsType (length expectedHeaders) st
             inputDistributions)
    | Failed d => Returned kCommonConstantReturnTypeError (Some d) inputDistributions
    end.
Proof.
  intros Hn Hty Hpath Hopen Hlines. unfold readInputDistributionsFromCSV.
  rewrite decide_False by (by destruct expectedHeaders).
  rewrite Hpath, Hopen, Hlines.
  by destruct inputDistributionsType.
Qed.

Lemma columnDistribution_expected (i : nat) (entries : list string) (c : Column) :
  entries <> [] ->
  ingestColumn parse 0 i (false, []) entries = Passed c ->
  columnDistribution dist c = expectedDistribution parse dist entries.
Proof.
  intros Hne H. apply ingestColumn_whole in H.
  destruct entries as [|first later]; [done|].
  unfold expectedDistribution.
  destruct (strstr first uxMarker).
  - destruct H as (v & -> & ->). done.
  - destruct H as [-> _]. done.
Qed.

Lemma well_formed_buffers_are_ingested (inputFilePath : string)
    (expectedHeaders : list string) (inputDistributions : list spec_float)
    (stream : string) :
  inputDistributionsType <> kFloatingPointVariableTypeUnknown ->
  String.eqb inputFilePath "stdin" = false ->
  fopen P inputFilePath = Some stream ->
  length inputDistributions = length expectedHeaders ->
  wellFormedCSV (fun _ => entryAccepted parse) expectedHeaders
    (fgetsAll kCommonConstantMaxCharsPerLine stream) = true ->
  exists out,
    readInputDistributionsFromCSV P inputFilePath expectedHeaders inputDistributions
      inputDistributionsType
    = Returned kCommonConstantReturnTypeSuccess None out
    /\ length out = length expectedHeaders
    /\ forall i, (i < length expectedHeaders)%nat ->
         out !! i
         = Some (expectedDistribution parse dist
                   (columnEntries i
                      (rowTokens <$> drop 1 (fgetsAll kCommonConstantMaxCharsPerLine stream)))).
Proof.
  intros Hty Hpath Hopen Hout Hwf.
  destruct expectedHeaders as [|h0 hs] eqn:Hheaders.
  { exists inputDistributions. unfold readInputDistributionsFromCSV. simpl.
    repeat split; [done|]. intros i Hi. simpl in Hi. lia. }
  rewrite <- Hheaders in *. assert (Hne : expectedHeaders <> []) by (by subst).
  clear Hheaders h0 hs.
  destruct (fgetsAll kCommonConstantMaxCharsPerLine stream) as [|header rows] eqn:Hlines;
    [done|].
  unfold wellFormedCSV in Hwf.
  apply andb_true_iff in Hwf as [Hwf Hrows].
  apply andb_true_iff in Hwf as [Hwf Hmax%Z.leb_le].
  apply andb_true_iff in Hwf as [Hheader Hmin%Nat.leb_le].
  rewrite (readInputDistributionsFromCSV_file _ _ _ stream header rows) by done.
  destruct (ingestRows_accepted parse (rowTokens <$> rows) 0 0
              (replicate (length expectedHeaders) (false, [])))
    as [columns Hingest].
  { rewrite length_fmap. lia. }
  { by rewrite length_replicate. }
  assert (Hrun : ingestLines P inputDistributionsType (length expectedHeaders)
                   expectedHeaders (-1) (initialState (length expectedHeaders))
                   (header :: rows)
                 = Passed (arraysOf columns, 0 + Z.of_nat (length (rowTokens <$> rows)))).
  { rewrite ingestLines_file.
    destruct (validateInputDistributionCSVHeader _ _) as [[]|]; [|done].
    cbn [mbind Checked_bind]. by rewrite Hingest. }
  destruct (ingestRows_columns parse _ _ _ _ _ Hingest)
    as (_ & Hlen & _ & _ & Hcols).
  rewrite length_replicate in Hlen.
  rewrite Hrun.
  rewrite <- Hlen. rewrite materialize_columns by lia.
  eexists. split; [reflexivity|]. rewrite length_fmap. split; [done|].
  intros i Hi. rewrite Hlen in Hi.
  destruct (Hcols i (false, [])) as (c & Hc & Hcolumn);
    [by apply lookup_replicate_2|].
  rewrite list_lookup_fmap, Hc. simpl. f_equal.
  apply (columnDistribution_expected i); [|done].
  destruct rows as [|row rows]; [simpl in Hmin; lia|]. done.
Qed.
(** C1 (as amended).  For a file that opens (and is not ["stdin"]), whose
    lines each fit the line buffer (with its newline a line is shorter
    than [kCommonConstantMaxCharsPerLine] characters, so that [fgets]
    returns it whole) and that is well formed (a header line that the
    validator passes, then between 1 and 10000 data rows, each of exactly
    N entries that are each the ignore pattern or a number: a first-row
    entry that carries the marker must be a number as well, since it is
    its value that is captured), the routine returns
    [kCommonConstantReturnTypeSuccess] and leaves exactly N entries in the
    output array: entry [i] is the value of the first data row's entry
    when column [i] is a distribution column, and otherwise the
    sample-to-distribution primitive applied to the column's buffer (the
    samples, then zeros) and to its fill count.
    [readInputFloatDistributionsFromCSV] and
    [readInputDoubleDistributionsFromCSV] are the two types other than
    [kFloatingPointVariableTypeUnknown]. *)
Theorem well_formed_csv_is_ingested (inputFilePath : string)
    (expectedHeaders : list string) (inputDistributions : list spec_float)
    (stream : string) :
  inputDistributionsType <> kFloatingPointVariableTypeUnknown ->
  String.eqb inputFilePath "stdin" = false ->
  fopen P inputFilePath = Some stream ->
  length inputDistributions = length expectedHeaders ->
  Forall lineFits (linesOf stream) ->
  wellFormedCSV (fun _ => entryAccepted parse) expectedHeaders (linesOf stream) = true ->
  exists out,
    readInputDistributionsFromCSV P inputFilePath expectedHeaders inputDistributions
      inputDistributionsType
    = Returned kCommonConstantReturnTypeSuccess None out
    /\ length out = length expectedHeaders
    /\ forall i, (i < length expectedHeaders)%nat ->
         out !! i
         = Some (expectedDistribution parse dist
                   (columnEntries i (rowTokens <$> drop 1 (linesOf stream)))).
Proof.
  intros Hty Hpath Hopen Hout Hfit Hwf.
  rewrite <- (fgetsAll_linesOf stream Hfit) in Hwf |- *.
  by apply well_formed_buffers_are_ingested.
Qed.
End Ingestion.

Section Classification.
Context (P : Platform) (inputDistributionsType : FloatingPointVariableType).

Local Abbreviation parse := (parseChecked P inputDistributionsType).

(** The entry of a flagged column is skipped, whatever it is. *)
Lemma ingestToken_flagged (n : nat) (rowCount : Z) (st : IngestState)
    (i : nat) (token : string) :
  (i < n)%nat -> uxColumns st !! i = Some true ->
  ingestToken P inputDistributionsType n rowCount st i token = Passed st.
Proof.
  intros Hi Hux. unfold ingestToken. rewrite decide_False by lia.
  by rewrite (list_lookup_total_correct _ _ _ Hux).
Qed.

(** After the first data row no entry changes a flag. *)
Lemma ingestToken_flags_later (n : nat) (rowCount : Z) (st st' : IngestState)
    (j : nat) (token : string) :
  rowCount <> 0 ->
  ingestToken P inputDistributionsType n rowCount st j token = Passed st' ->
  uxColumns st' = uxColumns st.
Proof.
  intros Hrc. unfold ingestToken.
  rewrite (proj2 (Z.eqb_neq rowCount 0)) by done. cbn [andb].
  destruct (decide (j = n)); [done|].
  destruct (uxColumns st !!! j : bool); [by intros [= <-]|].
  destruct (shouldIgnore _); [by intros [= <-]|].
  destruct (parseChecked _ _ _); [by intros [= <-] | done].
Qed.

(** No entry clears a flag. *)
Lemma ingestToken_flags_kept (n : nat) (rowCount : Z) (st st' : IngestState)
    (j k : nat) (token : string) :
  ingestToken P inputDistributionsType n rowCount st j token = Passed st' ->
  uxColumns st !! k = Some true -> uxColumns st' !! k = Some true.
Proof.
  unfold ingestToken. intros H Hk.
  destruct (decide (j = n)); [done|].
  destruct (uxColumns st !!! j : bool); [by injection H as <-|].
  assert (Hset : (if (rowCount =? 0) && strstr (trimLeadingWhitespace token) uxMarker
                  then <[j := true]> (uxColumns st) else uxColumns st) !! k = Some true).
  { destruct (_ && _); [|done].
    destruct (decide (k = j)) as [->|Hne].
    - apply list_lookup_insert_eq. by eapply lookup_lt_Some.
    - by rewrite list_lookup_insert_ne. }
  destruct (shouldIgnore _); [by injection H as <-|].
  destruct (parseChecked _ _ _); [by injection H as <- | done].
Qed.

(** The ignore pattern: zero at the fill index, the fill count as it was. *)
Lemma ingestToken_ignored (n : nat) (rowCount : Z) (st : IngestState)
    (i : nat) (token : string) :
  (i < n)%nat -> uxColumns st !! i = Some false ->
  shouldIgnore (trimLeadingWhitespace token) = true ->
  ingestToken P inputDistributionsType n rowCount st i token
  = Passed {| sampleValues := storeSample st i (S754_zero false);
              sampleCounts := sampleCounts st;
              uxColumns := uxColumns st |}.
Proof.
  intros Hi Hux Hignore. unfold ingestToken. rewrite decide_False by lia.
  rewrite (list_lookup_total_correct _ _ _ Hux), Hignore.
  by rewrite (shouldIgnore_no_marker _ Hignore), andb_false_r.
Qed.

Lemma storeSample_lookup (st : IngestState) (i : nat) (v : spec_float)
    (buffer : list spec_float) :
  sampleValues st !! i = Some buffer ->
  (sampleCounts st !!! i < length buffer)%nat ->
  exists buffer',
    storeSample st i v !! i = Some buffer'
    /\ buffer' !! (sampleCounts st !!! i) = Some v
    /\ length buffer' = length buffer.
Proof.
  intros Hbuf Hcount. unfold storeSample.
  exists (<[sampleCounts st !!! i := v]> buffer).
  rewrite list_lookup_alter_eq, Hbuf. simpl.
  rewrite list_lookup_insert_eq by done. by rewrite length_insert.
Qed.

(** What a successful run leaves for column [i], from its entries. *)
Lemma ingestLines_column (n : nat) (expectedHeaders : list string)
    (header : string) (rows : list string) (st : IngestState) (rowCount : Z) (i : nat) :
  ingestLines P inputDistributionsType n expectedHeaders (-1) (initialState n)
    (header :: rows) = Passed (st, rowCount) ->
  (i < n)%nat ->
  length (columnEntries i (rowTokens <$> rows)) = length rows
  /\ match columnEntries i (rowTokens <$> rows) with
     | [] =>
         uxColumns st !! i = Some false /\ sampleCounts st !! i = Some 0%nat
     | first :: later =>
         if strstr first uxMarker then
           uxColumns st !! i = Some true
           /\ exists v, parse first = Some v
                /\ sampleValues st !! i = Some (padded [v])
                /\ sampleCounts st !! i = Some 1%nat
         else
           uxColumns st !! i = Some false
           /\ sampleValues st !! i
              = Some (padded (columnSamples parse (first :: later)))
           /\ sampleCounts st !! i
              = Some (length (columnSamples parse (first :: later)))
           /\ (length (columnSamples parse (first :: later))
               + ignoredEntries (first :: later) = length rows)%nat
     end.
Proof.
  intros Hrun Hi.
  destruct (ingestLines_columns P inputDistributionsType _ _ _ _ _ _ Hrun)
    as (columns & -> & Hlen & _ & _ & _ & Hcols).
  destruct (Hcols i Hi) as (c & Hc & Hcolumn).
  assert (Hentries : length (columnEntries i (rowTokens <$> rows)) = length rows).
  { unfold columnEntries. by rewrite !length_fmap. }
  split; [done|].
  apply ingestColumn_whole in Hcolumn.
  cbn [arraysOf uxColumns sampleValues sampleCounts].
  rewrite !list_lookup_fmap, Hc. cbn [fmap option_fmap option_map].
  destruct (columnEntries i (rowTokens <$> rows)) as [|first later] eqn:Heq.
  - by subst c.
  - destruct (strstr first uxMarker).
    + destruct Hcolumn as (v & Hv & ->). split; [done|]. by exists v.
    + destruct Hcolumn as [-> Hall].
      split; [done|]. split; [done|]. split; [done|].
      rewrite <- Hentries. by apply columnSamples_count.
Qed.

(** C5.  When ingestion succeeds, a column whose first data-row entry
    contains the marker ["Ux"] is flagged as a distribution column, it
    keeps the value of that entry alone (fill count 1, nothing stored
    from later rows), and a column without the marker has one sample for
    each data row whose entry is not the ignore pattern.  The entry of a
    flagged column is skipped unread in every row; no entry ever clears a
    flag, and after the first data row no entry sets one. *)
Theorem distribution_columns_are_fixed_by_the_first_row (n : nat)
    (expectedHeaders : list string) (header : string) (rows : list string)
    (st : IngestState) (rowCount : Z) (i : nat) :
  ingestLines P inputDistributionsType n expectedHeaders (-1) (initialState n)
    (header :: rows) = Passed (st, rowCount) ->
  (i < n)%nat ->
  match columnEntries i (rowTokens <$> rows) with
  | [] => uxColumns st !! i = Some false
  | first :: later =>
      if strstr first uxMarker then
        uxColumns st !! i = Some true
        /\ exists v, parse first = Some v
             /\ sampleValues st !! i = Some (padded [v])
             /\ sampleCounts st !! i = Some 1%nat
      else
        uxColumns st !! i = Some false
        /\ sampleValues st !! i = Some (padded (columnSamples parse (first :: later)))
        /\ sampleCounts st !! i
           = Some (length (first :: later) - ignoredEntries (first :: later))%nat
  end
  /\ (forall st0 row token,
        uxColumns st0 !! i = Some true ->
        ingestToken P inputDistributionsType n row st0 i token = Passed st0)
  /\ (forall st0 st1 row j k token,
        ingestToken P inputDistributionsType n row st0 j token = Passed st1 ->
        uxColumns st0 !! k = Some true -> uxColumns st1 !! k = Some true)
  /\ (forall st0 st1 row j token,
        row <> 0 ->
        ingestToken P inputDistributionsType n row st0 j token = Passed st1 ->
        uxColumns st1 = uxColumns st0).
Proof.
  intros Hrun Hi. split; [|split; [|split]].
  - destruct (ingestLines_column _ _ _ _ _ _ _ Hrun Hi) as [Hlen H].
    destruct (columnEntries i (rowTokens <$> rows)) as [|first later]; [by destruct H|].
    destruct (strstr first uxMarker); [done|].
    destruct H as (Hux & Hvalues & Hcounts & Hsum).
    repeat split; try done. rewrite Hcounts. f_equal. lia.
  - intros st0 row token Hux. by apply ingestToken_flagged.
  - intros st0 st1 row j k token. apply ingestToken_flags_kept.
  - intros st0 st1 row j token. apply ingestToken_flags_later.
Qed.

(** C6.  In a column that is not a distribution column, an entry that
    is ['-'] followed by whitespace only (after the leading whitespace
    that every entry loses) raises no error: zero is stored at the
    column's fill index and neither the fill count nor a flag changes.
    When ingestion succeeds, the column's final sample count and the
    number of its ignored entries add up to the number of data rows. *)
Theorem ignored_entries_are_zeroed_and_not_counted (n : nat)
    (expectedHeaders : list string) (header : string) (rows : list string)
    (st : IngestState) (rowCount : Z) (i : nat) :
  ingestLines P inputDistributionsType n expectedHeaders (-1) (initialState n)
    (header :: rows) = Passed (st, rowCount) ->
  (i < n)%nat ->
  uxColumns st !! i = Some false ->
  (exists count,
     sampleCounts st !! i = Some count
     /\ (count + ignoredEntries (columnEntries i (rowTokens <$> rows))
         = length rows)%nat)
  /\ forall st0 row token,
       uxColumns st0 !! i = Some false ->
       shouldIgnore (trimLeadingWhitespace token) = true ->
       ingestToken P inputDistributionsType n row st0 i token
       = Passed {| sampleValues := storeSample st0 i (S754_zero false);
                   sampleCounts := sampleCounts st0;
                   uxColumns := uxColumns st0 |}
       /\ forall buffer,
            sampleValues st0 !! i = Some buffer ->
            (sampleCounts st0 !!! i < length buffer)%nat ->
            exists buffer',
              storeSample st0 i (S754_zero false) !! i = Some buffer'
              /\ buffer' !! (sampleCounts st0 !!! i) = Some (S754_zero false)
              /\ length buffer' = length buffer.
Proof.
  intros Hrun Hi Hux. split.
  - destruct (ingestLines_column _ _ _ _ _ _ _ Hrun Hi) as [Hlen H].
    destruct (columnEntries i (rowTokens <$> rows)) as [|first later].
    + exists 0%nat. destruct H as [_ H]. split; [done|]. simpl in Hlen.
      by rewrite <- Hlen.
    + destruct (strstr first uxMarker).
      * destruct H as [H _]. congruence.
      * destruct H as (_ & _ & Hcounts & Hsum). eauto.
  - intros st0 row token Hux0 Hignore. split.
    + by apply ingestToken_ignored.
    + intros buffer. apply storeSample_lookup.
Qed.
End Classification.

(* ===================================================================== *)
(** * The row ceiling *)
(* ===================================================================== *)

Section Capacity.
Context (parse : string -> option spec_float).

Lemma ingestRows_app (rows1 rows2 : list (list string)) :
  forall (rowCount : Z) (columns : list Column),
    ingestRows parse rowCount columns (rows1 ++ rows2)
    = (r ← ingestRows parse rowCount columns rows1;
       ingestRows parse r.2 r.1 rows2).
Proof.
  induction rows1 as [|tokens rows1 IH]; intros rowCount columns; [done|].
  cbn [app ingestRows].
  destruct (rowCount >=? kCommonConstantMaxNumberOfInputSamples); [done|].
  destruct (ingestEntries parse rowCount 0 columns tokens) as [columns'|d]; [|done].
  cbn [mbind Checked_bind]. apply IH.
Qed.

Lemma ingestEntries_diagnostic (rowCount : Z) (tokens : list string) :
  forall (j : nat) (columns : list Column) (d : Diagnostic),
    ingestEntries parse rowCount j columns tokens = Failed d ->
    d = MoreThanExpectedEntries rowCount \/ d = LessThanExpectedEntries rowCount
    \/ exists columnCount token, d = NotAValidNumber rowCount columnCount token.
Proof.
  induction tokens as [|token tokens IH]; intros j [|c columns] d; simpl; try done.
  - intros [= <-]. eauto.
  - intros [= <-]. eauto.
  - unfold ingestEntry at 1.
    destruct c.1; simpl.
    { destruct (ingestEntries _ _ _ _ _) eqn:H; [done|]. simpl.
      intros [= <-]. by eapply IH. }
    destruct (shouldIgnore token); simpl.
    { destruct (ingestEntries _ _ _ _ _) eqn:H; [done|]. simpl.
      intros [= <-]. by eapply IH. }
    destruct (parse token); simpl.
    { destruct (ingestEntries _ _ _ _ _) eqn:H; [done|]. simpl.
      intros [= <-]. by eapply IH. }
    intros [= <-]. eauto.
Qed.

Lemma ingestRows_capacity (rows : list (list string)) :
  forall (rowCount : Z) (columns : list Column) (r : Z),
    ingestRows parse rowCount columns rows = Failed (TooManyRows r) ->
    kCommonConstantMaxNumberOfInputSamples < rowCount + Z.of_nat (length rows).
Proof.
  induction rows as [|tokens rows IH]; intros rowCount columns r; [done|].
  cbn [ingestRows]. simpl length.
  destruct (rowCount >=? kCommonConstantMaxNumberOfInputSamples) eqn:Hcap.
  { intros _. rewrite Z.geb_leb in Hcap. apply Z.leb_le in Hcap. lia. }
  destruct (ingestEntries parse rowCount 0 columns tokens) as [columns'|d] eqn:Hrow.
  - cbn [mbind Checked_bind]. intros H%IH. lia.
  - cbn [mbind Checked_bind]. intros [= ->].
    apply ingestEntries_diagnostic in Hrow as [?|[?|(? & ? & ?)]]; done.
Qed.

Lemma ingestRows_bound (rows : list (list string)) :
  forall (rowCount : Z) (columns columns' : list Column) (rowCount' : Z),
    ingestRows parse rowCount columns rows = Passed (columns', rowCount') ->
    Forall (fun c : Column => Z.of_nat (length c.2) <= rowCount) columns ->
    Forall (fun c : Column => Z.of_nat (length c.2) <= rowCount') columns'.
Proof.
  induction rows as [|tokens rows IH]; intros rowCount columns columns' rowCount'.
  - by intros [= <- <-].
  - cbn [ingestRows].
    destruct (rowCount >=? kCommonConstantMaxNumberOfInputSamples); [done|].
    destruct (ingestEntries parse rowCount 0 columns tokens) as [columns1|d] eqn:Hrow;
      [|done].
    cbn [mbind Checked_bind]. intros H Hbound. eapply IH; [exact H|].
    by eapply ingestEntries_bound.
Qed.
End Capacity.

Lemma validateHeaderTokens_diagnostic (expectedHeaders : list string)
    (tokens : list string) :
  forall (j : nat) (d : Diagnostic),
    validateHeaderTokens expectedHeaders j tokens = Failed d ->
    d = MoreThanExpectedHeaderValues
    \/ exists columnCount expected token,
         d = HeaderMismatch columnCount expected token
         \/ d = HeaderTrailingCharacters columnCount expected token.
Proof.
  induction tokens as [|token tokens IH]; intros j d; simpl; [done|].
  destruct (expectedHeaders !! j) as [expected|]; [|intros [= <-]; by left].
  destruct (negb (String.prefix _ _)); [intros [= <-]; right; eauto 6|].
  destruct (negb (allChars _ _)); [intros [= <-]; right; eauto 6|].
  apply IH.
Qed.

Lemma validateHeader_not_capacity (row : string) (expectedHeaders : list string) (r : Z) :
  validateInputDistributionCSVHeader row expectedHeaders <> Failed (TooManyRows r).
Proof.
  unfold validateInputDistributionCSVHeader.
  destruct (validateHeaderTokens _ _ _) as [columnCount|d] eqn:H; simpl.
  - by destruct (decide _).
  - intros [= ->].
    apply validateHeaderTokens_diagnostic in H as [?|(? & ? & ? & [?|?])]; done.
Qed.

Section Ceiling.
Context (P : Platform) (inputDistributionsType : FloatingPointVariableType).

Local Abbreviation parse := (parseChecked P inputDistributionsType).

Lemma ingestLines_beyond_capacity (n : nat) (expectedHeaders : list string)
    (header : string) (rows : list string) :
  kCommonConstantMaxNumberOfInputSamples < Z.of_nat (length rows) ->
  ingestLines P inputDistributionsType n expectedHeaders (-1) (initialState n)
    (header :: rows)
  = match ingestLines P inputDistributionsType n expectedHeaders (-1)
            (initialState n) (header :: take sampleCapacity rows) with
    | Passed _ => Failed (TooManyRows kCommonConstantMaxNumberOfInputSamples)
    | Failed d => Failed d
    end.
Proof.
  intros Hlen. rewrite !ingestLines_file.
  destruct (validateInputDistributionCSVHeader _ _) as [[]|d]; [|done].
  cbn [mbind Checked_bind].
  rewrite <- (take_drop sampleCapacity rows) at 1.
  rewrite fmap_app, ingestRows_app.
  destruct (ingestRows parse 0 _ (rowTokens <$> take sampleCapacity rows))
    as [[columns rowCount]|d] eqn:Hfirst; [|done].
  cbn [mbind Checked_bind fmap Checked_fmap fst snd].
  apply ingestRows_columns in Hfirst as (Hrc & _).
  rewrite length_fmap, length_take in Hrc.
  assert (Hcap : rowCount = kCommonConstantMaxNumberOfInputSamples).
  { unfold sampleCapacity, kCommonConstantMaxNumberOfInputSamples in *. lia. }
  destruct (drop sampleCapacity rows) as [|row later] eqn:Hdrop.
  { apply (f_equal length) in Hdrop. rewrite length_drop in Hdrop. simpl in Hdrop.
    unfold sampleCapacity, kCommonConstantMaxNumberOfInputSamples in *. lia. }
  cbn [fmap list_fmap ingestRows]. by rewrite Hcap.
Qed.

Lemma ingestLines_within_capacity (n : nat) (expectedHeaders : list string)
    (header : string) (rows : list string) (r : Z) :
  Z.of_nat (length rows) <= kCommonConstantMaxNumberOfInputSamples ->
  ingestLines P inputDistributionsType n expectedHeaders (-1) (initialState n)
    (header :: rows) <> Failed (TooManyRows r).
Proof.
  intros Hlen. rewrite ingestLines_file.
  destruct (validateInputDistributionCSVHeader _ _) as [[]|d] eqn:Hheader.
  - cbn [mbind Checked_bind].
    destruct (ingestRows parse 0 _ _) as [[columns rowCount]|d] eqn:Hrows; [done|].
    cbn [fmap Checked_fmap]. intros [= ->].
    apply ingestRows_capacity in Hrows. rewrite length_fmap in Hrows. lia.
  - cbn [mbind Checked_bind]. intros [= ->].
    by eapply validateHeader_not_capacity.
Qed.

Lemma ingestLines_counts (n : nat) (expectedHeaders : list string)
    (header : string) (rows : list string) (st : IngestState) (rowCount : Z) :
  ingestLines P inputDistributionsType n expectedHeaders (-1) (initialState n)
    (header :: rows) = Passed (st, rowCount) ->
  rowCount = Z.of_nat (length rows)
  /\ rowCount <= kCommonConstantMaxNumberOfInputSamples
  /\ Forall (fun count => Z.of_nat count <= rowCount) (sampleCounts st)
  /\ Forall (fun buffer : list spec_float => length buffer = sampleCapacity)
       (sampleValues st).
Proof.
  intros Hrun.
  destruct (ingestLines_columns P inputDistributionsType _ _ _ _ _ _ Hrun)
    as (_ & _ & _ & Hrc & Hcap & _ & _).
  rewrite ingestLines_file in Hrun.
  destruct (validateInputDistributionCSVHeader _ _) as [[]|d]; [|done].
  cbn [mbind Checked_bind] in Hrun.
  destruct (ingestRows parse 0 _ _) as [[columns rowCount']|d] eqn:Hrows; [|done].
  cbn [fmap Checked_fmap fst snd] in Hrun. injection Hrun as <- <-.
  apply ingestRows_bound in Hrows; [|apply Forall_replicate; simpl; lia].
  split; [done|]. split; [done|]. split.
  - simpl. by apply Forall_fmap.
  - simpl. apply Forall_fmap.
    eapply Forall_impl; [exact Hrows|]. intros c Hc. simpl in *.
    apply padded_length.
    unfold sampleCapacity, kCommonConstantMaxNumberOfInputSamples in *. lia.
Qed.

(** C7 (as amended).  A data row is a buffer that [fgets] returns after
    the header (a line, or a piece of a line that is longer than the line
    buffer).  For a file that opens, with at least one expected header:
    with more than 10000 data rows the routine returns the error, and the
    diagnostic is the one that the header and the first 10000 rows raise,
    if they raise one, and otherwise the capacity one, so that no token of
    a later row is looked at; with at most 10000 data rows the capacity
    diagnostic is never raised; and whenever ingestion succeeds no column
    holds more samples than rows were read, at most 10000, in its buffer
    of 10000 values. *)
Theorem rows_beyond_capacity_are_rejected (inputFilePath : string)
    (expectedHeaders : list string) (inputDistributions : list spec_float)
    (stream header : string) (rows : list string) :
  expectedHeaders <> [] ->
  inputDistributionsType <> kFloatingPointVariableTypeUnknown ->
  String.eqb inputFilePath "stdin" = false ->
  fopen P inputFilePath = Some stream ->
  fgetsAll kCommonConstantMaxCharsPerLine stream = header :: rows ->
  (kCommonConstantMaxNumberOfInputSamples < Z.of_nat (length rows) ->
   readInputDistributionsFromCSV P inputFilePath expectedHeaders inputDistributions
     inputDistributionsType
   = Returned kCommonConstantReturnTypeError
       (Some match ingestLines P inputDistributionsType (length expectedHeaders)
                     expectedHeaders (-1) (initialState (length expectedHeaders))
                     (header :: take sampleCapacity rows) with
             | Passed _ => TooManyRows kCommonConstantMaxNumberOfInputSamples
             | Failed d => d
             end)
       inputDistributions)
  /\ (Z.of_nat (length rows) <= kCommonConstantMaxNumberOfInputSamples ->
      forall r out,
        readInputDistributionsFromCSV P inputFilePath expectedHeaders
          inputDistributions inputDistributionsType
        <> Returned kCommonConstantReturnTypeError (Some (TooManyRows r)) out)
  /\ (forall st rowCount,
        ingestLines P inputDistributionsType (length expectedHeaders) expectedHeaders
          (-1) (initialState (length expectedHeaders)) (header :: rows)
        = Passed (st, rowCount) ->
        rowCount = Z.of_nat (length rows)
        /\ rowCount <= kCommonConstantMaxNumberOfInputSamples
        /\ Forall (fun count => Z.of_nat count <= rowCount) (sampleCounts st)
        /\ Forall (fun buffer : list spec_float => length buffer = sampleCapacity)
             (sampleValues st)).
Proof.
  intros Hn Hty Hpath Hopen Hlines.
  rewrite (readInputDistributionsFromCSV_file P inputDistributionsType _ _ _
             stream header rows) by done.
  split; [|split].
  - intros Hlen. rewrite ingestLines_beyond_capacity by done.
    by destruct (ingestLines _ _ _ _ _ _ (header :: take sampleCapacity rows)).
  - intros Hlen r out.
    pose proof (ingestLines_within_capacity (length expectedHeaders) expectedHeaders
                  header rows r Hlen) as Hnot.
    destruct (ingestLines _ _ _ _ _ _ (header :: rows)) as [[st rc]|d]; [done|].
    intros [= -> _]. done.
  - intros st rowCount. apply ingestLines_counts.
Qed.
End Ceiling.

(* ===================================================================== *)
(** * Tokens *)
(* ===================================================================== *)

Lemma consNonEmpty_nonempty (token : string) (tokens : list string) :
  Forall (fun t => t <> EmptyString) tokens ->
  Forall (fun t => t <> EmptyString) (consNonEmpty token tokens).
Proof. intros H. destruct token; [done|]. by constructor. Qed.

Lemma strtokAux_nonempty (s : string) :
  Forall (fun t => t <> EmptyString) (strtokAux s).2.
Proof.
  induction s as [|c rest IH]; [by constructor|].
  cbn [strtokAux]. destruct (strtokAux rest) as [token tokens]. simpl in IH.
  destruct (Ascii.eqb c comma); simpl; [by apply consNonEmpty_nonempty | done].
Qed.

Lemma strtokAll_pair (s : string) :
  strtokAll s = consNonEmpty (strtokAux s).1 (strtokAux s).2.
Proof. unfold strtokAll. by destruct (strtokAux s). Qed.

(** No token is empty. *)
Lemma strtokAll_nonempty (s : string) :
  Forall (fun t => t <> EmptyString) (strtokAll s).
Proof. rewrite strtokAll_pair. apply consNonEmpty_nonempty, strtokAux_nonempty. Qed.

Lemma strtokAux_append (a x y : string) :
  strtokAux x = strtokAux y -> strtokAux (a ++ x) = strtokAux (a ++ y).
Proof. intros H. induction a as [|c a IH]; [done|]. simpl. by rewrite IH. Qed.

Lemma strtokAll_append (a x y : string) :
  strtokAux x = strtokAux y -> strtokAll (a ++ x) = strtokAll (a ++ y).
Proof. intros H. unfold strtokAll. by rewrite (strtokAux_append a x y H). Qed.

(** Two commas in a row split like one. *)
Lemma strtokAll_double_comma (a b : string) :
  strtokAll (a ++ String comma (String comma b)) = strtokAll (a ++ String comma b).
Proof.
  apply strtokAll_append. cbn [strtokAux]. destruct (strtokAux b) as [token tokens].
  by rewrite Ascii.eqb_refl.
Qed.

Lemma strtokAll_leading_comma (s : string) :
  strtokAll (String comma s) = strtokAll s.
Proof.
  unfold strtokAll. cbn [strtokAux]. destruct (strtokAux s) as [token tokens].
  by rewrite Ascii.eqb_refl.
Qed.

Lemma strtokAll_trailing_comma (s : string) :
  strtokAll (s ++ String comma EmptyString) = strtokAll s.
Proof.
  rewrite <- (string_append_empty s) at 2. by apply strtokAll_append.
Qed.

Lemma consNonEmpty_app (token : string) (tokens more : list string) :
  consNonEmpty token tokens ++ more = consNonEmpty token (tokens ++ more).
Proof. by destruct token. Qed.

Lemma strtokAux_comma (a b : string) :
  strtokAux (a ++ String comma b)
  = ((strtokAux a).1, (strtokAux a).2 ++ strtokAll b).
Proof.
  induction a as [|c a IH].
  - rewrite (strtokAll_pair b). cbn [append strtokAux fst snd].
    destruct (strtokAux b) as [token tokens]. by rewrite Ascii.eqb_refl.
  - cbn [append strtokAux]. rewrite IH. destruct (strtokAux a) as [token tokens].
    cbn [fst snd]. destruct (Ascii.eqb c comma); cbn [fst snd]; [|done].
    by rewrite consNonEmpty_app.
Qed.

(** The tokens on either side of a comma, one after the other. *)
Lemma strtokAll_comma (a b : string) :
  strtokAll (a ++ String comma b) = strtokAll a ++ strtokAll b.
Proof.
  rewrite (strtokAll_pair (a ++ String comma b)), strtokAux_comma. cbn [fst snd].
  by rewrite (strtokAll_pair a), consNonEmpty_app.
Qed.

Lemma scanToken_strtokAux (s : string) :
  strtokAux s = ((scanToken s).1, strtokAll (scanToken s).2).
Proof.
  induction s as [|c rest IH]; [done|].
  cbn [strtokAux scanToken].
  destruct (Ascii.eqb c comma) eqn:Hc.
  - cbn [fst snd]. rewrite (strtokAll_pair rest).
    by destruct (strtokAux rest) as [token tokens].
  - rewrite IH. by destruct (scanToken rest) as [token state].
Qed.

(** [strtokAll] lists what the successive calls of [strtok_r] return. *)
Lemma strtokAll_strtok_r (s : string) :
  strtokAll s
  = match strtok_r s with
    | None => []
    | Some (token, state) => token :: strtokAll state
    end.
Proof.
  induction s as [|c rest IH]; [done|].
  destruct (Ascii.eqb c comma) eqn:Hc.
  - apply Ascii.eqb_eq in Hc as ->. rewrite strtokAll_leading_comma, IH.
    unfold strtok_r. cbn [skipDelimiters]. by rewrite Ascii.eqb_refl.
  - unfold strtok_r. cbn [skipDelimiters]. rewrite Hc.
    rewrite strtokAll_pair, scanToken_strtokAux.
    cbn [scanToken]. rewrite Hc.
    by destruct (scanToken rest) as [token state].
Qed.

(* ===================================================================== *)
(** * The header validator *)
(* ===================================================================== *)

Lemma validateHeaderTokens_step (expectedHeaders : list string) (j : nat)
    (expected token : string) (tokens : list string) :
  expectedHeaders !! j = Some expected ->
  validateHeaderTokens expectedHeaders j (token :: tokens)
  = match headerValueError j expected token with
    | Some d => Failed d
    | None => validateHeaderTokens expectedHeaders (S j) tokens
    end.
Proof.
  intros He. cbn [validateHeaderTokens]. rewrite He. unfold headerValueError.
  destruct (negb (String.prefix _ _)); [done|].
  by destruct (negb (allChars _ _)).
Qed.

Lemma validateHeaderTokens_first_error (expectedHeaders : list string)
    (tokens : list string) :
  forall (j i : nat) (expected raw : string) (d : Diagnostic),
    tokens !! i = Some raw ->
    expectedHeaders !! (j + i)%nat = Some expected ->
    headerValueError (j + i) expected raw = Some d ->
    (forall k e t, (k < i)%nat ->
       expectedHeaders !! (j + k)%nat = Some e -> tokens !! k = Some t ->
       headerValueError (j + k) e t = None) ->
    validateHeaderTokens expectedHeaders j tokens = Failed d.
Proof.
  induction tokens as [|token tokens IH]; intros j i expected raw d Hraw He Hd Hpass;
    [done|].
  destruct i as [|i].
  - rewrite Nat.add_0_r in *. injection Hraw as ->.
    by rewrite (validateHeaderTokens_step _ _ _ _ _ He), Hd.
  - destruct (lookup_lt_is_Some_2 expectedHeaders j) as [e0 He0].
    { apply lookup_lt_Some in He. lia. }
    rewrite (validateHeaderTokens_step _ _ _ _ _ He0).
    assert (H0 : headerValueError j e0 token = None).
    { pose proof (Hpass 0%nat e0 token) as H. rewrite Nat.add_0_r in H.
      apply H; [lia | done | done]. }
    rewrite H0.
    apply (IH (S j) i expected raw d); try done.
    + by replace (S j + i)%nat with (j + S i)%nat by lia.
    + by replace (S j + i)%nat with (j + S i)%nat by lia.
    + intros k e t Hk Hek Ht.
      replace (S j + k)%nat with (j + S k)%nat in * by lia.
      apply Hpass; [lia | done | done].
Qed.

Lemma validateHeaderTokens_outcome (expectedHeaders : list string)
    (tokens : list string) :
  forall j : nat,
    match validateHeaderTokens expectedHeaders j tokens with
    | Passed columnCount =>
        columnCount = (j + length tokens)%nat
        /\ (tokens = [] \/ (j + length tokens <= length expectedHeaders)%nat)
        /\ forall k e t,
             expectedHeaders !! (j + k)%nat = Some e -> tokens !! k = Some t ->
             headerValueError (j + k) e t = None
    | Failed MoreThanExpectedHeaderValues =>
        (length expectedHeaders < j + length tokens)%nat
        /\ forall k e t,
             expectedHeaders !! (j + k)%nat = Some e -> tokens !! k = Some t ->
             headerValueError (j + k) e t = None
    | Failed _ => True
    end.
Proof.
  induction tokens as [|token tokens IH]; intros j.
  - simpl. repeat split; [lia | by left | done].
  - destruct (expectedHeaders !! j) as [expected|] eqn:He.
    + rewrite (validateHeaderTokens_step _ _ _ _ _ He).
      destruct (headerValueError j expected token) as [d|] eqn:Hd.
      { unfold headerValueError in Hd.
        destruct (negb (String.prefix _ _)); [by injection Hd as <-|].
        destruct (negb (allChars _ _)); [by injection Hd as <- | done]. }
      specialize (IH (S j)).
      assert (Hhead : forall k e t,
                 (forall k' e' t', expectedHeaders !! (S j + k')%nat = Some e' ->
                    tokens !! k' = Some t' -> headerValueError (S j + k') e' t' = None) ->
                 expectedHeaders !! (j + k)%nat = Some e ->
                 (token :: tokens) !! k = Some t ->
                 headerValueError (j + k) e t = None).
      { intros [|k] e t Hrest Hek Ht.
        - rewrite Nat.add_0_r in *. simpl in Ht. congruence.
        - replace (j + S k)%nat with (S j + k)%nat in * by lia.
          by apply Hrest. }
      destruct (validateHeaderTokens expectedHeaders (S j) tokens) as [c|d].
      * destruct IH as (-> & Hlen & Hpass). simpl length.
        split; [lia|]. split.
        -- right. apply lookup_lt_Some in He.
           destruct Hlen as [->|?]; simpl; lia.
        -- intros k e t. by apply Hhead.
      * destruct d; try done. destruct IH as [Hlen Hpass]. simpl length.
        split; [lia|]. intros k e t. by apply Hhead.
    + cbn [validateHeaderTokens]. rewrite He.
      apply lookup_ge_None in He. simpl length. split; [lia|].
      intros k e t Hek. apply lookup_lt_Some in Hek. lia.
Qed.

Lemma validateHeader_more (row : string) (expectedHeaders : list string) :
  validateInputDistributionCSVHeader row expectedHeaders
  = Failed MoreThanExpectedHeaderValues ->
  (length expectedHeaders < length (strtokAll row))%nat
  /\ valuesPassBelow (length expectedHeaders) expectedHeaders (strtokAll row).
Proof.
  unfold validateInputDistributionCSVHeader.
  pose proof (validateHeaderTokens_outcome expectedHeaders (strtokAll row) 0) as H.
  destruct (validateHeaderTokens _ _ _) as [c|d]; simpl.
  - by destruct (decide _).
  - intros [= ->]. destruct H as [Hlen Hpass]. split; [done|].
    intros k e t _. apply (Hpass k e t).
Qed.

Lemma validateHeader_less (row : string) (expectedHeaders : list string) :
  validateInputDistributionCSVHeader row expectedHeaders
  = Failed LessThanExpectedHeaderValues ->
  (length (strtokAll row) < length expectedHeaders)%nat
  /\ valuesPassBelow (length (strtokAll row)) expectedHeaders (strtokAll row).
Proof.
  unfold validateInputDistributionCSVHeader.
  pose proof (validateHeaderTokens_outcome expectedHeaders (strtokAll row) 0) as H.
  destruct (validateHeaderTokens _ _ _) as [c|d] eqn:Hrun; simpl.
  - destruct (decide _) as [Hne|]; [|done]. intros _.
    destruct H as (-> & Hlen & Hpass). simpl in *. split.
    + destruct Hlen as [Hnil|?]; [|lia]. rewrite Hnil in *. simpl in *. lia.
    + intros k e t _. apply (Hpass k e t).
  - intros [= ->].
    apply validateHeaderTokens_diagnostic in Hrun as [?|(? & ? & ? & [?|?])]; done.
Qed.

(** C2 (as amended).  The validator reports the first failure in token
    order.  A token whose text does not match its expected header, or that
    has characters other than whitespace after the match, is reported when
    the tokens before it pass, whatever the number of tokens; a
    column-count mismatch is reported only when every token that has an
    expected header passes those checks: too many values at the token
    after the last expected header, too few values once the tokens run
    out. *)
Theorem header_errors_are_reported_in_token_order (row : string)
    (expectedHeaders : list string) (columnCount : nat) (expected token : string)
    (d : Diagnostic) :
  strtokAll row !! columnCount = Some token ->
  expectedHeaders !! columnCount = Some expected ->
  headerValueError columnCount expected token = Some d ->
  valuesPassBelow columnCount expectedHeaders (strtokAll row) ->
  validateInputDistributionCSVHeader row expectedHeaders = Failed d
  /\ (forall row',
        validateInputDistributionCSVHeader row' expectedHeaders
        = Failed MoreThanExpectedHeaderValues ->
        (length expectedHeaders < length (strtokAll row'))%nat
        /\ valuesPassBelow (length expectedHeaders) expectedHeaders (strtokAll row'))
  /\ (forall row',
        validateInputDistributionCSVHeader row' expectedHeaders
        = Failed LessThanExpectedHeaderValues ->
        (length (strtokAll row') < length expectedHeaders)%nat
        /\ valuesPassBelow (length (strtokAll row')) expectedHeaders (strtokAll row')).
Proof.
  intros Htoken He Hd Hpass. split; [|split].
  - unfold validateInputDistributionCSVHeader.
    rewrite (validateHeaderTokens_first_error expectedHeaders (strtokAll row)
               0 columnCount expected token d); done.
  - intros row'. apply validateHeader_more.
  - intros row'. apply validateHeader_less.
Qed.

(* ===================================================================== *)
(** * Empty fields *)
(* ===================================================================== *)

Section EmptyFields.
Context (P : Platform) (inputDistributionsType : FloatingPointVariableType).

Local Abbreviation parse := (parseChecked P inputDistributionsType).
Local Abbreviation dist := (distFromSamples P inputDistributionsType).

Lemma collapsedFieldsFile_outcome (inputFilePath : string)
    (out1 out2 v1 v2 : spec_float) :
  inputDistributionsType <> kFloatingPointVariableTypeUnknown ->
  String.eqb inputFilePath "stdin" = false ->
  fopen P inputFilePath = Some collapsedFieldsFile ->
  parse "1"%string = Some v1 -> parse "2"%string = Some v2 ->
  readInputDistributionsFromCSV P inputFilePath ["a"; "b"]%string [out1; out2]
    inputDistributionsType
  = Returned kCommonConstantReturnTypeSuccess None
      [dist (padded [v1]) 1%nat; dist (padded [v2]) 1%nat].
Proof.
  intros Hty Hpath Hopen H1 H2.
  rewrite (readInputDistributionsFromCSV_file P inputDistributionsType _ _ _
             collapsedFieldsFile (line "a,b") ["1,,2"%string]);
    [|done..|by vm_compute].
  rewrite ingestLines_file.
  assert (Hheader : validateInputDistributionCSVHeader (cString (line "a,b"))
                      ["a"; "b"]%string = Passed tt) by reflexivity.
  rewrite Hheader. cbn [mbind Checked_bind].
  assert (Hrows : ingestRows parse 0 (replicate (length ["a"; "b"]%string) (false, []))
                    (rowTokens <$> ["1,,2"%string])
                  = Passed ([(false, [v1]); (false, [v2])], 1)).
  { change (rowTokens <$> ["1,,2"%string]) with [["1"; "2"]%string].
    cbn [length replicate ingestRows ingestEntries].
    change (0 >=? kCommonConstantMaxNumberOfInputSamples) with false. cbv iota.
    unfold ingestEntry. cbn [fst snd].
    change (shouldIgnore "1") with false. change (shouldIgnore "2") with false.
    change (strstr "1" uxMarker) with false. change (strstr "2" uxMarker) with false.
    rewrite H1, H2. reflexivity. }
  rewrite Hrows. cbn [fmap Checked_fmap fst snd].
  change (length ["a"; "b"]%string)
    with (length [(false, [v1]); (false, [v2]) : Column]).
  by rewrite materialize_columns.
Qed.

(** C10 (as amended).  [strtok_r] never returns an empty token: the
    tokens of a buffer are those before a comma followed by those after
    it, so that two commas in a row split like one, and a comma at the
    start or at the very end of the buffer adds no token.  So the row
    ["1,,2"] has exactly the two entries ["1"] and ["2"], and a file with
    that row under the header ["a,b"] is accepted against two expected
    columns, each holding the one sample that its entry parses to.  A
    newline after a final comma is a token of its own. *)
Theorem empty_fields_are_collapsed (inputFilePath : string)
    (out1 out2 v1 v2 : spec_float) :
  inputDistributionsType <> kFloatingPointVariableTypeUnknown ->
  String.eqb inputFilePath "stdin" = false ->
  fopen P inputFilePath = Some collapsedFieldsFile ->
  parse "1"%string = Some v1 -> parse "2"%string = Some v2 ->
  rowTokens "1,,2" = ["1"; "2"]%string
  /\ readInputDistributionsFromCSV P inputFilePath ["a"; "b"]%string [out1; out2]
       inputDistributionsType
     = Returned kCommonConstantReturnTypeSuccess None
         [dist (padded [v1]) 1%nat; dist (padded [v2]) 1%nat]
  /\ (forall s, Forall (fun token => token <> EmptyString) (strtokAll s))
  /\ (forall a b, strtokAll (a ++ String comma b) = strtokAll a ++ strtokAll b)
  /\ (forall a b,
        strtokAll (a ++ String comma (String comma b))
        = strtokAll (a ++ String comma b))
  /\ (forall s, strtokAll (String comma s) = strtokAll s)
  /\ (forall s, strtokAll (s ++ String comma EmptyString) = strtokAll s)
  /\ (forall s, strtokAll (s ++ String comma (String newline EmptyString))
                = strtokAll s ++ [String newline EmptyString])
  /\ (forall s,
        strtokAll s
        = match strtok_r s with
          | None => []
          | Some (token, state) => token :: strtokAll state
          end).
Proof.
  intros Hty Hpath Hopen H1 H2.
  split; [reflexivity|]. split; [by apply collapsedFieldsFile_outcome|].
  split; [apply strtokAll_nonempty|]. split; [apply strtokAll_comma|].
  split; [apply strtokAll_double_comma|].
  split; [apply strtokAll_leading_comma|]. split; [apply strtokAll_trailing_comma|].
  split; [intros s; apply strtokAll_comma|].
  apply strtokAll_strtok_r.
Qed.
End EmptyFields.

(* ===================================================================== *)
(** * The statements on the example files *)
(* ===================================================================== *)

Lemma well_formed_csv_is_ingested_witness :
  exists out,
    readInputDistributionsFromCSV (referencePlatform exampleFiles) "plain.csv"
      ["a"; "b"]%string [S754_nan; S754_nan] kFloatingPointVariableTypeDouble
    = Returned kCommonConstantReturnTypeSuccess None out
    /\ length out = length ["a"; "b"]%string
    /\ forall i, (i < length ["a"; "b"]%string)%nat ->
         out !! i
         = Some (expectedDistribution
                   (parseChecked (referencePlatform exampleFiles)
                      kFloatingPointVariableTypeDouble)
                   (distFromSamples (referencePlatform exampleFiles)
                      kFloatingPointVariableTypeDouble)
                   (columnEntries i (rowTokens <$> drop 1 (linesOf plainFile)))).
Proof.
  apply (well_formed_csv_is_ingested (referencePlatform exampleFiles)
           kFloatingPointVariableTypeDouble "plain.csv" ["a"; "b"]%string
           [S754_nan; S754_nan] plainFile).
  - discriminate.
  - reflexivity.
  - reflexivity.
  - reflexivity.
  - repeat constructor.
  - vm_compute. reflexivity.
Defined.

(** C1, as stated, fails: the one entry of the first data row of
    [markerOnlyFile] carries the marker, which makes the file well formed
    in the words of the specification, but it is not a number and the
    routine returns the error. *)
Lemma marker_entry_that_is_not_a_number_is_rejected :
  wellFormedCSV
    (entryAsSpecified (parseChecked (referencePlatform exampleFiles)
                         kFloatingPointVariableTypeDouble))
    ["a"%string] (fgetsAll kCommonConstantMaxCharsPerLine markerOnlyFile) = true
  /\ linesOf markerOnlyFile = fgetsAll kCommonConstantMaxCharsPerLine markerOnlyFile
  /\ readInputDoubleDistributionsFromCSV (referencePlatform exampleFiles) "marker.csv"
       ["a"%string] [S754_nan]
     = Returned kCommonConstantReturnTypeError
         (Some (NotAValidNumber 0 0 (line "Ux"))) [S754_nan].
Proof. repeat split; vm_compute; reflexivity. Qed.

Lemma header_errors_are_reported_in_token_order_witness :
  validateInputDistributionCSVHeader "x,b,c" ["a"; "b"]%string
  = Failed (HeaderMismatch 0 "a" "x")
  /\ (forall row',
        validateInputDistributionCSVHeader row' ["a"; "b"]%string
        = Failed MoreThanExpectedHeaderValues ->
        (length ["a"; "b"]%string < length (strtokAll row'))%nat
        /\ valuesPassBelow (length ["a"; "b"]%string) ["a"; "b"]%string (strtokAll row'))
  /\ (forall row',
        validateInputDistributionCSVHeader row' ["a"; "b"]%string
        = Failed LessThanExpectedHeaderValues ->
        (length (strtokAll row') < length ["a"; "b"]%string)%nat
        /\ valuesPassBelow (length (strtokAll row')) ["a"; "b"]%string (strtokAll row')).
Proof.
  apply (header_errors_are_reported_in_token_order "x,b,c" ["a"; "b"]%string
           0 "a" "x" (HeaderMismatch 0 "a" "x")).
  - reflexivity.
  - reflexivity.
  - reflexivity.
  - intros j expected token Hj. lia.
Defined.

(** C2, as stated, fails: with three tokens (or one) against two expected
    headers the count is wrong, and what is reported is the text of the
    first token. *)
Lemma header_value_error_comes_before_count_mismatch :
  length (strtokAll "x,b,c") = 3%nat
  /\ validateInputDistributionCSVHeader "x,b,c" ["a"; "b"]%string
     = Failed (HeaderMismatch 0 "a" "x")
  /\ length (strtokAll "x") = 1%nat
  /\ validateInputDistributionCSVHeader "x" ["a"; "b"]%string
     = Failed (HeaderMismatch 0 "a" "x").
Proof. repeat split. Qed.

Lemma distribution_columns_are_fixed_by_the_first_row_witness :
  uxColumns (arraysOf [(true, [decimal64 15 1]); (false, [decimal64 7 0])]) !! 0%nat
  = Some true
  /\ exists v,
       parseChecked (referencePlatform exampleFiles) kFloatingPointVariableTypeDouble
         "1.5Ux04" = Some v
       /\ sampleValues (arraysOf [(true, [decimal64 15 1]); (false, [decimal64 7 0])])
            !! 0%nat = Some (padded [v])
       /\ sampleCounts (arraysOf [(true, [decimal64 15 1]); (false, [decimal64 7 0])])
            !! 0%nat = Some 1%nat.
Proof.
  pose proof (distribution_columns_are_fixed_by_the_first_row
                (referencePlatform exampleFiles) kFloatingPointVariableTypeDouble
                2 ["a"; "b"]%string (line "a , b")
                [line "1.5Ux04, -  "; line "garbage, 7"]
                (arraysOf [(true, [decimal64 15 1]); (false, [decimal64 7 0])]) 2 0)
    as H.
  apply H.
  - vm_compute. reflexivity.
  - lia.
Defined.

Lemma ignored_entries_are_zeroed_and_not_counted_witness :
  exists count,
    sampleCounts (arraysOf [(true, [decimal64 15 1]); (false, [decimal64 7 0])]) !! 1%nat
    = Some count
    /\ (count
        + ignoredEntries
            (columnEntries 1 (rowTokens <$> [line "1.5Ux04, -  "; line "garbage, 7"]))
        = length [line "1.5Ux04, -  "; line "garbage, 7"])%nat.
Proof.
  apply (ignored_entries_are_zeroed_and_not_counted
           (referencePlatform exampleFiles) kFloatingPointVariableTypeDouble
           2 ["a"; "b"]%string (line "a , b")
           [line "1.5Ux04, -  "; line "garbage, 7"]
           (arraysOf [(true, [decimal64 15 1]); (false, [decimal64 7 0])]) 2 1).
  - vm_compute. reflexivity.
  - lia.
  - reflexivity.
Defined.

Lemma rowsAccepted_replicate (accept : string -> bool) (tokens : list string)
    (count : nat) :
  forallb accept tokens = true ->
  forall rowIndex,
    rowsAccepted (fun _ => accept) (length tokens) rowIndex (replicate count tokens)
    = true.
Proof.
  intros Htokens. induction count as [|count IH]; intros rowIndex; [done|].
  cbn [replicate rowsAccepted]. by rewrite Nat.eqb_refl, Htokens, IH.
Qed.

Lemma replicated_rows_fit (text : string) (count : nat) :
  lineFits (line text) -> Forall lineFits (replicate count (line text)).
Proof. intros Hfit. by apply Forall_replicate. Qed.

Lemma tooManyRowsFile_buffers :
  fgetsAll kCommonConstantMaxCharsPerLine tooManyRowsFile
  = line "a" :: replicate (S sampleCapacity) (line "1").
Proof.
  assert (linesOf tooManyRowsFile
          = line "a" :: replicate (S sampleCapacity) (line "1")) as Hlines.
  { unfold tooManyRowsFile. by rewrite linesOf_line, linesOf_replicate. }
  rewrite fgetsAll_linesOf; rewrite Hlines; [done|].
  constructor; [done|]. by apply replicated_rows_fit.
Qed.

Lemma tooManyRowsAfterBadRow_buffers :
  fgetsAll kCommonConstantMaxCharsPerLine tooManyRowsAfterBadRow
  = line "a" :: line "x" :: replicate sampleCapacity (line "1").
Proof.
  assert (linesOf tooManyRowsAfterBadRow
          = line "a" :: line "x" :: replicate sampleCapacity (line "1")) as Hlines.
  { unfold tooManyRowsAfterBadRow.
    by rewrite linesOf_line, linesOf_line, linesOf_replicate. }
  rewrite fgetsAll_linesOf; rewrite Hlines; [done|].
  constructor; [done|]. constructor; [done|]. by apply replicated_rows_fit.
Qed.

Lemma rows_beyond_capacity_are_rejected_witness :
  kCommonConstantMaxNumberOfInputSamples
  < Z.of_nat (length (replicate (S sampleCapacity) (line "1")))
  /\ readInputDistributionsFromCSV
       (referencePlatform [("rows.csv"%string, tooManyRowsFile)]) "rows.csv"
       ["a"%string] [S754_nan] kFloatingPointVariableTypeDouble
     = Returned kCommonConstantReturnTypeError
         (Some (TooManyRows kCommonConstantMaxNumberOfInputSamples)) [S754_nan].
Proof.
  assert (kCommonConstantMaxNumberOfInputSamples
          < Z.of_nat (length (replicate (S sampleCapacity) (line "1")))) as Hlen.
  { rewrite length_replicate.
    unfold sampleCapacity, kCommonConstantMaxNumberOfInputSamples. lia. }
  split; [exact Hlen|].
  destruct (rows_beyond_capacity_are_rejected
              (referencePlatform [("rows.csv"%string, tooManyRowsFile)])
              kFloatingPointVariableTypeDouble "rows.csv" ["a"%string] [S754_nan]
              tooManyRowsFile (line "a") (replicate (S sampleCapacity) (line "1")))
    as [Hbeyond _].
  - discriminate.
  - discriminate.
  - reflexivity.
  - reflexivity.
  - exact tooManyRowsFile_buffers.
  - rewrite (Hbeyond Hlen).
    rewrite take_replicate, Nat.min_l by lia.
    rewrite ingestLines_file.
    change (validateInputDistributionCSVHeader (cString (line "a")) ["a"%string])
      with (Passed tt : Checked unit).
    cbn [mbind Checked_bind length].
    rewrite fmap_replicate.
    destruct (ingestRows_accepted
                (parseChecked (referencePlatform [("rows.csv"%string, tooManyRowsFile)])
                   kFloatingPointVariableTypeDouble)
                (replicate sampleCapacity (rowTokens (line "1"))) 0 0
                (replicate 1 (false, []))) as [columns ->]; [| |done].
    + rewrite length_replicate.
      unfold sampleCapacity, kCommonConstantMaxNumberOfInputSamples. lia.
    + apply (rowsAccepted_replicate _ (rowTokens (line "1"))). by vm_compute.
Defined.

(** C7, as stated, fails: [tooManyRowsAfterBadRow] has 10001 data rows,
    and what the routine reports is its first data row, which is not a
    number, not the capacity. *)
Lemma earlier_error_is_reported_before_capacity :
  fgetsAll kCommonConstantMaxCharsPerLine tooManyRowsAfterBadRow
  = line "a" :: line "x" :: replicate sampleCapacity (line "1")
  /\ kCommonConstantMaxNumberOfInputSamples
     < Z.of_nat (length (line "x" :: replicate sampleCapacity (line "1")))
  /\ readInputDoubleDistributionsFromCSV
       (referencePlatform [("rows.csv"%string, tooManyRowsAfterBadRow)]) "rows.csv"
       ["a"%string] [S754_nan]
     = Returned kCommonConstantReturnTypeError
         (Some (NotAValidNumber 0 0 (line "x"))) [S754_nan].
Proof.
  split; [exact tooManyRowsAfterBadRow_buffers|]. split.
  { cbn [length]. rewrite length_replicate.
    unfold sampleCapacity, kCommonConstantMaxNumberOfInputSamples. lia. }
  unfold readInputDoubleDistributionsFromCSV.
  rewrite (readInputDistributionsFromCSV_file _ _ _ _ _ tooManyRowsAfterBadRow
             (line "a") (line "x" :: replicate sampleCapacity (line "1")));
    [|discriminate|discriminate|reflexivity|reflexivity
     |exact tooManyRowsAfterBadRow_buffers].
  rewrite ingestLines_file.
  change (validateInputDistributionCSVHeader (cString (line "a")) ["a"%string])
    with (Passed tt : Checked unit).
  cbn [mbind Checked_bind length]. rewrite fmap_cons. cbn [ingestRows].
  change (0 >=? kCommonConstantMaxNumberOfInputSamples) with false. cbn iota.
  change (replicate 1 (false, [])) with [((false, []) : Column)].
  assert (ingestEntries
            (parseChecked (referencePlatform [("rows.csv"%string, tooManyRowsAfterBadRow)])
               kFloatingPointVariableTypeDouble)
            0 0 [((false, []) : Column)] (rowTokens (line "x"))
          = Failed (NotAValidNumber 0 0 (line "x"))) as -> by (by vm_compute).
  done.
Qed.

(** C10, as stated, fails at the end of a line: the newline that follows
    a final comma is a token, and the row ["1,2,"] of a line that ends
    with a newline has three entries against two expected columns. *)
Lemma empty_field_before_the_newline_is_an_entry :
  strtokAll (line "1,2,") = ["1"; "2"; String newline EmptyString]%string
  /\ readInputDoubleDistributionsFromCSV (referencePlatform exampleFiles) "trailing.csv"
       ["a"; "b"]%string [S754_nan; S754_nan]
     = Returned kCommonConstantReturnTypeError (Some (MoreThanExpectedEntries 0))
         [S754_nan; S754_nan].
Proof. split; vm_compute; reflexivity. Qed.

Lemma empty_fields_are_collapsed_witness :
  rowTokens "1,,2" = ["1"; "2"]%string
  /\ readInputDistributionsFromCSV (referencePlatform exampleFiles) "collapsed.csv"
       ["a"; "b"]%string [S754_nan; S754_nan] kFloatingPointVariableTypeFloat
     = Returned kCommonConstantReturnTypeSuccess None
         [distFromSamples (referencePlatform exampleFiles)
            kFloatingPointVariableTypeFloat (padded [decimal32 1 0]) 1%nat;
          distFromSamples (referencePlatform exampleFiles)
            kFloatingPointVariableTypeFloat (padded [decimal32 2 0]) 1%nat].
Proof.
  pose proof (empty_fields_are_collapsed (referencePlatform exampleFiles)
                kFloatingPointVariableTypeFloat "collapsed.csv"
                S754_nan S754_nan (decimal32 1 0) (decimal32 2 0)) as H.
  split; apply H; (discriminate || reflexivity).
Defined.

(* ===================================================================== *)
(** * The comparison function, both ways round *)
(* ===================================================================== *)

(** X1.  [compareFloats] and [compareDoubles] return [-1], [0] or [1];
    swapping the arguments negates the result, so an element compares
    equal to itself; and a NaN compares equal to every element, on either
    side. *)
Theorem comparison_is_antisymmetric :
  (forall a b : binary32,
     compareFloats a b = - compareFloats b a
     /\ -1 <= compareFloats a b <= 1
     /\ compareFloats a a = 0
     /\ compareFloats a S754_nan = 0 /\ compareFloats S754_nan a = 0)
  /\ (forall a b : binary64,
        compareDoubles a b = - compareDoubles b a
        /\ -1 <= compareDoubles a b <= 1
        /\ compareDoubles a a = 0
        /\ compareDoubles a S754_nan = 0 /\ compareDoubles S754_nan a = 0).
Proof.
  assert (forall prec emax (a b : ieee prec emax),
    compareSamples a b = - compareSamples b a
    /\ -1 <= compareSamples a b <= 1
    /\ compareSamples a a = 0
    /\ compareSamples a (S754_nan : ieee prec emax) = 0
    /\ compareSamples (S754_nan : ieee prec emax) a = 0) as H.
  { intros prec emax a b. split; [apply compareSamples_opp|].
    split; [apply compareSamples_range|].
    split; [pose proof (compareSamples_opp prec emax a a); lia|].
    split; [apply compareSamples_nan|].
    rewrite compareSamples_opp, compareSamples_nan. done. }
  split; intros a b; apply H.
Qed.

(* ===================================================================== *)
(** * Arrays of no samples *)
(* ===================================================================== *)

Lemma meanAndVariance_empty prec emax (dataArray : list (ieee prec emax)) :
  calculateMeanAndVarianceOfSamples (ieee prec emax) dataArray 0
  = Some (S754_nan, S754_nan).
Proof. reflexivity. Qed.

(** X2.  With [dataArraySize = 0] the mean is [0.0 / 0.0]: both routines
    return NaN for the mean and for the variance, whatever the array. *)
Theorem mean_and_variance_of_no_samples
    (floats : list binary32) (doubles : list binary64) :
  calculateMeanAndVarianceOfFloatSamples floats 0
  = Some {| mean := S754_nan; variance := S754_nan |}
  /\ calculateMeanAndVarianceOfDoubleSamples doubles 0
     = Some {| mean := S754_nan; variance := S754_nan |}.
Proof.
  unfold calculateMeanAndVarianceOfFloatSamples, calculateMeanAndVarianceOfDoubleSamples.
  unfold binary32, binary64. by rewrite !meanAndVariance_empty.
Qed.

Lemma quantile_empty (libc : Qsort) prec emax (dataArray : list (ieee prec emax))
    (quantilePercentage : ieee prec emax) :
  calculatePercentageQuantileOfSamples libc (ieee prec emax) dataArray
    quantilePercentage 0
  = match quantilePercentage with
    | S754_zero _ | S754_finite _ _ _ =>
        Some {| quantile := OutOfBounds 0 0; dataArrayAfter := dataArray |}
    | S754_infinity _ | S754_nan => None
    end.
Proof.
  unfold calculatePercentageQuantileOfSamples.
  rewrite decide_True by (simpl; lia).
  pose proof (qsort_size libc _ (@compareSamples (ieee prec emax)) (take 0 dataArray))
    as Hsize.
  rewrite take_0 in Hsize |- *.
  destruct (qsort libc compareSamples []) as [|x sorted]; [|done].
  by destruct quantilePercentage.
Qed.

(** X3.  With [dataArraySize = 0] the quantile routines never return a
    sample: for a finite percentage the index is [0] and the read of the
    empty sorted copy is out of bounds; for an infinite or NaN percentage
    the product does not convert to [int]. *)
Theorem quantile_of_no_samples (libc : Qsort)
    (floats : list binary32) (doubles : list binary64)
    (floatPercentage : binary32) (doublePercentage : binary64) :
  calculatePercentageQuantileOfFloatSamples libc floats floatPercentage 0
  = match floatPercentage with
    | S754_zero _ | S754_finite _ _ _ =>
        Some {| quantile := OutOfBounds 0 0; dataArrayAfter := floats |}
    | S754_infinity _ | S754_nan => None
    end
  /\ calculatePercentageQuantileOfDoubleSamples libc doubles doublePercentage 0
     = match doublePercentage with
       | S754_zero _ | S754_finite _ _ _ =>
           Some {| quantile := OutOfBounds 0 0; dataArrayAfter := doubles |}
       | S754_infinity _ | S754_nan => None
       end.
Proof. split; apply quantile_empty. Qed.

(* ===================================================================== *)
(** * The output arrays of the multi-dimensional routines *)
(* ===================================================================== *)

(** X4.  The multi-dimensional routines write the first
    [dataArrayColumns] entries of the two output arrays and nothing else:
    longer arrays keep their length and their entries from index
    [dataArrayColumns] on. *)
Theorem multi_dimensional_writes_only_the_columns (T : FloatType)
    (dataArray : list (list T)) (rows cols : nat)
    (meanValueArray varianceArray : list T) :
  isMatrix dataArray rows cols ->
  (cols <= length meanValueArray)%nat -> (cols <= length varianceArray)%nat ->
  exists means variances,
    calculateMeanAndVarianceOfMultiDimensionalSamples T dataArray rows cols
      meanValueArray varianceArray = Some (means, variances)
    /\ length means = length meanValueArray
    /\ length variances = length varianceArray
    /\ forall jj, (cols <= jj)%nat ->
         means !! jj = meanValueArray !! jj
         /\ variances !! jj = varianceArray !! jj.
Proof.
  intros Hm Hmeans Hvars.
  destruct (columnLoop_stores T dataArray rows cols meanValueArray varianceArray cols Hm)
    as (means & variances & Hfold & Hlm & Hlv & _ & Hrest); [lia..|].
  by exists means, variances.
Qed.

Lemma multi_dimensional_writes_only_the_columns_witness :
  exists means variances,
    calculateMeanAndVarianceOfMultiDimensionalSamples binary64 exampleDoubleMatrix 2 2
      [S754_nan; S754_nan; decimal64 7 0] [S754_nan; S754_nan; decimal64 9 0]
    = Some (means, variances)
    /\ length means = length [S754_nan; S754_nan; decimal64 7 0]
    /\ length variances = length [S754_nan; S754_nan; decimal64 9 0]
    /\ forall jj, (2 <= jj)%nat ->
         means !! jj = [S754_nan; S754_nan; decimal64 7 0] !! jj
         /\ variances !! jj = [S754_nan; S754_nan; decimal64 9 0] !! jj.
Proof.
  apply (multi_dimensional_writes_only_the_columns binary64 exampleDoubleMatrix 2 2).
  - split; [reflexivity|]. repeat constructor.
  - simpl. lia.
  - simpl. lia.
Defined.

(* ===================================================================== *)
(** * The header rows that the validator passes *)
(* ===================================================================== *)

Lemma prefix_append (e t : string) :
  String.prefix e t = true <-> exists r, t = (e ++ r)%string.
Proof.
  revert t. induction e as [|c e IH]; intros t.
  - simpl. split; [intros _; by exists t | by destruct t].
  - destruct t as [|c' t]; simpl.
    + split; [done | by intros [r ?]].
    + destruct (ascii_dec c c') as [->|Hne].
      * rewrite IH. split; intros [r Hr]; exists r; congruence.
      * split; [done | intros [r [=]]; done].
Qed.

Lemma dropChars_append (e r : string) :
  dropChars (String.length e) (e ++ r) = r.
Proof. induction e as [|c e IH]; simpl; [by destruct r | done]. Qed.

Lemma headerValueError_none (j : nat) (expected token : string) :
  headerValueError j expected token = None <-> headerTokenMatches token expected.
Proof.
  unfold headerValueError, headerTokenMatches.
  destruct (String.prefix expected (trimLeadingWhitespace token)) eqn:Hp; simpl.
  - apply prefix_append in Hp as [r Hr]. rewrite Hr, dropChars_append.
    destruct (allChars safeIsspace r) eqn:Hw; simpl.
    + split; [intros _; by exists r | done].
    + split; [done|]. intros (r' & Heq & Hw').
      assert (r' = r) as ->; [|congruence].
      clear -Heq. induction expected as [|c e IH]; simpl in Heq; [done|].
      injection Heq as Heq. by apply IH.
  - split; [done|]. intros (r & Hr & _).
    assert (String.prefix expected (trimLeadingWhitespace token) = true); [|congruence].
    apply prefix_append. by exists r.
Qed.

Lemma validateHeaderTokens_passes (expectedHeaders tokens : list string) :
  forall j : nat,
    (j <= length expectedHeaders)%nat ->
    validateHeaderTokens expectedHeaders j tokens = Passed (length expectedHeaders)
    <-> Forall2 headerTokenMatches tokens (drop j expectedHeaders).
Proof.
  induction tokens as [|token tokens IH]; intros j Hj.
  - simpl. split.
    + intros [= ->]. rewrite drop_all. constructor.
    + intros H. apply Forall2_nil_inv_l in H.
      apply (f_equal length) in H. rewrite length_drop in H. simpl in H.
      f_equal. lia.
  - destruct (expectedHeaders !! j) as [expected|] eqn:He.
    + rewrite (validateHeaderTokens_step _ _ _ _ _ He).
      rewrite (drop_S _ _ _ He).
      pose proof (lookup_lt_Some _ _ _ He) as Hlt.
      split.
      * destruct (headerValueError j expected token) eqn:Hv; [done|].
        intros H. constructor; [by apply (headerValueError_none j) | by apply IH].
      * intros H. apply Forall2_cons_1 in H as [Hm Hrest].
        apply (headerValueError_none j) in Hm. rewrite Hm. apply IH; [lia | done].
    + cbn [validateHeaderTokens]. rewrite He.
      apply lookup_ge_None in He. rewrite drop_ge by done.
      split; [done | intros H; inversion H].
Qed.

Lemma validateHeader_passes (row : string) (expectedHeaders : list string) :
  validateInputDistributionCSVHeader row expectedHeaders = Passed tt
  <-> Forall2 headerTokenMatches (strtokAll row) expectedHeaders.
Proof.
  rewrite <- (drop_0 expectedHeaders) at 2.
  rewrite <- validateHeaderTokens_passes by lia.
  unfold validateInputDistributionCSVHeader.
  destruct (validateHeaderTokens expectedHeaders 0 (strtokAll row)) as [c|d];
    cbn [mbind Checked_bind]; [|done].
  destruct (decide (c <> length expectedHeaders)) as [Hne|Heq].
  - split; [done | intros [= ->]; done].
  - apply dec_stable in Heq. by subst.
Qed.

(** X5.  The validator passes a header row exactly when its tokens are as
    many as the expected headers and each one is, in order, optional
    whitespace, the text of the expected header, and then whitespace
    only. *)
Theorem header_row_is_passed_exactly_when_the_tokens_match
    (actualHeaderRow : string) (expectedHeaders : list string) :
  validateInputDistributionCSVHeader actualHeaderRow expectedHeaders = Passed tt
  <-> Forall2 headerTokenMatches (strtokAll actualHeaderRow) expectedHeaders.
Proof. apply validateHeader_passes. Qed.

Lemma someChar_append (p : ascii -> bool) (a b : string) :
  someChar p (a ++ b) = someChar p a || someChar p b.
Proof. induction a as [|c a IH]; simpl; [done|]. by rewrite IH, orb_assoc. Qed.

Lemma consNonEmpty_Forall (P : string -> Prop) (token : string) (tokens : list string) :
  P token -> Forall P tokens -> Forall P (consNonEmpty token tokens).
Proof. intros Ht Hts. destruct token; [done | by constructor]. Qed.

Lemma strtokAux_no_comma (s : string) :
  someChar isComma (strtokAux s).1 = false
  /\ Forall (fun t => someChar isComma t = false) (strtokAux s).2.
Proof.
  induction s as [|c s [IH1 IH2]]; simpl; [done|].
  destruct (strtokAux s) as [token tokens]. simpl in IH1, IH2.
  destruct (Ascii.eqb c comma) eqn:Hc; simpl.
  - split; [done | by apply consNonEmpty_Forall].
  - unfold isComma at 1. by rewrite Hc.
Qed.

(** No token holds a comma. *)
Lemma strtokAll_no_comma (s : string) :
  Forall (fun t => someChar isComma t = false) (strtokAll s).
Proof.
  rewrite strtokAll_pair. destruct (strtokAux_no_comma s).
  by apply consNonEmpty_Forall.
Qed.

Lemma trimLeadingWhitespace_someChar (p : ascii -> bool) (t : string) :
  someChar p t = false -> someChar p (trimLeadingWhitespace t) = false.
Proof.
  induction t as [|c t IH]; simpl; [done|].
  intros [Hc Ht]%orb_false_elim. destruct (safeIsspace c); [by apply IH|].
  simpl. by rewrite Hc, Ht.
Qed.

Lemma trimLeadingWhitespace_begins (t : string) :
  beginsWithWhitespace (trimLeadingWhitespace t) = false.
Proof.
  induction t as [|c t IH]; simpl; [done|].
  destruct (safeIsspace c) eqn:Hc; [done|]. simpl. done.
Qed.

Lemma headerTokenMatches_plain (row token expected : string) :
  token ∈ strtokAll row -> headerTokenMatches token expected ->
  someChar isComma expected = false /\ beginsWithWhitespace expected = false.
Proof.
  intros Hin (trailing & Heq & _).
  pose proof (strtokAll_no_comma row) as Hall.
  rewrite Forall_forall in Hall. specialize (Hall _ Hin).
  apply (trimLeadingWhitespace_someChar isComma) in Hall.
  rewrite Heq, someChar_append in Hall. apply orb_false_elim in Hall as [Hall _].
  split; [done|].
  pose proof (trimLeadingWhitespace_begins token) as Hb. rewrite Heq in Hb.
  by destruct expected.
Qed.

(** X6.  An expected header that holds a comma or begins with a
    whitespace character is never matched: with such a header in the
    list, the validator rejects every header row. *)
Theorem expected_header_with_comma_or_leading_space_is_never_matched
    (actualHeaderRow : string) (expectedHeaders : list string)
    (index : nat) (expected : string) :
  expectedHeaders !! index = Some expected ->
  someChar isComma expected = true \/ beginsWithWhitespace expected = true ->
  exists d, validateInputDistributionCSVHeader actualHeaderRow expectedHeaders = Failed d.
Proof.
  intros He Hbad.
  destruct (validateInputDistributionCSVHeader actualHeaderRow expectedHeaders)
    as [[]|d] eqn:Hv; [|by exists d].
  apply validateHeader_passes in Hv.
  destruct (Forall2_lookup_r _ _ _ _ _ Hv He) as (token & Htoken & Hm).
  apply list_elem_of_lookup_2 in Htoken.
  destruct (headerTokenMatches_plain _ _ _ Htoken Hm) as [Hc Hw].
  destruct Hbad; congruence.
Qed.

Lemma expected_header_with_comma_or_leading_space_is_never_matched_witness :
  exists d, validateInputDistributionCSVHeader "x,y" ["x,y"]%string = Failed d.
Proof.
  apply (expected_header_with_comma_or_leading_space_is_never_matched
           "x,y" ["x,y"]%string 0 "x,y").
  - reflexivity.
  - left. reflexivity.
Defined.

(* ===================================================================== *)
(** * Files without data rows *)
(* ===================================================================== *)

Lemma padded_nil :
  padded [] = replicate (Z.to_nat kCommonConstantMaxNumberOfInputSamples) (S754_zero false).
Proof. unfold padded. cbn [length app]. by rewrite Nat.sub_0_r. Qed.

Section NoRows.
Context (P : Platform) (inputDistributionsType : FloatingPointVariableType).

Lemma materialize_initial (n : nat) (inputDistributions : list spec_float) :
  length inputDistributions = n ->
  materialize P inputDistributionsType n (initialState n) inputDistributions
  = replicate n
      (distFromSamples P inputDistributionsType
         (replicate (Z.to_nat kCommonConstantMaxNumberOfInputSamples) (S754_zero false))
         0%nat).
Proof.
  intros Hlen. rewrite arraysOf_initial.
  rewrite <- (length_replicate n (false, [] : list spec_float)) at 1.
  rewrite materialize_columns by (by rewrite length_replicate).
  rewrite fmap_replicate. unfold columnDistribution. cbn [fst snd length].
  by rewrite padded_nil.
Qed.

(** X7.  A file that opens and has no line at all, or only a header line
    that the validator passes, is not an error: the call returns success
    and every output is what the runtime makes of no sample (the zeroed
    buffer with a count of [0]). *)
Theorem file_without_data_rows_is_accepted (inputFilePath : string)
    (expectedHeaders : list string) (inputDistributions : list spec_float)
    (stream : string) :
  expectedHeaders <> [] ->
  inputDistributionsType <> kFloatingPointVariableTypeUnknown ->
  String.eqb inputFilePath "stdin" = false ->
  fopen P inputFilePath = Some stream ->
  length inputDistributions = length expectedHeaders ->
  fgetsAll kCommonConstantMaxCharsPerLine stream = []
  \/ (exists header,
        fgetsAll kCommonConstantMaxCharsPerLine stream = [header]
        /\ validateInputDistributionCSVHeader (cString header) expectedHeaders
           = Passed tt) ->
  readInputDistributionsFromCSV P inputFilePath expectedHeaders inputDistributions
    inputDistributionsType
  = Returned kCommonConstantReturnTypeSuccess None
      (replicate (length expectedHeaders)
         (distFromSamples P inputDistributionsType
            (replicate (Z.to_nat kCommonConstantMaxNumberOfInputSamples)
               (S754_zero false))
            0%nat)).
Proof.
  intros Hn Hty Hpath Hopen Hlen [Hlines|(header & Hlines & Hheader)].
  - unfold readInputDistributionsFromCSV.
    rewrite decide_False by (by destruct expectedHeaders).
    rewrite Hpath, Hopen, Hlines. cbn [ingestLines].
    rewrite materialize_initial by done.
    by destruct inputDistributionsType.
  - rewrite (readInputDistributionsFromCSV_file P inputDistributionsType _ _ _ _ _ _
               Hn Hty Hpath Hopen Hlines).
    rewrite ingestLines_file, Hheader. cbn [mbind Checked_bind fmap list_fmap ingestRows].
    cbn [Checked_fmap fst snd]. rewrite <- arraysOf_initial.
    by rewrite materialize_initial.
Qed.
End NoRows.

Lemma file_without_data_rows_is_accepted_witness :
  readInputDistributionsFromCSV (referencePlatform filesWithoutRows) "header.csv"
    ["a"; "b"]%string [S754_nan; S754_nan] kFloatingPointVariableTypeDouble
  = Returned kCommonConstantReturnTypeSuccess None
      (replicate (length ["a"; "b"]%string)
         (distFromSamples (referencePlatform filesWithoutRows)
            kFloatingPointVariableTypeDouble
            (replicate (Z.to_nat kCommonConstantMaxNumberOfInputSamples)
               (S754_zero false))
            0%nat)).
Proof.
  apply (file_without_data_rows_is_accepted (referencePlatform filesWithoutRows)
           kFloatingPointVariableTypeDouble "header.csv" ["a"; "b"]%string
           [S754_nan; S754_nan] headerOnlyFile).
  - discriminate.
  - discriminate.
  - reflexivity.
  - reflexivity.
  - reflexivity.
  - right. exists (line "a,b"). split; reflexivity.
Defined.

(* ===================================================================== *)
(** * The integer parser *)
(* ===================================================================== *)

(** X8.  With the [strtol] of the C standard, [parseIntChecked] succeeds
    exactly when [str] begins, after optional whitespace, with an optional
    sign and at least one digit whose value is an [int]; the result is
    that value, what follows the digits is ignored, and the width of
    [long] makes no difference. *)
Theorem parseIntChecked_accepts_the_int_range (LONG_MAX : Z) (str : string) :
  INT_MAX <= LONG_MAX ->
  parseIntChecked (strtolDecimal LONG_MAX) str
  = match decimalPrefix str with
    | Some value =>
        if (INT_MIN <=? value) && (value <=? INT_MAX) then Some value else None
    | None => None
    end.
Proof.
  intros Hlong. unfold parseIntChecked, strtolDecimal, decimalPrefix.
  destruct (scanSign (trimLeadingWhitespace str)) as [[negative signLength] unsigned].
  destruct (scanDigits 0 0 unsigned) as [[magnitude digits] rest].
  destruct digits as [|digits]; [reflexivity|].
  cbn [Nat.eqb]. set (value := cond_Zopp negative magnitude).
  assert (INT_MIN = - INT_MAX - 1) as Hmin by reflexivity.
  destruct (value <? - LONG_MAX - 1) eqn:Hlow; cbn [strtolERANGE].
  { apply Z.ltb_lt in Hlow.
    rewrite (proj2 (Z.leb_gt _ _)) by lia. reflexivity. }
  destruct (LONG_MAX <? value) eqn:Hhigh; cbn [strtolERANGE].
  { apply Z.ltb_lt in Hhigh.
    rewrite (proj2 (Z.leb_gt value INT_MAX)) by lia.
    by rewrite andb_false_r. }
  cbn [strtolConverted strtolValue].
  replace (_ + _ + S digits =? 0)%nat with false
    by (symmetry; apply Nat.eqb_neq; lia).
  rewrite Z.ltb_antisym, (Z.ltb_antisym value INT_MAX).
  by destruct (INT_MIN <=? value), (value <=? INT_MAX).
Qed.

Lemma parseIntChecked_accepts_the_int_range_witness :
  parseIntChecked (strtolDecimal (2 ^ 63 - 1)) "  -42abc"
  = match decimalPrefix "  -42abc" with
    | Some value =>
        if (INT_MIN <=? value) && (value <=? INT_MAX) then Some value else None
    | None => None
    end.
Proof.
  apply (parseIntChecked_accepts_the_int_range (2 ^ 63 - 1) "  -42abc").
  vm_compute. discriminate.
Defined.

(* ===================================================================== *)
(** * The files of Monte Carlo samples *)
(* ===================================================================== *)

Lemma fold_left_ext_in {A B : Type} (f g : A -> B -> A) (l : list B) :
  (forall a b, f a b = g a b) -> forall a, fold_left f l a = fold_left g l a.
Proof. intros H. induction l as [|b l IH]; intros a; simpl; [done|]. by rewrite H, IH. Qed.

Lemma saveMonteCarlo_one_variable (io : Stdio) (promote : spec_float -> binary64)
    (samples : list spec_float) (cpuTimeElapsedMicroSeconds : Z) (n : nat) :
  saveMonteCarloMultidimensionalDataToDataDotOutFile io promote [samples]
    cpuTimeElapsedMicroSeconds 1 n
  = saveMonteCarloDataToDataDotOutFile io promote samples cpuTimeElapsedMicroSeconds n.
Proof.
  unfold saveMonteCarloMultidimensionalDataToDataDotOutFile,
    saveMonteCarloDataToDataDotOutFile.
  destruct (fopenForWriting io dataDotOut); [|done].
  apply fold_left_ext_in. intros out jj.
  unfold saveMonteCarloRow. cbn [seq fold_left].
  destruct out as [text| | |]; cbn [mbind Run_bind]; try done.
Qed.

(** X9.  For one output variable the multi-dimensional writers produce the
    file of the one-dimensional writers: the elapsed time on the first
    line, then one sample per line (also when the file does not open, or
    when the array is shorter than the number of iterations). *)
Theorem one_variable_file_is_the_one_dimensional_file (io : Stdio)
    (floats : list binary32) (doubles : list binary64)
    (cpuTimeElapsedMicroSeconds : Z) (numberOfMonteCarloIterations : nat) :
  saveMonteCarloFloatMultidimensionalDataToDataDotOutFile io [floats]
    cpuTimeElapsedMicroSeconds 1 numberOfMonteCarloIterations
  = saveMonteCarloFloatDataToDataDotOutFile io floats
      cpuTimeElapsedMicroSeconds numberOfMonteCarloIterations
  /\ saveMonteCarloDoubleMultidimensionalDataToDataDotOutFile io [doubles]
       cpuTimeElapsedMicroSeconds 1 numberOfMonteCarloIterations
     = saveMonteCarloDoubleDataToDataDotOutFile io doubles
         cpuTimeElapsedMicroSeconds numberOfMonteCarloIterations.
Proof. split; apply saveMonteCarlo_one_variable. Qed.

(* ===================================================================== *)
(** * Written files, read back *)
(* ===================================================================== *)

Lemma string_append_assoc (a b c : string) :
  ((a ++ b) ++ c)%string = (a ++ b ++ c)%string.
Proof. induction a as [|x a IH]; simpl; [done|]. by rewrite IH. Qed.

Lemma string_length_append (a b : string) :
  String.length (a ++ b) = (String.length a + String.length b)%nat.
Proof. induction a as [|x a IH]; simpl; [done|]. by rewrite IH. Qed.

(** ** The loop that prints with separators *)

Lemma printSeparated_from (items prefix : list string) (text : string) :
  fold_left
    (fun out ii =>
       text ← out;
       item ← readAt (prefix ++ items) ii;
       Done (text ++ item
               ++ (if decide (ii <> length (prefix ++ items) - 1)%nat
                   then separator else EmptyString))%string)
    (seq (length prefix) (length items)) (Done text)
  = Done (text ++ String.concat separator items)%string.
Proof.
  revert prefix text. induction items as [|item items IH]; intros prefix text.
  - simpl. by rewrite string_append_empty.
  - cbn [length seq fold_left]. cbn [mbind Run_bind].
    assert (readAt (prefix ++ item :: items) (length prefix) = Done item) as ->.
    { unfold readAt. by rewrite lookup_app_r, Nat.sub_diag by lia. }
    cbn [mbind Run_bind].
    replace (S (length prefix)) with (length (prefix ++ [item]))
      by (rewrite length_app; simpl; lia).
    replace (prefix ++ item :: items) with ((prefix ++ [item]) ++ items)
      by (by rewrite <- (assoc_L (++))).
    rewrite IH.
    f_equal. rewrite !length_app. cbn [length].
    destruct items as [|next items].
    + rewrite decide_False by (cbn [length]; lia).
      cbn [String.concat]. by rewrite !string_append_empty.
    + rewrite decide_True by (cbn [length]; lia).
      change (String.concat separator (item :: next :: items))
        with (item ++ separator ++ String.concat separator (next :: items))%string.
      by rewrite !string_append_assoc.
Qed.

Lemma printSeparated_whole (items : list string) :
  printSeparated items (length items) = Done (String.concat separator items).
Proof. apply (printSeparated_from items [] EmptyString). Qed.

(** ** Lines and tokens of plain fields *)

Lemma someChar_concat (p : ascii -> bool) (sep : string) (fields : list string) :
  someChar p sep = false -> Forall (fun field => someChar p field = false) fields ->
  someChar p (String.concat sep fields) = false.
Proof.
  intros Hsep. induction 1 as [|field fields Hf Hfs IH]; [done|].
  destruct fields as [|next fields]; [done|].
  change (String.concat sep (field :: next :: fields))
    with (field ++ sep ++ String.concat sep (next :: fields))%string.
  by rewrite !someChar_append, Hf, Hsep, IH.
Qed.

Lemma cString_plain (s : string) : someChar isNUL s = false -> cString s = s.
Proof.
  induction s as [|c s IH]; simpl; [done|].
  intros [Hc Hs]%orb_false_elim. unfold isNUL in Hc. by rewrite Hc, IH.
Qed.

Lemma strtokAux_plain (s : string) :
  someChar isComma s = false -> strtokAux s = (s, []).
Proof.
  induction s as [|c s IH]; simpl; [done|].
  intros [Hc Hs]%orb_false_elim. unfold isComma in Hc. by rewrite IH, Hc.
Qed.

Lemma strtokAll_plain (c : ascii) (s : string) :
  someChar isComma (String c s) = false -> strtokAll (String c s) = [String c s].
Proof. intros H. unfold strtokAll. by rewrite (strtokAux_plain _ H). Qed.

Lemma trimLeadingWhitespace_blanks (blanks s : string) :
  allChars safeIsspace blanks = true ->
  trimLeadingWhitespace (blanks ++ s) = trimLeadingWhitespace s.
Proof.
  induction blanks as [|c blanks IH]; simpl; [done|].
  intros [Hc Hb]%andb_prop. by rewrite Hc, IH.
Qed.

Lemma trimLeadingWhitespace_plain (s : string) :
  beginsWithWhitespace s = false -> trimLeadingWhitespace s = s.
Proof. destruct s as [|c s]; simpl; [done|]. by intros ->. Qed.

Lemma isPlainField_inv (field : string) :
  isPlainField field = true ->
  (exists c rest, field = String c rest)
  /\ beginsWithWhitespace field = false
  /\ someChar isComma field = false
  /\ someChar isNUL field = false
  /\ someChar isNewline field = false.
Proof.
  unfold isPlainField. rewrite !andb_true_iff, !negb_true_iff.
  intros [[[[Hne ?] ?] ?] ?]. repeat split; try done.
  destruct field as [|c rest]; [done | by exists c, rest].
Qed.

(** The tokens of a line of plain fields, without their leading
    whitespace. *)
Lemma tokens_of_fields (fields : list string) :
  fields <> [] -> Forall (fun field => isPlainField field = true) fields ->
  forall blanks,
    allChars safeIsspace blanks = true -> someChar isComma blanks = false ->
    trimLeadingWhitespace <$> strtokAll (blanks ++ lineOfFields fields)
    = entriesOfLine fields.
Proof.
  intros Hne Hplain. induction Hplain as [|field fields Hf Hfs IH]; [done|].
  intros blanks Hblanks Hcomma.
  destruct (isPlainField_inv _ Hf) as ((c & rest & ->) & Hw & Hc & _ & _).
  destruct fields as [|next fields].
  - unfold lineOfFields. cbn [String.concat entriesOfLine].
    assert (someChar isComma (blanks ++ String c rest ++ endOfLine) = false) as Hline.
    { rewrite !someChar_append, Hcomma, Hc. done. }
    destruct (blanks ++ String c rest ++ endOfLine)%string as [|c' s'] eqn:Hs.
    { by destruct blanks. }
    rewrite (strtokAll_plain _ _ Hline), <- Hs. cbn [fmap list_fmap].
    rewrite trimLeadingWhitespace_blanks by done.
    by rewrite trimLeadingWhitespace_plain.
  - unfold lineOfFields.
    change (String.concat separator (String c rest :: next :: fields))
      with (String c rest ++ separator ++ String.concat separator (next :: fields))%string.
    rewrite !string_append_assoc, <- (string_append_assoc blanks).
    change (separator ++ ?s)%string with (String comma (String " " s)).
    rewrite strtokAll_comma.
    assert (someChar isComma (blanks ++ String c rest) = false) as Hhead.
    { by rewrite someChar_append, Hcomma, Hc. }
    destruct (blanks ++ String c rest)%string as [|c' s'] eqn:Hs.
    { by destruct blanks. }
    rewrite (strtokAll_plain _ _ Hhead), <- Hs. rewrite fmap_app.
    cbn [fmap list_fmap].
    rewrite trimLeadingWhitespace_blanks, trimLeadingWhitespace_plain by done.
    specialize (IH ltac:(done) (String " " EmptyString) eq_refl eq_refl).
    unfold lineOfFields in IH. cbn [append] in IH. rewrite IH. done.
Qed.

Lemma entriesOfLine_length (fields : list string) :
  length (entriesOfLine fields) = length fields.
Proof.
  induction fields as [|field [|next fields] IH]; [done..|].
  change (entriesOfLine (field :: next :: fields))
    with (field :: entriesOfLine (next :: fields)).
  cbn [length] in *. by rewrite IH.
Qed.

Lemma entriesOfLine_matches (fields : list string) :
  Forall2 (fun entry field =>
             exists trailing, entry = (field ++ trailing)%string
                              /\ allChars safeIsspace trailing = true)
    (entriesOfLine fields) fields.
Proof.
  induction fields as [|field [|next fields] IH]; [constructor| |].
  - repeat constructor. by exists endOfLine.
  - change (entriesOfLine (field :: next :: fields))
      with (field :: entriesOfLine (next :: fields)).
    constructor; [|done]. exists EmptyString. by rewrite string_append_empty.
Qed.

Lemma lineOfFields_plain (p : ascii -> bool) (fields : list string) :
  someChar p separator = false -> someChar p endOfLine = false ->
  Forall (fun field => someChar p field = false) fields ->
  someChar p (lineOfFields fields) = false.
Proof.
  intros Hsep Heol Hfields. unfold lineOfFields.
  by rewrite someChar_append, someChar_concat, Heol.
Qed.

(** A header line of plain names passes for these names. *)
Lemma lineOfFields_header (names : list string) :
  names <> [] -> Forall (fun name => isPlainField name = true) names ->
  validateInputDistributionCSVHeader (cString (lineOfFields names)) names = Passed tt.
Proof.
  intros Hne Hplain.
  rewrite cString_plain.
  2:{ apply lineOfFields_plain; [done..|].
      eapply Forall_impl; [exact Hplain|]. intros name H.
      by destruct (isPlainField_inv _ H) as (_ & _ & _ & ? & _). }
  apply validateHeader_passes.
  pose proof (tokens_of_fields names Hne Hplain EmptyString eq_refl eq_refl) as Htokens.
  cbn [append] in Htokens.
  pose proof (entriesOfLine_matches names) as Hm. rewrite <- Htokens in Hm.
  apply Forall2_fmap_l in Hm. exact Hm.
Qed.

(** ** [fgets] on lines that fit the buffer *)

Lemma fgetsAux_line (size : N) (s rest : string) :
  someChar isNewline s = false ->
  forall room : N,
    (N.of_nat (String.length s) < room)%N ->
    fgetsAux size room (s ++ String newline rest)
    = ((s ++ endOfLine)%string, fgetsAll size rest).
Proof.
  induction s as [|c s IH]; intros Hs room Hroom.
  - cbn [append fgetsAux]. rewrite Ascii.eqb_refl. cbn [orb].
    unfold fgetsAll. by destruct (fgetsAux size (size - 1) rest).
  - cbn [someChar] in Hs. apply orb_false_elim in Hs as [Hc Hs].
    cbn [append fgetsAux]. unfold isNewline in Hc. rewrite Hc. cbn [orb].
    cbn [String.length] in Hroom.
    rewrite (proj2 (N.eqb_neq room 1)) by lia.
    rewrite IH by (done || lia). done.
Qed.

Lemma fgetsAll_line (size : N) (s rest : string) :
  someChar isNewline s = false ->
  (N.of_nat (String.length s) < size - 1)%N ->
  fgetsAll size (s ++ String newline rest)
  = (s ++ endOfLine)%string :: fgetsAll size rest.
Proof.
  intros Hs Hfit. unfold fgetsAll at 1. rewrite fgetsAux_line by done.
  by destruct s.
Qed.

Section WriteThenRead.
Context (io : Stdio) (P : Platform).

Lemma writeOutputDistributionsToCSV_text (outputFilePath : string)
    (outputVariables : list spec_float)
    (outputVariablesType : FloatingPointVariableType) (names : list string)
    (returnCode : CommonConstantReturnType) (stderr : option Diagnostic)
    (written : option (Destination * string)) :
  length outputVariables = length names ->
  writeOutputDistributionsToCSV io outputFilePath outputVariables
    outputVariablesType names (length names)
  = WriteReturned returnCode stderr written ->
  written = None
  \/ outputVariablesType <> kFloatingPointVariableTypeUnknown
     /\ exists fp,
          written
          = Some (fp, (lineOfFields names
                       ++ lineOfFields (printedValues io outputVariablesType outputVariables))%string).
Proof.
  intros Hlen. unfold writeOutputDistributionsToCSV.
  destruct (if negb (String.eqb outputFilePath "stdout") then _ else _) as [fp|].
  2:{ intros [= <- <- <-]. by left. }
  rewrite printSeparated_whole.
  destruct outputVariablesType; [done| |].
  - rewrite <- Hlen, <- (length_fmap (fun x => formatE io (floatToDouble x))).
    rewrite printSeparated_whole. intros [= <- <- <-]. right.
    split; [done|]. exists fp. unfold lineOfFields, printedValues.
    by rewrite !string_append_assoc.
  - rewrite <- Hlen, <- (length_fmap (formatE io)).
    rewrite printSeparated_whole. intros [= <- <- <-]. right.
    split; [done|]. exists fp. unfold lineOfFields, printedValues.
    by rewrite !string_append_assoc.
Qed.

Lemma fgetsAll_two_lines (first second : list string) :
  Forall (fun field => isPlainField field = true) first ->
  Forall (fun field => isPlainField field = true) second ->
  (N.of_nat (String.length (lineOfFields first)) < kCommonConstantMaxCharsPerLine)%N ->
  (N.of_nat (String.length (lineOfFields second)) < kCommonConstantMaxCharsPerLine)%N ->
  fgetsAll kCommonConstantMaxCharsPerLine (lineOfFields first ++ lineOfFields second)
  = [lineOfFields first; lineOfFields second].
Proof.
  intros Hfirst Hsecond Hfit1 Hfit2.
  assert (forall fields, Forall (fun field => isPlainField field = true) fields ->
            someChar isNewline (String.concat separator fields) = false) as Hnl.
  { intros fields H. apply someChar_concat; [done|].
    eapply Forall_impl; [exact H|]. intros field Hf.
    by destruct (isPlainField_inv _ Hf) as (_ & _ & _ & _ & ?). }
  unfold lineOfFields in *. rewrite string_length_append in Hfit1, Hfit2.
  cbn [String.length endOfLine] in Hfit1, Hfit2.
  rewrite string_append_assoc. unfold endOfLine at 1. cbn [append].
  rewrite fgetsAll_line by (auto || lia).
  unfold endOfLine at 2.
  rewrite fgetsAll_line by (auto || lia).
  done.
Qed.

(** X10.  A file that [writeOutputDistributionsToCSV] has written is one
    that [readInputDistributionsFromCSV] accepts for the same names: when
    the names and the printed values are plain fields (not empty, without
    comma, NUL or newline, not beginning with whitespace), the two lines
    fit the line buffer and the reader's number parser takes the printed
    values, the file is the line of the names followed by the line of the
    values, each joined by [", "], and reading it returns success with one
    output per name. *)
Theorem written_csv_is_read_back (outputFilePath : string)
    (outputVariables : list spec_float)
    (outputVariablesType : FloatingPointVariableType) (names : list string)
    (inputDistributions : list spec_float) (text : string) :
  names <> [] ->
  length outputVariables = length names ->
  length inputDistributions = length names ->
  Forall (fun name => isPlainField name = true) names ->
  Forall (fun value => isPlainField value = true)
    (printedValues io outputVariablesType outputVariables) ->
  (N.of_nat (String.length (lineOfFields names)) < kCommonConstantMaxCharsPerLine)%N ->
  (N.of_nat (String.length
               (lineOfFields (printedValues io outputVariablesType outputVariables)))
   < kCommonConstantMaxCharsPerLine)%N ->
  forallb (entryAccepted (parseChecked P outputVariablesType))
    (entriesOfLine (printedValues io outputVariablesType outputVariables)) = true ->
  writeOutputDistributionsToCSV io outputFilePath outputVariables
    outputVariablesType names (length names)
  = WriteReturned kCommonConstantReturnTypeSuccess None
      (Some (toFile outputFilePath, text)) ->
  String.eqb outputFilePath "stdin" = false ->
  fopen P outputFilePath = Some text ->
  text = (lineOfFields names
          ++ lineOfFields (printedValues io outputVariablesType outputVariables))%string
  /\ exists out,
       readInputDistributionsFromCSV P outputFilePath names inputDistributions
         outputVariablesType
       = Returned kCommonConstantReturnTypeSuccess None out
       /\ length out = length names.
Proof.
  intros Hne Hvars Hout Hnames Hvalues Hfit1 Hfit2 Haccepted Hwrite Hpath Hopen.
  set (printed := printedValues io outputVariablesType outputVariables) in *.
  assert (length printed = length names) as Hprinted.
  { unfold printed, printedValues.
    destruct outputVariablesType; by rewrite length_fmap. }
  destruct (writeOutputDistributionsToCSV_text _ _ _ _ _ _ _ Hvars Hwrite)
    as [|[Hty (fp & [= <- ->])]]; [done|].
  split; [done|].
  rewrite (readInputDistributionsFromCSV_file P outputVariablesType _ _ _ _
             (lineOfFields names) [lineOfFields printed] Hne Hty Hpath Hopen)
    by (by apply fgetsAll_two_lines).
  rewrite ingestLines_file, lineOfFields_header by done.
  cbn [mbind Checked_bind fmap list_fmap].
  assert (rowTokens (lineOfFields printed) = entriesOfLine printed) as ->.
  { unfold rowTokens. rewrite cString_plain.
    - apply (tokens_of_fields printed) with (blanks := EmptyString); try done.
      intros ->. by destruct names.
    - apply lineOfFields_plain; [done..|].
      eapply Forall_impl; [exact Hvalues|]. intros value H.
      by destruct (isPlainField_inv _ H) as (_ & _ & _ & ? & _). }
  destruct (ingestRows_accepted (parseChecked P outputVariablesType)
              [entriesOfLine printed] 0 0 (replicate (length names) (false, [])))
    as [columns Hrows].
  { unfold kCommonConstantMaxNumberOfInputSamples. cbn [length]. lia. }
  { cbn [rowsAccepted]. rewrite entriesOfLine_length, length_replicate, Hprinted.
    by rewrite Nat.eqb_refl, Haccepted. }
  rewrite Hrows. cbn [Checked_fmap fst snd].
  apply ingestRows_columns in Hrows as (_ & Hcolumns & _).
  rewrite length_replicate in Hcolumns.
  eexists. split; [reflexivity|].
  rewrite <- Hcolumns at 1. cbn [fst].
  rewrite materialize_columns by lia.
  by rewrite length_fmap.
Qed.
End WriteThenRead.

Lemma written_csv_is_read_back_witness :
  writtenFile
  = (lineOfFields ["a"; "b"]%string
     ++ lineOfFields (printedValues (exampleStdio ["out.csv"%string])
                        kFloatingPointVariableTypeDouble
                        [decimal64 1 0; decimal64 2 0]))%string
  /\ exists out,
       readInputDistributionsFromCSV (referencePlatform [("out.csv"%string, writtenFile)])
         "out.csv" ["a"; "b"]%string [S754_nan; S754_nan] kFloatingPointVariableTypeDouble
       = Returned kCommonConstantReturnTypeSuccess None out
       /\ length out = length ["a"; "b"]%string.
Proof.
  apply (written_csv_is_read_back (exampleStdio ["out.csv"%string])
           (referencePlatform [("out.csv"%string, writtenFile)]) "out.csv"
           [decimal64 1 0; decimal64 2 0] kFloatingPointVariableTypeDouble
           ["a"; "b"]%string [S754_nan; S754_nan] writtenFile).
  - discriminate.
  - reflexivity.
  - reflexivity.
  - repeat constructor.
  - repeat constructor.
  - vm_compute. reflexivity.
  - vm_compute. reflexivity.
  - vm_compute. reflexivity.
  - vm_compute. reflexivity.
  - reflexivity.
  - reflexivity.
Defined.

(* ===================================================================== *)
(** * The table of long options *)
(* ===================================================================== *)

Lemma namesOf_app (a b : list LongOption) : namesOf (a ++ b) = namesOf a ++ namesOf b.
Proof. unfold namesOf. apply omap_app. Qed.

Lemma checkDuplicates_built (built rest : list LongOption) (newOption : string) :
  match checkDuplicates (built ++ rest) (length built) newOption with
  | Done _ => newOption ∉ namesOf built
  | Fatal _ => newOption ∈ namesOf built
  | _ => False
  end.
Proof.
  unfold checkDuplicates. rewrite take_app_length.
  destruct (existsb _ built) eqn:He.
  - apply existsb_exists in He as (current & Hin & Hname).
    apply list_elem_of_In in Hin.
    destruct (name current) as [currentName|] eqn:Hn; [|done].
    apply String.eqb_eq in Hname as ->.
    unfold namesOf. apply list_elem_of_omap. by exists current.
  - intros Hin. unfold namesOf in Hin.
    apply list_elem_of_omap in Hin as (current & Hin & Hname).
    assert (existsb
              (fun current => match name current with
                              | Some currentName => String.eqb currentName newOption
                              | None => false
                              end) built = true); [|congruence].
    apply existsb_exists. exists current. split; [by apply list_elem_of_In|].
    rewrite Hname. apply String.eqb_refl.
Qed.

Section LongOptionEntries.
Context (argumentKind optionIndex : Z).

Local Abbreviation entry := (longOptionEntry argumentKind optionIndex).

Lemma namesOf_entries (names : list string) : namesOf (entry <$> names) = names.
Proof.
  induction names as [|n names IH]; [done|].
  unfold namesOf in *. cbn [fmap list_fmap omap list_omap name] in *.
  by rewrite IH.
Qed.

Lemma addLongOption_built (built : list LongOption) (k : nat)
    (optionName : option string) :
  (length (option_list optionName) <= k)%nat ->
  match addLongOption (built ++ replicate k zeroLongOption, length built)
          optionName argumentKind optionIndex with
  | Done out =>
      (NoDup (namesOf built) -> NoDup (namesOf built ++ option_list optionName))
      /\ out = ((built ++ (entry <$> option_list optionName))
                ++ replicate (k - length (option_list optionName)) zeroLongOption,
                length (built ++ (entry <$> option_list optionName)))
  | Fatal _ => ~ NoDup (namesOf built ++ option_list optionName)
  | _ => False
  end.
Proof.
  intros Hk. destruct optionName as [optionName|]; cbn [addLongOption].
  - change (option_list (Some optionName)) with [optionName] in *.
    cbn [fst snd length] in *.
    pose proof (checkDuplicates_built built (replicate k zeroLongOption) optionName) as Hd.
    destruct (checkDuplicates _ _ _) as [[]| | |]; cbn [mbind Run_bind]; try done.
    + unfold storeAt. rewrite decide_True by (rewrite length_app, length_replicate; lia).
      split.
      * intros Hnd. apply NoDup_app. split; [done|]. split; [|apply NoDup_singleton].
        intros x Hx ->%list_elem_of_singleton. done.
      * destruct k as [|k]; [lia|]. cbn [replicate fmap list_fmap].
        rewrite <- (Nat.add_0_r (length built)) at 1.
        rewrite insert_app_r. cbn. rewrite Nat.sub_0_r, length_app. cbn.
        rewrite <- (assoc_L (++)). f_equal. lia.
    + intros Hnd. apply NoDup_app in Hnd as (_ & Hnd & _).
      apply (Hnd optionName); [done | by apply list_elem_of_singleton].
  - change (option_list None) with (@nil string).
    cbn [fmap list_fmap length]. rewrite !app_nil_r, Nat.sub_0_r. done.
Qed.
End LongOptionEntries.

Lemma longOptionsFrom_names (options : list DemoOption) :
  forall ii, namesOf (longOptionsFrom ii options) = options ≫= optionNames.
Proof.
  induction options as [|demoOption options IH]; intros ii; [done|].
  cbn [longOptionsFrom mbind list_bind]. rewrite namesOf_app, IH.
  by rewrite namesOf_entries.
Qed.

Lemma longOptionsFrom_length (options : list DemoOption) :
  forall ii, (length (longOptionsFrom ii options) <= 2 * length options)%nat.
Proof.
  induction options as [|demoOption options IH]; intros ii; [done|].
  cbn [longOptionsFrom]. rewrite length_app, length_fmap. specialize (IH (S ii)).
  unfold optionNames. rewrite length_app.
  destruct (opt demoOption), (optAlternative demoOption); cbn [option_list option_rect length] in *; lia.
Qed.

Lemma constructlongOptionsLoop_built (options : list DemoOption) :
  forall (ii : nat) (built : list LongOption) (k : nat),
    (2 * length options <= k)%nat ->
    match constructlongOptionsLoop options ii
            (built ++ replicate k zeroLongOption, length built) with
    | Done out =>
        Forall (fun demoOption => optionNames demoOption <> []) options
        /\ (NoDup (namesOf built) ->
            NoDup (namesOf built ++ (options ≫= optionNames)))
        /\ out = ((built ++ longOptionsFrom ii options)
                  ++ replicate (k - length (longOptionsFrom ii options)) zeroLongOption,
                  length (built ++ longOptionsFrom ii options))
    | Fatal _ =>
        ~ (Forall (fun demoOption => optionNames demoOption <> []) options
           /\ NoDup (namesOf built ++ (options ≫= optionNames)))
    | _ => False
    end.
Proof.
  induction options as [|demoOption options IH]; intros ii built k Hk.
  - cbn. rewrite !app_nil_r, Nat.sub_0_r. done.
  - cbn [constructlongOptionsLoop longOptionsFrom mbind list_bind length] in *.
    set (h := if hasArg demoOption then required_argument else no_argument).
    assert (optionNames demoOption = [] ->
            opt demoOption = None /\ optAlternative demoOption = None) as Hnone.
    { unfold optionNames. by destruct (opt demoOption), (optAlternative demoOption). }
    assert (match opt demoOption, optAlternative demoOption with
            | None, None => True
            | _, _ => optionNames demoOption <> []
            end) as Hsome.
    { unfold optionNames. by destruct (opt demoOption), (optAlternative demoOption). }
    assert (match opt demoOption, optAlternative demoOption with
            | None, None => Fatal (OptionsMissingBothNames ii)
            | _, _ =>
                out ← addLongOption (built ++ replicate k zeroLongOption, length built)
                        (opt demoOption) h (Z.of_nat ii);
                out ← addLongOption out (optAlternative demoOption) h (Z.of_nat ii);
                constructlongOptionsLoop options (S ii) out
            end
            = if decide (optionNames demoOption = [])
              then Fatal (OptionsMissingBothNames ii)
              else
                out ← addLongOption (built ++ replicate k zeroLongOption, length built)
                        (opt demoOption) h (Z.of_nat ii);
                out ← addLongOption out (optAlternative demoOption) h (Z.of_nat ii);
                constructlongOptionsLoop options (S ii) out) as ->.
    { destruct (decide (optionNames demoOption = [])) as [He|He].
      - by destruct (Hnone He) as [-> ->].
      - unfold optionNames in He.
        by destruct (opt demoOption), (optAlternative demoOption). }
    clear Hnone Hsome.
    destruct (decide (optionNames demoOption = [])) as [He|He].
    { intros [Hall _]. by inversion Hall. }
    assert (length (optionNames demoOption) <= 2)%nat as Hlen.
    { unfold optionNames. rewrite length_app.
      destruct (opt demoOption), (optAlternative demoOption); cbn; lia. }
    unfold optionNames in *. rewrite length_app in Hlen.
    set (first := option_list (opt demoOption)) in *.
    set (second := option_list (optAlternative demoOption)) in *.
    pose proof (addLongOption_built h (Z.of_nat ii) built k (opt demoOption)) as H1.
    fold first in H1.
    destruct (addLongOption _ (opt demoOption) _ _) as [out1| | |];
      cbn [mbind Run_bind]; [| |apply H1; lia..].
    2:{ intros [_ Hnd]. apply H1; [lia|]. rewrite !(assoc_L (++)) in Hnd.
        by apply NoDup_app in Hnd as ((Hnd & _ & _)%NoDup_app & _ & _). }
    destruct H1 as [Hnd1 ->]; [lia|].
    pose proof (addLongOption_built h (Z.of_nat ii) (built ++ (longOptionEntry h (Z.of_nat ii) <$> first))
                  (k - length first)%nat (optAlternative demoOption)) as H2.
    fold second in H2.
    destruct (addLongOption _ (optAlternative demoOption) _ _) as [out2| | |];
      cbn [mbind Run_bind]; [| |apply H2; lia..].
    2:{ intros [_ Hnd]. apply H2; [lia|].
        rewrite namesOf_app, namesOf_entries.
        rewrite !(assoc_L (++)) in Hnd. by apply NoDup_app in Hnd as (Hnd & _ & _). }
    destruct H2 as [Hnd2 ->]; [lia|].
    rewrite namesOf_app, namesOf_entries in Hnd2.
    specialize (IH (S ii) ((built ++ (longOptionEntry h (Z.of_nat ii) <$> first)) ++ (longOptionEntry h (Z.of_nat ii) <$> second))
                  (k - length first - length second)%nat ltac:(lia)).
    rewrite !namesOf_app, !namesOf_entries in IH.
    destruct (constructlongOptionsLoop options (S ii) _) as [out| | |]; try done.
    + destruct IH as (Hall & Hnd & ->). split; [by constructor|]. split.
      * intros Hb. specialize (Hnd (Hnd2 (Hnd1 Hb))).
        rewrite <- !app_assoc in Hnd. by rewrite <- !app_assoc.
      * assert ((k - length first - length second
                 - length (longOptionsFrom (S ii) options))%nat
                = (k - length ((longOptionEntry h (Z.of_nat ii) <$> first ++ second)
                               ++ longOptionsFrom (S ii) options))%nat) as ->.
        { rewrite length_app, length_fmap, length_app. lia. }
        by rewrite fmap_app, <- !app_assoc.
    + intros [Hall Hnd]. apply IH. split; [by inversion Hall|].
      rewrite <- !app_assoc. by rewrite <- !app_assoc in Hnd.
Qed.

Lemma constructlongOptions_table (options : list DemoOption) :
  Z.of_nat (length options) < INT_MAX ->
  match constructlongOptions options
          (replicate (length options * 2 + 1) zeroLongOption) with
  | Done table =>
      Forall (fun demoOption => optionNames demoOption <> []) options
      /\ NoDup (options ≫= optionNames)
      /\ table = longOptionsTable options
  | Fatal _ =>
      ~ (Forall (fun demoOption => optionNames demoOption <> []) options
         /\ NoDup (options ≫= optionNames))
  | _ => False
  end.
Proof.
  intros Hsize. unfold constructlongOptions. rewrite length_replicate.
  rewrite (proj2 (Nat.leb_le _ _)) by lia.
  rewrite (proj2 (Z.ltb_lt _ _)) by done. cbn [negb].
  pose proof (constructlongOptionsLoop_built options 0 []
                (length options * 2 + 1) ltac:(lia)) as H.
  cbn [app length] in H.
  destruct (constructlongOptionsLoop options 0 _) as [[optionsOut outIndex]| | |];
    cbn [mbind Run_bind]; try done.
  destruct H as (Hall & Hnd & [= -> ->]). specialize (Hnd (NoDup_nil_2 (A:=string))).
  pose proof (longOptionsFrom_length options 0) as Hlen.
  unfold storeAt. rewrite decide_True by (rewrite length_app, length_replicate; lia).
  repeat split; try done.
  unfold longOptionsTable. apply list_insert_id.
  rewrite lookup_app_r, Nat.sub_diag by done.
  apply lookup_replicate_2. lia.
Qed.

(** An entry of the table with a name carries the index of the option
    that has this name. *)
Lemma longOptionsTable_val (options : list DemoOption) (index : nat)
    (longOption : LongOption) (optionName : string) :
  longOptionsTable options !! index = Some longOption ->
  name longOption = Some optionName ->
  exists demoOption,
    options !! Z.to_nat (val longOption) = Some demoOption
    /\ 0 <= val longOption
    /\ optionName ∈ optionNames demoOption.
Proof.
  intros Hlookup Hname. unfold longOptionsTable in Hlookup.
  apply lookup_app_Some in Hlookup as [Hlookup|[_ Hlookup]].
  2:{ apply lookup_replicate in Hlookup as [-> _]. done. }
  assert (forall ii, longOptionsFrom ii options !! index = Some longOption ->
            exists demoOption,
              options !! (Z.to_nat (val longOption) - ii)%nat = Some demoOption
              /\ (ii <= Z.to_nat (val longOption))%nat
              /\ 0 <= val longOption
              /\ optionName ∈ optionNames demoOption) as Hgen.
  { clear Hlookup. revert index.
    induction options as [|demoOption options IH]; intros index ii Hl; [done|].
    cbn [longOptionsFrom] in Hl.
    apply lookup_app_Some in Hl as [Hl|[_ Hl]].
    - apply list_lookup_fmap_Some in Hl as (n & -> & Hn).
      cbn [longOptionEntry val name] in *.
      injection Hname as ->. exists demoOption.
      rewrite Nat2Z.id, Nat.sub_diag. split; [done|]. split; [lia|]. split; [lia|].
      by eapply list_elem_of_lookup_2.
    - destruct (IH _ _ Hl) as (found & Hfound & Hle & Hpos & Hin).
      exists found. split; [|split; [lia | done]].
      replace (Z.to_nat (val longOption) - ii)%nat
        with (S (Z.to_nat (val longOption) - S ii)) by lia.
      done. }
  destruct (Hgen 0%nat Hlookup) as (demoOption & Hd & _ & Hpos & Hin).
  rewrite Nat.sub_0_r in Hd. by exists demoOption.
Qed.

(** X11.  [constructlongOptions] returns exactly when every option has a
    name and no name is used twice ([opt] and [optAlternative] of all the
    options together); otherwise it ends the process through [fatal].
    The table it returns lists, for each option in order, its [opt] and
    then its [optAlternative], each with the index of the option as
    [val], followed by zero entries. *)
Theorem long_options_are_built_for_distinct_names (options : list DemoOption) :
  Z.of_nat (length options) < INT_MAX ->
  match constructlongOptions options
          (replicate (length options * 2 + 1) zeroLongOption) with
  | Done table =>
      Forall (fun demoOption => optionNames demoOption <> []) options
      /\ NoDup (options ≫= optionNames)
      /\ table = longOptionsTable options
      /\ forall index longOption optionName,
           table !! index = Some longOption -> name longOption = Some optionName ->
           exists demoOption,
             options !! Z.to_nat (val longOption) = Some demoOption
             /\ optionName ∈ optionNames demoOption
  | Fatal _ =>
      ~ (Forall (fun demoOption => optionNames demoOption <> []) options
         /\ NoDup (options ≫= optionNames))
  | _ => False
  end.
Proof.
  intros Hsize. pose proof (constructlongOptions_table options Hsize) as H.
  destruct (constructlongOptions options _) as [table| | |]; try done.
  destruct H as (Hall & Hnd & ->). repeat split; try done.
  intros index longOption optionName Hlookup Hname.
  destruct (longOptionsTable_val _ _ _ _ Hlookup Hname) as (demoOption & Hd & _ & Hin).
  by exists demoOption.
Qed.

Lemma long_options_are_built_for_distinct_names_witness :
  match constructlongOptions (take 9 commonOptions)
          (replicate (length (take 9 commonOptions) * 2 + 1) zeroLongOption) with
  | Done table =>
      Forall (fun demoOption => optionNames demoOption <> []) (take 9 commonOptions)
      /\ NoDup (take 9 commonOptions ≫= optionNames)
      /\ table = longOptionsTable (take 9 commonOptions)
      /\ forall index longOption optionName,
           table !! index = Some longOption -> name longOption = Some optionName ->
           exists demoOption,
             take 9 commonOptions !! Z.to_nat (val longOption) = Some demoOption
             /\ optionName ∈ optionNames demoOption
  | Fatal _ =>
      ~ (Forall (fun demoOption => optionNames demoOption <> []) (take 9 commonOptions)
         /\ NoDup (take 9 commonOptions ≫= optionNames))
  | _ => False
  end.
Proof.
  apply (long_options_are_built_for_distinct_names (take 9 commonOptions)).
  vm_compute. reflexivity.
Defined.

(* ===================================================================== *)
(** * What a parse leaves in the variables *)
(* ===================================================================== *)

Lemma readArgumentsFlag_write (f f' : ArgumentsFlag) (b : bool)
    (a : CommonCommandLineArguments) :
  readArgumentsFlag f (writeArgumentsFlag f' b a)
  = if decide (f = f') then b else readArgumentsFlag f a.
Proof. by destruct f, f'. Qed.

Lemma readBool_writeBool (v v' : BoolVariable) (b : bool) (m : ArgsMemory) :
  readBool v (writeBool v' b m) = if decide (v = v') then b else readBool v m.
Proof.
  destruct v as [f|id], v' as [f'|id']; cbn [readBool writeBool arguments demoBools].
  - rewrite readArgumentsFlag_write.
    destruct (decide (f = f')) as [->|Hne]; [by rewrite decide_True|].
    rewrite decide_False; [done | congruence].
  - by rewrite decide_False.
  - by rewrite decide_False.
  - destruct (decide (id = id')) as [->|Hne]; [by rewrite decide_True|].
    rewrite decide_False; [done | congruence].
Qed.

Lemma plainFields_writeBool (v : BoolVariable) (b : bool) (m : ArgsMemory) :
  plainFields (arguments (writeBool v b m)) = plainFields (arguments m).
Proof. by destruct v. Qed.

Lemma stringVariables_writeBool (v : BoolVariable) (b : bool) (m : ArgsMemory) :
  stringVariables (writeBool v b m) = stringVariables m.
Proof. by destruct v. Qed.

(** The first loop: the variables that an option points to are reset. *)
Lemma resetOptions_found (options : list DemoOption) :
  forall m : ArgsMemory,
    (forall v, readBool v (fold_left resetOption options m)
               = if existsb (setsFlag v) options then false else readBool v m)
    /\ (forall v, stringVariables (fold_left resetOption options m) v
                  = if existsb (setsString v) options then None
                    else stringVariables m v)
    /\ plainFields (arguments (fold_left resetOption options m))
       = plainFields (arguments m).
Proof.
  induction options as [|demoOption options IH]; intros m; [done|].
  cbn [fold_left existsb]. destruct (IH (resetOption m demoOption)) as (Hb & Hs & Hp).
  unfold resetOption, setsFlag, setsString in *.
  split; [|split].
  - intros v. rewrite Hb. destruct (existsb _ options); [by rewrite orb_true_r|].
    rewrite orb_false_r.
    destruct (foundOpt demoOption) as [v'|], (foundArg demoOption) as [s'|];
      cbn [readBool writeString arguments demoBools];
      rewrite ?readBool_writeBool.
    + destruct v; cbn [readBool writeString arguments demoBools];
        fold (readBool (argumentsFlag f) (writeBool v' false m)) ||
        fold (readBool (demoBool id) (writeBool v' false m));
        rewrite readBool_writeBool;
        destruct (decide (_ = v')) as [->|Hne];
        [by rewrite bool_decide_eq_true_2 | rewrite bool_decide_eq_false_2; [done|congruence]
        |by rewrite bool_decide_eq_true_2 | rewrite bool_decide_eq_false_2; [done|congruence]].
    + destruct (decide (v = v')) as [->|Hne];
        [by rewrite bool_decide_eq_true_2 | rewrite bool_decide_eq_false_2; [done|congruence]].
    + by destruct v.
    + done.
  - intros v. rewrite Hs. destruct (existsb _ options); [by rewrite orb_true_r|].
    rewrite orb_false_r.
    destruct (foundArg demoOption) as [s'|]; cbn [writeString stringVariables].
    + destruct (decide (v = s')) as [->|Hne].
      * by rewrite bool_decide_eq_true_2.
      * rewrite bool_decide_eq_false_2 by congruence.
        destruct (foundOpt demoOption); [by rewrite stringVariables_writeBool | done].
    + destruct (foundOpt demoOption); [by rewrite stringVariables_writeBool | done].
  - rewrite Hp.
    destruct (foundArg demoOption); cbn [writeString arguments];
      (destruct (foundOpt demoOption); [by rewrite plainFields_writeBool | done]).
Qed.

Lemma readBool_writeString (v : BoolVariable) (s : StringVariable)
    (text : option string) (m : ArgsMemory) :
  readBool v (writeString s text m) = readBool v m.
Proof. by destruct v. Qed.

(** The loop over the calls, when it ends without an error. *)
Lemma getoptLoop_found (newlib : bool) (options : list DemoOption)
    (longOptions : list LongOption) (finalOptind : Z) (finalArgv : list string)
    (calls : list GetoptCall) :
  forall (optind0 previousOptInd : Z) (m m' : ArgsMemory) (argv argv' : list string)
         (optind : Z),
    Forall (fun call => getoptReturn call <> -1) calls ->
    getoptLoop newlib options longOptions optind0 previousOptInd m argv calls
      finalOptind finalArgv
    = Done (None, optind, m', argv') ->
    optind = finalOptind
    /\ (forall v, readBool v m'
                  = readBool v m || existsb (reportsFlag options v) calls)
    /\ (forall v, stringVariables m' v
                  = argumentFound options v calls (stringVariables m v))
    /\ plainFields (arguments m') = plainFields (arguments m).
Proof.
  induction calls as [|call calls IH];
    intros optind0 previousOptInd m m' argv argv' optind Hcalls.
  - cbn [getoptLoop existsb argumentFound].
    destruct (modifyNextArgvForNewLibc _ _ _); try done.
    intros [= <- <- <-]. repeat split; try done. intros v. by rewrite orb_false_r.
  - apply Forall_cons in Hcalls as [Hcall Hcalls].
    cbn [getoptLoop existsb argumentFound].
    destruct (modifyNextArgvForNewLibc _ _ _); try done.
    rewrite (proj2 (Z.eqb_neq _ _) Hcall).
    destruct (getoptLongIndex call =? -1).
    { by destruct (getoptDiagnostic _ _ _ _). }
    destruct (0 <=? getoptReturn call); [|done]. cbn [negb].
    unfold reportsFlag at 1.
    destruct (options !! Z.to_nat (getoptReturn call)) as [selected|]; [|done].
    set (m1 := match foundOpt selected with
               | Some v => writeBool v true m
               | None => m
               end).
    assert (forall v, readBool v m1 = readBool v m || setsFlag v selected) as Hb1.
    { intros v. unfold m1, setsFlag. destruct (foundOpt selected) as [v'|].
      - rewrite readBool_writeBool. destruct (decide (v = v')) as [->|Hne].
        + by rewrite bool_decide_eq_true_2, orb_true_r.
        + rewrite bool_decide_eq_false_2 by congruence. by rewrite orb_false_r.
      - by rewrite orb_false_r. }
    assert (stringVariables m1 = stringVariables m) as Hs1.
    { unfold m1. destruct (foundOpt selected); [apply stringVariables_writeBool | done]. }
    assert (plainFields (arguments m1) = plainFields (arguments m)) as Hp1.
    { unfold m1. destruct (foundOpt selected); [apply plainFields_writeBool | done]. }
    clearbody m1.
    destruct (hasArg selected); cbn [andb].
    + destruct (getoptOptarg call) as [optarg|].
      2:{ destruct (getoptLongIndex call <? 0); [done|].
          by destruct (readAt longOptions _). }
      intros Hloop. apply IH in Hloop as (-> & Hb & Hs & Hp); [|done].
      split; [done|]. split; [|split].
      * intros v. rewrite Hb, orb_assoc. f_equal.
        destruct (foundArg selected); [|done].
        by rewrite readBool_writeString.
      * intros v. rewrite Hs. f_equal.
        destruct (foundArg selected) as [s|]; cbn [writeString stringVariables].
        -- destruct (decide (v = s)) as [->|Hne].
           ++ by rewrite bool_decide_eq_true_2.
           ++ rewrite bool_decide_eq_false_2 by congruence. by rewrite Hs1.
        -- rewrite bool_decide_eq_false_2 by done. by rewrite Hs1.
      * rewrite Hp. by destruct (foundArg selected).
    + intros Hloop. apply IH in Hloop as (-> & Hb & Hs & Hp); [|done].
      split; [done|]. split; [|split].
      * intros v. by rewrite Hb, orb_assoc, Hb1.
      * intros v. by rewrite Hs, Hs1.
      * by rewrite Hp.
Qed.

(** A flag that no option points to is reported by no call. *)
Lemma reportsFlag_points (options : list DemoOption) (v : BoolVariable)
    (calls : list GetoptCall) :
  existsb (setsFlag v) options = false ->
  existsb (reportsFlag options v) calls = false.
Proof.
  intros Hnone. induction calls as [|call calls IH]; [done|].
  cbn [existsb]. rewrite IH, orb_false_r. unfold reportsFlag.
  destruct (options !! Z.to_nat (getoptReturn call)) as [selected|] eqn:Hl; [|done].
  destruct (setsFlag v selected) eqn:Hset; [|done].
  assert (existsb (setsFlag v) options = true); [|congruence].
  apply existsb_exists. exists selected. split; [|done].
  apply list_elem_of_In. by eapply list_elem_of_lookup_2.
Qed.

Section CoreImplementation.
Context (P : CommandLinePlatform) (argc : Z) (argv : list string).

(** [parseArgsCoreImplementation], when it returns success. *)
Lemma parseArgsCoreImplementation_found (options : list DemoOption)
    (m : ArgsMemory) (parsed : Parsed) :
  parseArgsCoreImplementation P argc argv options m = Done parsed ->
  parsedReturnCode parsed = kCommonConstantReturnTypeSuccess ->
  Forall (fun call => getoptReturn call <> -1)
    (getoptCalls (getopt_long_only P argc argv (longOptionsTable options))) ->
  parsedStderr parsed = None
  /\ (forall v, readBool v (parsedMemory parsed)
                = (if existsb (setsFlag v) options then false else readBool v m)
                  || existsb (reportsFlag options v)
                       (getoptCalls
                          (getopt_long_only P argc argv (longOptionsTable options))))
  /\ (forall v, stringVariables (parsedMemory parsed) v
                = argumentFound options v
                    (getoptCalls
                       (getopt_long_only P argc argv (longOptionsTable options)))
                    (if existsb (setsString v) options then None
                     else stringVariables m v))
  /\ plainFields (arguments (parsedMemory parsed)) = plainFields (arguments m).
Proof.
  unfold parseArgsCoreImplementation. intros Hrun Hcode Hcalls.
  destruct (checkedCalloc _ _ _ _) as [[]| | |]; try done. cbn [mbind Run_bind] in Hrun.
  destruct (decide (Z.of_nat (length options) < INT_MAX)) as [Hsize|Hsize].
  2:{ unfold constructlongOptions in Hrun.
      rewrite (proj2 (Z.ltb_ge _ _)) in Hrun by lia.
      by destruct (negb _). }
  pose proof (constructlongOptions_table options Hsize) as Htable.
  destruct (constructlongOptions options _) as [table| | |]; try done.
  destruct Htable as (_ & _ & ->). cbn [mbind Run_bind] in Hrun.
  destruct (resetOptions_found options m) as (Hb0 & Hs0 & Hp0).
  set (run := getopt_long_only P argc argv (longOptionsTable options)) in *.
  destruct (getoptLoop _ options _ 0 1 _ argv (getoptCalls run) (getoptFinalOptind run)
              (getoptFinalArgv run))
    as [[[[diagnostic optind] m1] argv1]| | |] eqn:Hloop; try done.
  cbn [mbind Run_bind] in Hrun.
  destruct diagnostic as [d|].
  { injection Hrun as <-. done. }
  destruct (getoptLoop_found _ _ _ _ _ _ _ _ _ _ _ _ _ Hcalls Hloop)
    as (-> & Hb & Hs & Hp).
  destruct (getoptFinalOptind run <? argc).
  { destruct (readArgv _ _); try done. injection Hrun as <-. done. }
  injection Hrun as <-. cbn [parsedStderr parsedMemory].
  split; [done|]. split; [|split].
  - intros v. by rewrite Hb, Hb0.
  - intros v. by rewrite Hs, Hs0.
  - by rewrite Hp, Hp0.
Qed.
End CoreImplementation.

Lemma parseIntChecked_range (strtol : string -> StrtolResult) (str : string) (out : Z) :
  parseIntChecked strtol str = Some out -> INT_MIN <= out <= INT_MAX.
Proof.
  unfold parseIntChecked. destruct (strtolERANGE _); [done|].
  destruct (_ =? _)%nat; [done|].
  destruct (strtolValue (strtol str) <? INT_MIN) eqn:Hlow; [done|].
  destruct (INT_MAX <? strtolValue (strtol str)) eqn:Hhigh; [done|].
  intros [= <-]. apply Z.ltb_ge in Hlow, Hhigh. lia.
Qed.

Lemma substring_length (n : nat) (s : string) :
  (String.length (String.substring 0 n s) <= n)%nat.
Proof.
  revert s. induction n as [|n IH]; intros [|c s]; cbn; try lia.
  specialize (IH s). lia.
Qed.

Lemma substring_short (n : nat) (s : string) :
  (String.length s <= n)%nat -> String.substring 0 n s = s.
Proof.
  revert s. induction n as [|n IH]; intros [|c s]; cbn; try done; try lia.
  intros H. rewrite IH; [done | lia].
Qed.

Lemma countOptions_commonOptions : countOptions commonOptions = Some 9%nat.
Proof. reflexivity. Qed.

Section ParseArgs.
Context (P : CommandLinePlatform) (argc : Z) (argv : list string).

(** The two stages of a successful [parseArgs]. *)
Lemma parseArgs_stages (m : ArgsMemory) (demoSpecificOptions : list DemoOption)
    (parsed : Parsed) :
  parseArgs P argc argv m demoSpecificOptions = Done parsed ->
  parsedReturnCode parsed = kCommonConstantReturnTypeSuccess ->
  exists parsed1 a,
    parseArgsCoreImplementation P argc argv (activeOptions demoSpecificOptions)
      (memoryAtParse m) = Done parsed1
    /\ parsedReturnCode parsed1 = kCommonConstantReturnTypeSuccess
    /\ commonBlocks (strtol P) (stringVariables (parsedMemory parsed1))
         (arguments (parsedMemory parsed1)) = GoOn a
    /\ parsed = {| parsedReturnCode := kCommonConstantReturnTypeSuccess;
                   parsedStderr := None;
                   parsedMemory := writeArguments a (parsedMemory parsed1);
                   parsedArgv := parsedArgv parsed1 |}.
Proof.
  unfold parseArgs, concatAndParseArgs, activeOptions.
  fold (memoryAtParse m). rewrite countOptions_commonOptions.
  destruct (countOptions demoSpecificOptions) as [n|]; [|done]. cbn [default from_option id].
  destruct (checkedCalloc _ _ _ _) as [[]| | |]; try done. cbn [mbind Run_bind].
  destruct (parseArgsCoreImplementation _ _ _ _ _) as [parsed1| | |]; try done.
  cbn [mbind Run_bind].
  destruct (parsedReturnCode parsed1) eqn:Hcode1.
  { intros [= <-]. done. }
  fold (commonBlocks (strtol P) (stringVariables (parsedMemory parsed1))
          (arguments (parsedMemory parsed1))).
  destruct (commonBlocks _ _ _) as [a|d a] eqn:Hblocks.
  - intros [= <-] _. by exists parsed1, a.
  - intros [= <-]. done.
Qed.

(** X12.  After a successful [parseArgs], a flag of the demo that an
    option points to holds [true] exactly when [getopt_long_only] reported
    such an option, and a string of the demo that an option points to
    holds the argument of the last such option reported, and [NULL] when
    none was: what the variables held before the call does not survive.
    Variables that no option points to keep their values. *)
Theorem parse_sets_the_variables_of_the_reported_options (m : ArgsMemory)
    (demoSpecificOptions : list DemoOption) (parsed : Parsed) (id : nat) :
  parseArgs P argc argv m demoSpecificOptions = Done parsed ->
  parsedReturnCode parsed = kCommonConstantReturnTypeSuccess ->
  Forall (fun call => getoptReturn call <> -1)
    (getoptCalls
       (getopt_long_only P argc argv
          (longOptionsTable (activeOptions demoSpecificOptions)))) ->
  demoBools (parsedMemory parsed) id
  = (if existsb (setsFlag (demoBool id)) (activeOptions demoSpecificOptions)
     then false else demoBools m id)
    || existsb (reportsFlag (activeOptions demoSpecificOptions) (demoBool id))
         (getoptCalls
            (getopt_long_only P argc argv
               (longOptionsTable (activeOptions demoSpecificOptions))))
  /\ stringVariables (parsedMemory parsed) (demoString id)
     = argumentFound (activeOptions demoSpecificOptions) (demoString id)
         (getoptCalls
            (getopt_long_only P argc argv
               (longOptionsTable (activeOptions demoSpecificOptions))))
         (if existsb (setsString (demoString id)) (activeOptions demoSpecificOptions)
          then None else stringVariables m (demoString id)).
Proof.
  intros Hrun Hcode Hcalls.
  destruct (parseArgs_stages _ _ _ Hrun Hcode) as (parsed1 & a & Hcore & Hcode1 & _ & ->).
  destruct (parseArgsCoreImplementation_found P argc argv _ _ _ Hcore Hcode1 Hcalls)
    as (_ & Hb & Hs & _).
  cbn [parsedMemory writeArguments demoBools stringVariables].
  split.
  - apply (Hb (demoBool id)).
  - apply (Hs (demoString id)).
Qed.

Lemma commonBlocks_consistent (strtol : string -> StrtolResult)
    (found : StringVariable -> option string) (a a' : CommonCommandLineArguments) :
  plainFields a = plainFields setDefaultCommandLineArgumentValues ->
  isWriteToFileEnabled a = false -> isOutputSelected a = false ->
  isInputFromFileEnabled a = false -> isMonteCarloMode a = false ->
  isSingleShotExecution a = true ->
  commonBlocks strtol found a = GoOn a' ->
  consistentArguments a'.
Proof.
  destruct a as [out inp w t n s sel v i j h b mc single].
  cbn [plainFields outputFilePath inputFilePath numberOfMonteCarloIterations
       outputSelect isWriteToFileEnabled isOutputSelected isInputFromFileEnabled
       isMonteCarloMode isSingleShotExecution setDefaultCommandLineArgumentValues].
  intros [= -> -> -> ->] -> -> -> -> ->.
  unfold commonBlocks, readInputArg, readOutputArg, readOutputSelectArg,
    readMultipleExecutionsArg, checkModes, snprintf, consistentArguments.
  assert (forall text : string,
            (String.length
               (String.substring 0 (kCommonConstantMaxCharsPerFilepath - 1) text)
             < kCommonConstantMaxCharsPerFilepath)%nat) as Hpath.
  { intros text.
    pose proof (substring_length (kCommonConstantMaxCharsPerFilepath - 1) text) as H.
    assert (0 < kCommonConstantMaxCharsPerFilepath)%nat
      by (unfold kCommonConstantMaxCharsPerFilepath; lia).
    lia. }
  assert ((String.length EmptyString < kCommonConstantMaxCharsPerFilepath)%nat) as Hempty.
  { unfold kCommonConstantMaxCharsPerFilepath. cbn. lia. }
  assert (INT_MIN <= 0 <= INT_MAX /\ 1 <= INT_MAX) as Hint by (by vm_compute).
  generalize dependent kCommonConstantMaxCharsPerFilepath. intros size Hpath Hempty.
  destruct (found addressOfInputArg) as [inputText|];
    [destruct (_ || _); [done|];
     pose proof (Hpath inputText) as Hin;
     generalize dependent (String.substring 0 (size - 1) inputText);
     intros inputPath Hin|];
    cbn [thenBlock writeArgumentsFlag outputFilePath inputFilePath
         isWriteToFileEnabled isTimingEnabled numberOfMonteCarloIterations
         outputSelect isOutputSelected isVerbose isInputFromFileEnabled
         isOutputJSONMode isHelpEnabled isBenchmarkingMode isMonteCarloMode
         isSingleShotExecution];
    (destruct (found addressOfOutputArg) as [outputText|];
     [destruct (_ || _); [done|];
      pose proof (Hpath outputText) as Hout;
      generalize dependent (String.substring 0 (size - 1) outputText);
      intros outputPath Hout|]);
    clear Hpath;
    cbn [thenBlock writeArgumentsFlag outputFilePath inputFilePath
         isWriteToFileEnabled isTimingEnabled numberOfMonteCarloIterations
         outputSelect isOutputSelected isVerbose isInputFromFileEnabled
         isOutputJSONMode isHelpEnabled isBenchmarkingMode isMonteCarloMode
         isSingleShotExecution];
    (destruct (found addressOfOutputSelectArg) as [selectText|];
     [destruct (parseIntChecked strtol selectText) as [selected|] eqn:Hsel; [|done];
      apply parseIntChecked_range in Hsel;
      destruct (selected <? 0) eqn:Hneg; [done|]; apply Z.ltb_ge in Hneg|]);
    cbn [thenBlock writeArgumentsFlag outputFilePath inputFilePath
         isWriteToFileEnabled isTimingEnabled numberOfMonteCarloIterations
         outputSelect isOutputSelected isVerbose isInputFromFileEnabled
         isOutputJSONMode isHelpEnabled isBenchmarkingMode isMonteCarloMode
         isSingleShotExecution];
    (destruct (found addressOfMultipleExecutionsArg) as [multipleText|];
     [destruct (parseIntChecked strtol multipleText) as [multiple|] eqn:Hmul; [|done];
      apply parseIntChecked_range in Hmul;
      destruct (multiple <=? 0) eqn:Hpos; [done|]; apply Z.leb_gt in Hpos|]);
    cbn [thenBlock writeArgumentsFlag outputFilePath inputFilePath
         isWriteToFileEnabled isTimingEnabled numberOfMonteCarloIterations
         outputSelect isOutputSelected isVerbose isInputFromFileEnabled
         isOutputJSONMode isHelpEnabled isBenchmarkingMode isMonteCarloMode
         isSingleShotExecution];
    destruct (j && b) eqn:Hmodes; try done;
    intros [= <-];
    cbn [outputFilePath inputFilePath
         isWriteToFileEnabled isTimingEnabled numberOfMonteCarloIterations
         outputSelect isOutputSelected isVerbose isInputFromFileEnabled
         isOutputJSONMode isHelpEnabled isBenchmarkingMode isMonteCarloMode
         isSingleShotExecution negb writeArgumentsFlag];
    repeat split; try done; lia.
Qed.

Lemma activeOptions_leave (demoSpecificOptions : list DemoOption) (f : ArgumentsFlag) :
  Forall (fun demoOption => leavesArgumentsAlone demoOption = true)
    demoSpecificOptions ->
  f ∈ [IsWriteToFileEnabled; IsOutputSelected; IsInputFromFileEnabled;
       IsMonteCarloMode; IsSingleShotExecution] ->
  existsb (setsFlag (argumentsFlag f)) (activeOptions demoSpecificOptions) = false.
Proof.
  intros Halone Hf. unfold activeOptions. rewrite existsb_app.
  apply orb_false_intro.
  - apply (Forall_take _ (default 0%nat (countOptions demoSpecificOptions))) in Halone.
    induction Halone as [|demoOption options Hd _ IH]; [done|].
    cbn [existsb]. rewrite IH, orb_false_r.
    unfold setsFlag, leavesArgumentsAlone in *. apply bool_decide_eq_false_2.
    intros Heq. by rewrite Heq in Hd.
  - repeat (apply elem_of_cons in Hf as [->|Hf]; [by vm_compute|]).
    by apply elem_of_nil in Hf.
Qed.

(** X13.  After a successful [parseArgs] whose demo options do not point
    into [*arguments]: the number of Monte Carlo iterations is at least
    [1] and is [1] outside Monte Carlo mode; Monte Carlo mode switches
    timing on and single-shot execution off, and single-shot execution is
    on exactly outside Monte Carlo mode; JSON output and benchmarking are
    not both on; the selected output is not negative; the two paths are
    shorter than [kCommonConstantMaxCharsPerFilepath] and are empty unless
    their flag is on. *)
Theorem parsed_arguments_are_consistent (m : ArgsMemory)
    (demoSpecificOptions : list DemoOption) (parsed : Parsed) :
  parseArgs P argc argv m demoSpecificOptions = Done parsed ->
  parsedReturnCode parsed = kCommonConstantReturnTypeSuccess ->
  Forall (fun call => getoptReturn call <> -1)
    (getoptCalls
       (getopt_long_only P argc argv
          (longOptionsTable (activeOptions demoSpecificOptions)))) ->
  Forall (fun demoOption => leavesArgumentsAlone demoOption = true)
    demoSpecificOptions ->
  consistentArguments (arguments (parsedMemory parsed)).
Proof.
  intros Hrun Hcode Hcalls Halone.
  destruct (parseArgs_stages _ _ _ Hrun Hcode)
    as (parsed1 & a & Hcore & Hcode1 & Hblocks & ->).
  destruct (parseArgsCoreImplementation_found P argc argv _ _ _ Hcore Hcode1 Hcalls)
    as (_ & Hb & _ & Hp).
  cbn [parsedMemory writeArguments arguments].
  assert (forall f,
            f ∈ [IsWriteToFileEnabled; IsOutputSelected; IsInputFromFileEnabled;
                 IsMonteCarloMode; IsSingleShotExecution] ->
            readArgumentsFlag f (arguments (parsedMemory parsed1))
            = readArgumentsFlag f setDefaultCommandLineArgumentValues) as Hflags.
  { intros f Hf. specialize (Hb (argumentsFlag f)).
    rewrite (activeOptions_leave _ _ Halone Hf) in Hb.
    rewrite reportsFlag_points in Hb by (by apply activeOptions_leave).
    by rewrite orb_false_r in Hb. }
  eapply commonBlocks_consistent; [exact Hp|..|exact Hblocks].
  - apply (Hflags IsWriteToFileEnabled). repeat constructor.
  - apply (Hflags IsOutputSelected). repeat constructor.
  - apply (Hflags IsInputFromFileEnabled). repeat constructor.
  - apply (Hflags IsMonteCarloMode). repeat constructor.
  - apply (Hflags IsSingleShotExecution). repeat constructor.
Qed.
End ParseArgs.

Lemma parse_sets_the_variables_of_the_reported_options_witness :
  demoBools (parsedMemory exampleParsed) 1
  = (if existsb (setsFlag (demoBool 1)) (activeOptions exampleDemoOptions)
     then false else demoBools emptyMemory 1)
    || existsb (reportsFlag (activeOptions exampleDemoOptions) (demoBool 1))
         (getoptCalls
            (getopt_long_only (scriptedPlatform exampleCalls 5) 5 exampleArgv
               (longOptionsTable (activeOptions exampleDemoOptions))))
  /\ stringVariables (parsedMemory exampleParsed) (demoString 1)
     = argumentFound (activeOptions exampleDemoOptions) (demoString 1)
         (getoptCalls
            (getopt_long_only (scriptedPlatform exampleCalls 5) 5 exampleArgv
               (longOptionsTable (activeOptions exampleDemoOptions))))
         (if existsb (setsString (demoString 1)) (activeOptions exampleDemoOptions)
          then None else stringVariables emptyMemory (demoString 1)).
Proof.
  apply (parse_sets_the_variables_of_the_reported_options
           (scriptedPlatform exampleCalls 5) 5 exampleArgv emptyMemory
           exampleDemoOptions exampleParsed 1).
  - vm_compute. reflexivity.
  - vm_compute. reflexivity.
  - repeat constructor; discriminate.
Defined.

Lemma parsed_arguments_are_consistent_witness :
  consistentArguments (arguments (parsedMemory exampleParsed)).
Proof.
  apply (parsed_arguments_are_consistent
           (scriptedPlatform exampleCalls 5) 5 exampleArgv emptyMemory
           exampleDemoOptions exampleParsed).
  - vm_compute. reflexivity.
  - vm_compute. reflexivity.
  - repeat constructor; discriminate.
  - repeat constructor.
Defined.

(* ===================================================================== *)
(** * The ways [parseArgs] ends the process *)
(* ===================================================================== *)

Lemma addLongOption_fatal (out : list LongOption * nat) (optionName : option string)
    (argumentKind optionIndex : Z) (message : FatalMessage) :
  addLongOption out optionName argumentKind optionIndex = Fatal message ->
  exists newOption, message = DuplicateOption newOption.
Proof.
  unfold addLongOption, checkDuplicates. destruct optionName as [optionName|]; [|done].
  destruct (existsb _ _); cbn [mbind Run_bind].
  - intros [= <-]. by exists optionName.
  - by destruct (storeAt _ _ _).
Qed.

Lemma constructlongOptionsLoop_fatal (options : list DemoOption) :
  forall (ii : nat) (out : list LongOption * nat) (message : FatalMessage),
    Forall (fun demoOption => optionNames demoOption <> []) options ->
    constructlongOptionsLoop options ii out = Fatal message ->
    exists newOption, message = DuplicateOption newOption.
Proof.
  induction options as [|demoOption options IH]; intros ii out message Hnamed; [done|].
  apply Forall_cons in Hnamed as [Hd Hnamed]. cbn [constructlongOptionsLoop].
  set (h := if hasArg demoOption then required_argument else no_argument).
  assert (forall rest : Run (list LongOption * nat),
            match opt demoOption, optAlternative demoOption with
            | None, None => Fatal (OptionsMissingBothNames ii)
            | _, _ => rest
            end = rest) as ->.
  { intros rest. unfold optionNames in Hd.
    by destruct (opt demoOption), (optAlternative demoOption). }
  destruct (addLongOption out (opt demoOption) h (Z.of_nat ii)) as [out1| | |] eqn:H1;
    cbn [mbind Run_bind]; try done.
  2:{ intros [= <-]. by eapply addLongOption_fatal. }
  destruct (addLongOption out1 (optAlternative demoOption) h (Z.of_nat ii))
    as [out2| | |] eqn:H2; cbn [mbind Run_bind]; try done.
  2:{ intros [= <-]. by eapply addLongOption_fatal. }
  by apply IH.
Qed.

Lemma getoptLoop_fatal (newlib : bool) (options : list DemoOption)
    (longOptions : list LongOption) (finalOptind : Z) (finalArgv : list string)
    (calls : list GetoptCall) :
  forall (optind previousOptInd : Z) (m : ArgsMemory) (argv : list string)
         (message : FatalMessage),
    getoptLoop newlib options longOptions optind previousOptInd m argv calls
      finalOptind finalArgv = Fatal message ->
    exists optionName, message = OptionMissingArgument optionName.
Proof.
  assert (forall optind argv message,
            modifyNextArgvForNewLibc newlib optind argv <> Fatal message) as Hmodify.
  { intros optind argv message. unfold modifyNextArgvForNewLibc.
    destruct (getOptIsNewlib newlib); [|done]. by destruct (_ || _). }
  induction calls as [|call calls IH]; intros optind previousOptInd m argv message;
    cbn [getoptLoop].
  { destruct (modifyNextArgvForNewLibc _ _ _) eqn:H; try done.
    intros [= <-]. by apply Hmodify in H. }
  destruct (modifyNextArgvForNewLibc _ _ _) eqn:H; try done.
  2:{ intros [= <-]. by apply Hmodify in H. }
  destruct (getoptReturn call =? -1); [done|].
  destruct (getoptLongIndex call =? -1).
  { unfold getoptDiagnostic, readArgv, readAt, afterFirstChar.
    destruct (_ =? questionMark).
    - destruct (_ <? 0); [done|]. destruct (_ !! _) as [[|c rest]|]; done.
    - destruct (_ =? colon); [|done].
      destruct (_ <? 0); [done|]. destruct (_ !! _) as [[|c rest]|]; done. }
  destruct (negb _); [done|].
  destruct (options !! Z.to_nat (getoptReturn call)) as [selected|]; [|done].
  destruct (hasArg selected); [|apply IH].
  destruct (getoptOptarg call); [apply IH|].
  destruct (getoptLongIndex call <? 0); [done|].
  unfold readAt. destruct (longOptions !! _) as [longOption|]; cbn [mbind Run_bind];
    [|done].
  intros [= <-]. by eexists.
Qed.

Lemma countOptions_length (options : list DemoOption) :
  forall n, countOptions options = Some n -> (n < length options)%nat.
Proof.
  induction options as [|demoOption options IH]; intros n; [done|].
  cbn [countOptions length].
  destruct (opt demoOption), (optAlternative demoOption);
    try (destruct (countOptions options) as [k|]; [|done]; intros [= <-];
         specialize (IH k eq_refl); lia).
  intros [= <-]. lia.
Qed.

Lemma activeOptions_length (demoSpecificOptions : list DemoOption) (n : nat) :
  countOptions demoSpecificOptions = Some n ->
  length (activeOptions demoSpecificOptions) = (n + 9)%nat.
Proof.
  intros Hn. unfold activeOptions. rewrite Hn. cbn [default from_option id].
  apply countOptions_length in Hn.
  rewrite length_app, length_take. cbn [commonOptions take length]. lia.
Qed.

Lemma parseArgs_allocations (P : CommandLinePlatform) (argc : Z) (argv : list string)
    (m : ArgsMemory) (demoSpecificOptions : list DemoOption) (n : nat) :
  countOptions demoSpecificOptions = Some n ->
  parseArgs P argc argv m demoSpecificOptions
  = if calloc P (n + 9) (sizeofDemoOption P) then
      if calloc P ((n + 9) * 2 + 1) (sizeofOption P) then
        afterAllocations P argc argv m (activeOptions demoSpecificOptions)
      else Fatal (CallocFailed (((n + 9) * 2 + 1) * sizeofOption P) 1131)
    else Fatal (CallocFailed ((n + 9) * sizeofDemoOption P) 1272).
Proof.
  intros Hn. pose proof (activeOptions_length _ _ Hn) as Hlength.
  unfold parseArgs, concatAndParseArgs. fold (memoryAtParse m).
  rewrite countOptions_commonOptions, Hn. unfold checkedCalloc at 1.
  destruct (calloc P (n + 9) (sizeofDemoOption P)); [|done].
  cbn [mbind Run_bind].
  change (take n demoSpecificOptions ++ take 9 commonOptions)
    with (take (default 0%nat (Some n)) demoSpecificOptions ++ take 9 commonOptions).
  rewrite <- Hn. fold (activeOptions demoSpecificOptions).
  unfold parseArgsCoreImplementation, checkedCalloc. rewrite Hlength.
  destruct (calloc P ((n + 9) * 2 + 1) (sizeofOption P)); [|done].
  cbn [mbind Run_bind]. unfold afterAllocations. rewrite Hlength.
  destruct (constructlongOptions _ _) as [table| | |]; try done.
  cbn [mbind Run_bind].
  destruct (getoptLoop _ _ _ _ _ _ _ _ _ _) as [[[[diagnostic optind] m1] argv1]| | |];
    try done.
Qed.

Lemma countOptions_named (options : list DemoOption) :
  forall n, countOptions options = Some n ->
    Forall (fun demoOption => optionNames demoOption <> []) (take n options).
Proof.
  induction options as [|demoOption options IH]; intros n; [done|].
  cbn [countOptions].
  destruct (opt demoOption) as [first|] eqn:Hopt,
           (optAlternative demoOption) as [second|] eqn:Halt.
  4:{ intros [= <-]. constructor. }
  all: destruct (countOptions options) as [k|]; [|done]; intros [= <-];
    cbn [take]; constructor; [|by apply IH];
    unfold optionNames; by rewrite Hopt, Halt.
Qed.

Lemma activeOptions_named (demoSpecificOptions : list DemoOption) (n : nat) :
  countOptions demoSpecificOptions = Some n ->
  Forall (fun demoOption => optionNames demoOption <> []) (activeOptions demoSpecificOptions).
Proof.
  intros Hn. unfold activeOptions. rewrite Hn. apply Forall_app. split.
  - by apply countOptions_named.
  - repeat constructor; discriminate.
Qed.

(** X14.  For demo options that end in an entry without a name,
    [parseArgs] ends the process through [fatal] in three ways only.
    When [calloc] gives no block for the concatenated options, or then
    for the long options, it exits with the message of [checkedCalloc].
    Else, with a name used twice among the options of the demo and the
    common ones it exits with the duplicate-option message, whatever the
    command line, before [getopt_long_only] is called; and with distinct
    names it exits only when [getopt_long_only] reports an option that
    takes an argument without giving one.  The message for an option
    without a name is never printed: [concatAndParseArgs] stops counting
    at such an entry. *)
Theorem parseArgs_exits_for_duplicate_names (P : CommandLinePlatform) (argc : Z)
    (argv : list string) (m : ArgsMemory) (demoSpecificOptions : list DemoOption)
    (n : nat) :
  countOptions demoSpecificOptions = Some n ->
  Z.of_nat (length (activeOptions demoSpecificOptions)) < INT_MAX ->
  (calloc P (n + 9) (sizeofDemoOption P) = false ->
   parseArgs P argc argv m demoSpecificOptions
   = Fatal (CallocFailed ((n + 9) * sizeofDemoOption P) 1272))
  /\ (calloc P (n + 9) (sizeofDemoOption P) = true ->
      calloc P ((n + 9) * 2 + 1) (sizeofOption P) = false ->
      parseArgs P argc argv m demoSpecificOptions
      = Fatal (CallocFailed (((n + 9) * 2 + 1) * sizeofOption P) 1131))
  /\ (calloc P (n + 9) (sizeofDemoOption P) = true ->
      calloc P ((n + 9) * 2 + 1) (sizeofOption P) = true ->
      ~ NoDup (activeOptions demoSpecificOptions ≫= optionNames) ->
      exists newOption,
        parseArgs P argc argv m demoSpecificOptions = Fatal (DuplicateOption newOption))
  /\ (forall message,
        parseArgs P argc argv m demoSpecificOptions = Fatal message ->
        (exists bytes line,
           message = CallocFailed bytes line
           /\ (calloc P (n + 9) (sizeofDemoOption P) = false
               \/ calloc P ((n + 9) * 2 + 1) (sizeofOption P) = false))
        \/ (~ NoDup (activeOptions demoSpecificOptions ≫= optionNames)
            /\ exists newOption, message = DuplicateOption newOption)
        \/ (NoDup (activeOptions demoSpecificOptions ≫= optionNames)
            /\ exists optionName, message = OptionMissingArgument optionName)).
Proof.
  intros Hn Hsize.
  pose proof (activeOptions_named _ _ Hn) as Hnamed.
  pose proof (constructlongOptions_table _ Hsize) as Htable.
  rewrite (parseArgs_allocations _ _ _ _ _ _ Hn).
  destruct (calloc P (n + 9) (sizeofDemoOption P)).
  2:{ repeat split; try done. intros message [= <-]. left. eauto. }
  destruct (calloc P ((n + 9) * 2 + 1) (sizeofOption P)).
  2:{ repeat split; try done. intros message [= <-]. left. eauto. }
  split; [done|]. split; [done|].
  unfold afterAllocations.
  destruct (constructlongOptions (activeOptions demoSpecificOptions) _)
    as [table|message| |] eqn:Hconstruct; try done.
  - destruct Htable as (_ & Hnd & ->). split; [done|].
    cbn [mbind Run_bind].
    destruct (getoptLoop _ _ _ _ _ _ _ _ _ _)
      as [[[[diagnostic optind] m1] argv1]|message'| |] eqn:Hloop;
      cbn [mbind Run_bind].
    + intros message.
      destruct diagnostic; cbn [mbind Run_bind parsedReturnCode]; [done|].
      destruct (optind <? argc); cbn [mbind Run_bind parsedReturnCode].
      * unfold readArgv, readAt. destruct (_ <? 0); [done|].
        by destruct (_ !! _).
      * by destruct (commonBlocks _ _ _).
    + intros message [= <-]. right. right. split; [done|]. by eapply getoptLoop_fatal.
    + done.
    + done.
  - cbn [mbind Run_bind]. split.
    + intros _ _ _.
      unfold constructlongOptions in Hconstruct.
      destruct (negb _); [done|]. destruct (negb _); [done|].
      destruct (constructlongOptionsLoop _ _ _) as [[optionsOut outIndex]|message'| |]
        eqn:Hloop; cbn [mbind Run_bind] in Hconstruct; try done.
      * by destruct (storeAt _ _ _).
      * injection Hconstruct as ->.
        destruct (constructlongOptionsLoop_fatal _ _ _ _ Hnamed Hloop) as [newOption ->].
        by exists newOption.
    + intros message' [= <-]. right. left. split; [by intros Hnd; apply Htable|].
      unfold constructlongOptions in Hconstruct.
      destruct (negb _); [done|]. destruct (negb _); [done|].
      destruct (constructlongOptionsLoop _ _ _) as [[optionsOut outIndex]|message'| |]
        eqn:Hloop; cbn [mbind Run_bind] in Hconstruct; try done.
      * by destruct (storeAt _ _ _).
      * injection Hconstruct as ->.
        by eapply constructlongOptionsLoop_fatal.
Qed.

Lemma parseArgs_exits_for_duplicate_names_witness :
  parseArgs outOfMemoryPlatform 5 exampleArgv emptyMemory exampleDemoOptions
  = Fatal (CallocFailed ((2 + 9) * sizeofDemoOption outOfMemoryPlatform) 1272)
  /\ exists newOption,
       parseArgs (scriptedPlatform exampleCalls 5) 5 exampleArgv emptyMemory
         clashingDemoOptions = Fatal (DuplicateOption newOption).
Proof.
  split.
  - apply (parseArgs_exits_for_duplicate_names outOfMemoryPlatform 5
             exampleArgv emptyMemory exampleDemoOptions 2).
    + reflexivity.
    + vm_compute. reflexivity.
    + reflexivity.
  - apply (parseArgs_exits_for_duplicate_names (scriptedPlatform exampleCalls 5) 5
             exampleArgv emptyMemory clashingDemoOptions 1).
    + reflexivity.
    + vm_compute. reflexivity.
    + reflexivity.
    + reflexivity.
    + intros Hnd. vm_compute in Hnd.
      apply NoDup_cons in Hnd as [_ Hnd]. apply NoDup_cons in Hnd as [Hnotin _].
      apply Hnotin. repeat constructor.
Defined.

(* ===================================================================== *)
(** * The rewriting of [argv] for newlib *)
(* ===================================================================== *)

Lemma plusForDash_text (arg : string) :
  dropChars 1 (plusForDash arg) = dropChars 1 arg.
Proof.
  destruct arg as [|c rest]; [done|]. unfold plusForDash.
  by destruct (_ && _).
Qed.

Lemma plusForDash_cases (arg : string) :
  plusForDash arg = arg
  \/ exists rest,
       arg = String "-"%char rest /\ plusForDash arg = String "+"%char rest
       /\ String.prefix "-" rest = false.
Proof.
  destruct arg as [|c rest]; [by left|]. unfold plusForDash.
  destruct (Ascii.eqb_spec c "-"%char) as [->|Hc]; [|by left].
  destruct (Ascii.eqb (secondChar (String "-" rest)) "-") eqn:Hsecond; [by left|].
  right. exists rest. split; [done|]. split; [done|].
  destruct rest as [|c' rest']; [done|]. cbn [String.prefix secondChar] in *.
  destruct (ascii_dec "-" c') as [<-|]; [|done].
  by rewrite Ascii.eqb_refl in Hsecond.
Qed.

(** X15.  When [modifyNextArgvForNewLibc] returns, [argv] has the same
    arguments apart from at most a first character: an argument is as
    before, or it began with one ['-'] not followed by a second one and
    now begins with ['+'].  So [argv[i] + 1], which the error messages
    print, is the same text before and after; and without newlib nothing
    changes. *)
Theorem newlib_rewriting_changes_one_leading_dash (newlib : bool) (optind : Z)
    (argv argv' : list string) :
  modifyNextArgvForNewLibc newlib optind argv = Done argv' ->
  dropChars 1 <$> argv' = dropChars 1 <$> argv
  /\ Forall2
       (fun arg arg' =>
          arg' = arg
          \/ exists rest,
               arg = String "-"%char rest /\ arg' = String "+"%char rest
               /\ String.prefix "-" rest = false)
       argv argv'
  /\ (newlib = false -> argv' = argv).
Proof.
  unfold modifyNextArgvForNewLibc, getOptIsNewlib.
  assert (Forall2
            (fun arg arg' : string =>
               arg' = arg
               \/ exists rest,
                    arg = String "-"%char rest /\ arg' = String "+"%char rest
                    /\ String.prefix "-" rest = false) argv argv) as Hsame.
  { apply Forall2_same_length_lookup. split; [done|].
    intros i x y H1 H2. left. congruence. }
  destruct newlib.
  2:{ intros [= <-]. done. }
  destruct (_ || _); [done|]. intros [= <-].
  set (index := Z.to_nat (if optind =? 0 then 1 else optind)). clearbody index.
  split; [|split; [|done]].
  - clear Hsame. revert index. induction argv as [|arg argv IH]; intros index; [done|].
    destruct index as [|index]; cbn [alter list_alter fmap list_fmap].
    + by rewrite plusForDash_text.
    + f_equal. apply IH.
  - clear Hsame. revert index. induction argv as [|arg argv IH]; intros index.
    { constructor. }
    destruct index as [|index]; cbn [alter list_alter].
    + constructor.
      * destruct (plusForDash_cases arg) as [->|(rest & -> & -> & Hrest)];
          [by left | right; by exists rest].
      * apply Forall2_same_length_lookup. split; [done|].
        intros i x y H1 H2. left. congruence.
    + constructor; [by left | apply IH].
Qed.

Lemma newlib_rewriting_changes_one_leading_dash_witness :
  dropChars 1 <$> ["demo"; "+M"; "100"]%string = dropChars 1 <$> shortArgv
  /\ Forall2
       (fun arg arg' =>
          arg' = arg
          \/ exists rest,
               arg = String "-"%char rest /\ arg' = String "+"%char rest
               /\ String.prefix "-" rest = false)
       shortArgv ["demo"; "+M"; "100"]%string
  /\ (true = false -> ["demo"; "+M"; "100"]%string = shortArgv).
Proof.
  apply (newlib_rewriting_changes_one_leading_dash true 0 shortArgv
           ["demo"; "+M"; "100"]%string).
  reflexivity.
Defined.

(* ===================================================================== *)
(** * JSON output *)
(* ===================================================================== *)

(** X16.  [printJSONFormattedOutput] reads one of its two arrays of
    values and never the other: in Monte Carlo mode what it prints does
    not depend on [outputVariables] (every selected output lists the
    samples of [monteCarloOutputSamples]), and outside Monte Carlo mode it
    does not depend on [monteCarloOutputSamples]. *)
Theorem json_output_reads_one_array_of_values (io : Stdio) (moments : Moments)
    (arguments : CommonCommandLineArguments)
    (monteCarloOutputSamples outputVariables otherSamples otherVariables : list binary64)
    (outputVariableDescriptions : list string) (numberOfOutputVariables : nat)
    (description : string) :
  printJSONFormattedOutput io moments arguments monteCarloOutputSamples
    outputVariables outputVariableDescriptions numberOfOutputVariables description
  = printJSONFormattedOutput io moments arguments
      (if isMonteCarloMode arguments then monteCarloOutputSamples else otherSamples)
      (if isMonteCarloMode arguments then otherVariables else outputVariables)
      outputVariableDescriptions numberOfOutputVariables description.
Proof.
  unfold printJSONFormattedOutput.
  destruct (if decide _ then _ else _) as [lower upper].
  f_equal. apply fold_left_ext_in. intros out outputSelect.
  unfold populateSelected. by destruct (isMonteCarloMode arguments).
Qed.

Lemma fold_left_done {A : Type} (step : Run A -> nat -> Run A) (l : list nat) :
  (forall a i, i ∈ l -> exists a', step (Done a) i = Done a') ->
  forall a, exists a', fold_left step l (Done a) = Done a'.
Proof.
  induction l as [|i l IH]; intros Hstep a; [by exists a|].
  cbn [fold_left]. destruct (Hstep a i) as [a1 ->]; [by left|].
  apply IH. intros a' j Hj. apply Hstep. by right.
Qed.

Section JSONOutput.
Context (io : Stdio) (moments : Moments).

Lemma printJSONVariable_done (jsonVariables : list JSONVariable) (count ii : nat)
    (jsonVariable : JSONVariable) :
  jsonVariables !! ii = Some jsonVariable ->
  type jsonVariable = kJSONVariableTypeDouble ->
  (size jsonVariable <= length (values jsonVariable))%nat ->
  exists text, printJSONVariable io moments jsonVariables count ii = Done text.
Proof.
  intros Hlookup Htype Hsize. unfold printJSONVariable, readAt at 1.
  rewrite Hlookup. cbn [mbind Run_bind].
  assert (forall jj, jj ∈ seq 0 (size jsonVariable) ->
            exists value, readAt (values jsonVariable) jj = Done value) as Hread.
  { intros jj Hjj. apply elem_of_seq in Hjj. unfold readAt.
    destruct (lookup_lt_is_Some_2 (values jsonVariable) jj) as [value ->]; [lia|].
    by exists value. }
  destruct (fold_left_done
              (fun out jj =>
                 text ← out;
                 printed ←
                   match type jsonVariable with
                   | kJSONVariableTypeDouble =>
                       value ← readAt (values jsonVariable) jj;
                       Done (formatF io value)
                   | kJSONVariableTypeFloat =>
                       value ← readAt (values jsonVariable) jj;
                       Done (formatF io (floatToDouble value))
                   | kJSONVariableTypeDoubleParticle =>
                       value ← readAt (values jsonVariable) jj;
                       Done (formatParticle io value)
                   | kJSONVariableTypeFloatParticle =>
                       value ← readAt (values jsonVariable) jj;
                       Done (formatParticle io (floatToDouble value))
                   | kJSONVariableTypeUnknown => Fatal JSONVariableTypeMustBeSpecified
                   end;
                 Done (text ++ tabbed 4 (quoted printed)
                         ++ afterElement jj (size jsonVariable))%string)
              (seq 0 (size jsonVariable))) with (a := EmptyString) as [printed Hprinted].
  { intros text jj Hjj. rewrite Htype. destruct (Hread jj Hjj) as [value ->].
    cbn [mbind Run_bind]. by eexists. }
  unfold printJSONValues. rewrite Hprinted. cbn [mbind Run_bind].
  destruct (fold_left_done
              (fun out jj =>
                 text ← out;
                 printed ←
                   match type jsonVariable with
                   | kJSONVariableTypeDouble =>
                       value ← readAt (values jsonVariable) jj;
                       Done (formatParticle io (UxHwDoubleNthMoment moments value 2))
                   | kJSONVariableTypeFloat =>
                       value ← readAt (values jsonVariable) jj;
                       Done (formatParticle io
                               (floatToDouble (UxHwFloatNthMoment moments value 2)))
                   | kJSONVariableTypeFloatParticle | kJSONVariableTypeDoubleParticle =>
                       Done (formatParticle io (S754_zero false))
                   | kJSONVariableTypeUnknown => Fatal JSONVariableTypeMustBeSpecified
                   end;
                 Done (text ++ tabbed 4 printed
                         ++ afterElement jj (size jsonVariable))%string)
              (seq 0 (size jsonVariable))) with (a := EmptyString) as [std Hstd].
  { intros text jj Hjj. rewrite Htype. destruct (Hread jj Hjj) as [value ->].
    cbn [mbind Run_bind]. by eexists. }
  unfold printJSONStdValues. rewrite Hstd. cbn [mbind Run_bind]. by eexists.
Qed.

Lemma printJSONVariables_done (jsonVariables : list JSONVariable) (count : nat)
    (description : string) :
  (forall ii, (ii < count)%nat ->
     exists jsonVariable,
       jsonVariables !! ii = Some jsonVariable
       /\ type jsonVariable = kJSONVariableTypeDouble
       /\ (size jsonVariable <= length (values jsonVariable))%nat) ->
  exists text, printJSONVariables io moments jsonVariables count description = Done text.
Proof.
  intros Hall. unfold printJSONVariables.
  destruct (fold_left_done
              (fun out ii =>
                 text ← out;
                 plot ← printJSONVariable io moments jsonVariables count ii;
                 Done (text ++ plot)%string)
              (seq 0 count)) with (a := EmptyString) as [plots ->].
  { intros text ii Hii. apply elem_of_seq in Hii.
    destruct (Hall ii) as (jsonVariable & Hl & Ht & Hs); [lia|].
    destruct (printJSONVariable_done _ count _ _ Hl Ht Hs) as [plot ->].
    cbn [mbind Run_bind]. by eexists. }
  cbn [mbind Run_bind]. by eexists.
Qed.

Lemma populateSelected_loop (arguments : CommonCommandLineArguments)
    (monteCarloOutputSamples outputVariables : list binary64)
    (outputVariableDescriptions : list string) (lower : nat) (count : nat) :
  forall jsonVariables : list JSONVariable,
    (lower + count <= length jsonVariables)%nat ->
    (lower + count <= length outputVariableDescriptions)%nat ->
    exists populated,
      fold_left
        (populateSelected io arguments monteCarloOutputSamples outputVariables
           outputVariableDescriptions)
        (seq lower count) (Done jsonVariables) = Done populated
      /\ length populated = length jsonVariables
      /\ forall k, (lower <= k < lower + count)%nat ->
           exists text,
             populated !! k
             = Some (populateJSONVariableStruct io
                       (if isMonteCarloMode arguments then monteCarloOutputSamples
                        else drop k outputVariables)
                       text k (Z.to_nat (numberOfMonteCarloIterations arguments))).
Proof.
  induction count as [|count IH]; intros jsonVariables Hvars Hdescriptions.
  - exists jsonVariables. cbn. repeat split; try done. intros k Hk. lia.
  - destruct (IH jsonVariables) as (populated & Hfold & Hlen & Hdone); [lia..|].
    rewrite seq_S, fold_left_app, Hfold. cbn [fold_left].
    unfold populateSelected at 1. cbn [mbind Run_bind]. unfold readAt.
    destruct (lookup_lt_is_Some_2 outputVariableDescriptions (lower + count))
      as [text ->]; [lia|].
    cbn [mbind Run_bind]. unfold storeAt. rewrite decide_True by lia.
    eexists. split; [reflexivity|]. rewrite length_insert. split; [done|].
    intros k Hk. destruct (decide (k = lower + count)%nat) as [->|Hne].
    + exists text. apply list_lookup_insert_eq. lia.
    + rewrite list_lookup_insert_ne by done. apply Hdone. lia.
Qed.

(** X17.  For arguments as a successful [parseArgs] leaves them outside
    Monte Carlo mode, and [numberOfOutputVariables] output variables with
    their descriptions, [printJSONFormattedOutput] prints when the selected
    output is at most [numberOfOutputVariables] (equal to it: all the
    outputs); with a larger one it writes outside [jsonVariables].
    [parseArgs] itself accepts every selection that is not negative. *)
Theorem json_output_needs_a_selection_within_the_variables
    (arguments : CommonCommandLineArguments)
    (monteCarloOutputSamples outputVariables : list binary64)
    (outputVariableDescriptions : list string) (numberOfOutputVariables : nat)
    (description : string) :
  consistentArguments arguments ->
  isMonteCarloMode arguments = false ->
  length outputVariables = numberOfOutputVariables ->
  length outputVariableDescriptions = numberOfOutputVariables ->
  ((Z.to_nat (outputSelect arguments) <= numberOfOutputVariables)%nat ->
   exists text,
     printJSONFormattedOutput io moments arguments monteCarloOutputSamples
       outputVariables outputVariableDescriptions numberOfOutputVariables description
     = Done text)
  /\ ((numberOfOutputVariables < Z.to_nat (outputSelect arguments))%nat ->
      printJSONFormattedOutput io moments arguments monteCarloOutputSamples
        outputVariables outputVariableDescriptions numberOfOutputVariables description
      = Undefined).
Proof.
  intros (_ & _ & _ & _ & Hone & _) Hmode Hvars Hdescriptions.
  specialize (Hone Hmode). unfold printJSONFormattedOutput. split.
  - intros Hselect.
    assert (exists lower count,
              (if decide (Z.to_nat (outputSelect arguments) = numberOfOutputVariables)
               then (0%nat, numberOfOutputVariables)
               else (Z.to_nat (outputSelect arguments),
                     S (Z.to_nat (outputSelect arguments))))
              = (lower, (lower + count)%nat)
              /\ (lower + count <= numberOfOutputVariables)%nat)
      as (lower & count & -> & Hbound).
    { destruct (decide _) as [Heq|Hne].
      - exists 0%nat, numberOfOutputVariables. done.
      - exists (Z.to_nat (outputSelect arguments)), 1%nat.
        split; [f_equal; lia | lia]. }
    replace (lower + count - lower)%nat with count by lia.
    destruct (populateSelected_loop arguments monteCarloOutputSamples outputVariables
                outputVariableDescriptions lower count
                (replicate numberOfOutputVariables zeroJSONVariable))
      as (populated & -> & Hlen & Hdone).
    { rewrite length_replicate. lia. }
    { lia. }
    cbn [mbind Run_bind]. apply printJSONVariables_done.
    intros ii Hii. destruct (Hdone (lower + ii)%nat) as [text Hl]; [lia|].
    eexists. rewrite lookup_drop. split; [exact Hl|].
    cbn [populateJSONVariableStruct type size values]. split; [done|].
    rewrite Hmode, Hone. change (Z.to_nat 1) with 1%nat. rewrite length_drop.
    clear -Hvars Hbound Hii. cbn in *. lia.
  - intros Hselect. rewrite decide_False by lia.
    replace (S (Z.to_nat (outputSelect arguments)) - Z.to_nat (outputSelect arguments))%nat
      with 1%nat by lia.
    cbn [seq fold_left]. unfold populateSelected. cbn [mbind Run_bind].
    unfold readAt. destruct (outputVariableDescriptions !! _); cbn [mbind Run_bind];
      [|done].
    unfold storeAt. rewrite decide_False by (rewrite length_replicate; lia). done.
Qed.
End JSONOutput.

Lemma json_output_needs_a_selection_within_the_variables_witness :
  exists text,
    printJSONFormattedOutput (exampleStdio []) exampleMoments
      setDefaultCommandLineArgumentValues [] [decimal64 1 0; decimal64 2 0]
      ["first"; "second"]%string 2 "demo"
    = Done text.
Proof.
  apply (json_output_needs_a_selection_within_the_variables (exampleStdio [])
           exampleMoments setDefaultCommandLineArgumentValues []
           [decimal64 1 0; decimal64 2 0] ["first"; "second"]%string 2 "demo").
  - unfold consistentArguments, INT_MAX, kCommonConstantMaxCharsPerFilepath.
    cbn. repeat split; (done || lia).
  - reflexivity.
  - reflexivity.
  - reflexivity.
  - vm_compute. lia.
Defined.

(* ===================================================================== *)
(** * The assertions of [parseArgsCoreImplementation] *)
(* ===================================================================== *)

Lemma readArgv_text (argc : Z) (argv : list string) (index : Z) :
  keepsArgv argc argv -> 0 <= index < argc ->
  exists c rest, readArgv argv index = Done (String c rest).
Proof.
  intros [Hlength Hargs] Hindex. unfold readArgv, readAt.
  rewrite (proj2 (Z.ltb_ge _ _)) by lia.
  destruct (lookup_lt_is_Some_2 argv (Z.to_nat index)) as [arg Harg]; [lia|].
  rewrite Harg. rewrite Forall_forall in Hargs.
  destruct arg as [|c rest]; [|by eexists _, _].
  destruct (Hargs EmptyString); [|done].
  by eapply list_elem_of_lookup_2.
Qed.

Lemma getoptDiagnostic_done (argc : Z) (argv : list string)
    (previousOptInd optind returned : Z) :
  keepsArgv argc argv -> 0 <= previousOptInd < argc -> 1 <= optind <= argc ->
  exists d, getoptDiagnostic argv previousOptInd optind returned = Done d.
Proof.
  intros Hargv Hprevious Hoptind. unfold getoptDiagnostic.
  destruct (returned =? questionMark).
  { destruct (readArgv_text argc argv previousOptInd) as (c & rest & ->); [done..|].
    by eexists. }
  destruct (returned =? colon); [|by eexists].
  destruct (readArgv_text argc argv (optind - 1)) as (c & rest & ->); [done|lia|].
  by eexists.
Qed.

Lemma modifyNextArgvForNewLibc_done (newlib : bool) (argc optind : Z)
    (argv : list string) :
  1 <= argc -> Z.of_nat (length argv) = argc -> 0 <= optind <= argc ->
  exists argv', modifyNextArgvForNewLibc newlib optind argv = Done argv'.
Proof.
  intros Hargc Hlength Hoptind. unfold modifyNextArgvForNewLibc.
  destruct (getOptIsNewlib newlib); [|by eexists].
  destruct (Z.eqb_spec optind 0) as [->|Hne].
  - rewrite (proj2 (Z.ltb_ge 1 0)), (proj2 (Z.ltb_ge _ 1)) by lia. by eexists.
  - rewrite (proj2 (Z.ltb_ge optind 0)), (proj2 (Z.ltb_ge _ optind)) by lia.
    by eexists.
Qed.

(** What the loop returns of [optind] and [argv] without an error. *)
Lemma getoptLoop_range (newlib : bool) (argc : Z) (options : list DemoOption)
    (longOptions : list LongOption) (finalOptind : Z) (finalArgv : list string)
    (calls : list GetoptCall) :
  1 <= finalOptind <= argc -> keepsArgv argc finalArgv ->
  forall (optind previousOptInd : Z) (m : ArgsMemory) (argv : list string)
         (optind' : Z) (m' : ArgsMemory) (argv' : list string),
    conformingCalls argc previousOptInd calls ->
    getoptLoop newlib options longOptions optind previousOptInd m argv calls
      finalOptind finalArgv = Done (None, optind', m', argv') ->
    1 <= optind' <= argc /\ keepsArgv argc argv'.
Proof.
  intros Hfinal Hfinalargv.
  induction calls as [|call calls IH];
    intros optind previousOptInd m argv optind' m' argv' Hconforming;
    cbn [getoptLoop]; destruct (modifyNextArgvForNewLibc _ _ _); try done.
  - by intros [= <- <- <-].
  - destruct Hconforming as (Hbelow & Hnext & Hargv & Hconforming).
    destruct (getoptReturn call =? -1); [by intros [= <- <- <-]|].
    destruct (getoptLongIndex call =? -1).
    { by destruct (getoptDiagnostic _ _ _ _). }
    destruct (negb _); [done|].
    destruct (options !! Z.to_nat (getoptReturn call)) as [selected|]; [|done].
    destruct (hasArg selected); [|by apply IH].
    destruct (getoptOptarg call); [by apply IH|].
    destruct (getoptLongIndex call <? 0); [done|].
    by destruct (readAt longOptions _).
Qed.

Lemma getoptLoop_honoured (newlib : bool) (argc : Z) (options : list DemoOption)
    (finalOptind : Z) (finalArgv : list string) (calls : list GetoptCall) :
  1 <= argc ->
  forall (optind previousOptInd : Z) (m : ArgsMemory) (argv : list string),
    Forall (honoursTable (longOptionsTable options)) calls ->
    Z.of_nat (length argv) = argc -> 0 <= optind <= argc -> 0 <= previousOptInd ->
    conformingCalls argc previousOptInd calls ->
    (exists result,
       getoptLoop newlib options (longOptionsTable options) optind previousOptInd m
         argv calls finalOptind finalArgv = Done result)
    \/ (exists message,
          getoptLoop newlib options (longOptionsTable options) optind previousOptInd m
            argv calls finalOptind finalArgv = Fatal message).
Proof.
  intros Hargc.
  induction calls as [|call calls IH];
    intros optind previousOptInd m argv Hcalls Hlength Hoptind Hprevious Hconforming;
    cbn [getoptLoop];
    destruct (modifyNextArgvForNewLibc_done newlib argc optind argv) as [argv' ->];
    try done.
  - left. by eexists.
  - apply Forall_cons in Hcalls as [Hcall Hcalls].
    destruct Hconforming as (Hbelow & Hnext & Hargv & Hconforming).
    destruct (getoptReturn call =? -1); [left; by eexists|].
    destruct (getoptLongIndex call =? -1) eqn:Hindex.
    { destruct (getoptDiagnostic_done argc (getoptArgv call) previousOptInd
                  (getoptOptind call) (getoptReturn call)) as [d ->]; try done.
      left. by eexists. }
    apply Z.eqb_neq in Hindex.
    destruct Hcall as [|(Hpos & longOption & optionName & Hlookup & Hname & Hval)];
      [done|].
    destruct (longOptionsTable_val _ _ _ _ Hlookup Hname)
      as (selected & Hselected & Hnonneg & _).
    rewrite Hval, (proj2 (Z.leb_le _ _) Hnonneg), Hselected. cbn [negb].
    destruct Hargv as [Hlength' Hargs].
    destruct (hasArg selected); [|apply IH; (done || lia)].
    destruct (getoptOptarg call); [apply IH; (done || lia)|].
    rewrite (proj2 (Z.ltb_ge _ _)) by lia.
    unfold readAt. rewrite Hlookup. cbn [mbind Run_bind]. right. by eexists.
Qed.

(** X18.  For demo options that end in an entry without a name, on a
    command line of [argc] arguments, none of them empty, and with a
    [getopt_long_only] that honours the table it is given (a call that
    sets [longIndex] returns the [val] of that entry) and stays within
    [argv] (a call that does not return [-1] found [optind] below [argc],
    and every call leaves [optind] between [1] and [argc] and [argv] with
    its [argc] arguments), [parseArgs] fails none of its assertions and
    reads outside none of its arrays, [argv] included: it returns, or it
    ends through [fatal]. *)
Theorem parseArgs_keeps_its_assertions (P : CommandLinePlatform) (argc : Z)
    (argv : list string) (m : ArgsMemory) (demoSpecificOptions : list DemoOption)
    (n : nat) :
  countOptions demoSpecificOptions = Some n ->
  Z.of_nat (length (activeOptions demoSpecificOptions)) < INT_MAX ->
  Forall (honoursTable (longOptionsTable (activeOptions demoSpecificOptions)))
    (getoptCalls
       (getopt_long_only P argc argv
          (longOptionsTable (activeOptions demoSpecificOptions)))) ->
  conformingRun argc argv
    (getopt_long_only P argc argv
       (longOptionsTable (activeOptions demoSpecificOptions))) ->
  (exists parsed, parseArgs P argc argv m demoSpecificOptions = Done parsed)
  \/ (exists message, parseArgs P argc argv m demoSpecificOptions = Fatal message).
Proof.
  intros Hn Hsize Hcalls (Hargc & [Hlength Hargs] & Hconforming & Hfinal & Hfinalargv).
  pose proof (constructlongOptions_table _ Hsize) as Htable.
  rewrite (parseArgs_allocations _ _ _ _ _ _ Hn).
  destruct (calloc P (n + 9) (sizeofDemoOption P)); [|right; by eexists].
  destruct (calloc P ((n + 9) * 2 + 1) (sizeofOption P)); [|right; by eexists].
  unfold afterAllocations.
  destruct (constructlongOptions (activeOptions demoSpecificOptions) _)
    as [table|message| |]; try done.
  2:{ right. by exists message. }
  destruct Htable as (_ & _ & ->). cbn [mbind Run_bind].
  set (run := getopt_long_only P argc argv _) in *.
  set (m0 := fold_left resetOption _ _).
  destruct (getoptLoop_honoured (newlib P) argc (activeOptions demoSpecificOptions)
              (getoptFinalOptind run) (getoptFinalArgv run) (getoptCalls run) Hargc
              0 1 m0 argv Hcalls Hlength ltac:(lia) ltac:(lia) Hconforming)
    as [[[[[diagnostic optind] m1] argv1] Hloop]|[message ->]]; cbn [mbind Run_bind].
  2:{ right. by exists message. }
  rewrite Hloop. cbn [mbind Run_bind].
  left. destruct diagnostic; cbn [mbind Run_bind parsedReturnCode]; [by eexists|].
  destruct (optind <? argc) eqn:Hoptind; cbn [mbind Run_bind parsedReturnCode].
  2:{ destruct (commonBlocks _ _ _); by eexists. }
  assert (exists text, readArgv argv1 optind = Done text) as [text ->];
    [|cbn [mbind Run_bind parsedReturnCode]; by eexists].
  apply Z.ltb_lt in Hoptind.
  destruct (getoptLoop_range (newlib P) argc (activeOptions demoSpecificOptions)
              (longOptionsTable (activeOptions demoSpecificOptions))
              (getoptFinalOptind run) (getoptFinalArgv run) (getoptCalls run)
              Hfinal Hfinalargv 0 1 m0 argv optind m1 argv1 Hconforming Hloop)
    as [Hrange Hkeeps].
  destruct (readArgv_text argc argv1 optind Hkeeps) as (c & rest & ->); [lia|].
  by eexists.
Qed.

Lemma parseArgs_keeps_its_assertions_witness :
  (exists parsed,
     parseArgs (scriptedPlatform exampleCalls 5) 5 exampleArgv emptyMemory
       exampleDemoOptions = Done parsed)
  \/ (exists message,
        parseArgs (scriptedPlatform exampleCalls 5) 5 exampleArgv emptyMemory
          exampleDemoOptions = Fatal message).
Proof.
  apply (parseArgs_keeps_its_assertions (scriptedPlatform exampleCalls 5) 5
           exampleArgv emptyMemory exampleDemoOptions 2).
  - reflexivity.
  - vm_compute. reflexivity.
  - change (getoptCalls _) with exampleCalls.
    unfold exampleCalls.
    apply Forall_cons; split.
    + right. split; [vm_compute; discriminate|].
      eexists _, _. split; [vm_compute; reflexivity|]. split; reflexivity.
    + apply Forall_cons; split; [|apply Forall_nil; exact I].
      right. split; [vm_compute; discriminate|].
      eexists _, _. split; [vm_compute; reflexivity|]. split; reflexivity.
  - unfold conformingRun, keepsArgv.
    cbn [scriptedPlatform getopt_long_only getoptCalls getoptFinalOptind
         getoptFinalArgv exampleCalls conformingCalls getoptOptind getoptArgv].
    unfold keepsArgv.
    repeat split; try lia; try reflexivity; repeat constructor; discriminate.
Defined.

(* ===================================================================== *)
(** * Blank lines *)
(* ===================================================================== *)

Section BlankLines.
Context (P : Platform) (inputDistributionsType : FloatingPointVariableType).
Local Abbreviation parse := (parseChecked P inputDistributionsType).

Lemma rowTokens_blank (buffer : string) :
  allChars safeIsspace buffer = true ->
  rowTokens buffer = [] \/ rowTokens buffer = [EmptyString].
Proof.
  intros Hblank. unfold rowTokens.
  assert (forall s, allChars safeIsspace s = true ->
            someChar isNUL s = false /\ someChar isComma s = false
            /\ trimLeadingWhitespace s = EmptyString) as Hws.
  { induction s as [|c s IH]; cbn; [done|]. intros [Hc Hs]%andb_prop.
    destruct (IH Hs) as (-> & -> & ->). rewrite Hc, !orb_false_r.
    unfold isNUL, isComma. split; [|split; [|done]].
    - destruct (Ascii.eqb_spec c NUL) as [->|]; [done|done].
    - destruct (Ascii.eqb_spec c comma) as [->|]; [done|done]. }
  destruct (Hws buffer Hblank) as (Hnul & Hcomma & Htrim).
  rewrite cString_plain by done.
  destruct buffer as [|c s]; [by left|]. right.
  by rewrite (strtokAll_plain _ _ Hcomma), <- Htrim.
Qed.

Lemma ingestEntries_blank (rowCount : Z) (columns : list Column) (tokens : list string) :
  parse EmptyString = None -> (2 <= length columns)%nat ->
  tokens = [] \/ tokens = [EmptyString] ->
  exists d, ingestEntries parse rowCount 0 columns tokens = Failed d.
Proof.
  intros Hparse Hcolumns Htokens.
  destruct columns as [|c [|c' columns]]; [cbn in Hcolumns; lia..|].
  destruct Htokens as [->| ->]; [by eexists|].
  cbn [ingestEntries]. unfold ingestEntry.
  destruct c.1.
  - cbn [mbind Checked_bind]. by eexists.
  - change (shouldIgnore EmptyString) with false. cbn iota.
    rewrite Hparse. cbn [mbind Checked_bind]. by eexists.
Qed.

Lemma ingestRows_blank (rows : list (list string)) :
  forall (i : nat) (tokens : list string) (rowCount : Z) (columns : list Column),
    parse EmptyString = None -> (2 <= length columns)%nat ->
    rows !! i = Some tokens -> tokens = [] \/ tokens = [EmptyString] ->
    exists d, ingestRows parse rowCount columns rows = Failed d.
Proof.
  induction rows as [|row rows IH]; intros i tokens rowCount columns Hparse Hcolumns;
    [done|].
  intros Hlookup Htokens. cbn [ingestRows].
  destruct (rowCount >=? kCommonConstantMaxNumberOfInputSamples); [by eexists|].
  destruct i as [|i].
  - injection Hlookup as ->.
    destruct (ingestEntries_blank rowCount columns tokens) as [d ->]; try done.
    by eexists.
  - destruct (ingestEntries parse rowCount 0 columns row) as [columns'|d] eqn:Hrow;
      cbn [mbind Checked_bind]; [|by eexists].
    apply ingestEntries_length in Hrow.
    eapply IH; try done. lia.
Qed.

(** X19.  With two or more expected headers, a file with a data row of
    whitespace only (a blank line, also as the last line) is rejected,
    whatever the other rows hold: the call returns an error and leaves
    the caller's array as it was.  ([strtof] and [strtod] convert nothing
    of the empty string.) *)
Theorem blank_line_among_the_rows_is_rejected (inputFilePath : string)
    (expectedHeaders : list string) (inputDistributions : list spec_float)
    (stream header : string) (rows : list string) (i : nat) (blank : string) :
  (2 <= length expectedHeaders)%nat ->
  inputDistributionsType <> kFloatingPointVariableTypeUnknown ->
  String.eqb inputFilePath "stdin" = false ->
  fopen P inputFilePath = Some stream ->
  fgetsAll kCommonConstantMaxCharsPerLine stream = header :: rows ->
  rows !! i = Some blank -> allChars safeIsspace blank = true ->
  parse EmptyString = None ->
  exists d,
    readInputDistributionsFromCSV P inputFilePath expectedHeaders inputDistributions
      inputDistributionsType
    = Returned kCommonConstantReturnTypeError (Some d) inputDistributions.
Proof.
  intros Hn Hty Hpath Hopen Hlines Hblank Hws Hparse.
  assert (expectedHeaders <> []) as Hne by (intros ->; cbn in Hn; lia).
  rewrite (readInputDistributionsFromCSV_file P inputDistributionsType _ _ _ _ _ _
             Hne Hty Hpath Hopen Hlines).
  rewrite ingestLines_file.
  destruct (validateInputDistributionCSVHeader _ _) as [[]|d];
    cbn [mbind Checked_bind]; [|by eexists].
  destruct (ingestRows_blank (rowTokens <$> rows) i (rowTokens blank) 0
              (replicate (length expectedHeaders) (false, []))) as [d ->]; try done.
  - by rewrite length_replicate.
  - by rewrite list_lookup_fmap, Hblank.
  - by apply rowTokens_blank.
  - by eexists.
Qed.
End BlankLines.

Lemma blank_line_among_the_rows_is_rejected_witness :
  exists d,
    readInputDistributionsFromCSV (referencePlatform [("blank.csv"%string, blankLineFile)])
      "blank.csv" ["a"; "b"]%string [S754_nan; S754_nan] kFloatingPointVariableTypeDouble
    = Returned kCommonConstantReturnTypeError (Some d) [S754_nan; S754_nan].
Proof.
  apply (blank_line_among_the_rows_is_rejected
           (referencePlatform [("blank.csv"%string, blankLineFile)])
           kFloatingPointVariableTypeDouble "blank.csv" ["a"; "b"]%string
           [S754_nan; S754_nan] blankLineFile (line "a,b")
           [line "1,2"; endOfLine; line "3,4"] 1 endOfLine).
  - simpl. lia.
  - discriminate.
  - reflexivity.
  - reflexivity.
  - vm_compute. reflexivity.
  - reflexivity.
  - reflexivity.
  - reflexivity.
Defined.
